(** * TinyJS: a shallow embedding of the interpreter core

    The development follows [TinyJS.cpp]: the C library routines the code
    relies on, the lexer, the value graph ([Variable] and [VariableLink]),
    and the evaluating parser ([Interpreter]).  Every definition is
    executable; the theorems at the end are stated over these definitions. *)

From Stdlib Require Import ZArith Lia String Ascii List Bool Floats.
From Stdlib Require Import DecimalString DecimalZ.
From stdpp Require Import gmap strings.

Local Open Scope string_scope.
Local Open Scope Z_scope.

(* ================================================================== *)
(** ** Machine integers and characters *)

(** [int] is 32 bits wide and [long] 64 bits wide (LP64); a conversion
    that does not fit wraps around in two's complement. *)
Definition wrap (w x : Z) : Z := (x + 2 ^ (w - 1)) mod 2 ^ w - 2 ^ (w - 1).

Definition to_int (x : Z) : Z := wrap 32 x.

Definition INT_MIN : Z := -2147483648.
Definition INT_MAX : Z := 2147483647.
Definition LONG_MIN : Z := -9223372036854775808.
Definition LONG_MAX : Z := 9223372036854775807.

(** Plain [char] is signed: a byte above 127 converts to a negative [int]. *)
Definition char_code (c : ascii) : Z := Z.of_N (N_of_ascii c).

Definition int_of_char (c : ascii) : Z :=
  if char_code c <? 128 then char_code c else char_code c - 256.

Definition char_of_int (n : Z) : ascii := ascii_of_N (Z.to_N (n mod 256)).

Definition NUL : ascii := Ascii.zero.
Definition dquote : ascii := ascii_of_N 34.
Definition squote : ascii := ascii_of_N 39.
Definition backslash : ascii := ascii_of_N 92.
Definition ch_lf : ascii := ascii_of_N 10.
Definition ch_cr : ascii := ascii_of_N 13.
Definition ch_tab : ascii := ascii_of_N 9.
Definition ch_bel : ascii := ascii_of_N 7.

Definition str1 (c : ascii) : string := String c EmptyString.

(** [s += c] *)
Definition push_back (s : string) (c : ascii) : string := s ++ str1 c.

(** A C string stops at its first NUL. *)
Fixpoint c_str (s : string) : string :=
  match s with
  | EmptyString => EmptyString
  | String c r => if Ascii.eqb c NUL then EmptyString else String c (c_str r)
  end.

(** [s[i]], with the terminating NUL at and (in this model) after the end. *)
Definition charAt (s : string) (i : Z) : ascii :=
  if i <? 0 then NUL
  else match String.get (Z.to_nat i) s with
       | Some c => c
       | None => NUL
       end.

(** The tail of [s] from index [i]. *)
Definition string_from (s : string) (i : Z) : string :=
  String.substring (Z.to_nat i) (String.length s - Z.to_nat i) s.

(* ------------------------------------------------------------------ *)
(** *** Utils *)

Definition isWhitespace (ch : ascii) : bool :=
  Ascii.eqb ch " " || Ascii.eqb ch ch_tab || Ascii.eqb ch ch_lf || Ascii.eqb ch ch_cr.

(** [isNumeric(char)]; [isNumeric] is kept for the method of [Variable]. *)
Definition isNumericCh (ch : ascii) : bool :=
  (48 <=? int_of_char ch) && (int_of_char ch <=? 57).

Fixpoint isNumber (str : string) : bool :=
  match str with
  | EmptyString => true
  | String c r => if isNumericCh c then isNumber r else false
  end.

Definition isHexadecimal (ch : ascii) : bool :=
  ((48 <=? int_of_char ch) && (int_of_char ch <=? 57)) ||
  ((97 <=? int_of_char ch) && (int_of_char ch <=? 102)) ||
  ((65 <=? int_of_char ch) && (int_of_char ch <=? 70)).

Definition isAlpha (ch : ascii) : bool :=
  ((97 <=? int_of_char ch) && (int_of_char ch <=? 122)) ||
  ((65 <=? int_of_char ch) && (int_of_char ch <=? 90)) ||
  Ascii.eqb ch "_".

(* ------------------------------------------------------------------ *)
(** *** The C library: [sprintf], [strtol], [atoi] *)

(** [sprintf(buf, "%d", n)] and ["%ld"]. *)
Definition itoa (n : Z) : string := NilZero.string_of_int (Z.to_int n).

Definition hexDigit (n : Z) : ascii :=
  if n <? 10 then char_of_int (48 + n) else char_of_int (55 + n).

(** [sprintf(buffer, 5, "\\x%02X", nCh)] for [0 <= nCh < 256]. *)
Definition hexEscape (nCh : Z) : string :=
  String backslash (String "x" (String (hexDigit (nCh / 16)) (str1 (hexDigit (nCh mod 16))))).

Definition isspace (c : ascii) : bool :=
  Ascii.eqb c " " || ((9 <=? char_code c) && (char_code c <=? 13)).

Definition digitValue (c : ascii) : option Z :=
  let n := int_of_char c in
  if (48 <=? n) && (n <=? 57) then Some (n - 48)
  else if (97 <=? n) && (n <=? 122) then Some (n - 87)
  else if (65 <=? n) && (n <=? 90) then Some (n - 55)
  else None.

Fixpoint skipSpaces (s : string) : string :=
  match s with
  | String c r => if isspace c then skipSpaces r else s
  | EmptyString => s
  end.

(** The digits of [s] that are valid in [base], accumulated onto [acc]. *)
Fixpoint accumulate (base : Z) (s : string) (acc : Z) : Z :=
  match s with
  | EmptyString => acc
  | String c r =>
      match digitValue c with
      | Some d => if d <? base then accumulate base r (acc * base + d) else acc
      | None => acc
      end
  end.

Definition clamp_long (v : Z) : Z := Z.max LONG_MIN (Z.min LONG_MAX v).

Definition isX (c : ascii) : bool := Ascii.eqb c "x" || Ascii.eqb c "X".

(** [strtol(s, 0, base)] for [base] 0, 10 or 16: white space, a sign, the
    prefix that selects the base, the digits; the result saturates. *)
Definition strtol (s : string) (base : Z) : Z :=
  let s1 := skipSpaces s in
  let '(neg, s2) :=
    match s1 with
    | String c r =>
        if Ascii.eqb c "-" then (true, r)
        else if Ascii.eqb c "+" then (false, r) else (false, s1)
    | EmptyString => (false, s1)
    end in
  let '(b, s3) :=
    match s2 with
    | String z (String x (String h r)) =>
        if Ascii.eqb z "0" && isX x && isHexadecimal h && ((base =? 0) || (base =? 16))
        then (16, String h r)
        else if base =? 0 then (if Ascii.eqb z "0" then 8 else 10, s2) else (base, s2)
    | String z _ =>
        if base =? 0 then (if Ascii.eqb z "0" then 8 else 10, s2) else (base, s2)
    | EmptyString => (if base =? 0 then 10 else base, s2)
    end in
  let v := accumulate b s3 0 in
  clamp_long (if neg : bool then - v else v).

(** [atoi(s)], that is [(int) strtol(s, 0, 10)]. *)
Definition atoi (s : string) : Z := to_int (strtol s 10).

(* ------------------------------------------------------------------ *)
(** *** Doubles: conversions, [strtod] and [sprintf("%f")]

    A [double] is an IEEE 754 binary64 number, that is Rocq's primitive
    [float]; roundings are to nearest, ties to even. *)

(** [(double) n] for a [long] [n]. *)
Definition double_of_long (n : Z) : float :=
  SF2Prim (binary_normalize prec emax n 0 false).

(** [(int) d]: truncation toward zero.  A value that does not fit is
    undefined in C++; the model gives what [cvttsd2si] gives, [INT_MIN]. *)
Definition int_of_double (d : float) : Z :=
  match Prim2SF d with
  | S754_zero _ => 0
  | S754_finite s m e =>
      let a := if 0 <=? e then Z.pos m * 2 ^ e else Z.pos m / 2 ^ (- e) in
      let v := if s then - a else a in
      if (INT_MIN <=? v) && (v <=? INT_MAX) then v else INT_MIN
  | _ => INT_MIN
  end.

(** The double nearest to [num / den], for [0 <= num] and [0 < den]. *)
Definition double_of_ratio (neg : bool) (num den : Z) : float :=
  if num =? 0 then (if neg then neg_zero else PrimFloat.zero)
  else
    let s := Z.max 0 (64 + Z.log2 den - Z.log2 num) in
    let '(q, r) := Z.div_eucl (num * 2 ^ s) den in
    SF2Prim (binary_round_aux prec emax neg q (- s) (new_location den r)).

(** The double nearest to [m * base ^ e] where [m] has at most [nd] digits
    in a radix that is at most 16. *)
Definition double_of_scaled (neg : bool) (base m e nd : Z) : float :=
  if m =? 0 then (if neg then neg_zero else PrimFloat.zero)
  else if 1100 <? e then (if neg then neg_infinity else infinity)
  else if e + nd <? -1100 then (if neg then neg_zero else PrimFloat.zero)
  else if 0 <=? e then double_of_ratio neg (m * base ^ e) 1
  else double_of_ratio neg m (base ^ (- e)).

(** The leading digits of [s] in [base]: their value onto [acc], their
    number onto [n], and the rest of [s]. *)
Fixpoint takeDigits (base : Z) (s : string) (acc n : Z) : Z * Z * string :=
  match s with
  | EmptyString => (acc, n, s)
  | String c r =>
      match digitValue c with
      | Some d => if d <? base then takeDigits base r (acc * base + d) (n + 1)
                  else (acc, n, s)
      | None => (acc, n, s)
      end
  end.

Definition lower (c : ascii) : ascii :=
  if (65 <=? int_of_char c) && (int_of_char c <=? 90) then char_of_int (int_of_char c + 32) else c.

Fixpoint prefix_ci (p s : string) : bool :=
  match p, s with
  | EmptyString, _ => true
  | String a p', String b s' => Ascii.eqb a (lower b) && prefix_ci p' s'
  | _, _ => false
  end.

(** An optional exponent: the marker, an optional sign, at least one digit. *)
Definition takeExponent (mark : ascii) (s : string) : Z :=
  match s with
  | String c r =>
      if Ascii.eqb (lower c) mark then
        let '(neg, r') :=
          match r with
          | String sg r1 =>
              if Ascii.eqb sg "-" then (true, r1)
              else if Ascii.eqb sg "+" then (false, r1) else (false, r)
          | EmptyString => (false, r)
          end in
        let '(v, n, _) := takeDigits 10 r' 0 0 in
        if n =? 0 then 0 else if neg : bool then - v else v
      else 0
  | EmptyString => 0
  end.

(** [strtod(s, 0)]. *)
Definition strtod (s : string) : float :=
  let s1 := skipSpaces s in
  let '(neg, s2) :=
    match s1 with
    | String c r =>
        if Ascii.eqb c "-" then (true, r)
        else if Ascii.eqb c "+" then (false, r) else (false, s1)
    | EmptyString => (false, s1)
    end in
  if prefix_ci "inf" s2 then (if neg then neg_infinity else infinity)
  else if prefix_ci "nan" s2 then nan
  else
    let hex :=
      match s2 with
      | String z (String x r) =>
          if Ascii.eqb z "0" && isX x then
            match r with
            | String h r' =>
                if isHexadecimal h then Some r
                else if Ascii.eqb h "." then
                  match r' with
                  | String h' _ => if isHexadecimal h' then Some r else None
                  | EmptyString => None
                  end
                else None
            | EmptyString => None
            end
          else None
      | _ => None
      end in
    match hex with
    | Some r =>
        let '(ip, ni, s3) := takeDigits 16 r 0 0 in
        let '(m, nf, s4) :=
          match s3 with
          | String c r' => if Ascii.eqb c "." then takeDigits 16 r' ip 0 else (ip, 0, s3)
          | EmptyString => (ip, 0, s3)
          end in
        double_of_scaled neg 2 m (takeExponent "p" s4 - 4 * nf) (4 * (ni + nf))
    | None =>
        let '(ip, ni, s3) := takeDigits 10 s2 0 0 in
        let '(m, nf, s4) :=
          match s3 with
          | String c r' => if Ascii.eqb c "." then takeDigits 10 r' ip 0 else (ip, 0, s3)
          | EmptyString => (ip, 0, s3)
          end in
        if ni + nf =? 0 then PrimFloat.zero
        else double_of_scaled neg 10 m (takeExponent "e" s4 - nf) (ni + nf)
    end.

(** [num / den] rounded to the nearest integer, ties to even. *)
Definition round_half_even (num den : Z) : Z :=
  let q := num / den in
  let r := num mod den in
  match 2 * r ?= den with
  | Lt => q
  | Gt => q + 1
  | Eq => if Z.even q then q else q + 1
  end.

Definition pad6 (n : Z) : string :=
  let s := itoa n in
  String.substring 0 (6 - String.length s) "000000" ++ s.

Definition take_chars (n : nat) (s : string) : string := String.substring 0 n s.

(** [sprintf(buffer, 32, "%f", d)]: six decimals, at most 31 characters.
    The sign the C library prints before [nan] is not modelled. *)
Definition format_f (d : float) : string :=
  let sgn (s : bool) := if s then "-" else EmptyString in
  let text :=
    match Prim2SF d with
    | S754_nan => "nan"
    | S754_infinity s => sgn s ++ "inf"
    | S754_zero s => sgn s ++ "0.000000"
    | S754_finite s m e =>
        let n := if 0 <=? e then Z.pos m * 1000000 * 2 ^ e
                 else round_half_even (Z.pos m * 1000000) (2 ^ (- e)) in
        sgn s ++ itoa (n / 1000000) ++ "." ++ pad6 (n mod 1000000)
    end in
  take_chars 31 text.

(* ================================================================== *)
(** ** Outcomes

    A call returns, or throws an [Exception] carrying a text, or runs into
    behaviour that C++ leaves undefined.  [OutOfFuel] belongs to the model
    only: the evaluator recurses on a fuel argument. *)

Inductive fault : Type :=
| DivisionByZero    (* integer [/] or [%] with a zero divisor *)
| NullDereference   (* [p->...] on a null pointer *)
| BadPointer        (* an address that holds no object *)
| AssertFailed.     (* [ASSERT(0)] *)

Inductive outcome (A : Type) : Type :=
| Ok (a : A)
| Throw (text : string)
| Crash (why : fault)
| OutOfFuel.

Arguments Ok {A} a.
Arguments Throw {A} text.
Arguments Crash {A} why.
Arguments OutOfFuel {A}.

(* ================================================================== *)
(** ** LEXER *)

Definition LEXER_EOF : Z := 0.
Definition LEXER_ID : Z := 256.
Definition LEXER_INT : Z := 257.
Definition LEXER_FLOAT : Z := 258.
Definition LEXER_STR : Z := 259.
Definition LEXER_EQUAL : Z := 260.
Definition LEXER_TYPEEQUAL : Z := 261.
Definition LEXER_NEQUAL : Z := 262.
Definition LEXER_NTYPEEQUAL : Z := 263.
Definition LEXER_LEQUAL : Z := 264.
Definition LEXER_LSHIFT : Z := 265.
Definition LEXER_LSHIFTEQUAL : Z := 266.
Definition LEXER_GEQUAL : Z := 267.
Definition LEXER_RSHIFT : Z := 268.
Definition LEXER_RSHIFTUNSIGNED : Z := 269.
Definition LEXER_RSHIFTEQUAL : Z := 270.
Definition LEXER_PLUSEQUAL : Z := 271.
Definition LEXER_MINUSEQUAL : Z := 272.
Definition LEXER_PLUSPLUS : Z := 273.
Definition LEXER_MINUSMINUS : Z := 274.
Definition LEXER_ANDEQUAL : Z := 275.
Definition LEXER_ANDAND : Z := 276.
Definition LEXER_OREQUAL : Z := 277.
Definition LEXER_OROR : Z := 278.
Definition LEXER_XOREQUAL : Z := 279.
Definition LEXER_RESERVED_IF : Z := 280.
Definition LEXER_RESERVED_ELSE : Z := 281.
Definition LEXER_RESERVED_DO : Z := 282.
Definition LEXER_RESERVED_WHILE : Z := 283.
Definition LEXER_RESERVED_FOR : Z := 284.
Definition LEXER_RESERVED_BREAK : Z := 285.
Definition LEXER_RESERVED_CONTINUE : Z := 286.
Definition LEXER_RESERVED_FUNCTION : Z := 287.
Definition LEXER_RESERVED_RETURN : Z := 288.
Definition LEXER_RESERVED_VAR : Z := 289.
Definition LEXER_RESERVED_TRUE : Z := 290.
Definition LEXER_RESERVED_FALSE : Z := 291.
Definition LEXER_RESERVED_NULL : Z := 292.
Definition LEXER_RESERVED_UNDEFINED : Z := 293.
Definition LEXER_RESERVED_NEW : Z := 294.

Definition TINYJS_LOOP_MAX_ITERATIONS : Z := 8192.

(** The token code of a single character, ['+'] and the like. *)
Definition tok (c : ascii) : Z := int_of_char c.

(** The lexer.  [data] is the whole buffer: a sub-lexer shares the buffer
    of its owner and reads the window from [dataStart] to [dataEnd]. *)
Record Lexer : Type := mkLexer {
  currCh : ascii;
  nextCh : ascii;
  tk : Z;
  tokenStart : Z;
  tokenEnd : Z;
  tokenLastEnd : Z;
  tkStr : string;
  data : string;
  dataStart : Z;
  dataEnd : Z;
  dataOwned : bool;
  dataPos : Z
}.

Definition set_tk (t : Z) (l : Lexer) : Lexer :=
  mkLexer (currCh l) (nextCh l) t (tokenStart l) (tokenEnd l) (tokenLastEnd l)
          (tkStr l) (data l) (dataStart l) (dataEnd l) (dataOwned l) (dataPos l).

Definition set_tkStr (s : string) (l : Lexer) : Lexer :=
  mkLexer (currCh l) (nextCh l) (tk l) (tokenStart l) (tokenEnd l) (tokenLastEnd l)
          s (data l) (dataStart l) (dataEnd l) (dataOwned l) (dataPos l).

Definition set_tokenStart (p : Z) (l : Lexer) : Lexer :=
  mkLexer (currCh l) (nextCh l) (tk l) p (tokenEnd l) (tokenLastEnd l)
          (tkStr l) (data l) (dataStart l) (dataEnd l) (dataOwned l) (dataPos l).

(** [tkStr += c] *)
Definition addCh (c : ascii) (l : Lexer) : Lexer := set_tkStr (push_back (tkStr l) c) l.

Definition getNextCh (l : Lexer) : Lexer :=
  mkLexer (nextCh l)
          (if dataPos l <? dataEnd l then charAt (data l) (dataPos l) else NUL)
          (tk l) (tokenStart l) (tokenEnd l) (tokenLastEnd l)
          (tkStr l) (data l) (dataStart l) (dataEnd l) (dataOwned l) (dataPos l + 1).

Definition nonzero (c : ascii) : bool := negb (Ascii.eqb c NUL).

(** [while (cond) body;] over the lexer.  Every loop of the lexer stops at
    the NUL that follows the window, so the number of characters left
    bounds the number of rounds: [lexFuel]. *)
Fixpoint lex_while (n : nat) (cond : Lexer -> bool) (body : Lexer -> Lexer)
         (l : Lexer) : Lexer :=
  match n with
  | O => l
  | S n' => if cond l then lex_while n' cond body (body l) else l
  end.

Definition lexFuel (l : Lexer) : nat := Z.to_nat (dataEnd l - dataPos l + 3).

Definition while_ch (cond : Lexer -> bool) (body : Lexer -> Lexer) (l : Lexer) : Lexer :=
  lex_while (lexFuel l) cond body l.

Definition reservedWord (s : string) : Z :=
  if String.eqb s "if" then LEXER_RESERVED_IF
  else if String.eqb s "else" then LEXER_RESERVED_ELSE
  else if String.eqb s "do" then LEXER_RESERVED_DO
  else if String.eqb s "while" then LEXER_RESERVED_WHILE
  else if String.eqb s "for" then LEXER_RESERVED_FOR
  else if String.eqb s "break" then LEXER_RESERVED_BREAK
  else if String.eqb s "continue" then LEXER_RESERVED_CONTINUE
  else if String.eqb s "function" then LEXER_RESERVED_FUNCTION
  else if String.eqb s "return" then LEXER_RESERVED_RETURN
  else if String.eqb s "var" then LEXER_RESERVED_VAR
  else if String.eqb s "true" then LEXER_RESERVED_TRUE
  else if String.eqb s "false" then LEXER_RESERVED_FALSE
  else if String.eqb s "null" then LEXER_RESERVED_NULL
  else if String.eqb s "undefined" then LEXER_RESERVED_UNDEFINED
  else if String.eqb s "new" then LEXER_RESERVED_NEW
  else LEXER_ID.

(** The body of the loop over a string delimited by double quotes. *)
Definition dqStringStep (l : Lexer) : Lexer :=
  let l :=
    if Ascii.eqb (currCh l) backslash then
      let l := getNextCh l in
      if Ascii.eqb (currCh l) "n" then addCh ch_lf l
      else if Ascii.eqb (currCh l) dquote then addCh dquote l
      else if Ascii.eqb (currCh l) backslash then addCh backslash l
      else addCh (currCh l) l
    else addCh (currCh l) l in
  getNextCh l.

(** The body of the loop over a string delimited by single quotes. *)
Definition sqStringStep (l : Lexer) : Lexer :=
  let l :=
    if Ascii.eqb (currCh l) backslash then
      let l := getNextCh l in
      if Ascii.eqb (currCh l) "n" then addCh ch_lf l
      else if Ascii.eqb (currCh l) "a" then addCh ch_bel l
      else if Ascii.eqb (currCh l) "r" then addCh ch_cr l
      else if Ascii.eqb (currCh l) "t" then addCh ch_tab l
      else if Ascii.eqb (currCh l) squote then addCh squote l
      else if Ascii.eqb (currCh l) backslash then addCh backslash l
      else if Ascii.eqb (currCh l) "x" then
        let l := getNextCh l in
        let b0 := currCh l in
        let l := getNextCh l in
        let b1 := currCh l in
        addCh (char_of_int (strtol (c_str (String b0 (str1 b1))) 16)) l
      else if (48 <=? int_of_char (currCh l)) && (int_of_char (currCh l) <=? 55) then
        let b0 := currCh l in
        let l := getNextCh l in
        let b1 := currCh l in
        let l := getNextCh l in
        let b2 := currCh l in
        addCh (char_of_int (strtol (c_str (String b0 (String b1 (str1 b2)))) 8)) l
      else addCh (currCh l) l
    else addCh (currCh l) l in
  getNextCh l.

(** The token so far is the character [t] and the next character is [c]. *)
Definition sees (l : Lexer) (t c : ascii) : bool :=
  (tk l =? tok t) && Ascii.eqb (currCh l) c.

(** One or more characters of punctuation. *)
Definition scanPunctuation (l : Lexer) : Lexer :=
  let l := set_tk (int_of_char (currCh l)) l in
  let l := if nonzero (currCh l) then getNextCh l else l in
  if sees l "=" "=" then
    let l := getNextCh (set_tk LEXER_EQUAL l) in
    if Ascii.eqb (currCh l) "=" then getNextCh (set_tk LEXER_TYPEEQUAL l) else l
  else if sees l "!" "=" then
    let l := getNextCh (set_tk LEXER_NEQUAL l) in
    if Ascii.eqb (currCh l) "=" then getNextCh (set_tk LEXER_NTYPEEQUAL l) else l
  else if sees l "<" "=" then getNextCh (set_tk LEXER_LEQUAL l)
  else if sees l "<" "<" then
    let l := getNextCh (set_tk LEXER_LSHIFT l) in
    if Ascii.eqb (currCh l) "=" then getNextCh (set_tk LEXER_LSHIFTEQUAL l) else l
  else if sees l ">" "=" then getNextCh (set_tk LEXER_GEQUAL l)
  else if sees l ">" ">" then
    let l := getNextCh (set_tk LEXER_RSHIFT l) in
    if Ascii.eqb (currCh l) "=" then getNextCh (set_tk LEXER_RSHIFTEQUAL l)
    else if Ascii.eqb (currCh l) ">" then getNextCh (set_tk LEXER_RSHIFTUNSIGNED l)
    else l
  else if sees l "+" "=" then getNextCh (set_tk LEXER_PLUSEQUAL l)
  else if sees l "-" "=" then getNextCh (set_tk LEXER_MINUSEQUAL l)
  else if sees l "+" "+" then getNextCh (set_tk LEXER_PLUSPLUS l)
  else if sees l "-" "-" then getNextCh (set_tk LEXER_MINUSMINUS l)
  else if sees l "&" "=" then getNextCh (set_tk LEXER_ANDEQUAL l)
  else if sees l "&" "&" then getNextCh (set_tk LEXER_ANDAND l)
  else if sees l "|" "=" then getNextCh (set_tk LEXER_OREQUAL l)
  else if sees l "|" "|" then getNextCh (set_tk LEXER_OROR l)
  else if sees l "^" "=" then getNextCh (set_tk LEXER_XOREQUAL l)
  else l.

(** A number: an optional leading [0], an optional [x], digits, and for a
    number that is not hexadecimal a fraction and an exponent. *)
Definition scanNumber (l : Lexer) : Lexer :=
  let l := if Ascii.eqb (currCh l) "0" then getNextCh (addCh (currCh l) l) else l in
  let isHex := Ascii.eqb (currCh l) "x" in
  let l := if isHex then getNextCh (addCh (currCh l) l) else l in
  let l := set_tk LEXER_INT l in
  let l := while_ch (fun l => isNumericCh (currCh l) || (isHex && isHexadecimal (currCh l)))
                    (fun l => getNextCh (addCh (currCh l) l)) l in
  let l :=
    if negb isHex && Ascii.eqb (currCh l) "." then
      let l := getNextCh (addCh "." (set_tk LEXER_FLOAT l)) in
      while_ch (fun l => isNumericCh (currCh l)) (fun l => getNextCh (addCh (currCh l) l)) l
    else l in
  if negb isHex && (Ascii.eqb (currCh l) "e" || Ascii.eqb (currCh l) "E") then
    let l := getNextCh (addCh (currCh l) (set_tk LEXER_FLOAT l)) in
    let l := if Ascii.eqb (currCh l) "-" then getNextCh (addCh (currCh l) l) else l in
    while_ch (fun l => isNumericCh (currCh l)) (fun l => getNextCh (addCh (currCh l) l)) l
  else l.

(** The token that starts at [currCh], which is neither white space nor
    the start of a comment. *)
Definition scanToken (l : Lexer) : Lexer :=
  let l := set_tokenStart (dataPos l - 2) l in
  let l :=
    if isAlpha (currCh l) then
      let l := while_ch (fun l => isAlpha (currCh l) || isNumericCh (currCh l))
                        (fun l => getNextCh (addCh (currCh l) l)) l in
      set_tk (reservedWord (tkStr l)) l
    else if isNumericCh (currCh l) then scanNumber l
    else if Ascii.eqb (currCh l) dquote then
      let l := getNextCh l in
      let l := while_ch (fun l => nonzero (currCh l) && negb (Ascii.eqb (currCh l) dquote))
                        dqStringStep l in
      set_tk LEXER_STR (getNextCh l)
    else if Ascii.eqb (currCh l) squote then
      let l := getNextCh l in
      let l := while_ch (fun l => nonzero (currCh l) && negb (Ascii.eqb (currCh l) squote))
                        sqStringStep l in
      set_tk LEXER_STR (getNextCh l)
    else scanPunctuation l in
  mkLexer (currCh l) (nextCh l) (tk l) (tokenStart l) (dataPos l - 3) (tokenEnd l)
          (tkStr l) (data l) (dataStart l) (dataEnd l) (dataOwned l) (dataPos l).

(** [Lexer::getNextToken]; [n] bounds the calls the function makes to
    itself, one for each comment it skips. *)
Fixpoint getNextToken_rec (n : nat) (l : Lexer) : Lexer :=
  let l := set_tkStr EmptyString (set_tk LEXER_EOF l) in
  let l := while_ch (fun l => nonzero (currCh l) && isWhitespace (currCh l)) getNextCh l in
  if Ascii.eqb (currCh l) "/" && Ascii.eqb (nextCh l) "/" then
    let l := while_ch (fun l => nonzero (currCh l) && negb (Ascii.eqb (currCh l) ch_lf))
                      getNextCh l in
    let l := getNextCh l in
    match n with
    | O => l
    | S n' => getNextToken_rec n' l
    end
  else if Ascii.eqb (currCh l) "/" && Ascii.eqb (nextCh l) "*" then
    let l := while_ch (fun l => nonzero (currCh l) &&
                                (negb (Ascii.eqb (currCh l) "*") || negb (Ascii.eqb (nextCh l) "/")))
                      getNextCh l in
    let l := getNextCh (getNextCh l) in
    match n with
    | O => l
    | S n' => getNextToken_rec n' l
    end
  else scanToken l.

Definition getNextToken (l : Lexer) : Lexer := getNextToken_rec (lexFuel l) l.

Definition reset (l : Lexer) : Lexer :=
  let l := mkLexer (currCh l) (nextCh l) 0 0 0 0 EmptyString
                   (data l) (dataStart l) (dataEnd l) (dataOwned l) (dataStart l) in
  getNextToken (getNextCh (getNextCh l)).

(** [Lexer::Lexer(const std::string &input)] *)
Definition Lexer_new (input : string) : Lexer :=
  let d := c_str input in
  reset (mkLexer NUL NUL 0 0 0 0 EmptyString d 0 (Z.of_nat (String.length d)) true 0).

(** [Lexer::Lexer(Lexer *owner, int startChar, int endChar)] *)
Definition Lexer_sub (owner : Lexer) (startChar endChar : Z) : Lexer :=
  reset (mkLexer NUL NUL 0 0 0 0 EmptyString (data owner) startChar endChar false 0).

Definition getTokenStr (token : Z) : string :=
  if (32 <? token) && (token <? 128) then String squote (String (char_of_int token) (str1 squote))
  else if token =? LEXER_EOF then "EOF"
  else if token =? LEXER_ID then "ID"
  else if token =? LEXER_INT then "INT"
  else if token =? LEXER_FLOAT then "FLOAT"
  else if token =? LEXER_STR then "STRING"
  else if token =? LEXER_EQUAL then "=="
  else if token =? LEXER_TYPEEQUAL then "==="
  else if token =? LEXER_NEQUAL then "!="
  else if token =? LEXER_NTYPEEQUAL then "!=="
  else if token =? LEXER_LEQUAL then "<="
  else if token =? LEXER_LSHIFT then "<<"
  else if token =? LEXER_LSHIFTEQUAL then "<<="
  else if token =? LEXER_GEQUAL then ">="
  else if token =? LEXER_RSHIFT then ">>"
  else if token =? LEXER_RSHIFTUNSIGNED then ">>"
  else if token =? LEXER_RSHIFTEQUAL then ">>="
  else if token =? LEXER_PLUSEQUAL then "+="
  else if token =? LEXER_MINUSEQUAL then "-="
  else if token =? LEXER_PLUSPLUS then "++"
  else if token =? LEXER_MINUSMINUS then "--"
  else if token =? LEXER_ANDEQUAL then "&="
  else if token =? LEXER_ANDAND then "&&"
  else if token =? LEXER_OREQUAL then "|="
  else if token =? LEXER_OROR then "||"
  else if token =? LEXER_XOREQUAL then "^="
  else if token =? LEXER_RESERVED_IF then "if"
  else if token =? LEXER_RESERVED_ELSE then "else"
  else if token =? LEXER_RESERVED_DO then "do"
  else if token =? LEXER_RESERVED_WHILE then "while"
  else if token =? LEXER_RESERVED_FOR then "for"
  else if token =? LEXER_RESERVED_BREAK then "break"
  else if token =? LEXER_RESERVED_CONTINUE then "continue"
  else if token =? LEXER_RESERVED_FUNCTION then "function"
  else if token =? LEXER_RESERVED_RETURN then "return"
  else if token =? LEXER_RESERVED_VAR then "var"
  else if token =? LEXER_RESERVED_TRUE then "true"
  else if token =? LEXER_RESERVED_FALSE then "false"
  else if token =? LEXER_RESERVED_NULL then "null"
  else if token =? LEXER_RESERVED_UNDEFINED then "undefined"
  else if token =? LEXER_RESERVED_NEW then "new"
  else "?[" ++ itoa token ++ "]".

(** The loop of [Lexer::getPosition] over the characters before [pos]. *)
Fixpoint countPosition (l : Lexer) (n : nat) (i line col : Z) : Z * Z :=
  match n with
  | O => (line, col)
  | S n' =>
      let ch := if i <? dataEnd l then charAt (data l) i else NUL in
      let col := col + 1 in
      if Ascii.eqb ch ch_lf then countPosition l n' (i + 1) (line + 1) 0
      else countPosition l n' (i + 1) line col
  end.

Definition getPosition (l : Lexer) (pos : Z) : string :=
  let pos := if pos <? 0 then tokenLastEnd l else pos in
  let '(line, col) := countPosition l (Z.to_nat pos) 0 1 1 in
  "(line: " ++ itoa line ++ ", col: " ++ itoa col ++ ")".

(** [Lexer::match]; named [lmatch] since [match] is a keyword. *)
Definition lmatch (l : Lexer) (expected_tk : Z) : outcome Lexer :=
  if negb (tk l =? expected_tk) then
    Throw ("Got " ++ getTokenStr (tk l) ++ " expected " ++ getTokenStr expected_tk
           ++ " at " ++ getPosition l (tokenStart l))
  else Ok (getNextToken l).

(** [Lexer::getSubString]: the text from [lastPosition] to the end of the
    token before the current one, read as a C string. *)
Definition getSubString (l : Lexer) (lastPosition : Z) : string :=
  let lastCharIdx := tokenLastEnd l + 1 in
  if (lastCharIdx <? dataEnd l) && (lastPosition <=? lastCharIdx) then
    String.substring (Z.to_nat lastPosition) (Z.to_nat (lastCharIdx - lastPosition)) (data l)
  else string_from (data l) lastPosition.

Definition getSubLex (l : Lexer) (lastPosition : Z) : Lexer :=
  let lastCharIdx := tokenLastEnd l + 1 in
  if lastCharIdx <? dataEnd l then Lexer_sub l lastPosition lastCharIdx
  else Lexer_sub l lastPosition (dataEnd l).

(* ================================================================== *)
(** ** State and outcome

    A computation over a state [S] returns an outcome and the state it
    leaves behind; the state survives a throw. *)

Definition SO (S A : Type) : Type := S -> outcome A * S.

Definition ret {S A : Type} (a : A) : SO S A := fun s => (Ok a, s).

Definition bind {S A B : Type} (m : SO S A) (k : A -> SO S B) : SO S B :=
  fun s =>
    match m s with
    | (Ok a, s') => k a s'
    | (Throw t, s') => (Throw t, s')
    | (Crash w, s') => (Crash w, s')
    | (OutOfFuel, s') => (OutOfFuel, s')
    end.

Definition throw {S A : Type} (text : string) : SO S A := fun s => (Throw text, s).
Definition crash {S A : Type} (why : fault) : SO S A := fun s => (Crash why, s).
Definition outOfFuel {S A : Type} : SO S A := fun s => (OutOfFuel, s).
Definition get_state {S : Type} : SO S S := fun s => (Ok s, s).
Definition put_state {S : Type} (s : S) : SO S unit := fun _ => (Ok tt, s).

Notation "'let*' x ':=' c1 'in' c2" := (bind c1 (fun x => c2))
  (at level 10, x pattern, c1 at level 100, c2 at level 200).

(** [p->...] on a pointer that may be null. *)
Definition deref {S A : Type} (p : option A) : SO S A :=
  match p with
  | Some a => ret a
  | None => crash NullDereference
  end.

(* ================================================================== *)
(** ** VARIABLE and VARIABLELINK *)

Definition VARIABLE_UNDEFINED : Z := 0.
Definition VARIABLE_FUNCTION : Z := 1.
Definition VARIABLE_OBJECT : Z := 2.
Definition VARIABLE_ARRAY : Z := 4.
Definition VARIABLE_DOUBLE : Z := 8.
Definition VARIABLE_INTEGER : Z := 16.
Definition VARIABLE_STRING : Z := 32.
Definition VARIABLE_NULL : Z := 64.
Definition VARIABLE_NATIVE : Z := 128.
Definition VARIABLE_NUMERICMASK : Z :=
  Z.lor VARIABLE_NULL (Z.lor VARIABLE_DOUBLE VARIABLE_INTEGER).
Definition VARIABLE_TYPEMASK : Z :=
  Z.lor VARIABLE_DOUBLE (Z.lor VARIABLE_INTEGER (Z.lor VARIABLE_STRING
    (Z.lor VARIABLE_FUNCTION (Z.lor VARIABLE_OBJECT (Z.lor VARIABLE_ARRAY VARIABLE_NULL))))).

Definition TINYJS_RETURN_VAR : string := "return".
Definition TINYJS_PROTOTYPE_CLASS : string := "prototype".
Definition TINYJS_TEMP_NAME : string := EmptyString.
Definition TINYJS_BLANK_DATA : string := EmptyString.

(** Objects live in a heap and are named by their address.  Memory is never
    reclaimed in this model, so reference counts ([refs], [ref], [unref])
    and the [delete]s of the source have no counterpart here. *)
Abbreviation addr := positive (only parsing).

(** [class VariableLink].  The sibling pointers are kept by the parent, as
    the order of its [children]. *)
Record VariableLink : Type := mkLink {
  name : string;
  var : addr;
  owned : bool
}.

(** [class Variable] ([Variable] is a reserved word here).  [children] is
    the chain from [firstChild] to [lastChild]; [stringData] is the field
    the source file calls [data]. *)
Record Value : Type := mkValue {
  children : list addr;
  stringData : string;
  intData : Z;
  doubleData : float;
  flags : Z;
  jsCallback : option N;
  jsCallbackUserData : N
}.

Record Heap : Type := mkHeap {
  vars : gmap positive Value;
  links : gmap positive VariableLink;
  nextAddr : positive
}.

Definition emptyHeap : Heap := mkHeap ∅ ∅ 1%positive.

Definition H (A : Type) : Type := SO Heap A.

Definition alloc (v : Value) : H addr :=
  fun h => (Ok (nextAddr h),
            mkHeap (<[nextAddr h := v]> (vars h)) (links h) (Pos.succ (nextAddr h))).

Definition alloc_link (l : VariableLink) : H addr :=
  fun h => (Ok (nextAddr h),
            mkHeap (vars h) (<[nextAddr h := l]> (links h)) (Pos.succ (nextAddr h))).

Definition load (a : addr) : H Value :=
  fun h => match vars h !! a with
           | Some v => (Ok v, h)
           | None => (Crash BadPointer, h)
           end.

Definition store (a : addr) (v : Value) : H unit :=
  fun h => (Ok tt, mkHeap (<[a := v]> (vars h)) (links h) (nextAddr h)).

Definition load_link (a : addr) : H VariableLink :=
  fun h => match links h !! a with
           | Some l => (Ok l, h)
           | None => (Crash BadPointer, h)
           end.

Definition store_link (a : addr) (l : VariableLink) : H unit :=
  fun h => (Ok tt, mkHeap (vars h) (<[a := l]> (links h)) (nextAddr h)).

(* ------------------------------------------------------------------ *)
(** *** The fields of a [Variable] *)

Definition hasFlag (v : Value) (f : Z) : bool := negb (Z.land (flags v) f =? 0).

Definition isInt (v : Value) : bool := hasFlag v VARIABLE_INTEGER.
Definition isDouble (v : Value) : bool := hasFlag v VARIABLE_DOUBLE.
Definition isString (v : Value) : bool := hasFlag v VARIABLE_STRING.
Definition isNumeric (v : Value) : bool := hasFlag v VARIABLE_NUMERICMASK.
Definition isFunction (v : Value) : bool := hasFlag v VARIABLE_FUNCTION.
Definition isObject (v : Value) : bool := hasFlag v VARIABLE_OBJECT.
Definition isArray (v : Value) : bool := hasFlag v VARIABLE_ARRAY.
Definition isNative (v : Value) : bool := hasFlag v VARIABLE_NATIVE.
Definition isUndefined (v : Value) : bool :=
  Z.land (flags v) VARIABLE_TYPEMASK =? VARIABLE_UNDEFINED.
Definition isNull (v : Value) : bool := hasFlag v VARIABLE_NULL.
Definition isBasic (v : Value) : bool :=
  match children v with
  | [] => true
  | _ => false
  end.

(** [Variable::init] *)
Definition init : Value :=
  mkValue [] TINYJS_BLANK_DATA 0 PrimFloat.zero 0 None 0%N.

Definition set_flags (f : Z) (v : Value) : Value :=
  mkValue (children v) (stringData v) (intData v) (doubleData v) f
          (jsCallback v) (jsCallbackUserData v).

Definition set_children (c : list addr) (v : Value) : Value :=
  mkValue c (stringData v) (intData v) (doubleData v) (flags v)
          (jsCallback v) (jsCallbackUserData v).

Definition set_stringData (s : string) (v : Value) : Value :=
  mkValue (children v) s (intData v) (doubleData v) (flags v)
          (jsCallback v) (jsCallbackUserData v).

(** [(flags & ~VARIABLE_TYPEMASK) | t] *)
Definition retag (t : Z) (f : Z) : Z := Z.lor (Z.land f (Z.lnot VARIABLE_TYPEMASK)) t.

Definition getInt (v : Value) : Z :=
  if isInt v then to_int (intData v)
  else if isNull v then 0
  else if isUndefined v then 0
  else if isDouble v then int_of_double (doubleData v)
  else 0.

Definition getBool (v : Value) : bool := negb (getInt v =? 0).

Definition getDouble (v : Value) : float :=
  if isDouble v then doubleData v
  else if isInt v then double_of_long (intData v)
  else if isNull v then PrimFloat.zero
  else if isUndefined v then PrimFloat.zero
  else PrimFloat.zero.

(** [Variable::setInt(int val)]: the argument arrives as an [int]. *)
Definition setInt (val : Z) (v : Value) : Value :=
  mkValue (children v) TINYJS_BLANK_DATA (to_int val) PrimFloat.zero
          (retag VARIABLE_INTEGER (flags v)) (jsCallback v) (jsCallbackUserData v).

Definition setDouble (val : float) (v : Value) : Value :=
  mkValue (children v) TINYJS_BLANK_DATA 0 val
          (retag VARIABLE_DOUBLE (flags v)) (jsCallback v) (jsCallbackUserData v).

Definition setString (str : string) (v : Value) : Value :=
  mkValue (children v) str 0 PrimFloat.zero
          (retag VARIABLE_STRING (flags v)) (jsCallback v) (jsCallbackUserData v).

Definition setUndefined (v : Value) : Value :=
  mkValue [] TINYJS_BLANK_DATA 0 PrimFloat.zero
          (retag VARIABLE_UNDEFINED (flags v)) (jsCallback v) (jsCallbackUserData v).

Definition setArray (v : Value) : Value :=
  mkValue [] TINYJS_BLANK_DATA 0 PrimFloat.zero
          (retag VARIABLE_ARRAY (flags v)) (jsCallback v) (jsCallbackUserData v).

Definition setCallback (callback : option N) (userdata : N) (v : Value) : Value :=
  mkValue (children v) (stringData v) (intData v) (doubleData v) (flags v)
          callback userdata.

(** [Variable::copySimpleData], applied to the receiver [v]. *)
Definition copySimpleData (val : Value) (v : Value) : Value :=
  mkValue (children v) (stringData val) (intData val) (doubleData val)
          (Z.lor (Z.land (flags v) (Z.lnot VARIABLE_TYPEMASK))
                 (Z.land (flags val) VARIABLE_TYPEMASK))
          (jsCallback v) (jsCallbackUserData v).

(* ------------------------------------------------------------------ *)
(** *** Constructors *)

(** [Variable()] *)
Definition Variable_undefined : Value := set_flags VARIABLE_UNDEFINED init.

(** [Variable(const std::string &str)] *)
Definition Variable_string (str : string) : Value :=
  set_stringData str (set_flags VARIABLE_STRING init).

(** [Variable(const std::string &varData, int varFlags)] *)
Definition Variable_data (varData : string) (varFlags : Z) : Value :=
  let v := set_flags varFlags init in
  if negb (Z.land varFlags VARIABLE_INTEGER =? 0) then
    mkValue [] TINYJS_BLANK_DATA (strtol (c_str varData) 0) PrimFloat.zero varFlags None 0%N
  else if negb (Z.land varFlags VARIABLE_DOUBLE =? 0) then
    mkValue [] TINYJS_BLANK_DATA 0 (strtod (c_str varData)) varFlags None 0%N
  else set_stringData varData v.

(** [Variable(double val)] *)
Definition Variable_double (val : float) : Value := setDouble val init.

(** [Variable(int val)]; a [bool] argument selects this constructor too. *)
Definition Variable_int (val : Z) : Value := setInt val init.

Definition Variable_bool (b : bool) : Value := Variable_int (if b then 1 else 0).

(** [new VariableLink(var, name)] *)
Definition new_VariableLink (v : addr) (varName : string) : H addr :=
  alloc_link (mkLink varName v false).

(** [VariableLink::replaceWith(Variable *newVar)] *)
Definition replaceWith (link : addr) (newVar : addr) : H unit :=
  let* l := load_link link in
  store_link link (mkLink (name l) newVar (owned l)).

(** [VariableLink::replaceWith(VariableLink *newVar)] *)
Definition replaceWith_link (link : addr) (newVar : option addr) : H unit :=
  match newVar with
  | Some nl => let* l := load_link nl in replaceWith link (var l)
  | None => let* v := alloc Variable_undefined in replaceWith link v
  end.

(** [VariableLink::getIntName] *)
Definition getIntName (l : VariableLink) : Z := atoi (c_str (name l)).

(** [VariableLink::setIntName] *)
Definition setIntName (n : Z) (l : VariableLink) : VariableLink :=
  mkLink (itoa n) (var l) (owned l).

(* ------------------------------------------------------------------ *)
(** *** Children *)

(** The walk along the sibling chain of [Variable::findChild]. *)
Fixpoint findLink (chain : list addr) (childName : string) : H (option addr) :=
  match chain with
  | [] => ret None
  | v :: rest =>
      let* l := load_link v in
      if String.eqb (name l) childName then ret (Some v) else findLink rest childName
  end.

Definition findChild (this : addr) (childName : string) : H (option addr) :=
  let* v := load this in
  findLink (children v) childName.

(** [Variable::addChild]; a null [child] stands for the default argument. *)
Definition addChild (this : addr) (childName : string) (child : option addr) : H addr :=
  let* v := load this in
  let* _ := if isUndefined v then store this (set_flags VARIABLE_OBJECT v) else ret tt in
  let* child := match child with
                | Some c => ret c
                | None => alloc Variable_undefined
                end in
  let* link := alloc_link (mkLink childName child true) in
  let* v := load this in
  let* _ := store this (set_children (children v ++ [link]) v) in
  ret link.

Definition findChildOrCreate (this : addr) (childName : string) (varFlags : Z) : H addr :=
  let* l := findChild this childName in
  match l with
  | Some l => ret l
  | None =>
      let* c := alloc (Variable_data TINYJS_BLANK_DATA varFlags) in
      addChild this childName (Some c)
  end.

(** [Variable::findChildOrCreateByPath]: [seg] collects the characters of
    [path] up to its first dot. *)
Fixpoint findChildOrCreateByPath_from (path : string) (seg : string) (this : addr) : H addr :=
  match path with
  | EmptyString => findChildOrCreate this seg VARIABLE_UNDEFINED
  | String c r =>
      if Ascii.eqb c "." then
        let* l := findChildOrCreate this seg VARIABLE_OBJECT in
        let* lk := load_link l in
        findChildOrCreateByPath_from r EmptyString (var lk)
      else findChildOrCreateByPath_from r (push_back seg c) this
  end.

Definition findChildOrCreateByPath (this : addr) (path : string) : H addr :=
  findChildOrCreateByPath_from path EmptyString this.

Definition addChildNoDup (this : addr) (childName : string) (child : option addr) : H addr :=
  let* child := match child with
                | Some c => ret c
                | None => alloc Variable_undefined
                end in
  let* v := findChild this childName in
  match v with
  | Some v => let* _ := replaceWith v child in ret v
  | None => addChild this childName (Some child)
  end.

Definition removeLink (this : addr) (link : option addr) : H unit :=
  match link with
  | None => ret tt
  | Some link =>
      let* v := load this in
      store this (set_children (List.filter (fun l => negb (Pos.eqb l link)) (children v)) v)
  end.

Fixpoint findLinkTo (chain : list addr) (child : addr) : H (option addr) :=
  match chain with
  | [] => ret None
  | l :: rest =>
      let* lk := load_link l in
      if Pos.eqb (var lk) child then ret (Some l) else findLinkTo rest child
  end.

Definition removeChild (this : addr) (child : addr) : H unit :=
  let* v := load this in
  let* link := findLinkTo (children v) child in
  match link with
  | None => crash AssertFailed
  | Some _ => removeLink this link
  end.

Definition removeAllChildren (this : addr) : H unit :=
  let* v := load this in
  store this (set_children [] v).

Definition getArrayIndex (this : addr) (idx : Z) : H addr :=
  let sIdx := itoa idx in
  let* link := findChild this sIdx in
  match link with
  | Some link => let* l := load_link link in ret (var l)
  | None => alloc (Variable_data TINYJS_BLANK_DATA VARIABLE_NULL)
  end.

Definition setArrayIndex (this : addr) (idx : Z) (value : addr) : H unit :=
  let sIdx := itoa idx in
  let* link := findChild this sIdx in
  let* val := load value in
  match link with
  | Some l =>
      if isUndefined val then removeLink this link else replaceWith l value
  | None =>
      if negb (isUndefined val) then let* _ := addChild this sIdx (Some value) in ret tt
      else ret tt
  end.

(** The loop of [Variable::getArrayLength]. *)
Fixpoint highestIndex (chain : list addr) (highest : Z) : H Z :=
  match chain with
  | [] => ret highest
  | link :: rest =>
      let* l := load_link link in
      if isNumber (name l) then
        let val := atoi (c_str (name l)) in
        highestIndex rest (if highest <? val then val else highest)
      else highestIndex rest highest
  end.

Definition getArrayLength (this : addr) : H Z :=
  let* v := load this in
  if negb (isArray v) then ret 0
  else
    let* highest := highestIndex (children v) (-1) in
    ret (to_int (highest + 1)).

Definition getChildren (this : addr) : H Z :=
  let* v := load this in
  ret (Z.of_nat (length (children v))).

(* ------------------------------------------------------------------ *)
(** *** Strings *)

(** [Variable::getString]: a number is printed into the string field of
    the variable, which is then returned. *)
Definition getString (this : addr) : H string :=
  let* v := load this in
  if isInt v then
    let buffer := take_chars 31 (itoa (intData v)) in
    let* _ := store this (set_stringData buffer v) in
    ret buffer
  else if isDouble v then
    let buffer := format_f (doubleData v) in
    let* _ := store this (set_stringData buffer v) in
    ret buffer
  else if isNull v then ret "null"
  else if isUndefined v then ret "undefined"
  else ret (stringData v).

(** What [getJSString] puts in the place of one character. *)
Definition jsEscape (c : ascii) : string :=
  if Ascii.eqb c backslash then String backslash (str1 backslash)
  else if Ascii.eqb c ch_lf then String backslash "n"
  else if Ascii.eqb c ch_cr then String backslash "r"
  else if Ascii.eqb c ch_bel then String backslash "a"
  else if Ascii.eqb c dquote then String backslash (str1 dquote)
  else
    let nCh := char_code c in
    if (nCh <? 32) || (127 <? nCh) then hexEscape nCh else str1 c.

Fixpoint jsEscapeAll (s : string) : string :=
  match s with
  | EmptyString => EmptyString
  | String c r => jsEscape c ++ jsEscapeAll r
  end.

(** [getJSString]: the loop replaces one character at a time and steps
    over what it has put in. *)
Definition getJSString (str : string) : string :=
  str1 dquote ++ jsEscapeAll str ++ str1 dquote.

(** The parameter list that [Variable::getParsableString] prints. *)
Fixpoint parameterNames (chain : list addr) : H string :=
  match chain with
  | [] => ret EmptyString
  | link :: rest =>
      let* l := load_link link in
      let* more := parameterNames rest in
      ret (name l ++ (match rest with [] => EmptyString | _ => "," end) ++ more)
  end.

Definition getParsableString (this : addr) : H string :=
  let* v := load this in
  if isNumeric v then getString this
  else if isFunction v then
    let* params := parameterNames (children v) in
    let* body := getString this in
    ret ("function (" ++ params ++ ") " ++ body)
  else if isString v then
    let* s := getString this in
    ret (getJSString s)
  else if isNull v then ret "null"
  else ret "undefined".

(* ------------------------------------------------------------------ *)
(** *** Arithmetic and comparison *)

Definition new_int (n : Z) : H addr := alloc (Variable_int n).
Definition new_bool (b : bool) : H addr := alloc (Variable_bool b).
Definition new_double (d : float) : H addr := alloc (Variable_double d).

Definition unsupported {A : Type} (op : Z) (datatype : string) : H A :=
  throw ("Operation " ++ getTokenStr op ++ " not supported on the " ++ datatype ++ " datatype").

(** The [switch] on [int] operands.  A result that overflows wraps around;
    a zero divisor is left to the machine. *)
Definition mathsOp_int (op da db : Z) : H addr :=
  if op =? tok "+" then new_int (da + db)
  else if op =? tok "-" then new_int (da - db)
  else if op =? tok "*" then new_int (da * db)
  else if op =? tok "/" then
    if db =? 0 then crash DivisionByZero else new_int (Z.quot da db)
  else if op =? tok "&" then new_int (Z.land da db)
  else if op =? tok "|" then new_int (Z.lor da db)
  else if op =? tok "^" then new_int (Z.lxor da db)
  else if op =? tok "%" then
    if db =? 0 then crash DivisionByZero else new_int (Z.rem da db)
  else if op =? LEXER_EQUAL then new_bool (da =? db)
  else if op =? LEXER_NEQUAL then new_bool (negb (da =? db))
  else if op =? tok "<" then new_bool (da <? db)
  else if op =? LEXER_LEQUAL then new_bool (da <=? db)
  else if op =? tok ">" then new_bool (db <? da)
  else if op =? LEXER_GEQUAL then new_bool (db <=? da)
  else unsupported op "Int".

(** The [switch] on [double] operands. *)
Definition mathsOp_double (op : Z) (da db : float) : H addr :=
  if op =? tok "+" then new_double (PrimFloat.add da db)
  else if op =? tok "-" then new_double (PrimFloat.sub da db)
  else if op =? tok "*" then new_double (PrimFloat.mul da db)
  else if op =? tok "/" then new_double (PrimFloat.div da db)
  else if op =? LEXER_EQUAL then new_bool (PrimFloat.eqb da db)
  else if op =? LEXER_NEQUAL then new_bool (negb (PrimFloat.eqb da db))
  else if op =? tok "<" then new_bool (PrimFloat.ltb da db)
  else if op =? LEXER_LEQUAL then new_bool (PrimFloat.leb da db)
  else if op =? tok ">" then new_bool (PrimFloat.ltb db da)
  else if op =? LEXER_GEQUAL then new_bool (PrimFloat.leb db da)
  else unsupported op "Double".

(** The [switch] on an array or an object: the pointers are compared. *)
Definition mathsOp_pointer (op : Z) (a b : addr) (datatype : string) : H addr :=
  if op =? LEXER_EQUAL then new_bool (Pos.eqb a b)
  else if op =? LEXER_NEQUAL then new_bool (negb (Pos.eqb a b))
  else unsupported op datatype.

(** The [switch] on strings. *)
Definition mathsOp_string (op : Z) (da db : string) : H addr :=
  if op =? tok "+" then alloc (Variable_data (da ++ db) VARIABLE_STRING)
  else if op =? LEXER_EQUAL then new_bool (String.eqb da db)
  else if op =? LEXER_NEQUAL then new_bool (negb (String.eqb da db))
  else if op =? tok "<" then new_bool (String.ltb da db)
  else if op =? LEXER_LEQUAL then new_bool (String.leb da db)
  else if op =? tok ">" then new_bool (String.ltb db da)
  else if op =? LEXER_GEQUAL then new_bool (String.leb db da)
  else unsupported op "string".

(** [Variable::mathsOp] below the type-equality check ("do maths..."). *)
Definition mathsOp_maths (a b : addr) (op : Z) : H addr :=
  let* va := load a in
  let* vb := load b in
  if isUndefined va && isUndefined vb then
    if op =? LEXER_EQUAL then new_bool true
    else if op =? LEXER_NEQUAL then new_bool false
    else alloc Variable_undefined
  else if (isNumeric va || isUndefined va) && (isNumeric vb || isUndefined vb) then
    if negb (isDouble va) && negb (isDouble vb) then
      mathsOp_int op (getInt va) (getInt vb)
    else
      mathsOp_double op (getDouble va) (getDouble vb)
  else if isArray va then mathsOp_pointer op a b "Array"
  else if isObject va then mathsOp_pointer op a b "Object"
  else
    let* da := getString a in
    let* db := getString b in
    mathsOp_string op da db.

(** [Variable::mathsOp]: for [===] and [!==] the type tags are compared
    first and the function calls itself with [==]. *)
Definition mathsOp (a b : addr) (op : Z) : H addr :=
  if (op =? LEXER_TYPEEQUAL) || (op =? LEXER_NTYPEEQUAL) then
    let* va := load a in
    let* vb := load b in
    let eql := Z.land (flags va) VARIABLE_TYPEMASK =? Z.land (flags vb) VARIABLE_TYPEMASK in
    let* eql :=
      if eql then
        let* contents := mathsOp_maths a b LEXER_EQUAL in
        let* c := load contents in
        ret (if negb (getBool c) then false else eql)
      else ret eql in
    if op =? LEXER_TYPEEQUAL then new_bool eql else new_bool (negb eql)
  else mathsOp_maths a b op.

(** [Variable::equals] *)
Definition equals (this : addr) (v : addr) : H bool :=
  let* resV := mathsOp this v LEXER_EQUAL in
  let* r := load resV in
  ret (getBool r).

(* ------------------------------------------------------------------ *)
(** *** Copies *)

(** The loop over the children that [Variable::deepCopy] and
    [Variable::copyValue] share: every child of the source is copied with
    [copy] and added to [dest], except the child named [prototype], whose
    target is added as it is. *)
Fixpoint copyChildren (copy : addr -> H addr) (dest : addr) (chain : list addr) : H unit :=
  match chain with
  | [] => ret tt
  | child :: rest =>
      let* c := load_link child in
      let* copied :=
        if negb (String.eqb (name c) TINYJS_PROTOTYPE_CLASS)
        then copy (var c)
        else ret (var c) in
      let* _ := addChild dest (name c) (Some copied) in
      copyChildren copy dest rest
  end.

(** [Variable::deepCopy].  The recursion follows the graph, so it is
    bounded by [fuel]. *)
Fixpoint deepCopy (fuel : nat) (this : addr) : H addr :=
  match fuel with
  | O => outOfFuel
  | S fuel' =>
      let* v := load this in
      let* newVar := alloc (copySimpleData v Variable_undefined) in
      let* _ := copyChildren (deepCopy fuel') newVar (children v) in
      ret newVar
  end.

(** [Variable::copyValue] *)
Definition copyValue (fuel : nat) (this : addr) (val : option addr) : H unit :=
  match val with
  | Some val =>
      let* src := load val in
      let* v := load this in
      let* _ := store this (set_children [] (copySimpleData src v)) in
      copyChildren (deepCopy fuel) this (children src)
  | None =>
      let* v := load this in
      store this (setUndefined v)
  end.

(** [Variable::trace].  The text it prints is not modelled; what remains
    is the walk over the graph, in which [getString] prints every number
    into its variable. *)
Fixpoint trace (fuel : nat) (this : addr) : H unit :=
  match fuel with
  | O => outOfFuel
  | S fuel' =>
      let* _ := getString this in
      let* v := load this in
      (fix walk (chain : list addr) : H unit :=
         match chain with
         | [] => ret tt
         | link :: rest =>
             let* c := load_link link in
             let* _ := trace fuel' (var c) in
             walk rest
         end) (children v)
  end.

(** [link->nextSibling], for a link in the chain of [owner]. *)
Fixpoint successor (chain : list addr) (link : addr) : option addr :=
  match chain with
  | [] => None
  | x :: rest => if Pos.eqb x link then head rest else successor rest link
  end.

Definition nextSibling (owner : addr) (link : addr) : H (option addr) :=
  let* v := load owner in
  ret (successor (children v) link).

(** [CREATE_LINK(LINK, VAR)]: a fresh link unless [LINK] is an unowned
    one, which is redirected instead. *)
Definition CREATE_LINK (link : option addr) (v : addr) : H (option addr) :=
  match link with
  | None => let* n := new_VariableLink v TINYJS_TEMP_NAME in ret (Some n)
  | Some lk =>
      let* l := load_link lk in
      if owned l then
        let* n := new_VariableLink v TINYJS_TEMP_NAME in ret (Some n)
      else
        let* _ := replaceWith lk v in ret (Some lk)
  end.

(* ================================================================== *)
(** ** INTERPRETER *)

(** [class Interpreter].  [l] is the current lexer, null between calls.
    The call stack kept under [TINYJS_CALL_STACK] is left out. *)
Record Interp : Type := mkInterp {
  heap : Heap;
  root : addr;
  l : option Lexer;
  scopes : list addr;
  stringClass : addr;
  objectClass : addr;
  arrayClass : addr
}.

Definition M (A : Type) : Type := SO Interp A.

Definition set_heap (h : Heap) (st : Interp) : Interp :=
  mkInterp h (root st) (l st) (scopes st) (stringClass st) (objectClass st) (arrayClass st).

Definition set_l (lx : option Lexer) (st : Interp) : Interp :=
  mkInterp (heap st) (root st) lx (scopes st) (stringClass st) (objectClass st) (arrayClass st).

Definition set_scopes (s : list addr) (st : Interp) : Interp :=
  mkInterp (heap st) (root st) (l st) s (stringClass st) (objectClass st) (arrayClass st).

(** A method of [Variable] run on the heap of the interpreter. *)
Definition liftH {A : Type} (m : H A) : M A :=
  fun st => let (r, h) := m (heap st) in (r, set_heap h st).

Definition getL : M (option Lexer) := fun st => (Ok (l st), st).
Definition setL (lx : option Lexer) : M unit := fun st => (Ok tt, set_l lx st).
Definition getScopes : M (list addr) := fun st => (Ok (scopes st), st).
Definition setScopes (s : list addr) : M unit := fun st => (Ok tt, set_scopes s st).
Definition getRoot : M addr := fun st => (Ok (root st), st).

(** [*l] *)
Definition lexer : M Lexer := let* lx := getL in deref lx.

(** [l->tk], [l->tkStr], [l->tokenStart] *)
Definition getTk : M Z := let* lx := lexer in ret (tk lx).
Definition getTkStr : M string := let* lx := lexer in ret (tkStr lx).
Definition getTokenStart : M Z := let* lx := lexer in ret (tokenStart lx).

(** [l->match(expected_tk)] *)
Definition matchTk (expected_tk : Z) : M unit :=
  let* lx := lexer in
  match lmatch lx expected_tk with
  | Ok lx' => setL (Some lx')
  | Throw t => throw t
  | Crash w => crash w
  | OutOfFuel => outOfFuel
  end.

(** [scopes.back()] *)
Definition scopesBack : M addr :=
  let* s := getScopes in
  deref (last s).

(** [try { m } catch (Exception *e) { handler(e->text) }] *)
Definition try_catch {A : Type} (m : M A) (handler : string -> M A) : M A :=
  fun st =>
    match m st with
    | (Throw t, st') => handler t st'
    | r => r
    end.

(** [link->var] and [link->var->...] for a link that may be null. *)
Definition linkVar (link : option addr) : M addr :=
  let* lk := deref link in
  let* c := liftH (load_link lk) in
  ret (var c).

Definition linkValue (link : option addr) : M Value :=
  let* v := linkVar link in
  liftH (load v).

(** [Interpreter::findInScopes], from the innermost scope outwards. *)
Fixpoint findInScopes_from (rscopes : list addr) (childName : string) : H (option addr) :=
  match rscopes with
  | [] => ret None
  | s :: rest =>
      let* v := findChild s childName in
      match v with
      | Some _ => ret v
      | None => findInScopes_from rest childName
      end
  end.

Definition findInScopes (childName : string) : M (option addr) :=
  let* s := getScopes in
  liftH (findInScopes_from (rev s) childName).

(** The walk up the [prototype] links of [Interpreter::findInParentClasses];
    a chain that closes on itself never ends, hence [fuel]. *)
Fixpoint findInPrototypes (fuel : nat) (parentClass : option addr) (childName : string)
  : H (option addr) :=
  match parentClass with
  | None => ret None
  | Some pc =>
      match fuel with
      | O => outOfFuel
      | S fuel' =>
          let* c := load_link pc in
          let* implementation := findChild (var c) childName in
          match implementation with
          | Some _ => ret implementation
          | None =>
              let* next := findChild (var c) TINYJS_PROTOTYPE_CLASS in
              findInPrototypes fuel' next childName
          end
      end
  end.

Definition findInParentClasses (fuel : nat) (object : addr) (childName : string)
  : M (option addr) :=
  let* st := get_state in
  liftH (
    let* parentClass := findChild object TINYJS_PROTOTYPE_CLASS in
    let* found := findInPrototypes fuel parentClass childName in
    match found with
    | Some _ => ret found
    | None =>
        let* o := load object in
        let* inString :=
          if isString o then findChild (stringClass st) childName else ret None in
        match inString with
        | Some _ => ret inString
        | None =>
            let* inArray :=
              if isArray o then findChild (arrayClass st) childName else ret None in
            match inArray with
            | Some _ => ret inArray
            | None => findChild (objectClass st) childName
            end
        end
    end).

(** The loop of [Interpreter::parseFunctionArguments]; every round
    consumes a token or throws, so the length of the text bounds it. *)
Fixpoint parseFunctionArguments_loop (n : nat) (funcVar : addr) : M unit :=
  match n with
  | O => outOfFuel
  | S n' =>
      let* t := getTk in
      if negb (t =? tok ")") then
        let* s := getTkStr in
        let* _ := liftH (addChildNoDup funcVar s None) in
        let* _ := matchTk LEXER_ID in
        let* t := getTk in
        let* _ := if negb (t =? tok ")") then matchTk (tok ",") else ret tt in
        parseFunctionArguments_loop n' funcVar
      else ret tt
  end.

Definition textFuel : M nat :=
  let* lx := lexer in
  ret (S (String.length (data lx))).

Definition parseFunctionArguments (funcVar : addr) : M unit :=
  let* _ := matchTk (tok "(") in
  let* n := textFuel in
  let* _ := parseFunctionArguments_loop n funcVar in
  matchTk (tok ")").

(** The fast skip of [Interpreter::block] when not executing. *)
Fixpoint skipBlock_loop (n : nat) (brackets : Z) : M unit :=
  match n with
  | O => outOfFuel
  | S n' =>
      let* t := getTk in
      if negb (t =? 0) && negb (brackets =? 0) then
        let brackets := if t =? tok "{" then brackets + 1 else brackets in
        let brackets := if t =? tok "}" then brackets - 1 else brackets in
        let* _ := matchTk t in
        skipBlock_loop n' brackets
      else ret tt
  end.

(** [block(noexecute)] *)
Definition skipBlock : M unit :=
  let* _ := matchTk (tok "{") in
  let* n := textFuel in
  skipBlock_loop n 1.

(** [Interpreter::parseFunctionDefinition] *)
Definition parseFunctionDefinition : M (option addr) :=
  let* _ := matchTk LEXER_RESERVED_FUNCTION in
  let* t := getTk in
  let* funcName :=
    if t =? LEXER_ID then
      let* s := getTkStr in
      let* _ := matchTk LEXER_ID in
      ret s
    else ret TINYJS_TEMP_NAME in
  let* fv := liftH (alloc (Variable_data TINYJS_BLANK_DATA VARIABLE_FUNCTION)) in
  let* funcVar := liftH (new_VariableLink fv funcName) in
  let* _ := parseFunctionArguments fv in
  let* funcBegin := getTokenStart in
  let* _ := skipBlock in
  let* lx := lexer in
  let* v := liftH (load fv) in
  let* _ := liftH (store fv (set_stringData (getSubString lx funcBegin) v)) in
  ret (Some funcVar).

(** [res = a->var->mathsOp(b->var, op); CREATE_LINK(a, res);] *)
Definition applyOp (a b : option addr) (op : Z) : M (option addr) :=
  let* av := linkVar a in
  let* bv := linkVar b in
  let* res := liftH (mathsOp av bv op) in
  liftH (CREATE_LINK a res).

(** The postfix [++] and [--] of [Interpreter::expression]: the link [a]
    is redirected to the sum, and a new link to the variable that [a]
    pointed to before takes its place. *)
Definition postfix (a : option addr) (op : Z) : M (option addr) :=
  let* one := liftH (alloc (Variable_int 1)) in
  let* av := linkVar a in
  let* res := liftH (mathsOp av one (if op =? LEXER_PLUSPLUS then tok "+" else tok "-")) in
  let* av := linkVar a in
  let* oldValue := liftH (new_VariableLink av TINYJS_TEMP_NAME) in
  let* lk := deref a in
  let* _ := liftH (replaceWith lk res) in
  ret (Some oldValue).

(** The shifts of [Interpreter::shift] on an [int]; the machine takes the
    count modulo 32. *)
Definition shiftInt (op x count : Z) : Z :=
  let n := Z.land count 31 in
  if op =? LEXER_LSHIFT then x * 2 ^ n
  else if op =? LEXER_RSHIFT then Z.shiftr x n
  else Z.shiftr (x mod 2 ^ 32) n.

(** The dotted names of a [var] declaration. *)
Fixpoint varDots (n : nat) (execute : bool) (a : option addr) : M (option addr) :=
  match n with
  | O => outOfFuel
  | S n' =>
      let* t := getTk in
      if t =? tok "." then
        let* _ := matchTk (tok ".") in
        let* a :=
          if execute then
            let* lastA := linkVar a in
            let* s := getTkStr in
            let* c := liftH (findChildOrCreate lastA s VARIABLE_UNDEFINED) in
            ret (Some c)
          else ret a in
        let* _ := matchTk LEXER_ID in
        varDots n' execute a
      else ret a
  end.

Section Evaluator.

(** The native functions belong to the host.  [native run eval cb c data]
    stands for the call [cb(c, data)] of the callback registered under
    [cb] on the call frame [c]; [run] and [eval] are [Interpreter::execute]
    and [Interpreter::evaluateComplex], for a callback that calls back. *)
Variable native :
  (string -> M unit) -> (string -> M VariableLink) -> N -> addr -> N -> M unit.

Fixpoint base (fuel : nat) (execute : bool) {struct fuel} : M (option addr * bool) :=
  match fuel with
  | O => outOfFuel
  | S fuel' =>
      let* (lhs, execute) := ternary fuel' execute in
      let* t := getTk in
      if (t =? tok "=") || (t =? LEXER_PLUSEQUAL) || (t =? LEXER_MINUSEQUAL) then
        let* lhs :=
          if execute then
            let* lk := deref lhs in
            let* c := liftH (load_link lk) in
            if negb (owned c) then
              if 0 <? Z.of_nat (String.length (name c)) then
                let* r := getRoot in
                let* realLhs := liftH (addChildNoDup r (name c) (Some (var c))) in
                ret (Some realLhs)
              else ret lhs
            else ret lhs
          else ret lhs in
        let op := t in
        let* _ := matchTk t in
        let* (rhs, execute) := base fuel' execute in
        let* _ :=
          if execute then
            let* lk := deref lhs in
            if op =? tok "=" then liftH (replaceWith_link lk rhs)
            else if op =? LEXER_PLUSEQUAL then
              let* lv := linkVar lhs in
              let* rv := linkVar rhs in
              let* res := liftH (mathsOp lv rv (tok "+")) in
              liftH (replaceWith lk res)
            else if op =? LEXER_MINUSEQUAL then
              let* lv := linkVar lhs in
              let* rv := linkVar rhs in
              let* res := liftH (mathsOp lv rv (tok "-")) in
              liftH (replaceWith lk res)
            else crash AssertFailed
          else ret tt in
        ret (lhs, execute)
      else ret (lhs, execute)
  end

with ternary (fuel : nat) (execute : bool) {struct fuel} : M (option addr * bool) :=
  match fuel with
  | O => outOfFuel
  | S fuel' =>
      let* (lhs, execute) := logic fuel' execute in
      let* t := getTk in
      if t =? tok "?" then
        let* _ := matchTk (tok "?") in
        if negb execute then
          let* _ := base fuel' false in
          let* _ := matchTk (tok ":") in
          let* _ := base fuel' false in
          ret (lhs, execute)
        else
          let* c := linkValue lhs in
          let first := getBool c in
          if first then
            let* (lhs, execute) := base fuel' execute in
            let* _ := matchTk (tok ":") in
            let* _ := base fuel' false in
            ret (lhs, execute)
          else
            let* _ := base fuel' false in
            let* _ := matchTk (tok ":") in
            base fuel' execute
      else ret (lhs, execute)
  end

with logic (fuel : nat) (execute : bool) {struct fuel} : M (option addr * bool) :=
  match fuel with
  | O => outOfFuel
  | S fuel' =>
      let* (a, execute) := condition fuel' execute in
      logic_loop fuel' execute a
  end

with logic_loop (fuel : nat) (execute : bool) (a : option addr) {struct fuel}
  : M (option addr * bool) :=
  match fuel with
  | O => outOfFuel
  | S fuel' =>
      let* t := getTk in
      if (t =? tok "&") || (t =? tok "|") || (t =? tok "^") ||
         (t =? LEXER_ANDAND) || (t =? LEXER_OROR) then
        let* _ := matchTk t in
        let* (op, shortCircuit, boolean) :=
          if t =? LEXER_ANDAND then
            let* c := linkValue a in ret (tok "&", negb (getBool c), true)
          else if t =? LEXER_OROR then
            let* c := linkValue a in ret (tok "|", getBool c, true)
          else ret (t, false, false) in
        let* (b, execute') := condition fuel' (if shortCircuit : bool then false else execute) in
        let execute := if shortCircuit then execute else execute' in
        let* a :=
          if execute && negb shortCircuit then
            let* (a, b) :=
              if boolean : bool then
                let* ca := linkValue a in
                let* newa := liftH (new_bool (getBool ca)) in
                let* cb := linkValue b in
                let* newb := liftH (new_bool (getBool cb)) in
                let* a := liftH (CREATE_LINK a newa) in
                let* b := liftH (CREATE_LINK b newb) in
                ret (a, b)
              else ret (a, b) in
            applyOp a b op
          else ret a in
        logic_loop fuel' execute a
      else ret (a, execute)
  end

with condition (fuel : nat) (execute : bool) {struct fuel} : M (option addr * bool) :=
  match fuel with
  | O => outOfFuel
  | S fuel' =>
      let* (a, execute) := shift fuel' execute in
      condition_loop fuel' execute a
  end

with condition_loop (fuel : nat) (execute : bool) (a : option addr) {struct fuel}
  : M (option addr * bool) :=
  match fuel with
  | O => outOfFuel
  | S fuel' =>
      let* t := getTk in
      if (t =? LEXER_EQUAL) || (t =? LEXER_NEQUAL) ||
         (t =? LEXER_TYPEEQUAL) || (t =? LEXER_NTYPEEQUAL) ||
         (t =? LEXER_LEQUAL) || (t =? LEXER_GEQUAL) ||
         (t =? tok "<") || (t =? tok ">") then
        let* _ := matchTk t in
        let* (b, execute) := shift fuel' execute in
        let* a := if execute then applyOp a b t else ret a in
        condition_loop fuel' execute a
      else ret (a, execute)
  end

with shift (fuel : nat) (execute : bool) {struct fuel} : M (option addr * bool) :=
  match fuel with
  | O => outOfFuel
  | S fuel' =>
      let* (a, execute) := expression fuel' execute in
      let* t := getTk in
      if (t =? LEXER_LSHIFT) || (t =? LEXER_RSHIFT) || (t =? LEXER_RSHIFTUNSIGNED) then
        let* _ := matchTk t in
        let* (b, execute) := base fuel' execute in
        let* count := if execute then let* c := linkValue b in ret (getInt c) else ret 0 in
        let* _ :=
          if execute then
            let* av := linkVar a in
            let* v := liftH (load av) in
            liftH (store av (setInt (shiftInt t (getInt v) count) v))
          else ret tt in
        ret (a, execute)
      else ret (a, execute)
  end

with expression (fuel : nat) (execute : bool) {struct fuel} : M (option addr * bool) :=
  match fuel with
  | O => outOfFuel
  | S fuel' =>
      let* t := getTk in
      let* negate :=
        if t =? tok "-" then let* _ := matchTk (tok "-") in ret true else ret false in
      let* (a, execute) := term fuel' execute in
      let* a :=
        if negate : bool then
          let* zero := liftH (alloc (Variable_int 0)) in
          let* av := linkVar a in
          let* res := liftH (mathsOp zero av (tok "-")) in
          liftH (CREATE_LINK a res)
        else ret a in
      expression_loop fuel' execute a
  end

with expression_loop (fuel : nat) (execute : bool) (a : option addr) {struct fuel}
  : M (option addr * bool) :=
  match fuel with
  | O => outOfFuel
  | S fuel' =>
      let* t := getTk in
      if (t =? tok "+") || (t =? tok "-") ||
         (t =? LEXER_PLUSPLUS) || (t =? LEXER_MINUSMINUS) then
        let* _ := matchTk t in
        if (t =? LEXER_PLUSPLUS) || (t =? LEXER_MINUSMINUS) then
          let* a := if execute then postfix a t else ret a in
          expression_loop fuel' execute a
        else
          let* (b, execute) := term fuel' execute in
          let* a := if execute then applyOp a b t else ret a in
          expression_loop fuel' execute a
      else ret (a, execute)
  end

with term (fuel : nat) (execute : bool) {struct fuel} : M (option addr * bool) :=
  match fuel with
  | O => outOfFuel
  | S fuel' =>
      let* (a, execute) := unary fuel' execute in
      term_loop fuel' execute a
  end

with term_loop (fuel : nat) (execute : bool) (a : option addr) {struct fuel}
  : M (option addr * bool) :=
  match fuel with
  | O => outOfFuel
  | S fuel' =>
      let* t := getTk in
      if (t =? tok "*") || (t =? tok "/") || (t =? tok "%") then
        let* _ := matchTk t in
        let* (b, execute) := unary fuel' execute in
        let* a := if execute then applyOp a b t else ret a in
        term_loop fuel' execute a
      else ret (a, execute)
  end

with unary (fuel : nat) (execute : bool) {struct fuel} : M (option addr * bool) :=
  match fuel with
  | O => outOfFuel
  | S fuel' =>
      let* t := getTk in
      if t =? tok "!" then
        let* _ := matchTk (tok "!") in
        let* (a, execute) := factor fuel' execute in
        let* a :=
          if execute then
            let* zero := liftH (alloc (Variable_int 0)) in
            let* av := linkVar a in
            let* res := liftH (mathsOp av zero LEXER_EQUAL) in
            liftH (CREATE_LINK a res)
          else ret a in
        ret (a, execute)
      else factor fuel' execute
  end

with factor (fuel : nat) (execute : bool) {struct fuel} : M (option addr * bool) :=
  match fuel with
  | O => outOfFuel
  | S fuel' =>
      let* t := getTk in
      if t =? tok "(" then
        let* _ := matchTk (tok "(") in
        let* (a, execute) := base fuel' execute in
        let* _ := matchTk (tok ")") in
        ret (a, execute)
      else if t =? LEXER_RESERVED_TRUE then
        let* _ := matchTk LEXER_RESERVED_TRUE in
        let* v := liftH (alloc (Variable_int 1)) in
        let* a := liftH (new_VariableLink v TINYJS_TEMP_NAME) in
        ret (Some a, execute)
      else if t =? LEXER_RESERVED_FALSE then
        let* _ := matchTk LEXER_RESERVED_FALSE in
        let* v := liftH (alloc (Variable_int 0)) in
        let* a := liftH (new_VariableLink v TINYJS_TEMP_NAME) in
        ret (Some a, execute)
      else if t =? LEXER_RESERVED_NULL then
        let* _ := matchTk LEXER_RESERVED_NULL in
        let* v := liftH (alloc (Variable_data TINYJS_BLANK_DATA VARIABLE_NULL)) in
        let* a := liftH (new_VariableLink v TINYJS_TEMP_NAME) in
        ret (Some a, execute)
      else if t =? LEXER_RESERVED_UNDEFINED then
        let* _ := matchTk LEXER_RESERVED_UNDEFINED in
        let* v := liftH (alloc (Variable_data TINYJS_BLANK_DATA VARIABLE_UNDEFINED)) in
        let* a := liftH (new_VariableLink v TINYJS_TEMP_NAME) in
        ret (Some a, execute)
      else if t =? LEXER_ID then
        let* s := getTkStr in
        let* a :=
          if execute then findInScopes s
          else
            let* v := liftH (alloc Variable_undefined) in
            let* a := liftH (new_VariableLink v TINYJS_TEMP_NAME) in
            ret (Some a) in
        let* a :=
          match a with
          | None =>
              if execute then
                let* v := liftH (alloc Variable_undefined) in
                let* a := liftH (new_VariableLink v s) in
                ret (Some a)
              else ret a
          | Some _ => ret a
          end in
        let* _ := matchTk LEXER_ID in
        factor_member fuel' execute a None
      else if (t =? LEXER_INT) || (t =? LEXER_FLOAT) then
        let* s := getTkStr in
        let* v := liftH (alloc (Variable_data s
                     (if t =? LEXER_INT then VARIABLE_INTEGER else VARIABLE_DOUBLE))) in
        let* _ := matchTk t in
        let* a := liftH (new_VariableLink v TINYJS_TEMP_NAME) in
        ret (Some a, execute)
      else if t =? LEXER_STR then
        let* s := getTkStr in
        let* v := liftH (alloc (Variable_data s VARIABLE_STRING)) in
        let* _ := matchTk LEXER_STR in
        let* a := liftH (new_VariableLink v TINYJS_TEMP_NAME) in
        ret (Some a, execute)
      else if t =? tok "{" then
        let* contents := liftH (alloc (Variable_data TINYJS_BLANK_DATA VARIABLE_OBJECT)) in
        let* _ := matchTk (tok "{") in
        let* execute := factor_object fuel' execute contents in
        let* _ := matchTk (tok "}") in
        let* a := liftH (new_VariableLink contents TINYJS_TEMP_NAME) in
        ret (Some a, execute)
      else if t =? tok "[" then
        let* contents := liftH (alloc (Variable_data TINYJS_BLANK_DATA VARIABLE_ARRAY)) in
        let* _ := matchTk (tok "[") in
        let* execute := factor_array fuel' execute contents 0 in
        let* _ := matchTk (tok "]") in
        let* a := liftH (new_VariableLink contents TINYJS_TEMP_NAME) in
        ret (Some a, execute)
      else if t =? LEXER_RESERVED_FUNCTION then
        let* funcVar := parseFunctionDefinition in
        ret (funcVar, execute)
      else if t =? LEXER_RESERVED_NEW then
        let* _ := matchTk LEXER_RESERVED_NEW in
        let* className := getTkStr in
        if execute then
          let* objClassOrFunc := findInScopes className in
          match objClassOrFunc with
          | None =>
              let* v := liftH (alloc Variable_undefined) in
              let* a := liftH (new_VariableLink v TINYJS_TEMP_NAME) in
              ret (Some a, execute)
          | Some _ =>
              let* _ := matchTk LEXER_ID in
              let* obj := liftH (alloc (Variable_data TINYJS_BLANK_DATA VARIABLE_OBJECT)) in
              let* objLink := liftH (new_VariableLink obj TINYJS_TEMP_NAME) in
              let* c := linkValue objClassOrFunc in
              if isFunction c then
                let* (_, execute) := functionCall fuel' execute objClassOrFunc (Some obj) in
                ret (Some objLink, execute)
              else
                let* cv := linkVar objClassOrFunc in
                let* _ := liftH (addChild obj TINYJS_PROTOTYPE_CLASS (Some cv)) in
                let* t := getTk in
                let* _ :=
                  if t =? tok "(" then
                    let* _ := matchTk (tok "(") in matchTk (tok ")")
                  else ret tt in
                ret (Some objLink, execute)
          end
        else
          let* _ := matchTk LEXER_ID in
          let* t := getTk in
          let* _ :=
            if t =? tok "(" then
              let* _ := matchTk (tok "(") in matchTk (tok ")")
            else ret tt in
          let* _ := matchTk LEXER_EOF in
          ret (None, execute)
      else
        let* _ := matchTk LEXER_EOF in
        ret (None, execute)
  end

(** The loop of [factor] over calls, members and subscripts. *)
with factor_member (fuel : nat) (execute : bool) (a : option addr) (parent : option addr)
       {struct fuel} : M (option addr * bool) :=
  match fuel with
  | O => outOfFuel
  | S fuel' =>
      let* t := getTk in
      if t =? tok "(" then
        let* (a, execute) := functionCall fuel' execute a parent in
        factor_member fuel' execute a parent
      else if t =? tok "." then
        let* _ := matchTk (tok ".") in
        let* (a, parent) :=
          if execute then
            let* nm := getTkStr in
            let* av := linkVar a in
            let* child := liftH (findChild av nm) in
            let* child :=
              match child with
              | Some _ => ret child
              | None => findInParentClasses fuel' av nm
              end in
            let* child :=
              match child with
              | Some _ => ret child
              | None =>
                  let* c := liftH (load av) in
                  if isArray c && String.eqb nm "length" then
                    let* len := liftH (getArrayLength av) in
                    let* v := liftH (new_int len) in
                    let* k := liftH (new_VariableLink v TINYJS_TEMP_NAME) in
                    ret (Some k)
                  else if isString c && String.eqb nm "length" then
                    let* str := liftH (getString av) in
                    let* v := liftH (new_int (Z.of_nat (String.length str))) in
                    let* k := liftH (new_VariableLink v TINYJS_TEMP_NAME) in
                    ret (Some k)
                  else
                    let* k := liftH (addChild av nm None) in
                    ret (Some k)
              end in
            ret (child, Some av)
          else ret (a, parent) in
        let* _ := matchTk LEXER_ID in
        factor_member fuel' execute a parent
      else if t =? tok "[" then
        let* _ := matchTk (tok "[") in
        let* (index, execute) := base fuel' execute in
        let* _ := matchTk (tok "]") in
        let* (a, parent) :=
          if execute then
            let* iv := linkVar index in
            let* str := liftH (getString iv) in
            let* av := linkVar a in
            let* child := liftH (findChildOrCreate av str VARIABLE_UNDEFINED) in
            ret (Some child, Some av)
          else ret (a, parent) in
        factor_member fuel' execute a parent
      else ret (a, execute)
  end

(** The loop of [factor] over the members of an object initialiser. *)
with factor_object (fuel : nat) (execute : bool) (contents : addr) {struct fuel} : M bool :=
  match fuel with
  | O => outOfFuel
  | S fuel' =>
      let* t := getTk in
      if negb (t =? tok "}") then
        let* id := getTkStr in
        let* _ := if t =? LEXER_STR then matchTk LEXER_STR else matchTk LEXER_ID in
        let* _ := matchTk (tok ":") in
        let* execute :=
          if execute then
            let* (a, execute) := base fuel' execute in
            let* av := linkVar a in
            let* _ := liftH (addChild contents id (Some av)) in
            ret execute
          else ret execute in
        let* t := getTk in
        let* _ := if negb (t =? tok "}") then matchTk (tok ",") else ret tt in
        factor_object fuel' execute contents
      else ret execute
  end

(** The loop of [factor] over the elements of an array initialiser. *)
with factor_array (fuel : nat) (execute : bool) (contents : addr) (idx : Z) {struct fuel}
  : M bool :=
  match fuel with
  | O => outOfFuel
  | S fuel' =>
      let* t := getTk in
      if negb (t =? tok "]") then
        let* execute :=
          if execute then
            let idx_str := take_chars 15 (itoa idx) in
            let* (a, execute) := base fuel' execute in
            let* av := linkVar a in
            let* _ := liftH (addChild contents idx_str (Some av)) in
            ret execute
          else ret execute in
        let* t := getTk in
        let* _ := if negb (t =? tok "]") then matchTk (tok ",") else ret tt in
        factor_array fuel' execute contents (to_int (idx + 1))
      else ret execute
  end

with functionCall (fuel : nat) (execute : bool) (function : option addr) (parent : option addr)
       {struct fuel} : M (option addr * bool) :=
  match fuel with
  | O => outOfFuel
  | S fuel' =>
      if execute then
        let* f := deref function in
        let* fl := liftH (load_link f) in
        let* fv := liftH (load (var fl)) in
        if negb (isFunction fv) then
          throw ("Expecting '" ++ name fl ++ "' to be a function")
        else
          let* _ := matchTk (tok "(") in
          let* functionRoot :=
            liftH (alloc (Variable_data TINYJS_BLANK_DATA VARIABLE_FUNCTION)) in
          let* _ :=
            match parent with
            | Some p => let* _ :=
                          liftH (addChildNoDup functionRoot "this" (Some p)) in ret tt
            | None => ret tt
            end in
          let* execute := functionCall_args fuel' execute functionRoot (var fl)
                                            (head (children fv)) in
          let* _ := matchTk (tok ")") in
          let* returnVarLink := liftH (addChild functionRoot TINYJS_RETURN_VAR None) in
          let* s := getScopes in
          let* _ := setScopes (s ++ [functionRoot]) in
          let* fl := liftH (load_link f) in
          let* fv := liftH (load (var fl)) in
          let* execute :=
            if isNative fv then
              match jsCallback fv with
              | None => crash AssertFailed
              | Some cb =>
                  let* _ := native (execute_ fuel') (evaluateComplex fuel') cb
                                   functionRoot (jsCallbackUserData fv) in
                  ret execute
              end
            else
              let* oldLex := getL in
              let* body := liftH (getString (var fl)) in
              let* _ := setL (Some (Lexer_new body)) in
              let* _ :=
                try_catch (let* _ := block fuel' execute in ret tt)
                          (fun text => let* _ := setL oldLex in throw text) in
              let* _ := setL oldLex in
              ret true in
          let* s := getScopes in
          let* _ := setScopes (removelast s) in
          let* rl := liftH (load_link returnVarLink) in
          let* returnVar := liftH (new_VariableLink (var rl) TINYJS_TEMP_NAME) in
          let* _ := liftH (removeLink functionRoot (Some returnVarLink)) in
          ret (Some returnVar, execute)
      else
        let* _ := matchTk (tok "(") in
        let* execute := functionCall_skipArgs fuel' execute in
        let* _ := matchTk (tok ")") in
        let* t := getTk in
        let* execute := if t =? tok "{" then block fuel' execute else ret execute in
        ret (function, execute)
  end

(** The loop of [functionCall] over the parameters [v] of the function. *)
with functionCall_args (fuel : nat) (execute : bool) (functionRoot : addr) (owner : addr)
       (v : option addr) {struct fuel} : M bool :=
  match fuel with
  | O => outOfFuel
  | S fuel' =>
      match v with
      | None => ret execute
      | Some v =>
          let* (value, execute) := base fuel' execute in
          let* _ :=
            if execute then
              let* vl := liftH (load_link v) in
              let* valv := linkVar value in
              let* val := liftH (load valv) in
              if isBasic val then
                let* copy := liftH (deepCopy fuel' valv) in
                let* _ := liftH (addChild functionRoot (name vl) (Some copy)) in ret tt
              else
                let* _ := liftH (addChild functionRoot (name vl) (Some valv)) in ret tt
            else ret tt in
          let* t := getTk in
          let* _ := if negb (t =? tok ")") then matchTk (tok ",") else ret tt in
          let* next := liftH (nextSibling owner v) in
          functionCall_args fuel' execute functionRoot owner next
      end
  end

(** The loop of [functionCall] over the arguments when not executing. *)
with functionCall_skipArgs (fuel : nat) (execute : bool) {struct fuel} : M bool :=
  match fuel with
  | O => outOfFuel
  | S fuel' =>
      let* t := getTk in
      if negb (t =? tok ")") then
        let* (_, execute) := base fuel' execute in
        let* t := getTk in
        let* _ := if negb (t =? tok ")") then matchTk (tok ",") else ret tt in
        functionCall_skipArgs fuel' execute
      else ret execute
  end

with block (fuel : nat) (execute : bool) {struct fuel} : M bool :=
  match fuel with
  | O => outOfFuel
  | S fuel' =>
      if execute then
        let* _ := matchTk (tok "{") in
        let* execute := block_loop fuel' execute in
        let* _ := matchTk (tok "}") in
        ret execute
      else
        let* _ := skipBlock in
        ret execute
  end

(** [while (l->tk && l->tk!='}') statement(execute);] *)
with block_loop (fuel : nat) (execute : bool) {struct fuel} : M bool :=
  match fuel with
  | O => outOfFuel
  | S fuel' =>
      let* t := getTk in
      if negb (t =? 0) && negb (t =? tok "}") then
        let* execute := statement fuel' execute in
        block_loop fuel' execute
      else ret execute
  end

with statement (fuel : nat) (execute : bool) {struct fuel} : M bool :=
  match fuel with
  | O => outOfFuel
  | S fuel' =>
      let* t := getTk in
      if (t =? LEXER_ID) || (t =? LEXER_INT) || (t =? LEXER_FLOAT) ||
         (t =? LEXER_STR) || (t =? tok "-") then
        let* (_, execute) := base fuel' execute in
        let* _ := matchTk (tok ";") in
        ret execute
      else if t =? tok "{" then block fuel' execute
      else if t =? tok ";" then
        let* _ := matchTk (tok ";") in
        ret execute
      else if t =? LEXER_RESERVED_VAR then
        let* _ := matchTk LEXER_RESERVED_VAR in
        let* execute := statement_var fuel' execute in
        let* _ := matchTk (tok ";") in
        ret execute
      else if t =? LEXER_RESERVED_IF then
        let* _ := matchTk LEXER_RESERVED_IF in
        let* _ := matchTk (tok "(") in
        let* (v, execute) := base fuel' execute in
        let* _ := matchTk (tok ")") in
        let* cond := if execute then let* c := linkValue v in ret (getBool c) else ret false in
        let* execute' := statement fuel' (if cond : bool then execute else false) in
        let execute := if cond then execute' else execute in
        let* t := getTk in
        if t =? LEXER_RESERVED_ELSE then
          let* _ := matchTk LEXER_RESERVED_ELSE in
          let* execute' := statement fuel' (if cond then false else execute) in
          ret (if cond then execute else execute')
        else ret execute
      else if t =? LEXER_RESERVED_WHILE then
        let* _ := matchTk LEXER_RESERVED_WHILE in
        let* _ := matchTk (tok "(") in
        let* whileCondStart := getTokenStart in
        let* (cond, execute) := base fuel' execute in
        let* loopCond :=
          if execute then let* c := linkValue cond in ret (getBool c) else ret false in
        let* lx := lexer in
        let whileCond := getSubLex lx whileCondStart in
        let* _ := matchTk (tok ")") in
        let* whileBodyStart := getTokenStart in
        let* execute' := statement fuel' (if loopCond : bool then execute else false) in
        let execute := if loopCond then execute' else execute in
        let* lx := lexer in
        let whileBody := getSubLex lx whileBodyStart in
        let* oldLex := getL in
        let* (execute, loopCount) :=
          while_loop fuel' whileCond whileBody loopCond TINYJS_LOOP_MAX_ITERATIONS execute in
        let* _ := setL oldLex in
        if loopCount <=? 0 then
          let* r := getRoot in
          let* _ := liftH (trace fuel' r) in
          throw "LOOP_ERROR"
        else ret execute
      else if t =? LEXER_RESERVED_FOR then
        let* _ := matchTk LEXER_RESERVED_FOR in
        let* _ := matchTk (tok "(") in
        let* execute := statement fuel' execute in
        let* forCondStart := getTokenStart in
        let* (cond, execute) := base fuel' execute in
        let* loopCond :=
          if execute then let* c := linkValue cond in ret (getBool c) else ret false in
        let* lx := lexer in
        let forCond := getSubLex lx forCondStart in
        let* _ := matchTk (tok ";") in
        let* forIterStart := getTokenStart in
        let* _ := base fuel' false in
        let* lx := lexer in
        let forIter := getSubLex lx forIterStart in
        let* _ := matchTk (tok ")") in
        let* forBodyStart := getTokenStart in
        let* execute' := statement fuel' (if loopCond : bool then execute else false) in
        let execute := if loopCond then execute' else execute in
        let* lx := lexer in
        let forBody := getSubLex lx forBodyStart in
        let* oldLex := getL in
        let* execute :=
          if loopCond then
            let* _ := setL (Some (reset forIter)) in
            let* (_, execute) := base fuel' execute in
            ret execute
          else ret execute in
        let* (execute, loopCount) :=
          for_loop fuel' forCond forIter forBody loopCond TINYJS_LOOP_MAX_ITERATIONS execute in
        let* _ := setL oldLex in
        if loopCount <=? 0 then
          let* r := getRoot in
          let* _ := liftH (trace fuel' r) in
          throw "LOOP_ERROR"
        else ret execute
      else if t =? LEXER_RESERVED_RETURN then
        let* _ := matchTk LEXER_RESERVED_RETURN in
        let* t := getTk in
        let* (result, execute) :=
          if negb (t =? tok ";") then base fuel' execute else ret (None, execute) in
        let* execute :=
          if execute then
            let* sc := scopesBack in
            let* resultVar := liftH (findChild sc TINYJS_RETURN_VAR) in
            let* _ :=
              match resultVar with
              | Some rv => liftH (replaceWith_link rv result)
              | None => ret tt
              end in
            ret false
          else ret execute in
        let* _ := matchTk (tok ";") in
        ret execute
      else if t =? LEXER_RESERVED_FUNCTION then
        let* funcVar := parseFunctionDefinition in
        let* _ :=
          if execute then
            let* fk := deref funcVar in
            let* fl := liftH (load_link fk) in
            if String.eqb (name fl) TINYJS_TEMP_NAME then ret tt
            else
              let* sc := scopesBack in
              let* _ := liftH (addChildNoDup sc (name fl) (Some (var fl))) in
              ret tt
          else ret tt in
        ret execute
      else
        let* _ := matchTk LEXER_EOF in
        ret execute
  end

(** The loop of [statement] over the names of a [var] declaration. *)
with statement_var (fuel : nat) (execute : bool) {struct fuel} : M bool :=
  match fuel with
  | O => outOfFuel
  | S fuel' =>
      let* t := getTk in
      if negb (t =? tok ";") then
        let* a :=
          if execute then
            let* sc := scopesBack in
            let* s := getTkStr in
            let* a := liftH (findChildOrCreate sc s VARIABLE_UNDEFINED) in
            ret (Some a)
          else ret None in
        let* _ := matchTk LEXER_ID in
        let* n := textFuel in
        let* a := varDots n execute a in
        let* t := getTk in
        let* execute :=
          if t =? tok "=" then
            let* _ := matchTk (tok "=") in
            let* (v, execute) := base fuel' execute in
            let* _ :=
              if execute then
                let* lk := deref a in
                liftH (replaceWith_link lk v)
              else ret tt in
            ret execute
          else ret execute in
        let* t := getTk in
        let* _ := if negb (t =? tok ";") then matchTk (tok ",") else ret tt in
        statement_var fuel' execute
      else ret execute
  end

(** [while (loopCond && loopCount-->0) { ... }] of the [while] statement;
    the result is [execute] and [loopCount] as the loop leaves them. *)
with while_loop (fuel : nat) (whileCond whileBody : Lexer) (loopCond : bool) (loopCount : Z)
       (execute : bool) {struct fuel} : M (bool * Z) :=
  match fuel with
  | O => outOfFuel
  | S fuel' =>
      if loopCond then
        if 0 <? loopCount then
          let loopCount := loopCount - 1 in
          let* _ := setL (Some (reset whileCond)) in
          let* (cond, execute) := base fuel' execute in
          let* loopCond :=
            if execute then let* c := linkValue cond in ret (getBool c) else ret false in
          let* execute :=
            if loopCond : bool then
              let* _ := setL (Some (reset whileBody)) in
              statement fuel' execute
            else ret execute in
          while_loop fuel' whileCond whileBody loopCond loopCount execute
        else ret (execute, loopCount - 1)
      else ret (execute, loopCount)
  end

(** [while (execute && loopCond && loopCount-->0) { ... }] of the [for]
    statement. *)
with for_loop (fuel : nat) (forCond forIter forBody : Lexer) (loopCond : bool) (loopCount : Z)
       (execute : bool) {struct fuel} : M (bool * Z) :=
  match fuel with
  | O => outOfFuel
  | S fuel' =>
      if execute && loopCond then
        if 0 <? loopCount then
          let loopCount := loopCount - 1 in
          let* _ := setL (Some (reset forCond)) in
          let* (cond, execute) := base fuel' execute in
          let* c := linkValue cond in
          let loopCond := getBool c in
          let* execute :=
            if execute && loopCond then
              let* _ := setL (Some (reset forBody)) in
              statement fuel' execute
            else ret execute in
          let* execute :=
            if execute && loopCond then
              let* _ := setL (Some (reset forIter)) in
              let* (_, execute) := base fuel' execute in
              ret execute
            else ret execute in
          for_loop fuel' forCond forIter forBody loopCond loopCount execute
        else ret (execute, loopCount - 1)
      else ret (execute, loopCount)
  end

(** [while (l->tk) statement(execute);] of [Interpreter::execute]. *)
with execute_loop (fuel : nat) (execute : bool) {struct fuel} : M unit :=
  match fuel with
  | O => outOfFuel
  | S fuel' =>
      let* t := getTk in
      if negb (t =? 0) then
        let* execute := statement fuel' execute in
        execute_loop fuel' execute
      else ret tt
  end

(** [Interpreter::execute]; the name [execute] is taken by the flag. *)
with execute_ (fuel : nat) (code : string) {struct fuel} : M unit :=
  match fuel with
  | O => outOfFuel
  | S fuel' =>
      let* oldLex := getL in
      let* oldScopes := getScopes in
      let* _ := setL (Some (Lexer_new code)) in
      let* r := getRoot in
      let* _ := setScopes [r] in
      let* _ :=
        try_catch (execute_loop fuel' true)
          (fun text =>
             let* lx := lexer in
             let msg := "Error " ++ text ++ " at " ++ getPosition lx (-1) in
             let* _ := setL oldLex in
             throw msg) in
      let* _ := setL oldLex in
      setScopes oldScopes
  end

(** [do { v = base(execute); if (l->tk!=LEXER_EOF) l->match(';'); }
    while (l->tk!=LEXER_EOF);] of [Interpreter::evaluateComplex]. *)
with evaluateComplex_loop (fuel : nat) (execute : bool) {struct fuel} : M (option addr) :=
  match fuel with
  | O => outOfFuel
  | S fuel' =>
      let* (v, execute) := base fuel' execute in
      let* t := getTk in
      let* _ := if negb (t =? LEXER_EOF) then matchTk (tok ";") else ret tt in
      let* t := getTk in
      if negb (t =? LEXER_EOF) then evaluateComplex_loop fuel' execute else ret v
  end

with evaluateComplex (fuel : nat) (code : string) {struct fuel} : M VariableLink :=
  match fuel with
  | O => outOfFuel
  | S fuel' =>
      let* oldLex := getL in
      let* oldScopes := getScopes in
      let* _ := setL (Some (Lexer_new code)) in
      let* r := getRoot in
      let* _ := setScopes [r] in
      let* v :=
        try_catch (evaluateComplex_loop fuel' true)
          (fun text =>
             let* lx := lexer in
             let msg := "Error " ++ text ++ " at " ++ getPosition lx (-1) in
             let* _ := setL oldLex in
             throw msg) in
      let* _ := setL oldLex in
      let* _ := setScopes oldScopes in
      match v with
      | Some v =>
          let* c := liftH (load_link v) in
          ret (mkLink (name c) (var c) false)
      | None =>
          let* u := liftH (alloc Variable_undefined) in
          ret (mkLink TINYJS_TEMP_NAME u false)
      end
  end.

(** [Interpreter::evaluate] *)
Definition evaluate (fuel : nat) (code : string) : M string :=
  let* r := evaluateComplex fuel code in
  liftH (getString (var r)).

End Evaluator.

(** [Interpreter::Interpreter] *)
Definition Interpreter_new : Interp :=
  let mk : H (addr * addr * addr * addr) :=
    let* r := alloc (Variable_data TINYJS_BLANK_DATA VARIABLE_OBJECT) in
    let* s := alloc (Variable_data TINYJS_BLANK_DATA VARIABLE_OBJECT) in
    let* a := alloc (Variable_data TINYJS_BLANK_DATA VARIABLE_OBJECT) in
    let* o := alloc (Variable_data TINYJS_BLANK_DATA VARIABLE_OBJECT) in
    let* _ := addChild r "String" (Some s) in
    let* _ := addChild r "Array" (Some a) in
    let* _ := addChild r "Object" (Some o) in
    ret (r, s, a, o) in
  match mk emptyHeap with
  | (Ok (r, s, a, o), h) => mkInterp h r None [] s o a
  | (_, h) => mkInterp h 1%positive None [] 1%positive 1%positive 1%positive
  end.

(** The loop of [Interpreter::addNative] over the dotted prefix. *)
Fixpoint addNative_path (n : nat) (base : addr) (funcName : string) : M (addr * string) :=
  match n with
  | O => outOfFuel
  | S n' =>
      let* t := getTk in
      if t =? tok "." then
        let* _ := matchTk (tok ".") in
        let* link := liftH (findChild base funcName) in
        let* link :=
          match link with
          | Some k => ret k
          | None =>
              let* o := liftH (alloc (Variable_data TINYJS_BLANK_DATA VARIABLE_OBJECT)) in
              liftH (addChild base funcName (Some o))
          end in
        let* c := liftH (load_link link) in
        let* funcName := getTkStr in
        let* _ := matchTk LEXER_ID in
        addNative_path n' (var c) funcName
      else ret (base, funcName)
  end.

(** [Interpreter::addNative]; the function throws outside any [try], so a
    throw leaves [l] on the lexer of the descriptor. *)
Definition addNative (funcDesc : string) (ptr : option N) (userdata : N) : M unit :=
  let* oldLex := getL in
  let* _ := setL (Some (Lexer_new funcDesc)) in
  let* r := getRoot in
  let* _ := matchTk LEXER_RESERVED_FUNCTION in
  let* funcName := getTkStr in
  let* _ := matchTk LEXER_ID in
  let* n := textFuel in
  let* (base, funcName) := addNative_path n r funcName in
  let* funcVar := liftH (alloc (setCallback ptr userdata
                    (Variable_data TINYJS_BLANK_DATA (Z.lor VARIABLE_FUNCTION VARIABLE_NATIVE)))) in
  let* _ := parseFunctionArguments funcVar in
  let* _ := setL oldLex in
  let* _ := liftH (addChild base funcName (Some funcVar)) in
  ret tt.

(** The elements of [path] between dots. *)
Fixpoint splitPath (path : string) (seg : string) : list string :=
  match path with
  | EmptyString => [seg]
  | String c r => if Ascii.eqb c "." then seg :: splitPath r EmptyString
                  else splitPath r (push_back seg c)
  end.

Fixpoint getScriptVariable_walk (els : list string) (v : option addr) : H (option addr) :=
  match els, v with
  | [], _ => ret v
  | _, None => ret None
  | el :: rest, Some a =>
      let* varl := findChild a el in
      match varl with
      | Some k => let* c := load_link k in getScriptVariable_walk rest (Some (var c))
      | None => getScriptVariable_walk rest None
      end
  end.

(** [Interpreter::getScriptVariable] *)
Definition getScriptVariable (path : string) : M (option addr) :=
  let* r := getRoot in
  match path with
  | EmptyString => ret (Some r)
  | _ => liftH (getScriptVariable_walk (splitPath path EmptyString) (Some r))
  end.

(** [Interpreter::getVariable]: the text of the variable, if there is one. *)
Definition getVariable (path : string) : M (option string) :=
  let* v := getScriptVariable path in
  match v with
  | Some a => let* s := liftH (getString a) in ret (Some s)
  | None => ret None
  end.

(** [Interpreter::setVariable] *)
Definition setVariable (path : string) (varData : string) : M bool :=
  let* v := getScriptVariable path in
  match v with
  | Some a =>
      let* c := liftH (load a) in
      let* _ :=
        if isInt c then liftH (store a (setInt (strtol (c_str varData) 0) c))
        else if isDouble c then liftH (store a (setDouble (strtod (c_str varData)) c))
        else liftH (store a (setString (c_str varData) c)) in
      ret true
  | None => ret false
  end.

(** A host without native functions: no callback is ever registered, so
    none can be called. *)
Definition no_natives (run : string -> M unit) (eval : string -> M VariableLink)
           (cb : N) (c : addr) (data : N) : M unit :=
  crash BadPointer.

(* ================================================================== *)
(** * Notions the properties are stated with *)

(* ------------------------------------------------------------------ *)
(** ** Heaps *)

(** Nothing lives at or above the next address to be handed out. *)
Definition heap_wf (h : Heap) : Prop :=
  forall p : positive, (nextAddr h <= p)%positive -> vars h !! p = None /\ links h !! p = None.

(** [heap_wf], decided on the finitely many addresses in use. *)
Definition heap_wfb (h : Heap) : bool :=
  forallb (fun e : positive * Value => (fst e <? nextAddr h)%positive) (map_to_list (vars h))
  && forallb (fun e : positive * VariableLink => (fst e <? nextAddr h)%positive)
       (map_to_list (links h)).

(** The heap that holds the variables [vs] at the addresses 1, 2, ... and
    the links [ls] at the addresses after them. *)
Definition heap_of (vs : list Value) (ls : list VariableLink) : Heap :=
  fold_left (fun h k => snd (alloc_link k h)) ls
            (fold_left (fun h v => snd (alloc v h)) vs emptyHeap).

(** The link at [k] exists and is not named [nm]. *)
Definition link_not_named (h : Heap) (nm : string) (k : positive) : Prop :=
  exists lk, links h !! k = Some lk /\ name lk <> nm.

(** Every link of a sibling chain exists. *)
Definition valid_chain (h : Heap) (chain : list positive) : Prop :=
  Forall (fun k => is_Some (links h !! k)) chain.

(** The names along a sibling chain. *)
Fixpoint childNames (h : Heap) (chain : list positive) : list string :=
  match chain with
  | [] => []
  | k :: rest =>
      match links h !! k with
      | Some lk => name lk :: childNames h rest
      | None => childNames h rest
      end
  end.

(** The indices that the numeric names of a sibling chain stand for. *)
Definition numericIndices (h : Heap) (chain : list positive) : list Z :=
  map (fun s => atoi (c_str s)) (List.filter isNumber (childNames h chain)).

(** The type tag of a variable. *)
Definition tagOf (v : Value) : Z := Z.land (flags v) VARIABLE_TYPEMASK.

(** The comparison of the type tags that [===] starts with. *)
Definition sameTag (va vb : Value) : bool :=
  Z.land (flags va) VARIABLE_TYPEMASK =? Z.land (flags vb) VARIABLE_TYPEMASK.

(* ------------------------------------------------------------------ *)
(** ** Arithmetic operators *)

Inductive arith : Type := Add | Sub | Mul | Div | Mod | BitAnd | BitOr | BitXor.

(** The token of an operator, as the lexer gives it to [mathsOp]. *)
Definition arith_token (o : arith) : Z :=
  match o with
  | Add => tok "+" | Sub => tok "-" | Mul => tok "*" | Div => tok "/"
  | Mod => tok "%" | BitAnd => tok "&" | BitOr => tok "|" | BitXor => tok "^"
  end.

(** The operator on mathematical integers; C++ division truncates. *)
Definition int_arith (o : arith) (da db : Z) : Z :=
  match o with
  | Add => da + db | Sub => da - db | Mul => da * db
  | Div => Z.quot da db | Mod => Z.rem da db
  | BitAnd => Z.land da db | BitOr => Z.lor da db | BitXor => Z.lxor da db
  end.

(** The operator on doubles, where there is one. *)
Definition double_arith (o : arith) (da db : float) : option float :=
  match o with
  | Add => Some (PrimFloat.add da db) | Sub => Some (PrimFloat.sub da db)
  | Mul => Some (PrimFloat.mul da db) | Div => Some (PrimFloat.div da db)
  | _ => None
  end.

Definition divides (o : arith) : bool :=
  match o with Div | Mod => true | _ => false end.

(* ------------------------------------------------------------------ *)
(** ** Host calls on a fresh interpreter *)

(** [evaluate(code)] on a fresh interpreter. *)
Definition ev (code : string) : outcome string :=
  fst (evaluate no_natives 100 code Interpreter_new).

(** [execute(code)] on a fresh interpreter. *)
Definition run_script (code : string) : outcome unit * Interp :=
  execute_ no_natives (Z.to_nat 100000) code Interpreter_new.

(** The outcome of [execute(code)] and [getVariable(path)] after it. *)
Definition report (code path : string) : outcome unit * outcome (option string) :=
  let r := run_script code in
  (fst r, fst (getVariable path (snd r))).

(** The outcome of [execute(code)] with the lexer pointer and the scope
    stack it leaves. *)
Definition aftermath (code : string) : outcome unit * option Lexer * list addr :=
  let r := run_script code in
  (fst r, l (snd r), scopes (snd r)).

(** The state in which [execute] and [evaluateComplex] start on [code]. *)
Definition entered (code : string) (st : Interp) : Interp :=
  set_scopes [root st] (set_l (Some (Lexer_new code)) st).

(** A counting loop that leaves its condition at [bound]. *)
Definition loop_to (bound : string) : string :=
  "var i=0; while(i<" ++ bound ++ "){ i = i+1; }".

(** The script [1 === "1"]. *)
Definition src_1_teq_str1 : string := "1 === " ++ str1 dquote ++ "1" ++ str1 dquote.

(** [evaluateComplex(getParsableString(v))] compared with [v] by [equals]. *)
Definition round_trip (v : Value) : M bool :=
  let* a := liftH (alloc v) in
  let* s := liftH (getParsableString a) in
  let* r := evaluateComplex no_natives 100 s in
  liftH (equals (var r) a).

(** The text [getParsableString(v)] and what [evaluate] makes of it. *)
Definition reparsed (v : Value) : M (string * string) :=
  let* a := liftH (alloc v) in
  let* s := liftH (getParsableString a) in
  let* r := evaluate no_natives 100 s in
  ret (s, r).

(* ------------------------------------------------------------------ *)
(** ** The structure below a variable *)

(** The fields of a variable and, under the names of its links, the
    structures below its children; the child named [prototype] is not
    followed. *)
Inductive Tree : Type :=
| Node (self : positive) (tflags : Z) (tdata : string) (tint : Z) (tdouble : float)
       (names : list string) (kids : list Tree)
| Shared (target : positive).

Fixpoint readKids (rd : positive -> option Tree) (h : Heap) (chain : list positive)
  : option (list string * list Tree) :=
  match chain with
  | [] => Some ([], [])
  | k :: rest =>
      match links h !! k with
      | None => None
      | Some lk =>
          match (if String.eqb (name lk) TINYJS_PROTOTYPE_CLASS
                 then Some (Shared (var lk)) else rd (var lk)),
                readKids rd h rest with
          | Some t, Some (ns, ts) => Some (name lk :: ns, t :: ts)
          | _, _ => None
          end
      end
  end.

(** The structure below [v], to the depth [n]. *)
Fixpoint readTree (n : nat) (h : Heap) (v : positive) : option Tree :=
  match n with
  | O => None
  | S n' =>
      match vars h !! v with
      | None => None
      | Some vv =>
          match readKids (readTree n' h) h (children vv) with
          | Some (ns, ts) =>
              Some (Node v (flags vv) (stringData vv) (intData vv) (doubleData vv) ns ts)
          | None => None
          end
      end
  end.

(** The addresses of the variables of a structure, the shared ones apart. *)
Fixpoint tree_nodes (t : Tree) : list positive :=
  match t with
  | Node a _ _ _ _ _ kids => a :: flat_map tree_nodes kids
  | Shared _ => []
  end.

(** The flags of a copy: the type tags of the source, and [addChild] makes
    an object of an undefined variable that is given a child. *)
Definition copiedFlags (f : Z) (kids : list Tree) : Z :=
  let tag := Z.land f VARIABLE_TYPEMASK in
  match kids with
  | [] => tag
  | _ => if tag =? VARIABLE_UNDEFINED then VARIABLE_OBJECT else tag
  end.

(** A structure and its copy: the same fields and names at other
    addresses, the same target where the child is shared. *)
Inductive isCopy : Tree -> Tree -> Prop :=
| copy_node a a' f d i x names kids kids' :
    Forall2 isCopy kids kids' ->
    isCopy (Node a f d i x names kids) (Node a' (copiedFlags f kids) d i x names kids')
| copy_shared p : isCopy (Shared p) (Shared p).

(** What [deepCopy] with fuel [n] does on every structure of depth [n]. *)
Definition copy_ok (n : nat) : Prop :=
  forall (h : Heap) (v : positive) (t : Tree),
    heap_wf h -> readTree n h v = Some t ->
    exists c h' t',
      deepCopy n v h = (Ok c, h') /\ heap_wf h' /\
      (nextAddr h <= nextAddr h')%positive /\
      (forall p, (p < nextAddr h)%positive ->
                 vars h' !! p = vars h !! p /\ links h' !! p = links h !! p) /\
      readTree n h' c = Some t' /\ isCopy t t' /\
      Forall (fun p => (nextAddr h <= p)%positive) (tree_nodes t').

(** The heap after [addChild d nm (Some c)]. *)
Definition withChild (h : Heap) (d c : positive) (nm : string) (vd : Value) : Heap :=
  mkHeap (<[d := set_children (children vd ++ [nextAddr h])
                   (if isUndefined vd then set_flags VARIABLE_OBJECT vd else vd)]> (vars h))
         (<[nextAddr h := mkLink nm c true]> (links h))
         (Pos.succ (nextAddr h)).

(** What [equals] answers on two distinct variables with the same tag and
    the same scalar fields, by tag. *)
Definition sameFieldsEqual (tag : Z) (d : float) : bool :=
  if (tag =? VARIABLE_ARRAY) || (tag =? VARIABLE_OBJECT) then false
  else if tag =? VARIABLE_DOUBLE then PrimFloat.eqb d d
  else true.

(* ------------------------------------------------------------------ *)
(** ** Postfix increment and decrement *)

(** The variable that [x++] ([up]) or [x--] puts in the place of [vx]. *)
Definition stepped (up : bool) (vx : Value) : Value :=
  if isDouble vx then
    Variable_double ((if up then PrimFloat.add else PrimFloat.sub)
                       (getDouble vx) (double_of_long 1))
  else Variable_int (if up then getInt vx + 1 else getInt vx - 1).

Definition postfix_token (up : bool) : Z :=
  if up then LEXER_PLUSPLUS else LEXER_MINUSMINUS.

(** The heap that [postfix] leaves: the constant one, the result of the
    addition, and a fresh link to the variable that [k] pointed to. *)
Definition postfix_heap (h : Heap) (k : positive) (lk : VariableLink) (up : bool)
           (vx : Value) : Heap :=
  let one := nextAddr h in
  let res := Pos.succ one in
  let oldValue := Pos.succ res in
  mkHeap (<[res := stepped up vx]> (<[one := Variable_int 1]> (vars h)))
         (<[k := mkLink (name lk) res (owned lk)]>
            (<[oldValue := mkLink TINYJS_TEMP_NAME (var lk) false]> (links h)))
         (Pos.succ oldValue).

(* ------------------------------------------------------------------ *)
(** ** Sample heaps and states *)

(** Two integers, at the addresses 1 and 2. *)
Definition heap_ints (x y : Z) : Heap := heap_of [Variable_int x; Variable_int y] [].

(** The integer 1 and the string [1]. *)
Definition heap_1_str1 : Heap := heap_of [Variable_int 1; Variable_string "1"] [].

(** The array [[10, , 20]]: the elements 0 and 2, no element 1. *)
Definition array_0_2 : Value :=
  set_children [4; 5]%positive (Variable_data TINYJS_BLANK_DATA VARIABLE_ARRAY).

Definition heap_array : Heap :=
  heap_of [array_0_2; Variable_int 10; Variable_int 20]
          [mkLink "0" 2%positive true; mkLink "2" 3%positive true].

(** The object [{ x : 5 }] and the structure below it. *)
Definition heap_point : Heap :=
  heap_of [set_children [3%positive] (Variable_data TINYJS_BLANK_DATA VARIABLE_OBJECT);
           Variable_int 5]
          [mkLink "x" 2%positive true].

Definition tree_point : Tree :=
  Node 1 VARIABLE_OBJECT TINYJS_BLANK_DATA 0 PrimFloat.zero ["x"]
       [Node 2 VARIABLE_INTEGER TINYJS_BLANK_DATA 5 PrimFloat.zero [] []].

(** The object [{}]. *)
Definition heap_object : Heap := heap_of [Variable_data TINYJS_BLANK_DATA VARIABLE_OBJECT] [].

(** The interpreter after [var x = 5;], in the global scope, with [++]
    as the text that is left to read; [x] is the link 9 to the variable 10. *)
Definition state_x5 : Interp :=
  let st := snd (run_script "var x = 5;") in
  set_l (Some (Lexer_new "++")) (set_scopes [root st] st).

(** A string that holds one carriage return. *)
Definition cr_string : Value := Variable_string (str1 ch_cr).

(** The double 1e-7. *)
Definition tiny_double : Value := Variable_double (double_of_ratio false 1 10000000).


(* ------------------------------------------------------------------ *)
(** ** Notions for the properties of the other functions *)

(** The first link of a sibling chain that is named [nm]: what the walk
    of [Variable::findChild] finds on a chain whose links all exist. *)
Fixpoint firstNamed (h : Heap) (nm : string) (chain : list positive) : option positive :=
  match chain with
  | [] => None
  | k :: rest =>
      match links h !! k with
      | Some lk => if String.eqb (name lk) nm then Some k else firstNamed h nm rest
      | None => None
      end
  end.

(** The text that [getString] returns for a variable. *)
Definition textOf (v : Value) : string :=
  if isInt v then take_chars 31 (itoa (intData v))
  else if isDouble v then format_f (doubleData v)
  else if isNull v then "null"
  else if isUndefined v then "undefined"
  else stringData v.

(** The heap after [getString a]: the text of a number is kept in the
    string field of its variable. *)
Definition printed (h : Heap) (a : positive) (va : Value) : Heap :=
  if isInt va || isDouble va
  then mkHeap (<[a := set_stringData (textOf va) va]> (vars h)) (links h) (nextAddr h)
  else h.

(** The operators of [mathsOp] other than [===] and [!==]. *)
Definition plain_op (op : Z) : bool :=
  negb ((op =? LEXER_TYPEEQUAL) || (op =? LEXER_NTYPEEQUAL)).

(** Numeric or undefined: the operands that [mathsOp] computes on as
    numbers. *)
Definition countsAsNumber (v : Value) : bool := isNumeric v || isUndefined v.

(** An empty array and the empty string. *)
Definition heap_array_str : Heap :=
  heap_of [Variable_data TINYJS_BLANK_DATA VARIABLE_ARRAY; Variable_string TINYJS_BLANK_DATA] [].

(** The double that is not a number, and the integer 7. *)
Definition heap_nan_7 : Heap := heap_of [Variable_double PrimFloat.nan; Variable_int 7] [].

(** The link at [k] exists and does not lead to the variable [c]. *)
Definition link_not_to (h : Heap) (c : positive) (k : positive) : Prop :=
  exists lk, links h !! k = Some lk /\ var lk <> c.

(** A chain without the link [k]. *)
Definition without (k : positive) (chain : list positive) : list positive :=
  List.filter (fun x => negb (Pos.eqb x k)) chain.

(** The highest index among the numeric names of a sibling chain, [hi]
    when none is higher: what the loop of [getArrayLength] computes on a
    chain whose links all exist. *)
Fixpoint highestName (h : Heap) (chain : list positive) (hi : Z) : Z :=
  match chain with
  | [] => hi
  | k :: rest =>
      match links h !! k with
      | Some lk =>
          if isNumber (name lk)
          then highestName h rest (Z.max hi (atoi (c_str (name lk))))
          else highestName h rest hi
      | None => hi
      end
  end.

Definition topIndex (h : Heap) (chain : list positive) : Z := highestName h chain (-1).

(** The character [k] places after the two that the lexer holds. *)
Definition peek (l : Lexer) (k : Z) : ascii :=
  if dataPos l + k <? dataEnd l then charAt (data l) (dataPos l + k) else NUL.

(** The lexer stands before the text [t]: its two characters are the
    first two of [t] and the buffer goes on with the others; after the
    text come NULs. *)
Definition reads (l : Lexer) (t : list ascii) : Prop :=
  currCh l = nth 0 t NUL /\ nextCh l = nth 1 t NUL /\
  forall k : nat, peek l (Z.of_nat k) = nth (2 + k) t NUL.

(** A character that [getJSString] and the lexer agree on: a line feed
    or a character from the space to DEL. *)
Definition plainChar (c : ascii) : bool :=
  Ascii.eqb c ch_lf || ((32 <=? char_code c) && (char_code c <=? 127)).

Fixpoint plainString (s : string) : bool :=
  match s with
  | EmptyString => true
  | String c r => plainChar c && plainString r
  end.

(** The condition of the loop over a string in double quotes. *)
Definition inDqString (l : Lexer) : bool :=
  nonzero (currCh l) && negb (Ascii.eqb (currCh l) dquote).

(** The state after [factor] has read a literal: the new variable [v],
    a link to it that nothing owns, and the lexer at the next token. *)
Definition afterLiteral (st : Interp) (lx : Lexer) (v : Value) : Interp :=
  mkInterp
    (mkHeap (<[nextAddr (heap st) := v]> (vars (heap st)))
            (<[Pos.succ (nextAddr (heap st))
               := mkLink TINYJS_TEMP_NAME (nextAddr (heap st)) false]> (links (heap st)))
            (Pos.succ (Pos.succ (nextAddr (heap st)))))
    (root st) (Some (getNextToken lx)) (scopes st)
    (stringClass st) (objectClass st) (arrayClass st).

(** An interpreter whose global scope is the object [{ x : 5 }] and
    whose stack holds that scope. *)
Definition state_point : Interp :=
  mkInterp heap_point 1%positive None [1%positive] 1%positive 1%positive 1%positive.

(** An interpreter whose global scope is the object [{ s : hi }], with
    a string under [s]. *)
Definition state_greeting : Interp :=
  mkInterp (heap_of [set_children [3%positive] (Variable_data TINYJS_BLANK_DATA VARIABLE_OBJECT);
                     Variable_string "hi"]
                    [mkLink "s" 2%positive true])
           1%positive None [1%positive] 1%positive 1%positive 1%positive.

(** A name without dots: a path of one element. *)
Fixpoint dotless (s : string) : bool :=
  match s with
  | EmptyString => true
  | String c r => negb (Ascii.eqb c ".") && dotless r
  end.

(* ------------------------------------------------------------------ *)
(** ** The natives of arrays (TinyJS_Functions.cpp) *)

(** [Variable::getParameter] *)
Definition getParameter (this : addr) (name : string) : H addr :=
  let* k := findChildOrCreate this name VARIABLE_UNDEFINED in
  let* lk := load_link k in
  ret (var lk).

(** [Variable::getReturnVar] *)
Definition getReturnVar (this : addr) : H addr := getParameter this TINYJS_RETURN_VAR.

(** The loop of [scArrayContains] over the children of the array, from
    the link [v] on: it stops at the first child that equals [obj]. *)
Fixpoint contains_loop (chain : list addr) (obj : addr) : H bool :=
  match chain with
  | [] => ret false
  | v :: rest =>
      let* lk := load_link v in
      let* e := equals (var lk) obj in
      if e then ret true else contains_loop rest obj
  end.

(** [scArrayContains]: [Array.contains(obj)] *)
Definition scArrayContains (c : addr) : H unit :=
  let* obj := getParameter c "obj" in
  let* this := getParameter c "this" in
  let* a := load this in
  let* contains := contains_loop (children a) obj in
  let* r := getReturnVar c in
  let* rv := load r in
  store r (setInt (if contains then 1 else 0) rv).

(** The first loop of [scArrayRemove]: the indices of the children that
    equal [obj], in the order of the children. *)
Fixpoint removed_loop (chain : list addr) (obj : addr) : H (list Z) :=
  match chain with
  | [] => ret []
  | v :: rest =>
      let* lk := load_link v in
      let* e := equals (var lk) obj in
      let* more := removed_loop rest obj in
      ret (if e then getIntName lk :: more else more)
  end.

(** The inner loop of [scArrayRemove]: [newn] is decremented once for
    every removed index that is not above [n]. *)
Definition renumbered (removedIndices : list Z) (n : Z) : Z :=
  fold_left (fun newn r => if r <=? n then to_int (newn - 1) else newn) removedIndices n.

(** The second loop of [scArrayRemove]. *)
Fixpoint renumber_loop (chain : list addr) (removedIndices : list Z) : H unit :=
  match chain with
  | [] => ret tt
  | v :: rest =>
      let* lk := load_link v in
      let n := getIntName lk in
      let newn := renumbered removedIndices n in
      let* _ := if negb (newn =? n) then store_link v (setIntName newn lk) else ret tt in
      renumber_loop rest removedIndices
  end.

(** [scArrayRemove]: [Array.remove(obj)] *)
Definition scArrayRemove (c : addr) : H unit :=
  let* obj := getParameter c "obj" in
  let* this := getParameter c "this" in
  let* a := load this in
  let* removedIndices := removed_loop (children a) obj in
  let* this := getParameter c "this" in
  let* a := load this in
  renumber_loop (children a) removedIndices.

(* ------------------------------------------------------------------ *)
(** ** Notions for the natives of arrays *)

(** What [equals] answers for two variables, from what they hold. *)
Definition sameValue (a b : positive) (va vb : Value) : bool :=
  if isUndefined va && isUndefined vb then true
  else if countsAsNumber va && countsAsNumber vb then
    if negb (isDouble va) && negb (isDouble vb)
    then getInt va =? getInt vb
    else PrimFloat.eqb (getDouble va) (getDouble vb)
  else if isArray va || isObject va then Pos.eqb a b
  else String.eqb (textOf va) (textOf vb).

(** Two states of a variable between which only the kept text of a
    number may differ. *)
Definition similar (v v' : Value) : Prop :=
  flags v' = flags v /\ children v' = children v /\ intData v' = intData v /\
  doubleData v' = doubleData v /\ textOf v' = textOf v.

(** A later heap with the same links, in which every variable of the
    earlier heap is still there and similar. *)
Definition grown (h h' : Heap) : Prop :=
  links h' = links h /\
  forall p v, vars h !! p = Some v -> exists v', vars h' !! p = Some v' /\ similar v v'.

(** The child behind the link [k] equals the variable [obj], which
    holds [vo]. *)
Definition holdsEqual (h : Heap) (obj : positive) (vo : Value) (k : positive) : bool :=
  match links h !! k with
  | Some lk =>
      match vars h !! var lk with
      | Some v => sameValue (var lk) obj v vo
      | None => false
      end
  | None => false
  end.

(** The link at [k] exists and leads to a variable. *)
Definition leads (h : Heap) (k : positive) : Prop :=
  exists lk v, links h !! k = Some lk /\ vars h !! var lk = Some v.

(** The indices, read off the names, of the children that equal [obj]. *)
Fixpoint equalIndices (h : Heap) (obj : positive) (vo : Value) (chain : list positive) : list Z :=
  match chain with
  | [] => []
  | k :: rest =>
      match links h !! k with
      | Some lk =>
          if holdsEqual h obj vo k
          then getIntName lk :: equalIndices h obj vo rest
          else equalIndices h obj vo rest
      | None => []
      end
  end.

(** The link [lk] after the second loop of [scArrayRemove]. *)
Definition renamed (removedIndices : list Z) (lk : VariableLink) : VariableLink :=
  if renumbered removedIndices (getIntName lk) =? getIntName lk then lk
  else setIntName (renumbered removedIndices (getIntName lk)) lk.

(** The variable [c] has a child named [nm], and the first such child
    leads to [x]: what [getParameter] finds in the scope of a call. *)
Definition param (h : Heap) (c : positive) (nm : string) (x : positive) : Prop :=
  exists vc k lk,
    vars h !! c = Some vc /\ valid_chain h (children vc) /\
    firstNamed h nm (children vc) = Some k /\ links h !! k = Some lk /\ var lk = x.

(** The scope of the call [a.f(20)], at the address 1, for the array
    [a = [10, 20, 30]]: its children [this], [obj] and [return] lead to
    the array at 2, the integer 20 at 6 and an undefined variable at 7. *)
Definition heap_call : Heap :=
  heap_of [set_children [8; 9; 10]%positive (Variable_data TINYJS_BLANK_DATA VARIABLE_OBJECT);
           set_children [11; 12; 13]%positive (Variable_data TINYJS_BLANK_DATA VARIABLE_ARRAY);
           Variable_int 10; Variable_int 20; Variable_int 30;
           Variable_int 20; Variable_undefined]
          [mkLink "this" 2%positive true; mkLink "obj" 6%positive true;
           mkLink TINYJS_RETURN_VAR 7%positive true;
           mkLink "0" 3%positive true; mkLink "1" 4%positive true; mkLink "2" 5%positive true].

(* ------------------------------------------------------------------ *)
(** ** [Integer.parseInt] (TinyJS_Functions.cpp) *)

(** [scIntegerParseInt]: [Integer.parseInt(str)] *)
Definition scIntegerParseInt (c : addr) : H unit :=
  let* p := getParameter c "str" in
  let* str := getString p in
  let val := to_int (strtol (c_str str) 0) in
  let* r := getReturnVar c in
  let* rv := load r in
  store r (setInt val rv).

(** The scope of the call [Integer.parseInt("-42")], at the address 1:
    its children [str] and [return] lead to the string at 2 and to an
    undefined variable at 3. *)
Definition heap_parse : Heap :=
  heap_of [set_children [4; 5]%positive (Variable_data TINYJS_BLANK_DATA VARIABLE_OBJECT);
           Variable_string "-42"; Variable_undefined]
          [mkLink "str" 2%positive true; mkLink TINYJS_RETURN_VAR 3%positive true].

(* ------------------------------------------------------------------ *)
(** ** Notions for the assignment to a global *)

(** A character of an identifier after the first. *)
Definition isAlnum (c : ascii) : bool := isAlpha c || isNumericCh c.

Fixpoint allAlnum (s : string) : bool :=
  match s with
  | EmptyString => true
  | String c r => isAlnum c && allAlnum r
  end.

(** A text that the lexer reads as one identifier: a letter or an
    underscore, then letters, digits and underscores, and not one of the
    reserved words. *)
Definition identifier (s : string) : bool :=
  match s with
  | EmptyString => false
  | String c r => isAlpha c && allAlnum r && (reservedWord s =? LEXER_ID)
  end.

(** Every link of a sibling chain exists and owns its variable, as the
    links that [addChild] makes do. *)
Definition owned_chain (h : Heap) (chain : list positive) : Prop :=
  Forall (fun k => exists lk, links h !! k = Some lk /\ owned lk = true) chain.

(** The script that assigns the integer [z] to the name [nm]. *)
Definition assignment (nm : string) (z : Z) : string := nm ++ "=" ++ itoa z.

(** The state after [factor] has read a name that no scope has: a new
    undefined variable, a link to it that bears the name and that
    nothing owns, and the lexer at the next token. *)
Definition afterUndeclared (st : Interp) (lx : Lexer) : Interp :=
  mkInterp
    (mkHeap (<[nextAddr (heap st) := Variable_undefined]> (vars (heap st)))
            (<[Pos.succ (nextAddr (heap st))
               := mkLink (tkStr lx) (nextAddr (heap st)) false]> (links (heap st)))
            (Pos.succ (Pos.succ (nextAddr (heap st)))))
    (root st) (Some (getNextToken lx)) (scopes st)
    (stringClass st) (objectClass st) (arrayClass st).

(* ------------------------------------------------------------------ *)
(** ** Notions for the declaration of a variable *)

(** A character that can follow the digits of an integer: not a digit,
    and none of the characters that go on a number. *)
Definition endsNumber (c : ascii) : bool :=
  negb (isNumericCh c || Ascii.eqb c "." || Ascii.eqb c "e" || Ascii.eqb c "E"
        || Ascii.eqb c "x").

(** The script that declares [nm] with the integer [z]. *)
Definition declaration (nm : string) (z : Z) : string :=
  "var " ++ nm ++ "=" ++ itoa z ++ ";".

(* ================================================================== *)
(** * Properties *)

(** A conjunction of closed equations, each settled by running the code. *)
Ltac runs :=
  repeat (lazymatch goal with |- _ /\ _ => split end); vm_compute; reflexivity.

(* ------------------------------------------------------------------ *)
(** ** Heaps and the monad *)

Lemma bind_Ok {S A B : Type} (m : SO S A) (k : A -> SO S B) (s s' : S) (a : A) :
  m s = (Ok a, s') -> bind m k s = k a s'.
Proof. intros E. unfold bind. rewrite E. reflexivity. Qed.

Lemma load_Some (h : Heap) (a : positive) (v : Value) :
  vars h !! a = Some v -> load a h = (Ok v, h).
Proof. intros E. unfold load. rewrite E. reflexivity. Qed.

Lemma load_link_Some (h : Heap) (k : positive) (lk : VariableLink) :
  links h !! k = Some lk -> load_link k h = (Ok lk, h).
Proof. intros E. unfold load_link. rewrite E. reflexivity. Qed.

Lemma allocated_var (h : Heap) (p : positive) (v : Value) :
  heap_wf h -> vars h !! p = Some v -> (p < nextAddr h)%positive.
Proof.
  intros Hwf Hp. destruct (Pos.ltb_spec p (nextAddr h)) as [|Hge]; [assumption|].
  destruct (Hwf p Hge) as [E _]. congruence.
Qed.

Lemma allocated_link (h : Heap) (p : positive) (k : VariableLink) :
  heap_wf h -> links h !! p = Some k -> (p < nextAddr h)%positive.
Proof.
  intros Hwf Hp. destruct (Pos.ltb_spec p (nextAddr h)) as [|Hge]; [assumption|].
  destruct (Hwf p Hge) as [_ E]. congruence.
Qed.

(** Every binding of a map whose keys pass the test [f] has a key that
    passes it. *)
Lemma bound_keys {A : Type} (m : gmap positive A) (f : positive -> bool) (p : positive) (x : A) :
  forallb (fun e : positive * A => f (fst e)) (map_to_list m) = true ->
  m !! p = Some x -> f p = true.
Proof.
  intros Hall Hp. rewrite List.forallb_forall in Hall.
  apply (Hall (p, x)). apply list_elem_of_In, elem_of_map_to_list, Hp.
Qed.

Lemma heap_wfb_sound (h : Heap) : heap_wfb h = true -> heap_wf h.
Proof.
  unfold heap_wfb. intros Hb. apply andb_prop in Hb. destruct Hb as [Hv Hl].
  intros p Hp. split.
  - destruct (vars h !! p) as [v|] eqn:E; [|reflexivity].
    pose proof (bound_keys (vars h) (fun q => (q <? nextAddr h)%positive) p v Hv E) as Hlt.
    apply Pos.ltb_lt in Hlt. lia.
  - destruct (links h !! p) as [k|] eqn:E; [|reflexivity].
    pose proof (bound_keys (links h) (fun q => (q <? nextAddr h)%positive) p k Hl E) as Hlt.
    apply Pos.ltb_lt in Hlt. lia.
Qed.

(* ------------------------------------------------------------------ *)
(** ** Arrays *)

Lemma findLink_none (h : Heap) (nm : string) (chain : list positive) :
  Forall (link_not_named h nm) chain -> findLink chain nm h = (Ok None, h).
Proof.
  induction 1 as [|k rest [lk [Hk Hn]] _ IH]; simpl; [reflexivity|].
  rewrite (bind_Ok _ _ _ _ _ (load_link_Some _ _ _ Hk)).
  apply String.eqb_neq in Hn. rewrite Hn. exact IH.
Qed.

Lemma findLink_first (h : Heap) (nm : string) (pre post : list positive) (k : positive)
      (lk : VariableLink) :
  Forall (link_not_named h nm) pre -> links h !! k = Some lk -> name lk = nm ->
  findLink (pre ++ k :: post)%list nm h = (Ok (Some k), h).
Proof.
  intros Hpre Hk Hn. induction Hpre as [|k0 rest [lk0 [Hk0 Hn0]] _ IH]; simpl.
  - rewrite (bind_Ok _ _ _ _ _ (load_link_Some _ _ _ Hk)).
    rewrite Hn, String.eqb_refl. reflexivity.
  - rewrite (bind_Ok _ _ _ _ _ (load_link_Some _ _ _ Hk0)).
    apply String.eqb_neq in Hn0. rewrite Hn0. exact IH.
Qed.

(** C10.  On a variable [a] without a child named by the decimal form of
    [i], [getArrayIndex a i] returns a variable that was not in the heap
    before, whose type tag is null and not undefined, and changes nothing
    else: [a] and its chain of children, every link and every other
    variable are as before.  When the chain has such a child, the target
    of the first one is returned and the heap is untouched. *)
Theorem C10_getArrayIndex (h : Heap) (a : positive) (va : Value) (i : Z) :
  vars h !! a = Some va ->
  (heap_wf h -> Forall (link_not_named h (itoa i)) (children va) ->
   exists r h' vr,
     getArrayIndex a i h = (Ok r, h') /\
     vars h !! r = None /\
     vars h' !! r = Some vr /\
     Z.land (flags vr) VARIABLE_TYPEMASK = VARIABLE_NULL /\
     isNull vr = true /\ isUndefined vr = false /\
     vars h' !! a = Some va /\ links h' = links h /\
     (forall p, p <> r -> vars h' !! p = vars h !! p)) /\
  (forall (pre : list positive) (k : positive) (post : list positive) (lk : VariableLink),
     children va = (pre ++ k :: post)%list ->
     Forall (link_not_named h (itoa i)) pre ->
     links h !! k = Some lk -> name lk = itoa i ->
     getArrayIndex a i h = (Ok (var lk), h)).
Proof.
  intros Ha. split.
  - intros Hwf Hnone.
    exists (nextAddr h), (mkHeap (<[nextAddr h := Variable_data TINYJS_BLANK_DATA VARIABLE_NULL]> (vars h))
                            (links h) (Pos.succ (nextAddr h))),
           (Variable_data TINYJS_BLANK_DATA VARIABLE_NULL).
    destruct (Hwf (nextAddr h)) as [Hfresh _]; [lia|].
    unfold getArrayIndex, findChild, bind.
    rewrite (load_Some _ _ _ Ha), (findLink_none _ _ _ Hnone). simpl.
    repeat split; try reflexivity; try assumption.
    + apply lookup_insert_eq.
    + rewrite lookup_insert_ne; [assumption|]. intros E. rewrite E in Hfresh. congruence.
    + intros p Hp. rewrite lookup_insert_ne; [reflexivity|congruence].
  - intros pre k post lk Hch Hpre Hk Hn.
    unfold getArrayIndex, findChild, bind.
    rewrite (load_Some _ _ _ Ha), Hch, (findLink_first _ _ _ _ _ _ Hpre Hk Hn).
    rewrite (load_link_Some _ _ _ Hk). reflexivity.
Qed.

(** C10 on the array [[10, , 20]]: the element 1 is missing, the element 2
    is the variable 3. *)
Lemma C10_getArrayIndex_sample :
  (exists r h' vr,
     getArrayIndex 1 1 heap_array = (Ok r, h') /\
     vars heap_array !! r = None /\
     vars h' !! r = Some vr /\
     Z.land (flags vr) VARIABLE_TYPEMASK = VARIABLE_NULL /\
     isNull vr = true /\ isUndefined vr = false /\
     vars h' !! 1%positive = Some array_0_2 /\ links h' = links heap_array /\
     (forall p, p <> r -> vars h' !! p = vars heap_array !! p)) /\
  getArrayIndex 1 2 heap_array = (Ok 3%positive, heap_array).
Proof.
  assert (link_not_named heap_array (itoa 1) 4) as H4
    by (eexists; split; [reflexivity|vm_compute; discriminate]).
  assert (link_not_named heap_array (itoa 1) 5) as H5
    by (eexists; split; [reflexivity|vm_compute; discriminate]).
  assert (link_not_named heap_array (itoa 2) 4) as H4'
    by (eexists; split; [reflexivity|vm_compute; discriminate]).
  destruct (C10_getArrayIndex heap_array 1 array_0_2 1 eq_refl) as [Hmissing _].
  destruct (C10_getArrayIndex heap_array 1 array_0_2 2 eq_refl) as [_ Hfound].
  split.
  - apply Hmissing.
    + apply heap_wfb_sound. vm_compute. reflexivity.
    + repeat constructor; assumption.
  - apply (Hfound [4%positive] 5%positive [] (mkLink "2" 3%positive true)).
    + reflexivity.
    + repeat constructor; assumption.
    + reflexivity.
    + reflexivity.
Defined.

Lemma highestIndex_spec (h : Heap) (chain : list positive) :
  valid_chain h chain ->
  forall hi, exists r,
    highestIndex chain hi h = (Ok r, h) /\ hi <= r /\
    (forall i, In i (numericIndices h chain) -> i <= r) /\
    (r = hi \/ In r (numericIndices h chain)).
Proof.
  induction 1 as [|k rest [lk Hk] _ IH]; intros hi.
  - exists hi. simpl.
    split; [reflexivity|]. split; [lia|]. split; [intros i []|left; reflexivity].
  - simpl. unfold bind. rewrite (load_link_Some _ _ _ Hk).
    unfold numericIndices. simpl. rewrite Hk. simpl.
    destruct (isNumber (name lk)) eqn:En.
    + destruct (IH (if hi <? atoi (c_str (name lk)) then atoi (c_str (name lk)) else hi))
        as (r & E & Hle & Hall & Hin).
      exists r. split; [exact E|]. simpl.
      destruct (Z.ltb_spec hi (atoi (c_str (name lk)))).
      * repeat split; [lia| |].
        -- intros i [<-|Hi]; [lia|]. apply Hall, Hi.
        -- destruct Hin as [->|Hin]; [right; left; reflexivity|right; right; exact Hin].
      * repeat split; [lia| |].
        -- intros i [<-|Hi]; [lia|]. apply Hall, Hi.
        -- destruct Hin as [->|Hin]; [left; reflexivity|right; right; exact Hin].
    + destruct (IH hi) as (r & E & Hle & Hall & Hin).
      exists r. repeat split; assumption.
Qed.



(* ------------------------------------------------------------------ *)
(** ** Arithmetic *)

Lemma land_mask (f m n : Z) : Z.land m n = n -> Z.land f n = Z.land (Z.land f m) n.
Proof. intros E. rewrite <- Z.land_assoc, E. reflexivity. Qed.

Lemma hasFlag_mono (v : Value) (m n : Z) :
  Z.land m n = n -> hasFlag v n = true -> hasFlag v m = true.
Proof.
  unfold hasFlag. intros E Hn.
  destruct (Z.eqb_spec (Z.land (flags v) m) 0) as [E0|]; [|reflexivity].
  rewrite (land_mask _ m n E), E0 in Hn. discriminate.
Qed.

Lemma numeric_not_undefined (v : Value) : isNumeric v = true -> isUndefined v = false.
Proof.
  intros Hn. apply (hasFlag_mono v VARIABLE_TYPEMASK) in Hn; [|reflexivity].
  unfold hasFlag in Hn. unfold isUndefined.
  destruct (Z.eqb_spec (Z.land (flags v) VARIABLE_TYPEMASK) VARIABLE_UNDEFINED) as [E|]; [|reflexivity].
  rewrite E in Hn. discriminate.
Qed.

Lemma int_is_numeric (v : Value) : isInt v = true -> isNumeric v = true.
Proof. apply hasFlag_mono. reflexivity. Qed.

(** On two numeric variables [mathsOp] is the [switch] on integers or the
    one on doubles. *)
Lemma mathsOp_numeric (h : Heap) (a b : positive) (va vb : Value) (op : Z) :
  vars h !! a = Some va -> vars h !! b = Some vb ->
  isNumeric va = true -> isNumeric vb = true ->
  (op =? LEXER_TYPEEQUAL) || (op =? LEXER_NTYPEEQUAL) = false ->
  mathsOp a b op h =
    if negb (isDouble va) && negb (isDouble vb)
    then mathsOp_int op (getInt va) (getInt vb) h
    else mathsOp_double op (getDouble va) (getDouble vb) h.
Proof.
  intros Ha Hb Na Nb Hop. unfold mathsOp. rewrite Hop.
  unfold mathsOp_maths, bind. rewrite (load_Some _ _ _ Ha), (load_Some _ _ _ Hb).
  rewrite (numeric_not_undefined _ Na), Na, Nb. simpl.
  destruct (negb (isDouble va) && negb (isDouble vb)); reflexivity.
Qed.






(* ------------------------------------------------------------------ *)
(** ** Equality *)

(** What [getString] leaves of the heap. *)
Lemma getString_ok (h : Heap) (a : positive) (va : Value) :
  vars h !! a = Some va ->
  exists s h', getString a h = (Ok s, h') /\
    links h' = links h /\ nextAddr h' = nextAddr h /\
    (forall p, is_Some (vars h !! p) -> is_Some (vars h' !! p)).
Proof.
  intros Ha. unfold getString, bind. rewrite (load_Some _ _ _ Ha).
  destruct (isInt va); [|destruct (isDouble va); [|destruct (isNull va); [|destruct (isUndefined va)]]];
    simpl; eexists _, _; (split; [reflexivity|]); simpl; repeat split; auto;
    intros p Hp; destruct (decide (a = p)) as [->|Hne];
    rewrite ?lookup_insert_eq, ?lookup_insert_ne by assumption; eauto.
Qed.

(** [==] always answers, with a boolean held as the integer 1 or 0. *)
Lemma mathsOp_maths_equal_ok (h : Heap) (a b : positive) (va vb : Value) :
  vars h !! a = Some va -> vars h !! b = Some vb ->
  exists e h1, mathsOp_maths a b LEXER_EQUAL h = alloc (Variable_bool e) h1.
Proof.
  intros Ha Hb. unfold mathsOp_maths, bind.
  rewrite (load_Some _ _ _ Ha), (load_Some _ _ _ Hb).
  destruct (isUndefined va && isUndefined vb); [eexists _, _; reflexivity|].
  destruct ((isNumeric va || isUndefined va) && (isNumeric vb || isUndefined vb)).
  { destruct (negb (isDouble va) && negb (isDouble vb)); eexists _, _; reflexivity. }
  destruct (isArray va); [eexists _, _; reflexivity|].
  destruct (isObject va); [eexists _, _; reflexivity|].
  destruct (getString_ok h a va Ha) as (sa & h1 & Ea & _ & _ & Hdom).
  rewrite Ea.
  destruct (Hdom b) as [vb' Hb']; [eauto|].
  destruct (getString_ok h1 b vb' Hb') as (sb & h2 & Eb & _).
  rewrite Eb. eexists _, _; reflexivity.
Qed.

(** C2, with the booleans as the code holds them.  [===] answers the
    integer 1 exactly when the type tags of the two flag fields are equal
    and [==] on the two variables answers true, and the integer 0
    otherwise; [!==] answers the other one of the two.  A boolean is an
    integer, so [evaluate] prints it as 1 or 0: [1 === "1"] and
    [null === undefined] give 0, [undefined == undefined] gives 1. *)
Theorem C2_strict_equality (h : Heap) (a b : positive) (va vb : Value) :
  vars h !! a = Some va -> vars h !! b = Some vb ->
  (exists c h1 vc,
     mathsOp a b LEXER_EQUAL h = (Ok c, h1) /\ vars h1 !! c = Some vc /\
     let eql := sameTag va vb && getBool vc in
     (exists r h2 vr,
        mathsOp a b LEXER_TYPEEQUAL h = (Ok r, h2) /\ vars h2 !! r = Some vr /\
        vr = Variable_int (if eql then 1 else 0) /\ getBool vr = eql) /\
     (exists r h2 vr,
        mathsOp a b LEXER_NTYPEEQUAL h = (Ok r, h2) /\ vars h2 !! r = Some vr /\
        vr = Variable_int (if eql then 0 else 1) /\ getBool vr = negb eql)) /\
  ev src_1_teq_str1 = Ok "0" /\
  ev "null === undefined" = Ok "0" /\
  ev "undefined == undefined" = Ok "1".
Proof.
  intros Ha Hb. split; [|runs].
  destruct (mathsOp_maths_equal_ok h a b va vb Ha Hb) as (e & h1 & E).
  exists (nextAddr h1),
         (mkHeap (<[nextAddr h1 := Variable_bool e]> (vars h1)) (links h1) (Pos.succ (nextAddr h1))),
         (Variable_bool e).
  split; [exact E|]. split; [apply lookup_insert_eq|].
  assert (getBool (Variable_bool e) = e) as Ge by (destruct e; reflexivity).
  rewrite Ge. cbv zeta.
  unfold mathsOp. simpl. unfold bind.
  rewrite (load_Some _ _ _ Ha), (load_Some _ _ _ Hb).
  fold (sameTag va vb). destruct (sameTag va vb); simpl.
  - rewrite E. unfold alloc, load, new_bool, ret. cbn [vars links nextAddr].
    rewrite lookup_insert_eq, Ge.
    split; eexists _, _, _; (split; [reflexivity|]); cbn [vars links nextAddr];
      (split; [apply lookup_insert_eq|]); destruct e; split; reflexivity.
  - unfold alloc, new_bool, ret.
    split; eexists _, _, _; (split; [reflexivity|]); cbn [vars links nextAddr];
      (split; [apply lookup_insert_eq|]); split; reflexivity.
Qed.

(** C2 as it stands fails on its own examples: what [evaluate] returns is
    the text of an integer, never [true] or [false]. *)
Lemma C2_prints_integers :
  ev src_1_teq_str1 = Ok "0" /\
  ev "null === undefined" = Ok "0" /\
  ev "undefined == undefined" = Ok "1" /\
  ev "1 == 1" = Ok "1".
Proof. runs. Qed.

(** C2 on the integer 1 and the string [1]: the tags differ, so [===]
    answers 0 and [!==] answers 1. *)
Lemma C2_strict_equality_sample :
  (exists r h2 vr,
     mathsOp 1 2 LEXER_TYPEEQUAL heap_1_str1 = (Ok r, h2) /\ vars h2 !! r = Some vr /\
     vr = Variable_int 0 /\ getBool vr = false) /\
  (exists r h2 vr,
     mathsOp 1 2 LEXER_NTYPEEQUAL heap_1_str1 = (Ok r, h2) /\ vars h2 !! r = Some vr /\
     vr = Variable_int 1 /\ getBool vr = true).
Proof.
  destruct (C2_strict_equality heap_1_str1 1 2 (Variable_int 1) (Variable_string "1")
              eq_refl eq_refl) as [(c & h1 & vc & _ & _ & Hstrict) _].
  exact Hstrict.
Defined.

(* ------------------------------------------------------------------ *)
(** ** Copies *)

Lemma readKids_inv (rd : positive -> option Tree) (h : Heap) (k : positive)
      (rest : list positive) (ns : list string) (ts : list Tree) :
  readKids rd h (k :: rest) = Some (ns, ts) ->
  exists lk t ns' ts',
    links h !! k = Some lk /\
    (if String.eqb (name lk) TINYJS_PROTOTYPE_CLASS
     then Some (Shared (var lk)) else rd (var lk)) = Some t /\
    readKids rd h rest = Some (ns', ts') /\
    ns = name lk :: ns' /\ ts = t :: ts'.
Proof.
  simpl. destruct (links h !! k) as [lk|]; [|discriminate].
  destruct (if String.eqb (name lk) TINYJS_PROTOTYPE_CLASS
            then Some (Shared (var lk)) else rd (var lk)) as [t|] eqn:Et; [|discriminate].
  destruct (readKids rd h rest) as [[ns' ts']|]; [|discriminate].
  intros [= <- <-]. exists lk, t, ns', ts'.
  split; [reflexivity|]. split; [exact Et|]. repeat split; reflexivity.
Qed.

Lemma readTree_inv (n : nat) (h : Heap) (v : positive) (t : Tree) :
  readTree (S n) h v = Some t ->
  exists vv ns ts,
    vars h !! v = Some vv /\
    readKids (readTree n h) h (children vv) = Some (ns, ts) /\
    t = Node v (flags vv) (stringData vv) (intData vv) (doubleData vv) ns ts.
Proof.
  simpl. destruct (vars h !! v) as [vv|]; [|discriminate].
  destruct (readKids (readTree n h) h (children vv)) as [[ns ts]|] eqn:Ek; [|discriminate].
  intros [= <-]. exists vv, ns, ts. split; [reflexivity|]. split; [exact Ek|reflexivity].
Qed.

(** Every node of a structure read from a heap is allocated in it. *)
Lemma readTree_allocated (n : nat) :
  forall (h : Heap) (v : positive) (t : Tree),
    heap_wf h -> readTree n h v = Some t ->
    Forall (fun p => (p < nextAddr h)%positive) (tree_nodes t).
Proof.
  induction n as [|n IH]; intros h v t Hwf Hr; [discriminate|].
  apply readTree_inv in Hr. destruct Hr as (vv & ns & ts & Hv & Hk & ->).
  simpl. constructor; [eapply allocated_var; eassumption|].
  apply Forall_flat_map.
  clear Hv. revert ns ts Hk. induction (children vv) as [|k rest IHc]; intros ns ts Hk.
  - simpl in Hk. injection Hk as <- <-. constructor.
  - apply readKids_inv in Hk.
    destruct Hk as (lk & t & ns' & ts' & Hl & Ht & Hrest & -> & ->).
    constructor; [|eapply IHc; eassumption].
    destruct (String.eqb (name lk) TINYJS_PROTOTYPE_CLASS).
    + injection Ht as <-. constructor.
    + eapply IH; eassumption.
Qed.

(** A structure read from a heap is read again from any heap that keeps
    the links and, but for one variable outside the structure, the
    variables. *)
Lemma readTree_stable (n : nat) :
  forall (h h' : Heap) (d v : positive) (t : Tree),
    heap_wf h ->
    (forall p, (p < nextAddr h)%positive -> p <> d -> vars h' !! p = vars h !! p) ->
    (forall p, (p < nextAddr h)%positive -> links h' !! p = links h !! p) ->
    readTree n h v = Some t -> ~ In d (tree_nodes t) ->
    readTree n h' v = Some t.
Proof.
  induction n as [|n IH]; intros h h' d v t Hwf Hv Hl Hr Hd; [discriminate|].
  apply readTree_inv in Hr. destruct Hr as (vv & ns & ts & Hvv & Hk & ->).
  simpl in Hd. simpl.
  rewrite Hv, Hvv; [|eapply allocated_var; eassumption|intros ->; apply Hd; left; reflexivity].
  assert (~ In d (flat_map tree_nodes ts)) as Hd' by (intros Hin; apply Hd; right; exact Hin).
  clear Hd Hvv.
  assert (readKids (readTree n h') h' (children vv) = Some (ns, ts)) as ->; [|reflexivity].
  revert ns ts Hk Hd'. induction (children vv) as [|k rest IHc]; intros ns ts Hk Hd'.
  - exact Hk.
  - apply readKids_inv in Hk.
    destruct Hk as (lk & t & ns' & ts' & Hlk & Ht & Hrest & -> & ->).
    simpl in Hd'. rewrite in_app_iff in Hd'.
    simpl. rewrite Hl, Hlk by (eapply allocated_link; eassumption).
    rewrite (IHc ns' ts' Hrest) by tauto.
    destruct (String.eqb (name lk) TINYJS_PROTOTYPE_CLASS).
    + injection Ht as <-. reflexivity.
    + rewrite (IH h h' d (var lk) t Hwf Hv Hl Ht) by tauto. reflexivity.
Qed.

(** [addChild] with a child at hand. *)
Lemma addChild_Some (h : Heap) (d c : positive) (nm : string) (vd : Value) :
  vars h !! d = Some vd ->
  addChild d nm (Some c) h =
    (Ok (nextAddr h),
     mkHeap (<[d := set_children (children vd ++ [nextAddr h])
                      (if isUndefined vd then set_flags VARIABLE_OBJECT vd else vd)]> (vars h))
            (<[nextAddr h := mkLink nm c true]> (links h))
            (Pos.succ (nextAddr h))).
Proof.
  intros Hd. unfold addChild, bind. rewrite (load_Some _ _ _ Hd).
  destruct (isUndefined vd); unfold store, ret, alloc_link, load; cbn [vars links nextAddr].
  - rewrite lookup_insert_eq. cbn [vars links nextAddr].
    rewrite insert_insert_eq. reflexivity.
  - rewrite Hd. reflexivity.
Qed.

Lemma withChild_wf (h : Heap) (d c : positive) (nm : string) (vd : Value) :
  heap_wf h -> (d < nextAddr h)%positive -> heap_wf (withChild h d c nm vd).
Proof.
  intros Hwf Hd p Hp. unfold withChild in *. cbn [vars links nextAddr] in *.
  destruct (Hwf p) as [Hv Hl]; [lia|].
  rewrite !lookup_insert_ne by lia. split; assumption.
Qed.

Lemma withChild_vars (h : Heap) (d c : positive) (nm : string) (vd : Value) (p : positive) :
  p <> d -> vars (withChild h d c nm vd) !! p = vars h !! p.
Proof. intros Hp. unfold withChild. cbn [vars]. apply lookup_insert_ne. congruence. Qed.

Lemma withChild_links (h : Heap) (d c : positive) (nm : string) (vd : Value) (p : positive) :
  (p < nextAddr h)%positive -> links (withChild h d c nm vd) !! p = links h !! p.
Proof. intros Hp. unfold withChild. cbn [links]. apply lookup_insert_ne. lia. Qed.

Lemma promoted_flags (vd : Value) (c : list positive) (rest : list positive) :
  let vd2 := set_children c (if isUndefined vd then set_flags VARIABLE_OBJECT vd else vd) in
  match rest with
  | [] => flags vd2
  | _ => if isUndefined vd2 then VARIABLE_OBJECT else flags vd2
  end = if isUndefined vd then VARIABLE_OBJECT else flags vd.
Proof.
  destruct (isUndefined vd) eqn:Eu; destruct rest; cbn; try reflexivity.
  unfold isUndefined in *. cbn. rewrite Eu. reflexivity.
Qed.

Lemma copyChildren_ok (n : nat) (h0 : Heap) (d : positive) :
  copy_ok n -> heap_wf h0 -> (nextAddr h0 <= d)%positive ->
  forall (rest : list positive) (hc : Heap) (vd : Value) (ns : list string) (ts : list Tree),
    heap_wf hc -> (d < nextAddr hc)%positive ->
    (forall p, (p < nextAddr h0)%positive ->
               vars hc !! p = vars h0 !! p /\ links hc !! p = links h0 !! p) ->
    vars hc !! d = Some vd ->
    readKids (readTree n h0) h0 rest = Some (ns, ts) ->
    exists h' vd' newlinks ts',
      copyChildren (deepCopy n) d rest hc = (Ok tt, h') /\ heap_wf h' /\
      (nextAddr hc <= nextAddr h')%positive /\
      (forall p, (p < nextAddr hc)%positive -> p <> d -> vars h' !! p = vars hc !! p) /\
      (forall p, (p < nextAddr hc)%positive -> links h' !! p = links hc !! p) /\
      vars h' !! d = Some vd' /\
      children vd' = (children vd ++ newlinks)%list /\
      stringData vd' = stringData vd /\ intData vd' = intData vd /\
      doubleData vd' = doubleData vd /\
      flags vd' = match rest with
                  | [] => flags vd
                  | _ => if isUndefined vd then VARIABLE_OBJECT else flags vd
                  end /\
      readKids (readTree n h') h' newlinks = Some (ns, ts') /\
      Forall2 isCopy ts ts' /\
      Forall (fun p => (d < p)%positive) (flat_map tree_nodes ts').
Proof.
  intros Hcopy Hwf0 Hd0.
  induction rest as [|k rest IH]; intros hc vd ns ts Hwf Hd Hagree Hvd Hk.
  - simpl in Hk. injection Hk as <- <-.
    exists hc, vd, [], []. simpl. rewrite app_nil_r.
    split; [reflexivity|]. split; [exact Hwf|]. split; [lia|].
    split; [reflexivity|]. split; [reflexivity|]. split; [exact Hvd|].
    repeat (split; [reflexivity|]). split; constructor.
  - apply readKids_inv in Hk.
    destruct Hk as (lk & t & ns' & ts0 & Hlk & Ht & Hrest & -> & ->).
    assert (links hc !! k = Some lk) as Hlkc.
    { destruct (Hagree k) as [_ ->]; [eapply allocated_link; eassumption|exact Hlk]. }
    simpl. unfold bind at 1. rewrite (load_link_Some _ _ _ Hlkc).
    destruct (String.eqb (name lk) TINYJS_PROTOTYPE_CLASS) eqn:Eproto.
    + (* the prototype is shared *)
      injection Ht as <-. simpl. unfold bind, ret.
      rewrite (addChild_Some _ _ _ _ _ Hvd). fold (withChild hc d (var lk) (name lk) vd).
      set (h2 := withChild hc d (var lk) (name lk) vd).
      destruct (IH h2 (set_children (children vd ++ [nextAddr hc])
                        (if isUndefined vd then set_flags VARIABLE_OBJECT vd else vd)) ns' ts0)
        as (h' & vd' & nl & ts' & E & Hwf' & Hle & Hv & Hl & Hvd' & Hch & Hs & Hi & Hdb & Hf & Hr & Hc & Hfr).
      * apply withChild_wf; assumption.
      * unfold h2, withChild; cbn [nextAddr]; lia.
      * intros p Hp. unfold h2. rewrite withChild_vars, withChild_links by lia. apply Hagree, Hp.
      * unfold h2, withChild; cbn [vars]. apply lookup_insert_eq.
      * exact Hrest.
      * exists h', vd', (nextAddr hc :: nl), (Shared (var lk) :: ts').
        split; [exact E|]. split; [exact Hwf'|].
        split; [unfold h2, withChild in Hle; cbn [nextAddr] in Hle; lia|].
        split. { intros p Hp Hne. rewrite Hv by (unfold h2, withChild; cbn [nextAddr]; lia || assumption).
                 unfold h2. apply withChild_vars, Hne. }
        split. { intros p Hp. rewrite Hl by (unfold h2, withChild; cbn [nextAddr]; lia).
                 unfold h2. apply withChild_links, Hp. }
        split; [exact Hvd'|].
        split. { rewrite Hch. cbn. rewrite <- app_assoc. reflexivity. }
        split; [rewrite Hs; destruct (isUndefined vd); reflexivity|].
        split; [rewrite Hi; destruct (isUndefined vd); reflexivity|].
        split; [rewrite Hdb; destruct (isUndefined vd); reflexivity|].
        split. { rewrite Hf. apply promoted_flags. }
        split. { simpl. rewrite Hl by (unfold h2, withChild; cbn [nextAddr]; lia).
                 unfold h2, withChild at 1. cbn [links]. rewrite lookup_insert_eq.
                 cbn [name var]. rewrite Eproto, Hr. reflexivity. }
        split; [constructor; [constructor|exact Hc]|].
        simpl. exact Hfr.
    + (* every other child is copied *)
      simpl. unfold bind.
      assert (readTree n hc (var lk) = Some t) as Htc.
      { apply (readTree_stable n h0 hc d); auto.
        - intros p Hp _. apply Hagree, Hp.
        - intros p Hp. apply Hagree, Hp.
        - intros Hin. pose proof (readTree_allocated n h0 (var lk) t Hwf0 Ht) as Hall.
          rewrite List.Forall_forall in Hall. specialize (Hall d Hin). lia. }
      destruct (Hcopy hc (var lk) t Hwf Htc)
        as (c1 & h1 & t1 & E1 & Hwf1 & Hle1 & Hag1 & Hr1 & Hc1 & Hfr1).
      rewrite E1.
      assert (vars h1 !! d = Some vd) as Hvd1.
      { destruct (Hag1 d Hd) as [-> _]. exact Hvd. }
      rewrite (addChild_Some _ _ _ _ _ Hvd1). fold (withChild h1 d c1 (name lk) vd).
      set (h2 := withChild h1 d c1 (name lk) vd).
      destruct (IH h2 (set_children (children vd ++ [nextAddr h1])
                        (if isUndefined vd then set_flags VARIABLE_OBJECT vd else vd)) ns' ts0)
        as (h' & vd' & nl & ts' & E & Hwf' & Hle & Hv & Hl & Hvd' & Hch & Hs & Hi & Hdb & Hf & Hr & Hc & Hfr).
      * apply withChild_wf; [assumption|lia].
      * unfold h2, withChild; cbn [nextAddr]; lia.
      * intros p Hp. unfold h2. rewrite withChild_vars, withChild_links by lia.
        destruct (Hag1 p) as [-> ->]; [lia|]. apply Hagree, Hp.
      * unfold h2, withChild; cbn [vars]. apply lookup_insert_eq.
      * exact Hrest.
      * assert (nextAddr h2 = Pos.succ (nextAddr h1)) as Hn2 by reflexivity.
        exists h', vd', (nextAddr h1 :: nl), (t1 :: ts').
        split; [exact E|]. split; [exact Hwf'|].
        split; [lia|].
        split. { intros p Hp Hne. rewrite Hv by (lia || assumption).
                 unfold h2. rewrite withChild_vars by assumption. apply Hag1, Hp. }
        split. { intros p Hp. rewrite Hl by lia.
                 unfold h2. rewrite withChild_links by lia. apply Hag1, Hp. }
        split; [exact Hvd'|].
        split. { rewrite Hch. cbn. rewrite <- app_assoc. reflexivity. }
        split; [rewrite Hs; destruct (isUndefined vd); reflexivity|].
        split; [rewrite Hi; destruct (isUndefined vd); reflexivity|].
        split; [rewrite Hdb; destruct (isUndefined vd); reflexivity|].
        split. { rewrite Hf. apply promoted_flags. }
        assert (~ In d (tree_nodes t1)) as Hnd.
        { intros Hin. rewrite List.Forall_forall in Hfr1. specialize (Hfr1 d Hin). lia. }
        split. { simpl. rewrite Hl by lia.
                 unfold h2, withChild at 1. cbn [links]. rewrite lookup_insert_eq.
                 cbn [name var]. rewrite Eproto, Hr.
                 rewrite (readTree_stable n h1 h' d c1 t1); auto.
                 - intros p Hp Hne. rewrite Hv by (lia || assumption).
                   unfold h2. apply withChild_vars, Hne.
                 - intros p Hp. rewrite Hl by lia. unfold h2. apply withChild_links, Hp. }
        split; [constructor; assumption|].
        simpl. apply Forall_app. split; [|exact Hfr].
        eapply List.Forall_impl; [|exact Hfr1]. simpl. intros p Hp. lia.
Qed.

Lemma readKids_length (rd : positive -> option Tree) (h : Heap) (chain : list positive)
      (ns : list string) (ts : list Tree) :
  readKids rd h chain = Some (ns, ts) -> length ts = length chain.
Proof.
  revert ns ts. induction chain as [|k rest IH]; intros ns ts Hk.
  - simpl in Hk. injection Hk as <- <-. reflexivity.
  - apply readKids_inv in Hk.
    destruct Hk as (lk & t & ns' & ts' & _ & _ & Hrest & -> & ->).
    simpl. f_equal. eapply IH, Hrest.
Qed.

Lemma deepCopy_ok (n : nat) : copy_ok n.
Proof.
  induction n as [|n IH]; intros h v t Hwf Hr; [discriminate|].
  apply readTree_inv in Hr. destruct Hr as (vv & ns & ts & Hv & Hk & ->).
  set (v0 := copySimpleData vv Variable_undefined).
  set (h1 := mkHeap (<[nextAddr h := v0]> (vars h)) (links h) (Pos.succ (nextAddr h))).
  destruct (copyChildren_ok n h (nextAddr h) IH Hwf (Pos.le_refl _)
              (children vv) h1 v0 ns ts)
    as (h' & vd' & nl & ts' & E & Hwf' & Hle & Hvs & Hls & Hvd' & Hch & Hs & Hi & Hdb & Hf & Hrk & Hc & Hfr).
  - intros p Hp. unfold h1 in *. cbn [vars links nextAddr] in *.
    destruct (Hwf p) as [? ?]; [lia|]. rewrite lookup_insert_ne by lia. split; assumption.
  - unfold h1; cbn [nextAddr]; lia.
  - intros p Hp. unfold h1; cbn [vars links]. rewrite lookup_insert_ne by lia. split; reflexivity.
  - unfold h1; cbn [vars]. apply lookup_insert_eq.
  - exact Hk.
  - exists (nextAddr h), h',
      (Node (nextAddr h) (flags vd') (stringData vd') (intData vd') (doubleData vd') ns ts').
    split. { simpl. unfold bind. rewrite (load_Some _ _ _ Hv).
             unfold alloc. fold v0. fold h1. rewrite E. reflexivity. }
    split; [exact Hwf'|].
    split; [unfold h1 in Hle; cbn [nextAddr] in Hle; lia|].
    split. { intros p Hp. rewrite Hvs, Hls by (unfold h1; cbn [nextAddr]; lia).
             unfold h1; cbn [vars links]. rewrite lookup_insert_ne by lia. split; reflexivity. }
    split. { simpl. rewrite Hvd', Hch. cbn [children v0 copySimpleData Variable_undefined set_flags init app].
             rewrite Hrk. reflexivity. }
    split. { rewrite Hs, Hi, Hdb, Hf.
             assert ((match children vv with
                      | [] => flags v0
                      | _ => if isUndefined v0 then VARIABLE_OBJECT else flags v0
                      end) = copiedFlags (flags vv) ts) as ->.
             { pose proof (readKids_length _ _ _ _ _ Hk) as Hlen.
               unfold copiedFlags, isUndefined. cbn [flags v0 copySimpleData Variable_undefined set_flags init].
               rewrite Z.land_0_l, Z.lor_0_l.
               rewrite <- Z.land_assoc, Z.land_diag.
               destruct (children vv), ts; try discriminate; reflexivity. }
             constructor. exact Hc. }
    simpl. constructor; [lia|].
    eapply List.Forall_impl; [|exact Hfr]. simpl. intros p Hp. lia.
Qed.

Lemma hasFlag_by_tag (v : Value) (m : Z) :
  Z.land VARIABLE_TYPEMASK m = m -> hasFlag v m = negb (Z.land (tagOf v) m =? 0).
Proof.
  intros E. unfold hasFlag, tagOf. rewrite <- Z.land_assoc, E. reflexivity.
Qed.

(** The predicates of a variable whose type tag is known, rewritten in [E]. *)
Ltac tag_fact pred mask v Htag E :=
  match type of Htag with
  | tagOf v = ?T =>
      let b := eval vm_compute in (negb (Z.land T mask =? 0)) in
      let H := fresh "Hp" in
      assert (pred v = b) as H
        by (unfold pred; rewrite hasFlag_by_tag by reflexivity; rewrite Htag; reflexivity);
      rewrite ?H in E
  end.

Ltac tag_facts v Htag E :=
  match type of Htag with
  | tagOf v = ?T =>
      let b := eval vm_compute in (T =? 0) in
      let H := fresh "Hp" in
      assert (isUndefined v = b) as H
        by (unfold isUndefined; fold (tagOf v); rewrite Htag; reflexivity);
      rewrite ?H in E
  end;
  tag_fact isNumeric VARIABLE_NUMERICMASK v Htag E;
  tag_fact isDouble VARIABLE_DOUBLE v Htag E;
  tag_fact isArray VARIABLE_ARRAY v Htag E;
  tag_fact isObject VARIABLE_OBJECT v Htag E;
  tag_fact isInt VARIABLE_INTEGER v Htag E;
  tag_fact isNull VARIABLE_NULL v Htag E.

Lemma mathsOp_maths_equal (h : Heap) (a b : positive) (va vb : Value) :
  vars h !! a = Some va -> vars h !! b = Some vb ->
  mathsOp a b LEXER_EQUAL h =
    if isUndefined va && isUndefined vb then alloc (Variable_bool true) h
    else if (isNumeric va || isUndefined va) && (isNumeric vb || isUndefined vb) then
      if negb (isDouble va) && negb (isDouble vb)
      then alloc (Variable_bool (getInt va =? getInt vb)) h
      else alloc (Variable_bool (PrimFloat.eqb (getDouble va) (getDouble vb))) h
    else if isArray va then alloc (Variable_bool (Pos.eqb a b)) h
    else if isObject va then alloc (Variable_bool (Pos.eqb a b)) h
    else (let* da := getString a in
          let* db := getString b in
          new_bool (String.eqb da db)) h.
Proof.
  intros Ha Hb. unfold mathsOp.
  change ((LEXER_EQUAL =? LEXER_TYPEEQUAL) || (LEXER_EQUAL =? LEXER_NTYPEEQUAL)) with false.
  cbv iota. unfold mathsOp_maths, bind at 1 2.
  rewrite (load_Some _ _ _ Ha), (load_Some _ _ _ Hb).
  destruct (isUndefined va && isUndefined vb); [reflexivity|].
  destruct ((isNumeric va || isUndefined va) && (isNumeric vb || isUndefined vb)).
  { destruct (negb (isDouble va) && negb (isDouble vb)); reflexivity. }
  destruct (isArray va); [reflexivity|].
  destruct (isObject va); reflexivity.
Qed.

Lemma equals_alloc (h h1 : Heap) (a b : positive) (e : bool) :
  mathsOp a b LEXER_EQUAL h = alloc (Variable_bool e) h1 ->
  fst (equals a b h) = Ok e.
Proof.
  intros E. unfold equals, bind. rewrite E. unfold alloc, load. cbn [vars].
  rewrite lookup_insert_eq. destruct e; reflexivity.
Qed.

Lemma getString_plain (h : Heap) (a : positive) (va : Value) :
  vars h !! a = Some va ->
  isInt va = false -> isDouble va = false -> isNull va = false -> isUndefined va = false ->
  getString a h = (Ok (stringData va), h).
Proof.
  intros Ha Hi Hd Hn Hu. unfold getString, bind. rewrite (load_Some _ _ _ Ha), Hi, Hd, Hn, Hu.
  reflexivity.
Qed.

Lemma equals_same_fields (h : Heap) (v c : positive) (vv vc : Value) (tag : Z) :
  vars h !! v = Some vv -> vars h !! c = Some vc -> v <> c ->
  tagOf vv = tag -> tagOf vc = tag ->
  stringData vc = stringData vv -> intData vc = intData vv -> doubleData vc = doubleData vv ->
  In tag [VARIABLE_UNDEFINED; VARIABLE_FUNCTION; VARIABLE_OBJECT; VARIABLE_ARRAY;
          VARIABLE_DOUBLE; VARIABLE_INTEGER; VARIABLE_STRING; VARIABLE_NULL] ->
  fst (equals v c h) = Ok (sameFieldsEqual tag (doubleData vv)).
Proof.
  intros Hv Hc Hne Tv Tc Hs Hi Hd Htag.
  assert (Pos.eqb v c = false) as Hvc by (apply Pos.eqb_neq; exact Hne).
  pose proof (mathsOp_maths_equal h v c vv vc Hv Hc) as E.
  simpl in Htag.
  destruct Htag as [<-|[<-|[<-|[<-|[<-|[<-|[<-|[<-|[]]]]]]]]];
    unfold getInt, getDouble in E;
    tag_facts vv Tv E; tag_facts vc Tc E;
    cbn [andb orb negb] in E.
  - eapply equals_alloc, E.
  - unfold bind in E.
    rewrite (getString_plain h v vv), (getString_plain h c vc) in E by assumption.
    rewrite Hs, String.eqb_refl in E. eapply equals_alloc, E.
  - rewrite Hvc in E. eapply equals_alloc, E.
  - rewrite Hvc in E. eapply equals_alloc, E.
  - rewrite Hd in E. eapply equals_alloc, E.
  - rewrite Hi, Z.eqb_refl in E. eapply equals_alloc, E.
  - unfold bind in E.
    rewrite (getString_plain h v vv), (getString_plain h c vc) in E by assumption.
    rewrite Hs, String.eqb_refl in E. eapply equals_alloc, E.
  - rewrite Z.eqb_refl in E. eapply equals_alloc, E.
Qed.

(** C5, with [equals] as the code computes it.  On a structure [t] read
    below [v], [deepCopy] returns a variable [c] below which the same
    structure is read at addresses that were free before: the type tag and
    the scalar fields of every variable are copied, every child is copied
    under its name, in order, and the child named [prototype] is the same
    variable in both.  The original is as it was.  [equals v c] is true
    when [v] is null, an integer, a string, a function or an undefined
    variable without children; on a double it is true unless the double
    is not a number; on an array or an object it is false, since these
    are compared by identity. *)
Theorem C5_deepCopy (n : nat) (h : Heap) (v : positive) (t : Tree) :
  heap_wf h -> readTree n h v = Some t ->
  exists c h' t',
    deepCopy n v h = (Ok c, h') /\
    readTree n h' c = Some t' /\ isCopy t t' /\
    Forall (fun p => vars h !! p = None) (tree_nodes t') /\
    readTree n h' v = Some t /\
    forall vv, vars h !! v = Some vv ->
      (tagOf vv = VARIABLE_UNDEFINED -> children vv = [] -> fst (equals v c h') = Ok true) /\
      (In (tagOf vv) [VARIABLE_NULL; VARIABLE_INTEGER; VARIABLE_STRING; VARIABLE_FUNCTION] ->
       fst (equals v c h') = Ok true) /\
      (tagOf vv = VARIABLE_DOUBLE ->
       fst (equals v c h') = Ok (PrimFloat.eqb (doubleData vv) (doubleData vv))) /\
      (tagOf vv = VARIABLE_ARRAY \/ tagOf vv = VARIABLE_OBJECT ->
       fst (equals v c h') = Ok false).
Proof.
  intros Hwf Hr.
  destruct (deepCopy_ok n h v t Hwf Hr) as (c & h' & t' & E & Hwf' & Hle & Hag & Hr' & Hc & Hfr).
  exists c, h', t'. split; [exact E|]. split; [exact Hr'|]. split; [exact Hc|].
  split. { eapply List.Forall_impl; [|exact Hfr]. simpl. intros p Hp. apply Hwf, Hp. }
  assert (readTree n h' v = Some t) as Hrv.
  { apply (readTree_stable n h h' (nextAddr h)); auto.
    - intros p Hp _. apply Hag, Hp.
    - intros p Hp. apply Hag, Hp.
    - intros Hin. pose proof (readTree_allocated n h v t Hwf Hr) as Hall.
      rewrite List.Forall_forall in Hall. specialize (Hall _ Hin). lia. }
  split; [exact Hrv|].
  intros vv Hv.
  destruct n as [|n]; [discriminate|].
  destruct (readTree_inv _ _ _ _ Hr) as (vv0 & ns & ts & Hv0 & Hk & ->).
  rewrite Hv in Hv0. injection Hv0 as <-.
  inversion Hc as [a a' f d i x names kids kids' Hkids| ]; subst.
  destruct (readTree_inv _ _ _ _ Hr') as (vc & ns' & ts' & Hvc & _ & Et).
  injection Et as -> Hf Hs Hi Hd _ _.
  assert (vars h' !! v = Some vv) as Hv'.
  { destruct (Hag v) as [-> _]; [eapply allocated_var; eassumption|exact Hv]. }
  assert (v <> c) as Hne.
  { simpl in Hfr. apply Forall_inv in Hfr.
    pose proof (allocated_var h v vv Hwf Hv). lia. }
  assert (forall tag, tagOf vv = tag ->
            In tag [VARIABLE_UNDEFINED; VARIABLE_FUNCTION; VARIABLE_OBJECT; VARIABLE_ARRAY;
                    VARIABLE_DOUBLE; VARIABLE_INTEGER; VARIABLE_STRING; VARIABLE_NULL] ->
            (tag = VARIABLE_UNDEFINED -> children vv = []) ->
            fst (equals v c h') = Ok (sameFieldsEqual tag (doubleData vv))) as Heq.
  { intros tag Htag Hin Hbasic.
    apply (equals_same_fields h' v c vv vc tag); auto.
    unfold tagOf. rewrite <- Hf. unfold copiedFlags. fold (tagOf vv). rewrite Htag.
    pose proof (readKids_length _ _ _ _ _ Hk) as Hlen.
    destruct ts as [|t0 ts0].
    - simpl in Hin.
      destruct Hin as [<-|[<-|[<-|[<-|[<-|[<-|[<-|[<-|[]]]]]]]]]; reflexivity.
    - destruct (Z.eqb_spec tag VARIABLE_UNDEFINED) as [Hu|Hu].
      + rewrite (Hbasic Hu) in Hlen. discriminate.
      + simpl in Hin.
        destruct Hin as [<-|[<-|[<-|[<-|[<-|[<-|[<-|[<-|[]]]]]]]]];
          reflexivity || contradiction. }
  split; [|split; [|split]].
  - intros Htag Hbasic. rewrite (Heq _ Htag); [reflexivity|simpl; tauto|auto].
  - intros Hin. rewrite (Heq _ eq_refl).
    + simpl in Hin. destruct Hin as [<-|[<-|[<-|[<-|[]]]]]; reflexivity.
    + simpl in *. tauto.
    + intros Hu. rewrite Hu in Hin. simpl in Hin.
      destruct Hin as [|[|[|[|[]]]]]; discriminate.
  - intros Htag. rewrite (Heq _ Htag); [reflexivity|simpl; tauto|discriminate].
  - intros [Htag|Htag]; (rewrite (Heq _ Htag); [reflexivity|simpl; tauto|discriminate]).
Qed.

(** C5 as it stands fails on the empty object: its copy is another
    object, and [equals] is false on two objects that are not the same. *)
Lemma C5_object_copy_differs :
  readTree 1 heap_object 1
    = Some (Node 1 VARIABLE_OBJECT TINYJS_BLANK_DATA 0 PrimFloat.zero [] []) /\
  fst ((let* c := deepCopy 1 1%positive in equals 1%positive c) heap_object) = Ok false.
Proof. runs. Qed.

(** C5 on the object [{ x : 5 }]. *)
Lemma C5_deepCopy_sample :
  exists c h' t',
    deepCopy 3 1 heap_point = (Ok c, h') /\
    readTree 3 h' c = Some t' /\ isCopy tree_point t' /\
    Forall (fun p => vars heap_point !! p = None) (tree_nodes t') /\
    readTree 3 h' 1 = Some tree_point /\
    fst (equals 1 c h') = Ok false.
Proof.
  destruct (C5_deepCopy 3 heap_point 1 tree_point) as (c & h' & t' & E & Hc & Hcopy & Hfresh & Hv & Heq).
  - apply heap_wfb_sound. vm_compute. reflexivity.
  - vm_compute. reflexivity.
  - exists c, h', t'. repeat (split; [assumption|]).
    destruct (Heq _ eq_refl) as (_ & _ & _ & Hobject).
    apply Hobject. right. reflexivity.
Defined.

(* ------------------------------------------------------------------ *)
(** ** The evaluator *)

Section Evaluation.

Variable native :
  (string -> M unit) -> (string -> M VariableLink) -> N -> positive -> N -> M unit.

Lemma getTk_eq (st : Interp) (lx : Lexer) :
  l st = Some lx -> getTk st = (Ok (tk lx), st).
Proof. intros E. unfold getTk, lexer, getL, bind, deref. rewrite E. reflexivity. Qed.

Lemma matchTk_eq (st : Interp) (lx : Lexer) (t : Z) :
  l st = Some lx -> tk lx = t -> matchTk t st = (Ok tt, set_l (Some (getNextToken lx)) st).
Proof.
  intros E Et. unfold matchTk, lexer, getL, bind, deref, lmatch. rewrite E. cbn [ret].
  rewrite Et, Z.eqb_refl. reflexivity.
Qed.

(** One turn of the loop of [Interpreter::expression]. *)
Lemma expression_loop_eq (fuel : nat) (execute : bool) (a : option positive) :
  expression_loop native (S fuel) execute a =
    let* t := getTk in
    if (t =? tok "+") || (t =? tok "-") ||
       (t =? LEXER_PLUSPLUS) || (t =? LEXER_MINUSMINUS) then
      let* _ := matchTk t in
      if (t =? LEXER_PLUSPLUS) || (t =? LEXER_MINUSMINUS) then
        let* a := if execute then postfix a t else ret a in
        expression_loop native fuel execute a
      else
        let* (b, execute) := term native fuel execute in
        let* a := if execute then applyOp a b t else ret a in
        expression_loop native fuel execute a
    else ret (a, execute).
Proof. reflexivity. Qed.

(** What the code of the postfix operators does on a link [k] to a
    numeric variable. *)
Lemma postfix_spec (st : Interp) (k : positive) (lk : VariableLink) (vx : Value) (up : bool) :
  heap_wf (heap st) ->
  links (heap st) !! k = Some lk -> vars (heap st) !! var lk = Some vx ->
  isNumeric vx = true ->
  postfix (Some k) (postfix_token up) st
    = (Ok (Some (Pos.succ (Pos.succ (nextAddr (heap st))))),
       set_heap (postfix_heap (heap st) k lk up vx) st).
Proof.
  intros Hwf Hk Hv Hn.
  pose proof (allocated_var _ _ _ Hwf Hv) as Hlt.
  pose proof (allocated_link _ _ _ Hwf Hk) as Hklt.
  set (h1 := mkHeap (<[nextAddr (heap st) := Variable_int 1]> (vars (heap st)))
                    (links (heap st)) (Pos.succ (nextAddr (heap st)))).
  assert (mathsOp (var lk) (nextAddr (heap st))
                  (if postfix_token up =? LEXER_PLUSPLUS then tok "+" else tok "-") h1
          = alloc (stepped up vx) h1) as Em.
  { rewrite (mathsOp_numeric h1 _ _ vx (Variable_int 1)).
    - unfold stepped. destruct (isDouble vx); destruct up; reflexivity.
    - unfold h1; cbn [vars]. rewrite lookup_insert_ne by lia. exact Hv.
    - unfold h1; cbn [vars]. apply lookup_insert_eq.
    - exact Hn.
    - reflexivity.
    - destruct up; reflexivity. }
  unfold postfix, bind, liftH, linkVar, deref, bind, ret, liftH.
  unfold alloc at 1. cbn [heap set_heap]. fold h1.
  unfold load_link at 1. cbn [links h1]. rewrite Hk. cbn [heap set_heap var].
  rewrite Em. unfold alloc at 1. cbn [heap set_heap vars links nextAddr h1].
  unfold load_link at 1. cbn [links]. rewrite Hk. cbn [heap set_heap var].
  unfold new_VariableLink, alloc_link. cbn [heap set_heap vars links nextAddr].
  unfold replaceWith, bind, load_link, store_link. cbn [heap set_heap vars links nextAddr].
  rewrite lookup_insert_ne by lia. rewrite Hk. cbn [heap set_heap vars links nextAddr name owned].
  reflexivity.
Qed.

(** C6, with the value that the code returns.  When the expression parser
    stands on [++] (or [--]) after a link [k] to a numeric variable, it
    reads the operator, makes [k] point to a new variable that holds the
    old value plus (minus) one, and goes on with a fresh link to the
    variable that [k] pointed to before, which is untouched: the result of
    the postfix expression is the old value.  So [x = 5; x++] evaluates to
    5, and [x] is 6 afterwards. *)
Theorem C6_postfix (fuel : nat) (st : Interp) (lx : Lexer) (k : positive)
        (lk : VariableLink) (vx : Value) (up : bool) :
  l st = Some lx -> tk lx = postfix_token up ->
  heap_wf (heap st) ->
  links (heap st) !! k = Some lk -> vars (heap st) !! var lk = Some vx ->
  isNumeric vx = true ->
  (exists res oldValue h',
     expression_loop native (S fuel) true (Some k) st
       = expression_loop native fuel true (Some oldValue)
           (mkInterp h' (root st) (Some (getNextToken lx)) (scopes st)
                     (stringClass st) (objectClass st) (arrayClass st)) /\
     links h' !! k = Some (mkLink (name lk) res (owned lk)) /\
     vars h' !! res = Some (stepped up vx) /\
     links (heap st) !! oldValue = None /\
     links h' !! oldValue = Some (mkLink TINYJS_TEMP_NAME (var lk) false) /\
     vars h' !! var lk = Some vx) /\
  ev "x = 5; x++" = Ok "5" /\ ev "x = 5; x++; x" = Ok "6" /\
  ev "x = 5; x--" = Ok "5" /\ ev "x = 5; x--; x" = Ok "4".
Proof.
  intros Hl Htk Hwf Hk Hv Hn.
  split; [|runs].
  pose proof (allocated_var _ _ _ Hwf Hv) as Hlt.
  pose proof (allocated_link _ _ _ Hwf Hk) as Hklt.
  exists (Pos.succ (nextAddr (heap st))), (Pos.succ (Pos.succ (nextAddr (heap st)))),
         (postfix_heap (heap st) k lk up vx).
  split.
  - rewrite expression_loop_eq. unfold bind at 1. rewrite (getTk_eq st lx Hl), Htk.
    assert (((postfix_token up =? tok "+") || (postfix_token up =? tok "-") ||
             (postfix_token up =? LEXER_PLUSPLUS) || (postfix_token up =? LEXER_MINUSMINUS)) = true)
      as -> by (destruct up; reflexivity).
    unfold bind at 1. rewrite (matchTk_eq st lx _ Hl Htk).
    assert (((postfix_token up =? LEXER_PLUSPLUS) || (postfix_token up =? LEXER_MINUSMINUS)) = true)
      as -> by (destruct up; reflexivity).
    unfold bind at 1.
    rewrite (postfix_spec (set_l (Some (getNextToken lx)) st) k lk vx up); auto.
  - unfold postfix_heap. cbn [vars links].
    split; [apply lookup_insert_eq|].
    split; [apply lookup_insert_eq|].
    split; [apply Hwf; lia|].
    split; [rewrite lookup_insert_ne by lia; apply lookup_insert_eq|].
    rewrite !lookup_insert_ne by lia. exact Hv.
Qed.

(** One level of [Interpreter::execute] and [Interpreter::evaluateComplex]. *)
Lemma execute_eq (fuel : nat) (code : string) :
  execute_ native (S fuel) code =
    let* oldLex := getL in
    let* oldScopes := getScopes in
    let* _ := setL (Some (Lexer_new code)) in
    let* r := getRoot in
    let* _ := setScopes [r] in
    let* _ :=
      try_catch (execute_loop native fuel true)
        (fun text =>
           let* lx := lexer in
           let msg := "Error " ++ text ++ " at " ++ getPosition lx (-1) in
           let* _ := setL oldLex in
           throw msg) in
    let* _ := setL oldLex in
    setScopes oldScopes.
Proof. reflexivity. Qed.

Lemma evaluateComplex_eq (fuel : nat) (code : string) :
  evaluateComplex native (S fuel) code =
    let* oldLex := getL in
    let* oldScopes := getScopes in
    let* _ := setL (Some (Lexer_new code)) in
    let* r := getRoot in
    let* _ := setScopes [r] in
    let* v :=
      try_catch (evaluateComplex_loop native fuel true)
        (fun text =>
           let* lx := lexer in
           let msg := "Error " ++ text ++ " at " ++ getPosition lx (-1) in
           let* _ := setL oldLex in
           throw msg) in
    let* _ := setL oldLex in
    let* _ := setScopes oldScopes in
    match v with
    | Some v =>
        let* c := liftH (load_link v) in
        ret (mkLink (name c) (var c) false)
    | None =>
        let* u := liftH (alloc Variable_undefined) in
        ret (mkLink TINYJS_TEMP_NAME u false)
    end.
Proof. reflexivity. Qed.

(** The [catch] block of both: a throw of the guarded loop comes back as a
    throw, with the lexer pointer put back and nothing else changed. *)
Lemma caught {A B : Type} (body : M A) (rest : A -> M B) (oldLex : option Lexer)
      (st0 st' : Interp) (text : string) :
  bind (try_catch body
          (fun text =>
             let* lx := lexer in
             let msg := "Error " ++ text ++ " at " ++ getPosition lx (-1) in
             let* _ := setL oldLex in
             throw msg)) rest st0 = (Throw text, st') ->
  (exists t st2 lx,
     body st0 = (Throw t, st2) /\ l st2 = Some lx /\
     text = "Error " ++ t ++ " at " ++ getPosition lx (-1) /\
     st' = set_l oldLex st2) \/
  (exists a st2, body st0 = (Ok a, st2) /\ rest a st2 = (Throw text, st')).
Proof.
  unfold bind at 1, try_catch.
  destruct (body st0) as [[a|t|w|] st2] eqn:E; try discriminate.
  - intros Hrest. right. exists a, st2. split; [reflexivity|exact Hrest].
  - unfold lexer, getL, bind, deref.
    destruct (l st2) as [lx|] eqn:El; [|discriminate].
    unfold ret, setL, throw. intros [= <- <-].
    left. exists t, st2, lx. repeat split; assumption.
Qed.

(** C4, as the code behaves.  An error raised inside [execute] or
    [evaluateComplex] reaches the host as one throw whose text is composed
    from the error and the position, and the state it leaves is the state
    at the point of the error with the lexer pointer (only) put back to
    its value at the entry: the scope stack is not restored.  On a fresh
    interpreter, whose stack is empty, the script [)] leaves the stack
    holding the root, and an error inside a function call leaves the
    scope of the call on it as well. *)
Theorem C4_error_unwinding :
  (forall fuel code st text st',
     execute_ native fuel code st = (Throw text, st') ->
     exists n t st2 lx,
       fuel = S n /\
       execute_loop native n true (entered code st) = (Throw t, st2) /\
       l st2 = Some lx /\
       text = "Error " ++ t ++ " at " ++ getPosition lx (-1) /\
       st' = set_l (l st) st2) /\
  (forall fuel code st text st',
     evaluateComplex native fuel code st = (Throw text, st') ->
     exists n t st2 lx,
       fuel = S n /\
       evaluateComplex_loop native n true (entered code st) = (Throw t, st2) /\
       l st2 = Some lx /\
       text = "Error " ++ t ++ " at " ++ getPosition lx (-1) /\
       st' = set_l (l st) st2) /\
  l Interpreter_new = None /\ scopes Interpreter_new = [] /\
  aftermath ")"
    = (Throw "Error Got ')' expected EOF at (line: 1, col: 1) at (line: 1, col: 1)",
       None, [root Interpreter_new]) /\
  aftermath "function f() { ) } f();"
    = (Throw "Error Got ')' expected EOF at (line: 1, col: 3) at (line: 1, col: 22)",
       None, [root Interpreter_new; 11%positive]) /\
  aftermath "var a = 1;" = (Ok tt, None, []).
Proof.
  split; [|split; [|runs]].
  - intros [|n] code st text st' Hthrow; [discriminate|].
    rewrite execute_eq in Hthrow.
    unfold bind at 1 2 3 4 5, getL, getScopes, setL, getRoot, setScopes in Hthrow.
    apply caught in Hthrow.
    destruct Hthrow as [(t & st2 & lx & Hbody & Hlx & Htext & Hst)|(a & st2 & _ & Hrest)].
    + exists n, t, st2, lx. repeat split; assumption.
    + discriminate.
  - intros [|n] code st text st' Hthrow; [discriminate|].
    rewrite evaluateComplex_eq in Hthrow.
    unfold bind at 1 2 3 4 5, getL, getScopes, setL, getRoot, setScopes in Hthrow.
    apply caught in Hthrow.
    destruct Hthrow as [(t & st2 & lx & Hbody & Hlx & Htext & Hst)|(a & st2 & _ & Hrest)].
    + exists n, t, st2, lx. repeat split; assumption.
    + exfalso. unfold bind, setL, setScopes in Hrest.
      destruct a as [v|]; unfold liftH, load_link, alloc, ret in Hrest;
        cbn [heap set_scopes set_l] in Hrest.
      * destruct (links (heap st2) !! v); discriminate.
      * discriminate.
Qed.

(** C3, as the code counts.  The loop of the [while] statement leaves its
    counter alone when the condition is false and takes one from it
    before each further check; the statement throws when the counter is
    not positive afterwards.  A loop whose condition turns false at the
    8191st further check ends without an error.  A loop whose condition
    turns false at the 8192nd further check, the last one of the budget,
    has ended by its condition ([i] is 8192, so [i<8192] is false) and
    still raises [LOOP_ERROR]: the error is raised when the budget is
    used up, not when it is exceeded.  A loop without an end raises the
    error after 8193 runs of the body, the first pass and 8192 more. *)
Theorem C3_loop_cap :
  (forall fuel whileCond whileBody loopCount execute st,
     while_loop native (S fuel) whileCond whileBody false loopCount execute st
       = (Ok (execute, loopCount), st)) /\
  (forall fuel whileCond whileBody execute st,
     while_loop native (S fuel) whileCond whileBody true 0 execute st
       = (Ok (execute, -1), st)) /\
  TINYJS_LOOP_MAX_ITERATIONS = 8192 /\
  report (loop_to "8191") "i" = (Ok tt, Ok (Some "8191")) /\
  report (loop_to "8192") "i"
    = (Throw "Error LOOP_ERROR at (line: 1, col: 34)", Ok (Some "8192")) /\
  report "var i=0; while(1){ i = i+1; }" "i"
    = (Throw "Error LOOP_ERROR at (line: 1, col: 29)", Ok (Some "8193")).
Proof.
  split; [reflexivity|]. split; [reflexivity|]. split; [reflexivity|].
  runs.
Qed.

End Evaluation.

(** C6 as it stands fails on [x = 5; x++]: the expression gives the old
    value 5, not the new value 6, which only a later read of [x] gives. *)
Lemma C6_returns_old_value :
  ev "x = 5; x++" = Ok "5" /\ ev "x = 5; x++; x" = Ok "6" /\
  ev "x = 5; x--" = Ok "5" /\ ev "x = 5; x--; x" = Ok "4" /\
  ev "x = 5; y = x++; y" = Ok "5".
Proof. runs. Qed.

(** C6 after [var x = 5;], where [x] is the link 9 to the variable 10: the
    link 9 is made to point to a new variable that holds 6, and the
    parser goes on with a new link to the variable 10, which holds 5. *)
Lemma C6_postfix_sample :
  exists res oldValue h',
    expression_loop no_natives 2 true (Some 9%positive) state_x5
      = expression_loop no_natives 1 true (Some oldValue)
          (mkInterp h' (root state_x5) (Some (getNextToken (Lexer_new "++")))
                    (scopes state_x5) (stringClass state_x5) (objectClass state_x5)
                    (arrayClass state_x5)) /\
    links h' !! 9%positive = Some (mkLink "x" res true) /\
    vars h' !! res = Some (Variable_int 6) /\
    links (heap state_x5) !! oldValue = None /\
    links h' !! oldValue = Some (mkLink TINYJS_TEMP_NAME 10%positive false) /\
    vars h' !! 10%positive = Some (Variable_int 5).
Proof.
  apply (proj1 (C6_postfix no_natives 1 state_x5 (Lexer_new "++") 9
                  (mkLink "x" 10%positive true) (Variable_int 5) true
                  eq_refl eq_refl
                  (heap_wfb_sound (heap state_x5) ltac:(vm_compute; reflexivity))
                  ltac:(vm_compute; reflexivity) ltac:(vm_compute; reflexivity) eq_refl)).
Defined.

(* ------------------------------------------------------------------ *)
(** ** Parsable strings *)

(** C8, on a string that holds a carriage return and on the double 1e-7.
    [getParsableString] writes the string as a double-quoted literal with
    the escape [\r], which the lexer does not decode between double
    quotes: the text evaluates to the letter [r], and [equals] is false.
    A double is written with six decimals, so 1e-7 is written and read
    back as zero.  Integers, plain strings, null, undefined and a function
    with the body [{}] do come back equal. *)
Theorem C8_round_trip :
  fst (reparsed cr_string Interpreter_new)
    = Ok (str1 dquote ++ str1 backslash ++ "r" ++ str1 dquote, "r") /\
  fst (round_trip cr_string Interpreter_new) = Ok false /\
  fst (reparsed tiny_double Interpreter_new) = Ok ("0.000000", "0.000000") /\
  fst (round_trip tiny_double Interpreter_new) = Ok false /\
  fst (round_trip (Variable_int 5) Interpreter_new) = Ok true /\
  fst (round_trip (Variable_int (-7)) Interpreter_new) = Ok true /\
  fst (round_trip (Variable_double (double_of_ratio false 1 2)) Interpreter_new) = Ok true /\
  fst (round_trip (Variable_string "abc") Interpreter_new) = Ok true /\
  fst (round_trip (Variable_data TINYJS_BLANK_DATA VARIABLE_NULL) Interpreter_new) = Ok true /\
  fst (round_trip Variable_undefined Interpreter_new) = Ok true /\
  fst (round_trip (Variable_data "{}" VARIABLE_FUNCTION) Interpreter_new) = Ok true.
Proof. runs. Qed.


(* ================================================================== *)
(** * Properties of the other functions *)

(* ------------------------------------------------------------------ *)
(** ** [getString], [mathsOp] and [equals] *)

(** [getString] in closed form. *)
Lemma getString_text (h : Heap) (a : positive) (va : Value) :
  vars h !! a = Some va -> getString a h = (Ok (textOf va), printed h a va).
Proof.
  intros Ha. unfold getString, bind, textOf, printed. rewrite (load_Some _ _ _ Ha).
  destruct (isInt va) eqn:Ei.
  - unfold store, ret, textOf. rewrite Ei. reflexivity.
  - destruct (isDouble va) eqn:Ed.
    + unfold store, ret, textOf. rewrite Ei, Ed. reflexivity.
    + destruct (isNull va); [reflexivity|]. destruct (isUndefined va); reflexivity.
Qed.

Lemma textOf_printed (va : Value) : textOf (set_stringData (textOf va) va) = textOf va.
Proof.
  unfold textOf.
  change (isInt (set_stringData ?s va)) with (isInt va).
  change (isDouble (set_stringData ?s va)) with (isDouble va).
  change (isNull (set_stringData ?s va)) with (isNull va).
  change (isUndefined (set_stringData ?s va)) with (isUndefined va).
  cbn [intData doubleData stringData set_stringData].
  destruct (isInt va); [reflexivity|]. destruct (isDouble va); [reflexivity|].
  destruct (isNull va); [reflexivity|]. destruct (isUndefined va); reflexivity.
Qed.

(** The variable at [b] after [getString a]: its text is as before. *)
Lemma printed_lookup (h : Heap) (a b : positive) (va vb : Value) :
  vars h !! a = Some va -> vars h !! b = Some vb ->
  exists vb', vars (printed h a va) !! b = Some vb' /\ textOf vb' = textOf vb /\
              flags vb' = flags vb /\ children vb' = children vb.
Proof.
  intros Ha Hb. unfold printed. destruct (isInt va || isDouble va).
  - cbn [vars]. destruct (decide (a = b)) as [->|Hne].
    + rewrite lookup_insert_eq. rewrite Hb in Ha. injection Ha as <-.
      eexists. split; [reflexivity|]. split; [apply textOf_printed|]. split; reflexivity.
    + rewrite lookup_insert_ne by assumption. eauto.
  - eauto.
Qed.

(** [mathsOp] for an operator other than [===] and [!==], branch by
    branch. *)
Lemma mathsOp_dispatch (h : Heap) (a b : positive) (va vb : Value) (op : Z) :
  vars h !! a = Some va -> vars h !! b = Some vb -> plain_op op = true ->
  mathsOp a b op h =
    if isUndefined va && isUndefined vb then
      alloc (if op =? LEXER_EQUAL then Variable_bool true
             else if op =? LEXER_NEQUAL then Variable_bool false
             else Variable_undefined) h
    else if countsAsNumber va && countsAsNumber vb then
      if negb (isDouble va) && negb (isDouble vb)
      then mathsOp_int op (getInt va) (getInt vb) h
      else mathsOp_double op (getDouble va) (getDouble vb) h
    else if isArray va then mathsOp_pointer op a b "Array" h
    else if isObject va then mathsOp_pointer op a b "Object" h
    else mathsOp_string op (textOf va) (textOf vb) (printed (printed h a va) b vb).
Proof.
  intros Ha Hb Hop. unfold plain_op in Hop. apply negb_true_iff in Hop.
  unfold mathsOp. rewrite Hop. unfold mathsOp_maths, bind at 1 2.
  rewrite (load_Some _ _ _ Ha), (load_Some _ _ _ Hb).
  destruct (isUndefined va && isUndefined vb) eqn:Eu.
  { destruct (op =? LEXER_EQUAL); [reflexivity|]. destruct (op =? LEXER_NEQUAL); reflexivity. }
  fold (countsAsNumber va). fold (countsAsNumber vb).
  destruct (countsAsNumber va && countsAsNumber vb) eqn:En.
  { destruct (negb (isDouble va) && negb (isDouble vb)); reflexivity. }
  destruct (isArray va); [reflexivity|]. destruct (isObject va); [reflexivity|].
  unfold bind. rewrite (getString_text _ _ _ Ha).
  assert (vars (printed h a va) !! b = Some vb) as Hb'.
  { unfold printed. destruct (isInt va || isDouble va) eqn:Ep; [|exact Hb].
    cbn [vars]. destruct (decide (a = b)) as [->|Hne]; [|rewrite lookup_insert_ne by assumption; exact Hb].
    exfalso. rewrite Hb in Ha. injection Ha as <-.
    assert (isNumeric vb = true) as Hn.
    { apply orb_true_iff in Ep. destruct Ep as [Ei|Ed];
        [apply (hasFlag_mono vb _ VARIABLE_INTEGER)|apply (hasFlag_mono vb _ VARIABLE_DOUBLE)];
        (reflexivity || assumption). }
    unfold countsAsNumber in En. rewrite Hn in En. discriminate. }
  rewrite (getString_text _ _ _ Hb'). reflexivity.
Qed.

Lemma undefined_plain (v : Value) :
  isUndefined v = true ->
  isInt v = false /\ isDouble v = false /\ isNull v = false /\ isNumeric v = false /\
  isArray v = false /\ isObject v = false /\ getInt v = 0.
Proof.
  unfold isUndefined. intros Hu. apply Z.eqb_eq in Hu.
  assert (forall m, Z.land VARIABLE_TYPEMASK m = m -> hasFlag v m = false) as Hno.
  { intros m Hm. unfold hasFlag. rewrite (land_mask _ VARIABLE_TYPEMASK m Hm), Hu. reflexivity. }
  assert (isInt v = false) as Hi by (apply Hno; reflexivity).
  assert (isNull v = false) as Hn by (apply Hno; reflexivity).
  repeat split; try (apply Hno; reflexivity).
  unfold getInt. rewrite Hi, Hn. unfold isUndefined. rewrite Hu. reflexivity.
Qed.

(** X1.  Undefined operands.  With both operands undefined, [==] answers
    1, [!=] answers 0 and every other operator returns a new undefined
    variable: none raises an error.  An undefined operand beside an
    integer counts as the integer 0, on either side, so that
    [undefined == 0] is 1 and [undefined + 5] is 5. *)
Theorem X1_undefined_operands (h : Heap) (a b : positive) (va vb : Value) (op : Z) :
  vars h !! a = Some va -> vars h !! b = Some vb ->
  isUndefined va = true -> plain_op op = true ->
  (isUndefined vb = true ->
   mathsOp a b op h =
     alloc (if op =? LEXER_EQUAL then Variable_int 1
            else if op =? LEXER_NEQUAL then Variable_int 0
            else Variable_undefined) h) /\
  (isNumeric vb = true -> isDouble vb = false ->
   mathsOp a b op h = mathsOp_int op 0 (getInt vb) h /\
   mathsOp b a op h = mathsOp_int op (getInt vb) 0 h) /\
  ev "undefined == 0" = Ok "1" /\ ev "undefined + 5" = Ok "5" /\
  ev "undefined * undefined" = Ok "undefined".
Proof.
  intros Ha Hb Ua Hop.
  destruct (undefined_plain va Ua) as (Hi & Hd & _ & Hn & _ & _ & Hg).
  split; [|split; [|runs]].
  - intros Ub. rewrite (mathsOp_dispatch h a b va vb op Ha Hb Hop), Ua, Ub. reflexivity.
  - intros Nb Db. pose proof (numeric_not_undefined vb Nb) as Ub.
    rewrite (mathsOp_dispatch h a b va vb op Ha Hb Hop).
    rewrite (mathsOp_dispatch h b a vb va op Hb Ha Hop).
    unfold countsAsNumber. rewrite Ua, Ub, Nb, Hn, Hd, Db, Hg. split; reflexivity.
Qed.

(** X1 on an undefined variable and the integer 5. *)
Lemma X1_undefined_operands_sample :
  mathsOp 1 2 (tok "+") (heap_of [Variable_undefined; Variable_int 5] [])
    = alloc (Variable_int 5) (heap_of [Variable_undefined; Variable_int 5] []) /\
  mathsOp 1 2 LEXER_EQUAL (heap_of [Variable_undefined; Variable_int 0] [])
    = alloc (Variable_int 1) (heap_of [Variable_undefined; Variable_int 0] []).
Proof.
  split.
  - apply (proj1 (proj1 (proj2 (X1_undefined_operands
             (heap_of [Variable_undefined; Variable_int 5] []) 1 2
             Variable_undefined (Variable_int 5) (tok "+")
             eq_refl eq_refl eq_refl eq_refl)) eq_refl eq_refl)).
  - apply (proj1 (proj1 (proj2 (X1_undefined_operands
             (heap_of [Variable_undefined; Variable_int 0] []) 1 2
             Variable_undefined (Variable_int 0) LEXER_EQUAL
             eq_refl eq_refl eq_refl eq_refl)) eq_refl eq_refl)).
Defined.

(** X2.  Operands compared as texts.  When the operands are not both
    numeric or undefined and the left one is neither an array nor an
    object, [mathsOp] works on the texts that [getString] gives for the
    two (a number in decimal, [null], [undefined], or the string itself):
    [+] returns the string that joins them, [==] and [!=] compare them,
    and each of [- * / % & | ^] throws the error that the operation is
    not supported on the string datatype. *)
Theorem X2_text_operands (h : Heap) (a b : positive) (va vb : Value) :
  vars h !! a = Some va -> vars h !! b = Some vb ->
  countsAsNumber va && countsAsNumber vb = false ->
  isArray va = false -> isObject va = false ->
  let h' := printed (printed h a va) b vb in
  mathsOp a b (tok "+") h = alloc (Variable_string (textOf va ++ textOf vb)) h' /\
  mathsOp a b LEXER_EQUAL h = alloc (Variable_bool (String.eqb (textOf va) (textOf vb))) h' /\
  mathsOp a b LEXER_NEQUAL h
    = alloc (Variable_bool (negb (String.eqb (textOf va) (textOf vb)))) h' /\
  (forall o, o <> Add ->
     mathsOp a b (arith_token o) h
       = (Throw ("Operation " ++ getTokenStr (arith_token o)
                 ++ " not supported on the string datatype"), h')).
Proof.
  intros Ha Hb Hn Harr Hobj h'.
  assert (isUndefined va && isUndefined vb = false) as Hu.
  { unfold countsAsNumber in Hn.
    destruct (isUndefined va); [|reflexivity]. destruct (isUndefined vb); [|reflexivity].
    rewrite !orb_true_r in Hn. discriminate. }
  assert (forall op, plain_op op = true ->
            mathsOp a b op h = mathsOp_string op (textOf va) (textOf vb) h') as E.
  { intros op Hop. rewrite (mathsOp_dispatch h a b va vb op Ha Hb Hop), Hu, Hn, Harr, Hobj.
    reflexivity. }
  split; [|split; [|split]].
  - rewrite E by reflexivity. reflexivity.
  - rewrite E by reflexivity. reflexivity.
  - rewrite E by reflexivity. reflexivity.
  - intros o Ho. rewrite E by (destruct o; reflexivity).
    destruct o; try contradiction; reflexivity.
Qed.

(** X2 on the integer 1 and the string [1]: [1 + "1"] is the string [11]. *)
Lemma X2_text_operands_sample :
  mathsOp 1 2 (tok "+") heap_1_str1
    = alloc (Variable_string "11")
            (printed (printed heap_1_str1 1 (Variable_int 1)) 2 (Variable_string "1")).
Proof.
  apply (proj1 (X2_text_operands heap_1_str1 1 2 (Variable_int 1) (Variable_string "1")
                  eq_refl eq_refl eq_refl eq_refl eq_refl)).
Defined.

(** X3.  Arrays and objects on the left.  When the left operand is an
    array or an object (and so the operands are not both numeric or
    undefined), [==] and [!=] compare the identity of the two variables,
    whatever they hold, and each arithmetic operator throws the error
    that the operation is not supported on the Array (or Object)
    datatype. *)
Theorem X3_identity_operands (h : Heap) (a b : positive) (va vb : Value) :
  vars h !! a = Some va -> vars h !! b = Some vb ->
  tagOf va = VARIABLE_ARRAY \/ tagOf va = VARIABLE_OBJECT ->
  mathsOp a b LEXER_EQUAL h = alloc (Variable_bool (Pos.eqb a b)) h /\
  mathsOp a b LEXER_NEQUAL h = alloc (Variable_bool (negb (Pos.eqb a b))) h /\
  (forall o,
     mathsOp a b (arith_token o) h
       = (Throw ("Operation " ++ getTokenStr (arith_token o) ++ " not supported on the "
                 ++ (if tagOf va =? VARIABLE_ARRAY then "Array" else "Object")
                 ++ " datatype"), h)).
Proof.
  intros Ha Hb Htag.
  assert (forall op, plain_op op = true ->
            mathsOp a b op h =
              mathsOp_pointer op a b (if tagOf va =? VARIABLE_ARRAY then "Array" else "Object") h)
    as E.
  { intros op Hop. pose proof (mathsOp_dispatch h a b va vb op Ha Hb Hop) as D.
    unfold countsAsNumber in D.
    destruct Htag as [Htag|Htag]; tag_facts va Htag D; rewrite Htag;
      cbn [andb orb] in D; exact D. }
  split; [|split].
  - rewrite E by reflexivity. reflexivity.
  - rewrite E by reflexivity. reflexivity.
  - intros o. rewrite E by (destruct o; reflexivity).
    destruct o; reflexivity.
Qed.

(** X3 on the array [[10, , 20]] and its first element. *)
Lemma X3_identity_operands_sample :
  mathsOp 1 1 LEXER_EQUAL heap_array = alloc (Variable_int 1) heap_array /\
  mathsOp 1 2 LEXER_EQUAL heap_array = alloc (Variable_int 0) heap_array /\
  mathsOp 1 2 (tok "+") heap_array
    = (Throw "Operation '+' not supported on the Array datatype", heap_array).
Proof.
  split; [|split].
  - apply (proj1 (X3_identity_operands heap_array 1 1 array_0_2 array_0_2
                    eq_refl eq_refl (or_introl eq_refl))).
  - apply (proj1 (X3_identity_operands heap_array 1 2 array_0_2 (Variable_int 10)
                    eq_refl eq_refl (or_introl eq_refl))).
  - apply (proj2 (proj2 (X3_identity_operands heap_array 1 2 array_0_2 (Variable_int 10)
                    eq_refl eq_refl (or_introl eq_refl))) Add).
Defined.

(** X4.  [equals] is not symmetric.  Between an array or an object [a]
    and a string [b], [a.equals(b)] compares identities and is false,
    while [b.equals(a)] compares the texts and is true when the string
    equals the string field of [a], which is empty for an array or an
    object that the interpreter made: the empty string equals every such
    array, and no array equals the empty string. *)
Theorem X4_equals_not_symmetric (h : Heap) (a b : positive) (va vb : Value) :
  vars h !! a = Some va -> vars h !! b = Some vb ->
  tagOf va = VARIABLE_ARRAY \/ tagOf va = VARIABLE_OBJECT ->
  tagOf vb = VARIABLE_STRING ->
  fst (equals a b h) = Ok false /\
  fst (equals b a h) = Ok (String.eqb (stringData vb) (stringData va)).
Proof.
  intros Ha Hb Ta Tb.
  assert (a <> b) as Hne.
  { intros ->. rewrite Hb in Ha. injection Ha as <-. rewrite Tb in Ta.
    destruct Ta; discriminate. }
  split.
  - apply (equals_alloc h h).
    pose proof (mathsOp_dispatch h a b va vb LEXER_EQUAL Ha Hb eq_refl) as D.
    unfold countsAsNumber in D. apply Pos.eqb_neq in Hne.
    destruct Ta as [Ta|Ta]; tag_facts va Ta D;
      cbn [andb orb] in D; rewrite D; unfold mathsOp_pointer, new_bool;
      cbn; rewrite Hne; reflexivity.
  - apply (equals_alloc h h).
    pose proof (mathsOp_dispatch h b a vb va LEXER_EQUAL Hb Ha eq_refl) as D.
    unfold countsAsNumber, printed, textOf in D.
    destruct Ta as [Ta|Ta]; tag_facts va Ta D; tag_facts vb Tb D;
      cbn [andb orb] in D; exact D.
Qed.

(** X4 on an empty array and the empty string. *)
Lemma X4_equals_not_symmetric_sample :
  fst (equals 1 2 heap_array_str) = Ok false /\
  fst (equals 2 1 heap_array_str) = Ok true.
Proof.
  apply (X4_equals_not_symmetric heap_array_str 1 2
           (Variable_data TINYJS_BLANK_DATA VARIABLE_ARRAY) (Variable_string TINYJS_BLANK_DATA)
           eq_refl eq_refl (or_introl eq_refl) eq_refl).
Defined.

(** X5.  [equals] of a variable with itself is true, whatever the
    variable holds, except for a double that is not a number, which the
    comparison of doubles tells apart from itself. *)
Theorem X5_equals_reflexive (h : Heap) (a : positive) (va : Value) :
  vars h !! a = Some va ->
  fst (equals a a h)
    = Ok (if isDouble va then PrimFloat.eqb (doubleData va) (doubleData va) else true).
Proof.
  intros Ha.
  pose proof (mathsOp_dispatch h a a va va LEXER_EQUAL Ha Ha eq_refl) as D.
  destruct (isUndefined va) eqn:Eu.
  - destruct (undefined_plain va Eu) as (_ & Hd & _). rewrite Hd.
    cbn [andb] in D. apply (equals_alloc h h). exact D.
  - cbn [andb] in D. rewrite andb_diag in D.
    destruct (countsAsNumber va) eqn:En.
    + rewrite andb_diag in D. destruct (isDouble va) eqn:Ed; cbn [negb] in D.
      * apply (equals_alloc h h). rewrite D. unfold getDouble. rewrite Ed. reflexivity.
      * apply (equals_alloc h h). rewrite D. unfold mathsOp_int. cbn.
        rewrite Z.eqb_refl. reflexivity.
    + assert (isDouble va = false) as Ed.
      { destruct (isDouble va) eqn:Ed; [|reflexivity].
        pose proof (hasFlag_mono va VARIABLE_NUMERICMASK VARIABLE_DOUBLE eq_refl Ed) as Hn.
        fold (isNumeric va) in Hn. unfold countsAsNumber in En. rewrite Hn in En.
        discriminate. }
      rewrite Ed.
      destruct (isArray va).
      { apply (equals_alloc h h). rewrite D. unfold mathsOp_pointer. cbn.
        rewrite Pos.eqb_refl. reflexivity. }
      destruct (isObject va).
      { apply (equals_alloc h h). rewrite D. unfold mathsOp_pointer. cbn.
        rewrite Pos.eqb_refl. reflexivity. }
      apply (equals_alloc h (printed (printed h a va) a va)). rewrite D.
      unfold mathsOp_string. cbn. rewrite String.eqb_refl. reflexivity.
Qed.

(** X5 on the integer 7, which equals itself, and on the double that is
    not a number, which does not. *)
Lemma X5_equals_reflexive_sample :
  fst (equals 2 2 heap_nan_7) = Ok true /\ fst (equals 1 1 heap_nan_7) = Ok false.
Proof.
  split.
  - apply (X5_equals_reflexive heap_nan_7 2 (Variable_int 7) eq_refl).
  - apply (X5_equals_reflexive heap_nan_7 1 (Variable_double PrimFloat.nan) eq_refl).
Defined.

(* ------------------------------------------------------------------ *)
(** ** Children *)

Lemma findLink_firstNamed (h : Heap) (nm : string) (chain : list positive) :
  valid_chain h chain -> findLink chain nm h = (Ok (firstNamed h nm chain), h).
Proof.
  induction 1 as [|k rest [lk Hk] _ IH]; simpl; [reflexivity|].
  unfold bind. rewrite (load_link_Some _ _ _ Hk), Hk.
  destruct (String.eqb (name lk) nm); [reflexivity|exact IH].
Qed.

Lemma findChild_firstNamed (h : Heap) (a : positive) (va : Value) (nm : string) :
  vars h !! a = Some va -> valid_chain h (children va) ->
  findChild a nm h = (Ok (firstNamed h nm (children va)), h).
Proof.
  intros Ha Hc. unfold findChild, bind. rewrite (load_Some _ _ _ Ha).
  apply findLink_firstNamed, Hc.
Qed.

(** The link that [firstNamed] finds is in the chain and bears the name. *)
Lemma firstNamed_Some (h : Heap) (nm : string) (chain : list positive) (k : positive) :
  firstNamed h nm chain = Some k ->
  In k chain /\ exists lk, links h !! k = Some lk /\ name lk = nm.
Proof.
  induction chain as [|k0 rest IH]; simpl; [discriminate|].
  destruct (links h !! k0) as [lk|] eqn:Hk; [|discriminate].
  destruct (String.eqb (name lk) nm) eqn:En.
  - intros [= <-]. split; [left; reflexivity|].
    exists lk. split; [exact Hk|apply String.eqb_eq, En].
  - intros Hf. destruct (IH Hf) as [Hin Hlk]. split; [right; exact Hin|exact Hlk].
Qed.

(** [firstNamed] reads the names of the links of the chain only. *)
Lemma firstNamed_agree (h h' : Heap) (nm : string) (chain : list positive) :
  Forall (fun k => option_map name (links h' !! k) = option_map name (links h !! k)) chain ->
  firstNamed h' nm chain = firstNamed h nm chain.
Proof.
  induction 1 as [|k rest Hk _ IH]; simpl; [reflexivity|].
  destruct (links h' !! k) as [lk'|], (links h !! k) as [lk|]; try discriminate; [|reflexivity].
  injection Hk as ->. rewrite IH. reflexivity.
Qed.

Lemma firstNamed_app (h : Heap) (nm : string) (c1 c2 : list positive) :
  valid_chain h c1 ->
  firstNamed h nm (c1 ++ c2) =
    match firstNamed h nm c1 with
    | Some k => Some k
    | None => firstNamed h nm c2
    end.
Proof.
  induction 1 as [|k rest [lk Hk] _ IH]; simpl; [reflexivity|].
  rewrite Hk. destruct (String.eqb (name lk) nm); [reflexivity|exact IH].
Qed.

Lemma valid_chain_allocated (h : Heap) (chain : list positive) :
  heap_wf h -> valid_chain h chain -> Forall (fun k => (k < nextAddr h)%positive) chain.
Proof.
  intros Hwf Hc. eapply List.Forall_impl; [|exact Hc].
  intros k [lk Hk]. eapply allocated_link; eassumption.
Qed.

(** What [addChild] does, and what [findChild] finds afterwards. *)
Lemma addChild_lookup (h : Heap) (a c : positive) (va : Value) (nm : string) :
  heap_wf h -> vars h !! a = Some va -> valid_chain h (children va) ->
  let k := nextAddr h in
  let h' := withChild h a c nm va in
  addChild a nm (Some c) h = (Ok k, h') /\
  heap_wf h' /\
  vars h' !! a = Some (set_children (children va ++ [k])
                         (if isUndefined va then set_flags VARIABLE_OBJECT va else va)) /\
  valid_chain h' (children va ++ [k]) /\
  (forall nm',
     findChild a nm' h'
       = (Ok (match firstNamed h nm' (children va) with
              | Some k0 => Some k0
              | None => if String.eqb nm nm' then Some k else None
              end), h')).
Proof.
  intros Hwf Ha Hc k h'.
  pose proof (allocated_var _ _ _ Hwf Ha) as Hlt.
  pose proof (valid_chain_allocated h _ Hwf Hc) as Hall.
  assert (vars h' !! a = Some (set_children (children va ++ [k])
            (if isUndefined va then set_flags VARIABLE_OBJECT va else va))) as Ha'
    by (unfold h', withChild; cbn [vars]; apply lookup_insert_eq).
  assert (valid_chain h (children va) -> valid_chain h' (children va)) as Hkeep.
  { intros Hv. unfold valid_chain in *. rewrite List.Forall_forall in *.
    intros x Hx. unfold h'. rewrite withChild_links; [apply Hv, Hx|apply Hall, Hx]. }
  assert (valid_chain h' (children va ++ [k])) as Hc'.
  { apply Forall_app. split; [apply Hkeep, Hc|].
    constructor; [|constructor]. unfold h', withChild; cbn [links].
    rewrite lookup_insert_eq. eauto. }
  split; [apply addChild_Some, Ha|]. split; [apply withChild_wf; assumption|].
  split; [exact Ha'|]. split; [exact Hc'|].
  intros nm'. rewrite (findChild_firstNamed h' a _ nm' Ha').
  2: { destruct (isUndefined va); exact Hc'. }
  f_equal. f_equal.
  assert (children (set_children (children va ++ [k])
            (if isUndefined va then set_flags VARIABLE_OBJECT va else va))
          = (children va ++ [k])%list) as -> by reflexivity.
  rewrite (firstNamed_app h' nm' _ _ (Hkeep Hc)).
  rewrite (firstNamed_agree h h' nm' (children va)).
  2: { rewrite List.Forall_forall in *. intros x Hx. unfold h'.
       rewrite withChild_links; [reflexivity|apply Hall, Hx]. }
  destruct (firstNamed h nm' (children va)); [reflexivity|].
  simpl. unfold h', withChild; cbn [links]. rewrite lookup_insert_eq. reflexivity.
Qed.

(** X6.  [addChild] and [findChild].  [addChild] puts a new link at the
    end of the chain of children, under the given name and without
    looking for a child of that name.  Afterwards [findChild] of the name
    finds the first child that bears it: an older one if there was one
    (the new child is then hidden behind it), the new one otherwise; for
    every other name it finds what it found before. *)
Theorem X6_addChild_findChild (h : Heap) (a c : positive) (va : Value) (nm : string) :
  heap_wf h -> vars h !! a = Some va -> valid_chain h (children va) ->
  exists k h' va',
    addChild a nm (Some c) h = (Ok k, h') /\
    links h !! k = None /\ links h' !! k = Some (mkLink nm c true) /\
    vars h' !! a = Some va' /\ children va' = (children va ++ [k])%list /\
    findChild a nm h'
      = (Ok (Some (match firstNamed h nm (children va) with
                   | Some k0 => k0
                   | None => k
                   end)), h') /\
    (forall nm', nm' <> nm ->
       findChild a nm' h' = (Ok (firstNamed h nm' (children va)), h')).
Proof.
  intros Hwf Ha Hc.
  destruct (addChild_lookup h a c va nm Hwf Ha Hc) as (E & _ & Ha' & _ & Hfind).
  eexists _, _, _. split; [exact E|].
  split; [apply Hwf; lia|].
  split; [unfold withChild; cbn [links]; apply lookup_insert_eq|].
  split; [exact Ha'|]. split; [reflexivity|]. split.
  - rewrite Hfind, String.eqb_refl. destruct (firstNamed h nm (children va)); reflexivity.
  - intros nm' Hne. rewrite Hfind. apply not_eq_sym, String.eqb_neq in Hne. rewrite Hne.
    destruct (firstNamed h nm' (children va)); reflexivity.
Qed.

(** X6 on the array [[10, , 20]]: a second child named [0] is added at
    the end and stays hidden behind the first. *)
Lemma X6_addChild_findChild_sample :
  exists k h' va',
    addChild 1 "0" (Some 3%positive) heap_array = (Ok k, h') /\
    links heap_array !! k = None /\ links h' !! k = Some (mkLink "0" 3%positive true) /\
    vars h' !! 1%positive = Some va' /\ children va' = [4; 5; k]%positive /\
    findChild 1 "0" h' = (Ok (Some 4%positive), h') /\
    (forall nm', nm' <> "0" ->
       findChild 1 nm' h' = (Ok (firstNamed heap_array nm' [4; 5]%positive), h')).
Proof.
  apply (X6_addChild_findChild heap_array 1 3 array_0_2 "0").
  - apply heap_wfb_sound. vm_compute. reflexivity.
  - reflexivity.
  - repeat constructor; eexists; reflexivity.
Defined.

Lemma alloc_wf (h : Heap) (v : Value) : heap_wf h -> heap_wf (snd (alloc v h)).
Proof.
  intros Hwf p Hp. cbn [alloc snd vars links nextAddr] in *.
  destruct (Hwf p) as [Hv Hl]; [lia|]. rewrite lookup_insert_ne by lia. split; assumption.
Qed.

(** X7.  [findChildOrCreate].  When the variable has a child of the given
    name, the first such link is returned and nothing changes.  When it
    has none, a new variable with the given flags is made and linked
    under the name at the end of the chain.  Either way a second call
    returns the same link and changes nothing: the function creates at
    most once. *)
Theorem X7_findChildOrCreate (h : Heap) (a : positive) (va : Value) (nm : string) (f : Z) :
  heap_wf h -> vars h !! a = Some va -> valid_chain h (children va) ->
  exists k h',
    findChildOrCreate a nm f h = (Ok k, h') /\
    findChildOrCreate a nm f h' = (Ok k, h') /\
    findChild a nm h' = (Ok (Some k), h') /\
    (forall k0, firstNamed h nm (children va) = Some k0 -> k = k0 /\ h' = h) /\
    (firstNamed h nm (children va) = None ->
     links h !! k = None /\
     exists c, links h' !! k = Some (mkLink nm c true) /\
               vars h !! c = None /\
               vars h' !! c = Some (Variable_data TINYJS_BLANK_DATA f) /\
               forall nm', nm' <> nm ->
                 findChild a nm' h' = (Ok (firstNamed h nm' (children va)), h')).
Proof.
  intros Hwf Ha Hc.
  pose proof (findChild_firstNamed h a va nm Ha Hc) as Hfind.
  destruct (firstNamed h nm (children va)) as [k0|] eqn:Ef.
  - exists k0, h. unfold findChildOrCreate, bind. rewrite Hfind.
    split; [reflexivity|]. split; [reflexivity|]. split; [reflexivity|].
    split; [intros k [= <-]; split; reflexivity|discriminate].
  - set (c := nextAddr h).
    set (h1 := snd (alloc (Variable_data TINYJS_BLANK_DATA f) h)).
    pose proof (allocated_var _ _ _ Hwf Ha) as Hlt.
    assert (vars h1 !! a = Some va) as Ha1
      by (unfold h1; cbn [alloc snd vars]; rewrite lookup_insert_ne by lia; exact Ha).
    assert (valid_chain h1 (children va)) as Hc1 by exact Hc.
    destruct (addChild_lookup h1 a c va nm (alloc_wf h _ Hwf) Ha1 Hc1)
      as (E & Hwf' & Ha' & Hc' & Hlook).
    assert (forall nm', firstNamed h1 nm' (children va) = firstNamed h nm' (children va)) as Hsame.
    { intros nm'. apply firstNamed_agree. rewrite List.Forall_forall. intros x _. reflexivity. }
    exists (nextAddr h1), (withChild h1 a c nm va).
    assert (findChildOrCreate a nm f h = (Ok (nextAddr h1), withChild h1 a c nm va)) as E1.
    { unfold findChildOrCreate, bind. rewrite Hfind. unfold alloc at 1. exact E. }
    assert (findChild a nm (withChild h1 a c nm va)
            = (Ok (Some (nextAddr h1)), withChild h1 a c nm va)) as E2.
    { rewrite Hlook, Hsame, Ef, String.eqb_refl. reflexivity. }
    split; [exact E1|].
    split; [unfold findChildOrCreate, bind; rewrite E2; reflexivity|].
    split; [exact E2|]. split; [discriminate|]. intros _.
    split; [apply Hwf; unfold h1; cbn [alloc snd nextAddr]; lia|].
    exists c. split; [unfold withChild; cbn [links]; apply lookup_insert_eq|].
    split; [apply Hwf; unfold c; lia|].
    split.
    + unfold withChild, h1. cbn [alloc snd vars nextAddr].
      rewrite lookup_insert_ne by (unfold c; lia). apply lookup_insert_eq.
    + intros nm' Hne. rewrite Hlook, Hsame. apply not_eq_sym, String.eqb_neq in Hne.
      rewrite Hne. destruct (firstNamed h nm' (children va)); reflexivity.
Qed.

(** X7 on the array [[10, , 20]]: the element 2 is there, the element 1
    is created. *)
Lemma X7_findChildOrCreate_sample :
  findChildOrCreate 1 "2" VARIABLE_UNDEFINED heap_array = (Ok 5%positive, heap_array) /\
  exists k h',
    findChildOrCreate 1 "1" VARIABLE_UNDEFINED heap_array = (Ok k, h') /\
    findChildOrCreate 1 "1" VARIABLE_UNDEFINED h' = (Ok k, h') /\
    findChild 1 "1" h' = (Ok (Some k), h').
Proof.
  assert (heap_wf heap_array) as Hwf by (apply heap_wfb_sound; vm_compute; reflexivity).
  assert (valid_chain heap_array (children array_0_2)) as Hc
    by (repeat constructor; eexists; reflexivity).
  split.
  - destruct (X7_findChildOrCreate heap_array 1 array_0_2 "2" VARIABLE_UNDEFINED Hwf eq_refl Hc)
      as (k & h' & E & _ & _ & Hold & _).
    destruct (Hold 5%positive eq_refl) as [-> ->]. exact E.
  - destruct (X7_findChildOrCreate heap_array 1 array_0_2 "1" VARIABLE_UNDEFINED Hwf eq_refl Hc)
      as (k & h' & E & E2 & E3 & _).
    exists k, h'. repeat split; assumption.
Defined.

(** X8.  [addChildNoDup].  When the variable has a child of the given
    name, the first such link is redirected to the new child and
    returned: the chain of children and every other link stay as they
    were.  When it has none the function is [addChild].  Either way
    [findChild] of the name afterwards finds the returned link, and the
    link leads to the new child. *)
Theorem X8_addChildNoDup (h : Heap) (a c : positive) (va : Value) (nm : string) :
  heap_wf h -> vars h !! a = Some va -> valid_chain h (children va) ->
  exists k h',
    addChildNoDup a nm (Some c) h = (Ok k, h') /\
    findChild a nm h' = (Ok (Some k), h') /\
    (exists lk, links h' !! k = Some lk /\ name lk = nm /\ var lk = c) /\
    (forall k0 lk0,
       firstNamed h nm (children va) = Some k0 -> links h !! k0 = Some lk0 ->
       k = k0 /\
       h' = mkHeap (vars h) (<[k0 := mkLink (name lk0) c (owned lk0)]> (links h)) (nextAddr h)) /\
    (firstNamed h nm (children va) = None ->
     addChildNoDup a nm (Some c) h = addChild a nm (Some c) h).
Proof.
  intros Hwf Ha Hc.
  pose proof (findChild_firstNamed h a va nm Ha Hc) as Hfind.
  destruct (firstNamed h nm (children va)) as [k0|] eqn:Ef.
  - destruct (firstNamed_Some _ _ _ _ Ef) as (Hin & lk0 & Hk0 & Hname).
    set (h' := mkHeap (vars h) (<[k0 := mkLink (name lk0) c (owned lk0)]> (links h)) (nextAddr h)).
    assert (addChildNoDup a nm (Some c) h = (Ok k0, h')) as E.
    { unfold addChildNoDup, bind, ret. rewrite Hfind.
      unfold replaceWith, bind. rewrite (load_link_Some _ _ _ Hk0). reflexivity. }
    assert (Forall (fun k => option_map name (links h' !! k) = option_map name (links h !! k))
                   (children va)) as Hnames.
    { rewrite List.Forall_forall. intros x _. unfold h'. cbn [links].
      destruct (decide (k0 = x)) as [<-|Hne].
      - rewrite lookup_insert_eq, Hk0. reflexivity.
      - rewrite lookup_insert_ne by assumption. reflexivity. }
    assert (valid_chain h' (children va)) as Hc'.
    { unfold valid_chain in *. rewrite List.Forall_forall in *. intros x Hx.
      specialize (Hc x Hx). specialize (Hnames x Hx).
      destruct Hc as [lx Hlx]. rewrite Hlx in Hnames.
      destruct (links h' !! x); [eauto|discriminate]. }
    exists k0, h'. split; [exact E|]. split.
    { rewrite (findChild_firstNamed h' a va nm Ha Hc'), (firstNamed_agree h h' nm _ Hnames), Ef.
      reflexivity. }
    split.
    { eexists. split; [unfold h'; cbn [links]; apply lookup_insert_eq|].
      split; [exact Hname|reflexivity]. }
    split; [|discriminate].
    intros k1 lk1 [= <-] Hk1. rewrite Hk0 in Hk1. injection Hk1 as <-. split; reflexivity.
  - destruct (addChild_lookup h a c va nm Hwf Ha Hc) as (E & _ & _ & _ & Hlook).
    assert (addChildNoDup a nm (Some c) h = addChild a nm (Some c) h) as E1.
    { unfold addChildNoDup, bind, ret. rewrite Hfind. reflexivity. }
    eexists _, _. split; [rewrite E1; exact E|].
    split; [rewrite Hlook, Ef, String.eqb_refl; reflexivity|].
    split.
    { eexists. split; [unfold withChild; cbn [links]; apply lookup_insert_eq|].
      split; reflexivity. }
    split; [discriminate|]. intros _. exact E1.
Qed.

(** X8 on the array [[10, , 20]]: the element 0 is redirected to the
    variable 3, and the chain still has two links. *)
Lemma X8_addChildNoDup_sample :
  exists k h',
    addChildNoDup 1 "0" (Some 3%positive) heap_array = (Ok k, h') /\
    findChild 1 "0" h' = (Ok (Some k), h') /\
    (exists lk, links h' !! k = Some lk /\ name lk = "0" /\ var lk = 3%positive) /\
    k = 4%positive /\ vars h' = vars heap_array.
Proof.
  destruct (X8_addChildNoDup heap_array 1 3 array_0_2 "0")
    as (k & h' & E & Hfind & Hlk & Hold & _).
  - apply heap_wfb_sound. vm_compute. reflexivity.
  - reflexivity.
  - repeat constructor; eexists; reflexivity.
  - destruct (Hold 4%positive (mkLink "0" 2%positive true) eq_refl eq_refl) as [Hk Hh].
    exists k, h'. split; [exact E|]. split; [exact Hfind|]. split; [exact Hlk|].
    split; [exact Hk|]. rewrite Hh. reflexivity.
Defined.

Lemma without_fresh (k : positive) (chain : list positive) :
  ~ In k chain -> without k chain = chain.
Proof.
  induction chain as [|x rest IH]; intros Hk; [reflexivity|].
  unfold without in *. simpl.
  destruct (Pos.eqb_spec x k) as [->|_]; [exfalso; apply Hk; left; reflexivity|].
  simpl. f_equal. apply IH. intros Hin. apply Hk. right. exact Hin.
Qed.

Lemma without_app (k : positive) (c1 c2 : list positive) :
  without k (c1 ++ c2) = (without k c1 ++ without k c2)%list.
Proof. unfold without. apply List.filter_app. Qed.

Lemma without_here (k : positive) (rest : list positive) :
  without k (k :: rest) = without k rest.
Proof. unfold without. simpl. rewrite Pos.eqb_refl. reflexivity. Qed.

Lemma removeLink_Some (h : Heap) (a k : positive) (va : Value) :
  vars h !! a = Some va ->
  removeLink a (Some k) h
    = (Ok tt, mkHeap (<[a := set_children (without k (children va)) va]> (vars h))
                     (links h) (nextAddr h)).
Proof. intros Ha. unfold removeLink, bind. rewrite (load_Some _ _ _ Ha). reflexivity. Qed.



Lemma findLinkTo_none (h : Heap) (c : positive) (chain : list positive) :
  Forall (link_not_to h c) chain -> findLinkTo chain c h = (Ok None, h).
Proof.
  induction 1 as [|k rest [lk [Hk Hn]] _ IH]; simpl; [reflexivity|].
  unfold bind. rewrite (load_link_Some _ _ _ Hk).
  apply Pos.eqb_neq in Hn. rewrite Hn. exact IH.
Qed.

Lemma findLinkTo_first (h : Heap) (c : positive) (pre post : list positive) (k : positive)
      (lk : VariableLink) :
  Forall (link_not_to h c) pre -> links h !! k = Some lk -> var lk = c ->
  findLinkTo (pre ++ k :: post)%list c h = (Ok (Some k), h).
Proof.
  intros Hpre Hk Hv. induction Hpre as [|k0 rest [lk0 [Hk0 Hn0]] _ IH]; simpl.
  - unfold bind. rewrite (load_link_Some _ _ _ Hk), Hv, Pos.eqb_refl. reflexivity.
  - unfold bind. rewrite (load_link_Some _ _ _ Hk0).
    apply Pos.eqb_neq in Hn0. rewrite Hn0. exact IH.
Qed.

(** X10.  [removeChild].  When no link of the variable leads to the given
    child the assertion of the function fails; nothing is removed.
    Otherwise the first link that leads to the child is taken out of the
    chain, and the links before and after it stay in their order. *)
Theorem X10_removeChild (h : Heap) (a c : positive) (va : Value) :
  vars h !! a = Some va -> List.NoDup (children va) ->
  (Forall (link_not_to h c) (children va) -> removeChild a c h = (Crash AssertFailed, h)) /\
  (forall (pre : list positive) (k : positive) (post : list positive) (lk : VariableLink),
     children va = (pre ++ k :: post)%list ->
     Forall (link_not_to h c) pre -> links h !! k = Some lk -> var lk = c ->
     removeChild a c h
       = (Ok tt, mkHeap (<[a := set_children (pre ++ post) va]> (vars h))
                        (links h) (nextAddr h))).
Proof.
  intros Ha Hnd. split.
  - intros Hnone. unfold removeChild, bind.
    rewrite (load_Some _ _ _ Ha), (findLinkTo_none _ _ _ Hnone). reflexivity.
  - intros pre k post lk Hch Hpre Hk Hv. unfold removeChild, bind.
    rewrite (load_Some _ _ _ Ha), Hch, (findLinkTo_first _ _ _ _ _ _ Hpre Hk Hv).
    rewrite (removeLink_Some _ _ _ _ Ha), Hch.
    rewrite Hch in Hnd. apply List.NoDup_remove_2 in Hnd.
    rewrite without_app, without_here.
    rewrite (without_fresh k pre), (without_fresh k post); [reflexivity| |];
      intros Hin; apply Hnd, in_or_app; [right|left]; exact Hin.
Qed.

(** X10 on the array [[10, , 20]]: its first element is removed; the
    array itself is not among its children. *)
Lemma X10_removeChild_sample :
  removeChild 1 1 heap_array = (Crash AssertFailed, heap_array) /\
  removeChild 1 2 heap_array
    = (Ok tt, mkHeap (<[1%positive := set_children [5%positive] array_0_2]> (vars heap_array))
                     (links heap_array) (nextAddr heap_array)).
Proof.
  assert (List.NoDup (children array_0_2)) as Hnd.
  { constructor; [simpl; intros [H|[]]; discriminate|].
    constructor; [intros []|constructor]. }
  destruct (X10_removeChild heap_array 1 1 array_0_2 eq_refl Hnd) as [Hnone _].
  destruct (X10_removeChild heap_array 1 2 array_0_2 eq_refl Hnd) as [_ Hfirst].
  split.
  - apply Hnone. repeat constructor; eexists; (split; [reflexivity|discriminate]).
  - apply (Hfirst [] 4%positive [5%positive] (mkLink "0" 2%positive true));
      [reflexivity|constructor|reflexivity|reflexivity].
Defined.

(** A link of the chain redirected to another variable: [findChild] finds
    what it found before. *)
Lemma redirect_lookup (h : Heap) (a k0 c : positive) (va : Value) (lk0 : VariableLink) :
  vars h !! a = Some va -> valid_chain h (children va) -> links h !! k0 = Some lk0 ->
  let h' := mkHeap (vars h) (<[k0 := mkLink (name lk0) c (owned lk0)]> (links h)) (nextAddr h) in
  replaceWith k0 c h = (Ok tt, h') /\
  forall nm', findChild a nm' h' = (Ok (firstNamed h nm' (children va)), h').
Proof.
  intros Ha Hc Hk0 h'. split.
  { unfold replaceWith, bind. rewrite (load_link_Some _ _ _ Hk0). reflexivity. }
  assert (Forall (fun k => option_map name (links h' !! k) = option_map name (links h !! k))
                 (children va)) as Hnames.
  { rewrite List.Forall_forall. intros x _. unfold h'. cbn [links].
    destruct (decide (k0 = x)) as [<-|Hne].
    - rewrite lookup_insert_eq, Hk0. reflexivity.
    - rewrite lookup_insert_ne by assumption. reflexivity. }
  assert (valid_chain h' (children va)) as Hc'.
  { unfold valid_chain in *. rewrite List.Forall_forall in *. intros x Hx.
    specialize (Hc x Hx). specialize (Hnames x Hx).
    destruct Hc as [lx Hlx]. rewrite Hlx in Hnames.
    destruct (links h' !! x); [eauto|discriminate]. }
  intros nm'. rewrite (findChild_firstNamed h' a va nm' Ha Hc').
  rewrite (firstNamed_agree h h' nm' _ Hnames). reflexivity.
Qed.

(** X11.  [setArrayIndex] and [getArrayIndex].  After a variable that is
    not undefined is stored at an index, [getArrayIndex] of that index
    returns it, without touching the heap, and the children of every
    other name are found as before.  Storing an undefined variable stores
    nothing: it takes the first child of that name out of the chain, and
    does nothing at all when there is none. *)
Theorem X11_setArrayIndex_getArrayIndex (h : Heap) (a v : positive) (va vv : Value) (i : Z) :
  heap_wf h -> vars h !! a = Some va -> valid_chain h (children va) ->
  vars h !! v = Some vv ->
  (isUndefined vv = false ->
   exists h',
     setArrayIndex a i v h = (Ok tt, h') /\
     getArrayIndex a i h' = (Ok v, h') /\
     (forall nm', nm' <> itoa i ->
        findChild a nm' h' = (Ok (firstNamed h nm' (children va)), h'))) /\
  (isUndefined vv = true ->
   setArrayIndex a i v h =
     (Ok tt,
      match firstNamed h (itoa i) (children va) with
      | None => h
      | Some k => mkHeap (<[a := set_children (without k (children va)) va]> (vars h))
                         (links h) (nextAddr h)
      end)).
Proof.
  intros Hwf Ha Hc Hv.
  pose proof (findChild_firstNamed h a va (itoa i) Ha Hc) as Hfind.
  split.
  - intros Hu. unfold setArrayIndex, bind at 1 2. rewrite Hfind, (load_Some _ _ _ Hv), Hu.
    destruct (firstNamed h (itoa i) (children va)) as [k0|] eqn:Ef.
    + destruct (firstNamed_Some _ _ _ _ Ef) as (_ & lk0 & Hk0 & Hname).
      destruct (redirect_lookup h a k0 v va lk0 Ha Hc Hk0) as [E Hlook].
      eexists. split; [exact E|]. split.
      * unfold getArrayIndex, bind. rewrite Hlook, Ef.
        unfold load_link. cbn [links]. rewrite lookup_insert_eq. reflexivity.
      * intros nm' _. apply Hlook.
    + destruct (addChild_lookup h a v va (itoa i) Hwf Ha Hc) as (E & _ & _ & _ & Hlook).
      eexists. cbn [negb]. unfold bind, ret. rewrite E. split; [reflexivity|]. split.
      * unfold getArrayIndex, bind. rewrite Hlook, Ef, String.eqb_refl.
        unfold load_link, withChild. cbn [links]. rewrite lookup_insert_eq. reflexivity.
      * intros nm' Hne. rewrite Hlook. apply not_eq_sym, String.eqb_neq in Hne. rewrite Hne.
        destruct (firstNamed h nm' (children va)); reflexivity.
  - intros Hu. unfold setArrayIndex, bind at 1 2. rewrite Hfind, (load_Some _ _ _ Hv), Hu.
    destruct (firstNamed h (itoa i) (children va)) as [k0|]; [|reflexivity].
    apply removeLink_Some, Ha.
Qed.

(** X11 on the array [[10, , 20]]: the variable 3 is stored as the
    element 1 and is read back. *)
Lemma X11_setArrayIndex_getArrayIndex_sample :
  exists h',
    setArrayIndex 1 1 3 heap_array = (Ok tt, h') /\
    getArrayIndex 1 1 h' = (Ok 3%positive, h').
Proof.
  destruct (X11_setArrayIndex_getArrayIndex heap_array 1 3 array_0_2 (Variable_int 20) 1)
    as [Hdefined _].
  - apply heap_wfb_sound. vm_compute. reflexivity.
  - reflexivity.
  - repeat constructor; eexists; reflexivity.
  - reflexivity.
  - destruct (Hdefined eq_refl) as (h' & E & Hget & _). exists h'. split; assumption.
Defined.

(* ------------------------------------------------------------------ *)
(** ** Decimal names *)

(** What a decimal digit is to the functions that read it. *)
Lemma digit_char (c : ascii) :
  isNumericCh c = true ->
  isspace c = false /\ Ascii.eqb c "-" = false /\ Ascii.eqb c "+" = false /\
  isX c = false /\ Ascii.eqb c NUL = false /\
  exists d, digitValue c = Some d /\ 0 <= d < 10.
Proof.
  destruct c as [[] [] [] [] [] [] [] []]; try discriminate; intros _;
    repeat (split; [reflexivity|]); eexists; (split; [vm_compute; reflexivity|]); lia.
Qed.

Ltac digit_step :=
  cbn [NilEmpty.string_of_uint accumulate];
  match goal with
  | |- context [digitValue ?c] =>
      let v := eval vm_compute in (digitValue c) in change (digitValue c) with v
  end;
  cbv iota beta;
  match goal with
  | |- context [?x <? 10] =>
      let b := eval vm_compute in (x <? 10) in change (x <? 10) with b
  end;
  cbv iota.

Lemma accumulate_uint_acc (d : Decimal.uint) :
  forall acc : positive,
    accumulate 10 (NilEmpty.string_of_uint d) (Z.pos acc) = Z.pos (Pos.of_uint_acc d acc).
Proof.
  induction d as [|d IH|d IH|d IH|d IH|d IH|d IH|d IH|d IH|d IH|d IH]; intros acc;
    [reflexivity|..]; digit_step; cbn [Pos.of_uint_acc]; rewrite <- IH; f_equal; lia.
Qed.

Lemma accumulate_uint (d : Decimal.uint) :
  accumulate 10 (NilEmpty.string_of_uint d) 0 = Z.of_N (Pos.of_uint d).
Proof.
  induction d as [|d IH|d IH|d IH|d IH|d IH|d IH|d IH|d IH|d IH|d IH];
    [reflexivity|..]; digit_step; cbn [Pos.of_uint Z.of_N];
    [exact IH|..]; apply (accumulate_uint_acc d).
Qed.

Lemma isNumber_uint (d : Decimal.uint) : isNumber (NilEmpty.string_of_uint d) = true.
Proof.
  induction d as [|d IH|d IH|d IH|d IH|d IH|d IH|d IH|d IH|d IH|d IH];
    [reflexivity|..]; cbn [NilEmpty.string_of_uint isNumber];
    match goal with
    | |- context [isNumericCh ?c] => change (isNumericCh c) with true
    end; exact IH.
Qed.

Lemma c_str_digits (s : string) : isNumber s = true -> c_str s = s.
Proof.
  induction s as [|c r IH]; [reflexivity|]. simpl.
  destruct (isNumericCh c) eqn:Ec; [|discriminate].
  destruct (digit_char c Ec) as (_ & _ & _ & _ & Hz & _). rewrite Hz.
  intros Hr. rewrite (IH Hr). reflexivity.
Qed.

(** [strtol] in base ten on a string of digits that is not empty. *)
Lemma strtol_digits (c : ascii) (r : string) :
  isNumber (String c r) = true ->
  strtol (String c r) 10 = clamp_long (accumulate 10 (String c r) 0).
Proof.
  simpl. destruct (isNumericCh c) eqn:Ec; [|discriminate]. intros Hr.
  destruct (digit_char c Ec) as (Hsp & Hm & Hp & _).
  unfold strtol. cbn [skipSpaces]. rewrite Hsp, Hm, Hp.
  destruct r as [|x [|y t]]; try reflexivity.
  simpl in Hr. destruct (isNumericCh x) eqn:Ex; [|discriminate].
  destruct (digit_char x Ex) as (_ & _ & _ & Hx & _). rewrite Hx.
  rewrite andb_false_r. reflexivity.
Qed.

Lemma string_of_uint_nonnil (d : Decimal.uint) :
  d <> Decimal.Nil -> NilZero.string_of_uint d = NilEmpty.string_of_uint d.
Proof. destruct d; [contradiction|reflexivity..]. Qed.

Lemma uint_string_cons (d : Decimal.uint) :
  d <> Decimal.Nil -> exists c r, NilEmpty.string_of_uint d = String c r.
Proof. destruct d; [contradiction|eexists _, _; reflexivity..]. Qed.

Lemma strtol_neg_digits (c : ascii) (r : string) :
  isNumber (String c r) = true ->
  strtol (String "-" (String c r)) 10 = clamp_long (- accumulate 10 (String c r) 0).
Proof.
  simpl. destruct (isNumericCh c) eqn:Ec; [|discriminate]. intros Hr.
  unfold strtol. cbn [skipSpaces].
  change (isspace "-") with false. cbv iota.
  change (Ascii.eqb "-" "-") with true. cbv beta iota zeta.
  destruct r as [|x [|y t]]; try reflexivity.
  simpl in Hr. destruct (isNumericCh x) eqn:Ex; [|discriminate].
  destruct (digit_char x Ex) as (_ & _ & _ & Hx & _). cbv beta iota zeta. rewrite Hx.
  rewrite andb_false_r. reflexivity.
Qed.

(** The decimal form of a positive number: digits, which stand for it. *)
Lemma decimal_pos (p : positive) :
  exists c r,
    NilZero.string_of_uint (Pos.to_uint p) = String c r /\
    isNumber (String c r) = true /\
    accumulate 10 (String c r) 0 = Z.pos p.
Proof.
  pose proof (DecimalPos.Unsigned.to_uint_nonnil p) as Hnn.
  destruct (uint_string_cons _ Hnn) as (c & r & E).
  exists c, r. rewrite (string_of_uint_nonnil _ Hnn).
  split; [exact E|]. rewrite <- E.
  split; [apply isNumber_uint|].
  rewrite accumulate_uint, DecimalPos.Unsigned.of_to. reflexivity.
Qed.

Lemma to_int_small (n : Z) : INT_MIN <= n <= INT_MAX -> to_int n = n.
Proof.
  unfold INT_MIN, INT_MAX, to_int, wrap. intros Hn.
  change (2 ^ (32 - 1)) with 2147483648. change (2 ^ 32) with 4294967296.
  rewrite Z.mod_small; lia.
Qed.

Lemma clamp_int (n : Z) : INT_MIN <= n <= INT_MAX -> to_int (clamp_long n) = n.
Proof.
  intros Hn. unfold clamp_long, LONG_MIN, LONG_MAX.
  unfold INT_MIN, INT_MAX in Hn. rewrite Z.min_r, Z.max_r by lia.
  apply to_int_small. unfold INT_MIN, INT_MAX. lia.
Qed.

(** [atoi] reads back what [sprintf("%d")] has written. *)
Lemma atoi_itoa (n : Z) : INT_MIN <= n <= INT_MAX -> atoi (c_str (itoa n)) = n.
Proof.
  intros Hn. unfold itoa, atoi.
  destruct n as [|p|p]; [reflexivity|..]; cbn [Z.to_int NilZero.string_of_int];
    destruct (decimal_pos p) as (c & r & -> & Hd & Hacc).
  - rewrite (c_str_digits _ Hd), (strtol_digits c r Hd), Hacc. apply clamp_int, Hn.
  - assert (c_str (String "-" (String c r)) = String "-" (String c r)) as ->.
    { change (c_str (String "-" (String c r))) with (String "-" (c_str (String c r))).
      rewrite (c_str_digits _ Hd). reflexivity. }
    rewrite (strtol_neg_digits c r Hd), Hacc. apply clamp_int, Hn.
Qed.

(** The decimal form of a number is a string of digits exactly when the
    number is not negative. *)
Lemma isNumber_itoa (n : Z) : isNumber (itoa n) = (0 <=? n).
Proof.
  unfold itoa. destruct n as [|p|p]; [reflexivity|..]; cbn [Z.to_int NilZero.string_of_int].
  - destruct (decimal_pos p) as (c & r & -> & Hd & _). exact Hd.
  - reflexivity.
Qed.

Lemma itoa_inj (n m : Z) :
  INT_MIN <= n <= INT_MAX -> INT_MIN <= m <= INT_MAX -> itoa n = itoa m -> n = m.
Proof.
  intros Hn Hm E. rewrite <- (atoi_itoa n Hn), <- (atoi_itoa m Hm), E. reflexivity.
Qed.

(** X12.  The name of a link as an index.  [setIntName] writes the
    decimal form of an [int] and [getIntName] reads it back, negative
    numbers included; the target and the ownership of the link are not
    touched. *)
Theorem X12_intName_round_trip (n : Z) (lk : VariableLink) :
  INT_MIN <= n <= INT_MAX ->
  getIntName (setIntName n lk) = n /\
  var (setIntName n lk) = var lk /\ owned (setIntName n lk) = owned lk.
Proof.
  intros Hn. split; [|split; reflexivity].
  unfold getIntName, setIntName. cbn [name]. apply atoi_itoa, Hn.
Qed.

(** X12 on the index -42. *)
Lemma X12_intName_round_trip_sample :
  getIntName (setIntName (-42) (mkLink "7" 1%positive true)) = -42.
Proof.
  apply (proj1 (X12_intName_round_trip (-42) (mkLink "7" 1%positive true)
                  ltac:(vm_compute; split; discriminate))).
Defined.

Lemma highestIndex_pure (h : Heap) (chain : list positive) :
  valid_chain h chain ->
  forall hi, highestIndex chain hi h = (Ok (highestName h chain hi), h).
Proof.
  induction 1 as [|k rest [lk Hk] _ IH]; intros hi; simpl; [reflexivity|].
  unfold bind. rewrite (load_link_Some _ _ _ Hk), Hk.
  destruct (isNumber (name lk)); [|apply IH].
  rewrite IH. do 3 f_equal.
  destruct (Z.ltb_spec hi (atoi (c_str (name lk)))); lia.
Qed.

Lemma highestName_agree (h h' : Heap) (chain : list positive) :
  Forall (fun k => option_map name (links h' !! k) = option_map name (links h !! k)) chain ->
  forall hi, highestName h' chain hi = highestName h chain hi.
Proof.
  induction 1 as [|k rest Hk _ IH]; intros hi; simpl; [reflexivity|].
  destruct (links h' !! k) as [lk'|], (links h !! k) as [lk|]; try discriminate; [|reflexivity].
  injection Hk as ->. destruct (isNumber (name lk)); apply IH.
Qed.

Lemma highestName_app (h : Heap) (c1 c2 : list positive) :
  valid_chain h c1 ->
  forall hi, highestName h (c1 ++ c2) hi = highestName h c2 (highestName h c1 hi).
Proof.
  induction 1 as [|k rest [lk Hk] _ IH]; intros hi; simpl; [reflexivity|].
  rewrite Hk. destruct (isNumber (name lk)); apply IH.
Qed.

Lemma highestName_ge (h : Heap) (chain : list positive) :
  forall hi, hi <= highestName h chain hi.
Proof.
  induction chain as [|k rest IH]; intros hi; simpl; [lia|].
  destruct (links h !! k) as [lk|]; [|lia].
  destruct (isNumber (name lk)); [|apply IH].
  specialize (IH (Z.max hi (atoi (c_str (name lk))))). lia.
Qed.

Lemma highestName_member (h : Heap) (chain : list positive) (k : positive) (lk : VariableLink) :
  valid_chain h chain -> In k chain -> links h !! k = Some lk -> isNumber (name lk) = true ->
  forall hi, atoi (c_str (name lk)) <= highestName h chain hi.
Proof.
  induction 1 as [|k0 rest [lk0 Hk0] _ IH]; intros Hin Hk Hnum hi; [destruct Hin|].
  simpl. rewrite Hk0. destruct Hin as [->|Hin].
  - rewrite Hk in Hk0. injection Hk0 as <-. rewrite Hnum.
    pose proof (highestName_ge h rest (Z.max hi (atoi (c_str (name lk))))). lia.
  - destruct (isNumber (name lk0)); apply IH; assumption.
Qed.

Lemma flagged_not_undefined (v : Value) (m : Z) :
  Z.land VARIABLE_TYPEMASK m = m -> hasFlag v m = true -> isUndefined v = false.
Proof.
  intros Hm Hf. apply (hasFlag_mono v VARIABLE_TYPEMASK m Hm) in Hf.
  unfold hasFlag in Hf. unfold isUndefined.
  destruct (Z.eqb_spec (Z.land (flags v) VARIABLE_TYPEMASK) VARIABLE_UNDEFINED) as [E|];
    [|reflexivity].
  rewrite E in Hf. discriminate.
Qed.

(** [getArrayLength] on an array whose links all exist. *)
Lemma getArrayLength_top (h : Heap) (a : positive) (va : Value) :
  vars h !! a = Some va -> valid_chain h (children va) -> isArray va = true ->
  getArrayLength a h = (Ok (to_int (topIndex h (children va) + 1)), h).
Proof.
  intros Ha Hc Harr. unfold getArrayLength, bind. rewrite (load_Some _ _ _ Ha), Harr.
  cbn [negb]. rewrite (highestIndex_pure h _ Hc). reflexivity.
Qed.

(** X13.  [setArrayIndex] and [getArrayLength].  After a variable that is
    not undefined is stored in an array at an index that is not negative,
    the length of the array is one more than the larger of that index and
    the highest index the array had: storing past the end extends the
    array over a gap, storing inside it leaves the length as it was. *)
Theorem X13_setArrayIndex_length (h : Heap) (a v : positive) (va vv : Value) (i : Z) :
  heap_wf h -> vars h !! a = Some va -> valid_chain h (children va) ->
  vars h !! v = Some vv ->
  isArray va = true -> isUndefined vv = false -> 0 <= i <= INT_MAX ->
  exists h',
    setArrayIndex a i v h = (Ok tt, h') /\
    getArrayLength a h = (Ok (to_int (topIndex h (children va) + 1)), h) /\
    getArrayLength a h'
      = (Ok (to_int (Z.max (topIndex h (children va)) i + 1)), h').
Proof.
  intros Hwf Ha Hc Hv Harr Hu Hi.
  assert (INT_MIN <= i <= INT_MAX) as Hrange by (unfold INT_MIN, INT_MAX in *; lia).
  assert (isNumber (itoa i) = true) as Hnum
    by (rewrite isNumber_itoa; apply Z.leb_le; lia).
  pose proof (flagged_not_undefined va VARIABLE_ARRAY eq_refl Harr) as Hna.
  pose proof (findChild_firstNamed h a va (itoa i) Ha Hc) as Hfind.
  pose proof (valid_chain_allocated h _ Hwf Hc) as Hall.
  assert (setArrayIndex a i v h =
          match firstNamed h (itoa i) (children va) with
          | Some k0 => replaceWith k0 v h
          | None => (Ok tt, withChild h a v (itoa i) va)
          end) as E.
  { unfold setArrayIndex, bind at 1 2. rewrite Hfind, (load_Some _ _ _ Hv), Hu.
    destruct (firstNamed h (itoa i) (children va)); [reflexivity|].
    cbn [negb]. unfold bind, ret. rewrite (addChild_Some _ _ _ _ _ Ha). reflexivity. }
  rewrite E. destruct (firstNamed h (itoa i) (children va)) as [k0|] eqn:Ef.
  - destruct (firstNamed_Some _ _ _ _ Ef) as (Hin & lk0 & Hk0 & Hname).
    destruct (redirect_lookup h a k0 v va lk0 Ha Hc Hk0) as [Er _].
    eexists. split; [exact Er|]. split; [apply getArrayLength_top; assumption|].
    set (h' := mkHeap (vars h) (<[k0 := mkLink (name lk0) v (owned lk0)]> (links h)) (nextAddr h)).
    assert (Forall (fun k => option_map name (links h' !! k) = option_map name (links h !! k))
                   (children va)) as Hnames.
    { rewrite List.Forall_forall. intros x _. unfold h'. cbn [links].
      destruct (decide (k0 = x)) as [<-|Hne].
      - rewrite lookup_insert_eq, Hk0. reflexivity.
      - rewrite lookup_insert_ne by assumption. reflexivity. }
    assert (valid_chain h' (children va)) as Hc'.
    { unfold valid_chain in *. rewrite List.Forall_forall in *. intros x Hx.
      specialize (Hc x Hx). specialize (Hnames x Hx).
      destruct Hc as [lx Hlx]. rewrite Hlx in Hnames.
      destruct (links h' !! x); [eauto|discriminate]. }
    rewrite (getArrayLength_top h' a va Ha Hc' Harr). unfold topIndex.
    rewrite (highestName_agree h h' _ Hnames).
    assert (i <= highestName h (children va) (-1)) as Hle.
    { rewrite <- (atoi_itoa i Hrange), <- Hname.
      apply (highestName_member h _ k0 lk0 Hc Hin Hk0). rewrite Hname. exact Hnum. }
    rewrite Z.max_l by exact Hle. reflexivity.
  - eexists. split; [reflexivity|]. split; [apply getArrayLength_top; assumption|].
    set (k := nextAddr h). set (h' := withChild h a v (itoa i) va).
    assert (vars h' !! a = Some (set_children (children va ++ [k]) va)) as Ha'.
    { unfold h', withChild. cbn [vars]. rewrite Hna. apply lookup_insert_eq. }
    assert (Forall (fun x => option_map name (links h' !! x) = option_map name (links h !! x))
                   (children va)) as Hnames.
    { rewrite List.Forall_forall in *. intros x Hx. unfold h'.
      rewrite withChild_links; [reflexivity|apply Hall, Hx]. }
    assert (valid_chain h' (children va)) as Hc1.
    { unfold valid_chain in *. rewrite List.Forall_forall in *. intros x Hx.
      unfold h'. rewrite withChild_links; [apply Hc, Hx|apply Hall, Hx]. }
    assert (links h' !! k = Some (mkLink (itoa i) v true)) as Hk
      by (unfold h', withChild; cbn [links]; apply lookup_insert_eq).
    rewrite (getArrayLength_top h' a _ Ha'); [| |exact Harr].
    2: { cbn [children set_children]. apply Forall_app. split; [exact Hc1|].
         constructor; [eauto|constructor]. }
    unfold topIndex. cbn [children set_children].
    rewrite (highestName_app h' _ _ Hc1), (highestName_agree h h' _ Hnames).
    cbn [highestName]. rewrite Hk. cbn [name]. rewrite Hnum, (atoi_itoa i Hrange). reflexivity.
Qed.

(** X13 on the array [[10, , 20]]: storing the element 5 makes the length
    6, storing the element 1 leaves it at 3. *)
Lemma X13_setArrayIndex_length_sample :
  (exists h', setArrayIndex 1 5 3 heap_array = (Ok tt, h') /\
              getArrayLength 1 heap_array = (Ok 3, heap_array) /\
              getArrayLength 1 h' = (Ok 6, h')) /\
  (exists h', setArrayIndex 1 1 3 heap_array = (Ok tt, h') /\
              getArrayLength 1 heap_array = (Ok 3, heap_array) /\
              getArrayLength 1 h' = (Ok 3, h')).
Proof.
  assert (heap_wf heap_array) as Hwf by (apply heap_wfb_sound; vm_compute; reflexivity).
  assert (valid_chain heap_array (children array_0_2)) as Hc
    by (repeat constructor; eexists; reflexivity).
  split.
  - apply (X13_setArrayIndex_length heap_array 1 3 array_0_2 (Variable_int 20) 5
             Hwf eq_refl Hc eq_refl eq_refl eq_refl ltac:(vm_compute; split; discriminate)).
  - apply (X13_setArrayIndex_length heap_array 1 3 array_0_2 (Variable_int 20) 1
             Hwf eq_refl Hc eq_refl eq_refl eq_refl ltac:(vm_compute; split; discriminate)).
Defined.



(* ------------------------------------------------------------------ *)
(** ** The host calls *)

Section HostCalls.

Variable native :
  (string -> M unit) -> (string -> M VariableLink) -> N -> positive -> N -> M unit.

(** A guarded loop that is followed by more code and returns: the loop
    has returned, the handler has not run. *)
Lemma completed {A B : Type} (body : M A) (rest : A -> M B) (oldLex : option Lexer)
      (st0 st' : Interp) (b : B) :
  bind (try_catch body
          (fun text =>
             let* lx := lexer in
             let msg := "Error " ++ text ++ " at " ++ getPosition lx (-1) in
             let* _ := setL oldLex in
             throw msg)) rest st0 = (Ok b, st') ->
  exists a st2, body st0 = (Ok a, st2) /\ rest a st2 = (Ok b, st').
Proof.
  unfold bind at 1, try_catch.
  destruct (body st0) as [[a|t|w|] st2] eqn:E; try discriminate.
  - intros Hrest. exists a, st2. split; [reflexivity|exact Hrest].
  - unfold lexer, getL, bind, deref.
    destruct (l st2) as [lx|] eqn:El; discriminate.
Qed.

(** X15.  A call of the host that returns.  When [execute] returns, the
    interpreter has the lexer pointer and the scope stack it had before
    the call, and is otherwise in the state in which the last statement
    left it.  The same holds when [evaluateComplex] returns, where the
    link that is returned is a copy that is not owned. *)
Theorem X15_host_call_returns :
  (forall fuel code st st',
     execute_ native fuel code st = (Ok tt, st') ->
     l st' = l st /\ scopes st' = scopes st /\
     exists n st2,
       fuel = S n /\
       execute_loop native n true (entered code st) = (Ok tt, st2) /\
       st' = set_scopes (scopes st) (set_l (l st) st2)) /\
  (forall fuel code st r st',
     evaluateComplex native fuel code st = (Ok r, st') ->
     l st' = l st /\ scopes st' = scopes st /\ owned r = false).
Proof.
  split.
  - intros [|n] code st st' Hret; [discriminate|].
    rewrite execute_eq in Hret.
    unfold bind at 1 2 3 4 5, getL, getScopes, setL, getRoot, setScopes in Hret.
    apply completed in Hret. destruct Hret as ([] & st2 & Hbody & Hrest).
    unfold bind in Hrest. injection Hrest as <-.
    split; [reflexivity|]. split; [reflexivity|].
    exists n, st2. split; [reflexivity|]. split; [exact Hbody|reflexivity].
  - intros [|n] code st r st' Hret; [discriminate|].
    rewrite evaluateComplex_eq in Hret.
    unfold bind at 1 2 3 4 5, getL, getScopes, setL, getRoot, setScopes in Hret.
    apply completed in Hret. destruct Hret as (v & st2 & _ & Hrest).
    unfold bind, setL, setScopes in Hrest.
    destruct v as [v|]; unfold liftH, load_link, alloc, ret in Hrest;
      cbn [heap set_scopes set_l] in Hrest.
    + destruct (links (heap st2) !! v); [|discriminate].
      injection Hrest as <- <-. repeat split.
    + injection Hrest as <- <-. repeat split.
Qed.

End HostCalls.

(** X15 on a script of one declaration, run on a fresh interpreter. *)
Lemma X15_host_call_returns_sample :
  fst (run_script "var a = 1;") = Ok tt /\
  l (snd (run_script "var a = 1;")) = l Interpreter_new /\
  scopes (snd (run_script "var a = 1;")) = scopes Interpreter_new.
Proof.
  assert (execute_ no_natives (Z.to_nat 100000) "var a = 1;" Interpreter_new
          = (Ok tt, snd (run_script "var a = 1;"))) as E by (vm_compute; reflexivity).
  split; [vm_compute; reflexivity|].
  destruct (proj1 (X15_host_call_returns no_natives) (Z.to_nat 100000) "var a = 1;"
              Interpreter_new (snd (run_script "var a = 1;")) E) as (Hl & Hs & _).
  split; [exact Hl|exact Hs].
Defined.

(* ------------------------------------------------------------------ *)
(** ** The lexer *)

Lemma charAt_nth (s : string) (k : nat) :
  (if Z.of_nat k <? Z.of_nat (String.length s) then charAt s (Z.of_nat k) else NUL)
    = nth k (list_ascii_of_string s) NUL.
Proof.
  revert k. induction s as [|c r IH]; intros k.
  - destruct k; reflexivity.
  - destruct k as [|k].
    + reflexivity.
    + specialize (IH k). cbn [String.length list_ascii_of_string nth].
      rewrite <- IH. unfold charAt.
      destruct (Z.ltb_spec (Z.of_nat (S k)) (Z.of_nat (S (String.length r))));
        destruct (Z.ltb_spec (Z.of_nat k) (Z.of_nat (String.length r))); try lia; [|reflexivity].
      destruct (Z.ltb_spec (Z.of_nat (S k)) 0); [lia|].
      destruct (Z.ltb_spec (Z.of_nat k) 0); [lia|].
      rewrite !Nat2Z.id. reflexivity.
Qed.

Lemma reads_next (l : Lexer) (c : ascii) (t : list ascii) :
  reads l (c :: t) -> reads (getNextCh l) t.
Proof.
  intros (Hc & Hn & Hp). unfold reads, getNextCh, peek in *. cbn [currCh nextCh dataPos dataEnd data] in *.
  split; [exact Hn|]. split.
  - specialize (Hp O). rewrite Z.add_0_r in Hp. exact Hp.
  - intros k. specialize (Hp (S k)).
    replace (dataPos l + 1 + Z.of_nat k) with (dataPos l + Z.of_nat (S k)) by lia. exact Hp.
Qed.

Lemma reads_currCh (l : Lexer) (c : ascii) (t : list ascii) : reads l (c :: t) -> currCh l = c.
Proof. intros (Hc & _). exact Hc. Qed.

Lemma reads_end (l : Lexer) : reads l [] -> currCh l = NUL.
Proof. intros (Hc & _). exact Hc. Qed.

(** A lexer over [d], after the two characters that [reset] reads. *)
Lemma reads_start (l : Lexer) (d : string) :
  data l = d -> dataPos l = 0 -> dataEnd l = Z.of_nat (String.length d) ->
  reads (getNextCh (getNextCh l)) (list_ascii_of_string d).
Proof.
  intros Hd Hp He. unfold reads, getNextCh, peek. cbn [currCh nextCh dataPos dataEnd data].
  rewrite Hd, Hp, He.
  split; [exact (charAt_nth d 0)|]. split; [exact (charAt_nth d 1)|].
  intros k. replace (0 + 1 + 1 + Z.of_nat k) with (Z.of_nat (2 + k)) by lia.
  apply charAt_nth.
Qed.

Lemma lex_while_done (n : nat) (cond : Lexer -> bool) (body : Lexer -> Lexer) (l : Lexer) :
  cond l = false -> lex_while n cond body l = l.
Proof. intros Hc. destruct n; simpl; [reflexivity|]. rewrite Hc. reflexivity. Qed.

(** The characters that [getJSString] writes as they are. *)
Lemma plain_unescaped (c : ascii) :
  plainChar c = true ->
  Ascii.eqb c backslash = false -> Ascii.eqb c ch_lf = false -> Ascii.eqb c dquote = false ->
  jsEscape c = str1 c /\ nonzero c = true.
Proof.
  destruct c as [[] [] [] [] [] [] [] []]; try discriminate; intros _ _ _ _;
    split; reflexivity.
Qed.

(** One round of the loop over a string in double quotes, on what
    [getJSString] has written for a plain character. *)
Lemma dq_round (c : ascii) (l : Lexer) (t : list ascii) :
  plainChar c = true ->
  reads l (list_ascii_of_string (jsEscape c) ++ t) ->
  inDqString l = true /\
  tkStr (dqStringStep l) = push_back (tkStr l) c /\
  reads (dqStringStep l) t.
Proof.
  intros Hp Hr. unfold inDqString, dqStringStep.
  destruct (Ascii.eqb_spec c backslash) as [->|Hb].
  { change (list_ascii_of_string (jsEscape backslash)) with [backslash; backslash] in Hr.
    pose proof (reads_currCh _ _ _ Hr) as E. rewrite E.
    pose proof (reads_next _ _ _ Hr) as Hr1. pose proof (reads_currCh _ _ _ Hr1) as E1.
    change (Ascii.eqb backslash backslash) with true. cbv iota. rewrite E1.
    split; [reflexivity|]. split; [reflexivity|].
    apply (reads_next _ backslash), Hr1. }
  destruct (Ascii.eqb_spec c ch_lf) as [->|Hl].
  { change (list_ascii_of_string (jsEscape ch_lf)) with [backslash; "n"%char] in Hr.
    pose proof (reads_currCh _ _ _ Hr) as E. rewrite E.
    pose proof (reads_next _ _ _ Hr) as Hr1. pose proof (reads_currCh _ _ _ Hr1) as E1.
    change (Ascii.eqb backslash backslash) with true. cbv iota. rewrite E1.
    split; [reflexivity|]. split; [reflexivity|].
    apply (reads_next _ "n"%char), Hr1. }
  destruct (Ascii.eqb_spec c dquote) as [->|Hq].
  { change (list_ascii_of_string (jsEscape dquote)) with [backslash; dquote] in Hr.
    pose proof (reads_currCh _ _ _ Hr) as E. rewrite E.
    pose proof (reads_next _ _ _ Hr) as Hr1. pose proof (reads_currCh _ _ _ Hr1) as E1.
    change (Ascii.eqb backslash backslash) with true. cbv iota. rewrite E1.
    split; [reflexivity|]. split; [reflexivity|].
    apply (reads_next _ dquote), Hr1. }
  apply Ascii.eqb_neq in Hb, Hl, Hq.
  destruct (plain_unescaped c Hp Hb Hl Hq) as [Ee Hnz]. rewrite Ee in Hr.
  pose proof (reads_currCh _ _ _ Hr) as E. rewrite E, Hnz, Hq, Hb.
  split; [reflexivity|]. split; [reflexivity|].
  apply (reads_next _ c), Hr.
Qed.

Lemma append_nil_r (s : string) : s ++ EmptyString = s.
Proof.
  induction s as [|c r IH]; [reflexivity|].
  change (String c (r ++ EmptyString) = String c r). f_equal. exact IH.
Qed.

Lemma append_assoc (s1 s2 s3 : string) : (s1 ++ s2) ++ s3 = s1 ++ (s2 ++ s3).
Proof.
  induction s1 as [|c r IH]; [reflexivity|].
  change (String c ((r ++ s2) ++ s3) = String c (r ++ (s2 ++ s3))). f_equal. exact IH.
Qed.

Lemma length_append (s1 s2 : string) :
  String.length (s1 ++ s2) = (String.length s1 + String.length s2)%nat.
Proof.
  induction s1 as [|c r IH]; [reflexivity|].
  change (S (String.length (r ++ s2)) = S (String.length r + String.length s2)).
  f_equal. exact IH.
Qed.

Lemma list_ascii_app (s1 s2 : string) :
  list_ascii_of_string (s1 ++ s2) = (list_ascii_of_string s1 ++ list_ascii_of_string s2)%list.
Proof.
  induction s1 as [|c r IH]; [reflexivity|].
  change (c :: list_ascii_of_string (r ++ s2)
          = c :: (list_ascii_of_string r ++ list_ascii_of_string s2)%list).
  f_equal. exact IH.
Qed.

(** The loop over a string in double quotes, on what [getJSString] has
    written for a plain string: it stops at the closing quote with the
    string added to the token. *)
Lemma dq_loop (s : string) :
  plainString s = true ->
  forall (n : nat) (l : Lexer) (t : list ascii),
    (String.length s < n)%nat ->
    reads l (list_ascii_of_string (jsEscapeAll s) ++ dquote :: t) ->
    tkStr (lex_while n inDqString dqStringStep l) = tkStr l ++ s /\
    reads (lex_while n inDqString dqStringStep l) (dquote :: t).
Proof.
  induction s as [|c r IH]; intros Hp n l t Hn Hr.
  - simpl in Hr. rewrite lex_while_done.
    + split; [symmetry; apply append_nil_r|exact Hr].
    + unfold inDqString. rewrite (reads_currCh _ _ _ Hr). reflexivity.
  - simpl in Hp. apply andb_prop in Hp. destruct Hp as [Hc Hrest].
    destruct n as [|n]; [simpl in Hn; lia|].
    cbn [jsEscapeAll] in Hr. rewrite list_ascii_app, <- app_assoc in Hr.
    destruct (dq_round c l _ Hc Hr) as (Hcond & Hstr & Hr').
    cbn [lex_while]. rewrite Hcond.
    destruct (IH Hrest n (dqStringStep l) t) as [Hs Hend]; [simpl in Hn; lia|exact Hr'|].
    split; [|exact Hend].
    rewrite Hs, Hstr. unfold push_back, str1. rewrite append_assoc. reflexivity.
Qed.

Lemma c_str_app (s1 s2 : string) : c_str s1 = s1 -> c_str (s1 ++ s2) = s1 ++ c_str s2.
Proof.
  induction s1 as [|c r IH]; [reflexivity|].
  change (c_str (String c r)) with (if Ascii.eqb c NUL then EmptyString else String c (c_str r)).
  change (c_str (String c r ++ s2))
    with (if Ascii.eqb c NUL then EmptyString else String c (c_str (r ++ s2))).
  destruct (Ascii.eqb c NUL); [discriminate|].
  intros [= E]. rewrite (IH E). reflexivity.
Qed.

Lemma jsEscape_c_str (c : ascii) : plainChar c = true -> c_str (jsEscape c) = jsEscape c.
Proof. destruct c as [[] [] [] [] [] [] [] []]; try discriminate; reflexivity. Qed.

Lemma jsEscape_length (c : ascii) : (1 <= String.length (jsEscape c))%nat.
Proof. destruct c as [[] [] [] [] [] [] [] []]; apply Nat.leb_le; vm_compute; reflexivity. Qed.

Lemma jsEscapeAll_c_str (s : string) :
  plainString s = true -> c_str (jsEscapeAll s) = jsEscapeAll s.
Proof.
  induction s as [|c r IH]; [reflexivity|]. simpl. intros Hp.
  apply andb_prop in Hp. destruct Hp as [Hc Hr].
  rewrite (c_str_app _ _ (jsEscape_c_str c Hc)), (IH Hr). reflexivity.
Qed.

Lemma jsEscapeAll_length (s : string) :
  (String.length s <= String.length (jsEscapeAll s))%nat.
Proof.
  induction s as [|c r IH]; [reflexivity|]. cbn [jsEscapeAll String.length].
  rewrite length_append. pose proof (jsEscape_length c). lia.
Qed.

Lemma getJSString_c_str (s : string) :
  plainString s = true -> c_str (getJSString s) = getJSString s.
Proof.
  intros Hp. unfold getJSString.
  rewrite (c_str_app (str1 dquote) _ eq_refl).
  rewrite (c_str_app _ _ (jsEscapeAll_c_str s Hp)). reflexivity.
Qed.

(** [getNextToken] where no white space and no comment comes first. *)
Lemma getNextToken_rec_token (n : nat) (l : Lexer) :
  nonzero (currCh l) && isWhitespace (currCh l) = false ->
  Ascii.eqb (currCh l) "/" = false ->
  getNextToken_rec n l = scanToken (set_tkStr EmptyString (set_tk LEXER_EOF l)).
Proof.
  intros Hw Hs.
  assert (getNextToken_rec n l =
          let l := set_tkStr EmptyString (set_tk LEXER_EOF l) in
          let l := while_ch (fun l => nonzero (currCh l) && isWhitespace (currCh l)) getNextCh l in
          if Ascii.eqb (currCh l) "/" && Ascii.eqb (nextCh l) "/" then
            let l := while_ch (fun l => nonzero (currCh l) && negb (Ascii.eqb (currCh l) ch_lf))
                              getNextCh l in
            let l := getNextCh l in
            match n with
            | O => l
            | S n' => getNextToken_rec n' l
            end
          else if Ascii.eqb (currCh l) "/" && Ascii.eqb (nextCh l) "*" then
            let l := while_ch (fun l => nonzero (currCh l) &&
                                (negb (Ascii.eqb (currCh l) "*") || negb (Ascii.eqb (nextCh l) "/")))
                              getNextCh l in
            let l := getNextCh (getNextCh l) in
            match n with
            | O => l
            | S n' => getNextToken_rec n' l
            end
          else scanToken l) as -> by (destruct n; reflexivity).
  cbv zeta.
  assert (while_ch (fun l => nonzero (currCh l) && isWhitespace (currCh l)) getNextCh
                   (set_tkStr EmptyString (set_tk LEXER_EOF l))
          = set_tkStr EmptyString (set_tk LEXER_EOF l)) as ->
    by (unfold while_ch; apply lex_while_done; exact Hw).
  cbn [currCh set_tkStr set_tk]. rewrite Hs. reflexivity.
Qed.

(** [scanToken] on an opening double quote. *)
Lemma scanToken_dquote (l : Lexer) :
  currCh l = dquote ->
  let inner := getNextCh (set_tokenStart (dataPos l - 2) l) in
  let body := lex_while (lexFuel inner) inDqString dqStringStep inner in
  tk (scanToken l) = LEXER_STR /\ tkStr (scanToken l) = tkStr body /\
  currCh (scanToken l) = currCh (getNextCh body) /\
  nextCh (scanToken l) = nextCh (getNextCh body) /\
  (forall k, peek (scanToken l) k = peek (getNextCh body) k).
Proof.
  intros Hc inner body. unfold scanToken. cbn [currCh set_tokenStart]. rewrite Hc.
  change (isAlpha dquote) with false. change (isNumericCh dquote) with false.
  change (Ascii.eqb dquote dquote) with true. cbv iota zeta.
  repeat split.
Qed.

(** The text that [getJSString] writes for a plain string, as the lexer
    reads it: a string token with the string as its value, and the end
    of the text behind it. *)
Lemma getJSString_lexed (s : string) :
  plainString s = true ->
  tk (Lexer_new (getJSString s)) = LEXER_STR /\
  tkStr (Lexer_new (getJSString s)) = s /\
  currCh (Lexer_new (getJSString s)) = NUL.
Proof.
  intros Hp. unfold Lexer_new. rewrite (getJSString_c_str s Hp).
  set (d := getJSString s). unfold reset.
  cbn [currCh nextCh data dataStart dataEnd dataOwned].
  set (l1 := mkLexer NUL NUL 0 0 0 0 EmptyString d 0 (Z.of_nat (String.length d)) true 0).
  pose proof (reads_start l1 d eq_refl eq_refl eq_refl) as Hr.
  assert (list_ascii_of_string d
          = dquote :: (list_ascii_of_string (jsEscapeAll s) ++ [dquote])%list) as Ed.
  { unfold d, getJSString. rewrite !list_ascii_app. reflexivity. }
  rewrite Ed in Hr.
  set (l2 := getNextCh (getNextCh l1)) in *.
  pose proof (reads_currCh _ _ _ Hr) as Hc.
  unfold getNextToken.
  rewrite getNextToken_rec_token by (rewrite Hc; reflexivity).
  set (l3 := set_tkStr EmptyString (set_tk LEXER_EOF l2)).
  assert (currCh l3 = dquote) as Hc3 by exact Hc.
  destruct (scanToken_dquote l3 Hc3) as (Htk & Hstr & Hcur & _).
  set (inner := getNextCh (set_tokenStart (dataPos l3 - 2) l3)) in *.
  assert (reads inner (list_ascii_of_string (jsEscapeAll s) ++ [dquote])) as Hri
    by (apply (reads_next l2 dquote), Hr).
  assert (String.length s < lexFuel inner)%nat as Hfuel.
  { unfold lexFuel, inner, l3, l2, l1, getNextCh. cbn [dataEnd dataPos set_tokenStart set_tkStr set_tk].
    unfold d, getJSString. rewrite !length_append. cbn [String.length str1].
    pose proof (jsEscapeAll_length s). lia. }
  destruct (dq_loop s Hp (lexFuel inner) inner [] Hfuel Hri) as [Hs Hend].
  split; [exact Htk|]. split.
  - rewrite Hstr, Hs. reflexivity.
  - rewrite Hcur. apply reads_end. apply (reads_next _ dquote), Hend.
Qed.

(** [getNextToken] at the end of the text. *)
Lemma getNextToken_at_end (l : Lexer) :
  currCh l = NUL -> tk (getNextToken l) = LEXER_EOF.
Proof.
  intros Hc. unfold getNextToken.
  rewrite getNextToken_rec_token by (rewrite Hc; reflexivity).
  unfold scanToken. cbn [currCh set_tokenStart set_tkStr set_tk]. rewrite Hc.
  change (isAlpha NUL) with false. change (isNumericCh NUL) with false.
  change (Ascii.eqb NUL dquote) with false. change (Ascii.eqb NUL squote) with false.
  cbv iota. cbn [tk]. unfold scanPunctuation.
  cbn [currCh set_tokenStart set_tkStr set_tk]. rewrite Hc.
  change (nonzero NUL) with false. cbv iota.
  unfold sees. cbn [tk currCh set_tokenStart set_tkStr set_tk]. reflexivity.
Qed.

(** X16.  A string written by [getJSString] and read by the lexer.  For a
    string of plain characters (line feeds and the characters from the
    space to DEL, the double quote and the backslash among them), the
    text that [getJSString] writes is read by the lexer as one string
    token whose value is the string, and the token after it is the end
    of the text. *)
Theorem X16_string_literal_round_trip (s : string) :
  plainString s = true ->
  tk (Lexer_new (getJSString s)) = LEXER_STR /\
  tkStr (Lexer_new (getJSString s)) = s /\
  tk (getNextToken (Lexer_new (getJSString s))) = LEXER_EOF.
Proof.
  intros Hp. destruct (getJSString_lexed s Hp) as (Htk & Hstr & Hend).
  split; [exact Htk|]. split; [exact Hstr|]. apply getNextToken_at_end, Hend.
Qed.

(** X16 on a string that holds a double quote, a backslash and a line
    feed. *)
Lemma X16_string_literal_round_trip_sample :
  tkStr (Lexer_new (getJSString ("a" ++ str1 dquote ++ "b" ++ str1 backslash ++ "c" ++ str1 ch_lf)))
    = "a" ++ str1 dquote ++ "b" ++ str1 backslash ++ "c" ++ str1 ch_lf.
Proof.
  apply (proj1 (proj2 (X16_string_literal_round_trip
           ("a" ++ str1 dquote ++ "b" ++ str1 backslash ++ "c" ++ str1 ch_lf) eq_refl))).
Defined.

(* ------------------------------------------------------------------ *)
(** ** An expression that is one literal *)

Section Literals.

Variable native :
  (string -> M unit) -> (string -> M VariableLink) -> N -> positive -> N -> M unit.

Lemma getTkStr_eq (st : Interp) (lx : Lexer) :
  l st = Some lx -> getTkStr st = (Ok (tkStr lx), st).
Proof. intros E. unfold getTkStr, lexer, getL, bind, deref. rewrite E. reflexivity. Qed.

(** The levels of the expression parser, each up to the code that runs
    only when its operator follows. *)
Lemma unary_eq (n : nat) (e : bool) :
  exists K : M (option positive * bool),
    unary native (S n) e =
      (let* t := getTk in if t =? tok "!" then K else factor native n e).
Proof. eexists. reflexivity. Qed.

Lemma term_loop_eq (n : nat) (e : bool) (a : option positive) :
  exists K : Z -> M (option positive * bool),
    term_loop native (S n) e a =
      (let* t := getTk in
       if (t =? tok "*") || (t =? tok "/") || (t =? tok "%") then K t else ret (a, e)).
Proof. eexists (fun t => _). reflexivity. Qed.

Lemma term_eq (n : nat) (e : bool) :
  term native (S n) e =
    (let* (a, execute) := unary native n e in term_loop native n execute a).
Proof. reflexivity. Qed.

Lemma expression_eq (n : nat) (e : bool) :
  exists K : bool -> option positive -> M (option positive),
    expression native (S n) e =
      (let* t := getTk in
       let* negate :=
         if t =? tok "-" then let* _ := matchTk (tok "-") in ret true else ret false in
       let* (a, execute) := term native n e in
       let* a := if negate : bool then K execute a else ret a in
       expression_loop native n execute a).
Proof. eexists (fun execute a => _). reflexivity. Qed.

Lemma shift_eq (n : nat) (e : bool) :
  exists K : option positive -> bool -> Z -> M (option positive * bool),
    shift native (S n) e =
      (let* (a, execute) := expression native n e in
       let* t := getTk in
       if (t =? LEXER_LSHIFT) || (t =? LEXER_RSHIFT) || (t =? LEXER_RSHIFTUNSIGNED)
       then K a execute t else ret (a, execute)).
Proof. eexists (fun a execute t => _). reflexivity. Qed.

Lemma condition_loop_eq (n : nat) (e : bool) (a : option positive) :
  exists K : Z -> M (option positive * bool),
    condition_loop native (S n) e a =
      (let* t := getTk in
       if (t =? LEXER_EQUAL) || (t =? LEXER_NEQUAL) ||
          (t =? LEXER_TYPEEQUAL) || (t =? LEXER_NTYPEEQUAL) ||
          (t =? LEXER_LEQUAL) || (t =? LEXER_GEQUAL) ||
          (t =? tok "<") || (t =? tok ">")
       then K t else ret (a, e)).
Proof. eexists (fun t => _). reflexivity. Qed.

Lemma condition_eq (n : nat) (e : bool) :
  condition native (S n) e =
    (let* (a, execute) := shift native n e in condition_loop native n execute a).
Proof. reflexivity. Qed.

Lemma logic_loop_eq (n : nat) (e : bool) (a : option positive) :
  exists K : Z -> M (option positive * bool),
    logic_loop native (S n) e a =
      (let* t := getTk in
       if (t =? tok "&") || (t =? tok "|") || (t =? tok "^") ||
          (t =? LEXER_ANDAND) || (t =? LEXER_OROR)
       then K t else ret (a, e)).
Proof. eexists (fun t => _). reflexivity. Qed.

Lemma logic_eq (n : nat) (e : bool) :
  logic native (S n) e =
    (let* (a, execute) := condition native n e in logic_loop native n execute a).
Proof. reflexivity. Qed.

Lemma ternary_eq (n : nat) (e : bool) :
  exists K : option positive -> bool -> M (option positive * bool),
    ternary native (S n) e =
      (let* (lhs, execute) := logic native n e in
       let* t := getTk in
       if t =? tok "?" then K lhs execute else ret (lhs, execute)).
Proof. eexists (fun lhs execute => _). reflexivity. Qed.

Lemma base_eq (n : nat) (e : bool) :
  exists K : option positive -> bool -> Z -> M (option positive * bool),
    base native (S n) e =
      (let* (lhs, execute) := ternary native n e in
       let* t := getTk in
       if (t =? tok "=") || (t =? LEXER_PLUSEQUAL) || (t =? LEXER_MINUSEQUAL)
       then K lhs execute t else ret (lhs, execute)).
Proof. eexists (fun lhs execute t => _). reflexivity. Qed.

(** [expression], with the code that negates. *)
Lemma expression_negate_eq (n : nat) (e : bool) :
  expression native (S n) e =
    (let* t := getTk in
     let* negate :=
       if t =? tok "-" then let* _ := matchTk (tok "-") in ret true else ret false in
     let* (a, execute) := term native n e in
     let* a :=
       if negate : bool then
         let* zero := liftH (alloc (Variable_int 0)) in
         let* av := linkVar a in
         let* res := liftH (mathsOp zero av (tok "-")) in
         liftH (CREATE_LINK a res)
       else ret a in
     expression_loop native n execute a).
Proof. reflexivity. Qed.

(** A term that is one factor: when the text does not start with [!] and
    the factor is followed by the end of the text, [term] returns what
    [factor] returns. *)
Lemma term_single_factor (n : nat) (e e' : bool) (a : option positive)
      (st st1 : Interp) (lx lx1 : Lexer) :
  l st = Some lx -> (tk lx =? tok "!") = false ->
  factor native n e st = (Ok (a, e'), st1) ->
  l st1 = Some lx1 -> tk lx1 = LEXER_EOF ->
  term native (S (S n)) e st = (Ok (a, e'), st1).
Proof.
  intros Hl Hbang Hfactor Hl1 Heof.
  pose proof (getTk_eq st lx Hl) as Htk.
  pose proof (getTk_eq st1 lx1 Hl1) as Htk1. rewrite Heof in Htk1.
  assert (unary native (S n) e st = (Ok (a, e'), st1)) as Hunary.
  { destruct (unary_eq n e) as [K ->]. unfold bind. rewrite Htk, Hbang. exact Hfactor. }
  rewrite term_eq. unfold bind at 1. rewrite Hunary.
  destruct (term_loop_eq n e' a) as [K ->]. unfold bind. rewrite Htk1. reflexivity.
Qed.

(** When the end of the text follows what [expression] has read, [base]
    returns what [expression] returns. *)
Lemma base_of_expression (n : nat) (e e' : bool) (a : option positive)
      (st st1 : Interp) (lx1 : Lexer) :
  expression native n e st = (Ok (a, e'), st1) ->
  l st1 = Some lx1 -> tk lx1 = LEXER_EOF ->
  base native (5 + n) e st = (Ok (a, e'), st1).
Proof.
  intros Hexpr Hl1 Heof.
  pose proof (getTk_eq st1 lx1 Hl1) as Htk1. rewrite Heof in Htk1.
  change (5 + n)%nat with (S (S (S (S (S n))))).
  assert (shift native (S n) e st = (Ok (a, e'), st1)) as Hshift.
  { destruct (shift_eq n e) as [K ->].
    unfold bind at 1. rewrite Hexpr. unfold bind. rewrite Htk1. reflexivity. }
  assert (condition native (S (S n)) e st = (Ok (a, e'), st1)) as Hcond.
  { rewrite condition_eq. unfold bind at 1. rewrite Hshift.
    destruct (condition_loop_eq n e' a) as [K ->].
    unfold bind. rewrite Htk1. reflexivity. }
  assert (logic native (S (S (S n))) e st = (Ok (a, e'), st1)) as Hlogic.
  { rewrite logic_eq. unfold bind at 1. rewrite Hcond.
    destruct (logic_loop_eq (S n) e' a) as [K ->].
    unfold bind. rewrite Htk1. reflexivity. }
  assert (ternary native (S (S (S (S n)))) e st = (Ok (a, e'), st1)) as Hternary.
  { destruct (ternary_eq (S (S (S n))) e) as [K ->].
    unfold bind at 1. rewrite Hlogic. unfold bind. rewrite Htk1. reflexivity. }
  destruct (base_eq (S (S (S (S n)))) e) as [K ->].
  unfold bind at 1. rewrite Hternary. unfold bind. rewrite Htk1. reflexivity.
Qed.

(** An expression that is one factor: when the text does not start with
    [-] or [!] and the factor is followed by the end of the text, [base]
    returns what [factor] returns. *)
Lemma base_single_factor (n : nat) (e e' : bool) (a : option positive)
      (st st1 : Interp) (lx lx1 : Lexer) :
  l st = Some lx -> (tk lx =? tok "-") = false -> (tk lx =? tok "!") = false ->
  factor native n e st = (Ok (a, e'), st1) ->
  l st1 = Some lx1 -> tk lx1 = LEXER_EOF ->
  base native (8 + n) e st = (Ok (a, e'), st1).
Proof.
  intros Hl Hminus Hbang Hfactor Hl1 Heof.
  pose proof (getTk_eq st lx Hl) as Htk.
  pose proof (getTk_eq st1 lx1 Hl1) as Htk1. rewrite Heof in Htk1.
  apply (base_of_expression (S (S (S n))) e e' a st st1 lx1); [|exact Hl1|exact Heof].
  destruct (expression_eq (S (S n)) e) as [K ->].
  unfold bind at 1. rewrite Htk, Hminus. unfold bind at 1, ret at 1.
  unfold bind at 1.
  rewrite (term_single_factor n e e' a st st1 lx lx1 Hl Hbang Hfactor Hl1 Heof).
  unfold bind at 1, ret at 1.
  rewrite expression_loop_eq. unfold bind. rewrite Htk1. reflexivity.
Qed.

End Literals.

Section StringLiteral.

Variable native :
  (string -> M unit) -> (string -> M VariableLink) -> N -> positive -> N -> M unit.

Lemma factor_string_eq (n : nat) (e : bool) :
  exists F : Z -> M (option positive * bool),
    factor native (S n) e = (let* t := getTk in F t) /\
    F LEXER_STR =
      (let* s := getTkStr in
       let* v := liftH (alloc (Variable_data s VARIABLE_STRING)) in
       let* _ := matchTk LEXER_STR in
       let* a := liftH (new_VariableLink v TINYJS_TEMP_NAME) in
       ret (Some a, e)).
Proof. eexists (fun t => _). split; reflexivity. Qed.

Lemma evaluateComplex_loop_eq (n : nat) (e : bool) :
  evaluateComplex_loop native (S n) e =
    (let* (v, execute) := base native n e in
     let* t := getTk in
     let* _ := if negb (t =? LEXER_EOF) then matchTk (tok ";") else ret tt in
     let* t := getTk in
     if negb (t =? LEXER_EOF) then evaluateComplex_loop native n execute else ret v).
Proof. reflexivity. Qed.

Lemma factor_int_eq (n : nat) (e : bool) :
  exists F : Z -> M (option positive * bool),
    factor native (S n) e = (let* t := getTk in F t) /\
    F LEXER_INT =
      (let* s := getTkStr in
       let* v := liftH (alloc (Variable_data s VARIABLE_INTEGER)) in
       let* _ := matchTk LEXER_INT in
       let* a := liftH (new_VariableLink v TINYJS_TEMP_NAME) in
       ret (Some a, e)).
Proof. eexists (fun t => _). split; reflexivity. Qed.

Lemma factor_string (n : nat) (e : bool) (st : Interp) (lx : Lexer) :
  l st = Some lx -> tk lx = LEXER_STR ->
  factor native (S n) e st
    = (Ok (Some (Pos.succ (nextAddr (heap st))), e),
       afterLiteral st lx (Variable_data (tkStr lx) VARIABLE_STRING)).
Proof.
  intros Hl Htk. destruct (factor_string_eq n e) as (F & -> & HF).
  unfold bind at 1. rewrite (getTk_eq st lx Hl), Htk, HF.
  unfold bind at 1. rewrite (getTkStr_eq st lx Hl).
  unfold bind at 1, liftH at 1, alloc at 1.
  unfold bind at 1. erewrite matchTk_eq; [|exact Hl|exact Htk].
  reflexivity.
Qed.

Lemma factor_int (n : nat) (e : bool) (st : Interp) (lx : Lexer) :
  l st = Some lx -> tk lx = LEXER_INT ->
  factor native (S n) e st
    = (Ok (Some (Pos.succ (nextAddr (heap st))), e),
       afterLiteral st lx (Variable_data (tkStr lx) VARIABLE_INTEGER)).
Proof.
  intros Hl Htk. destruct (factor_int_eq n e) as (F & -> & HF).
  unfold bind at 1. rewrite (getTk_eq st lx Hl), Htk, HF.
  unfold bind at 1. rewrite (getTkStr_eq st lx Hl).
  unfold bind at 1, liftH at 1, alloc at 1.
  unfold bind at 1. erewrite matchTk_eq; [|exact Hl|exact Htk].
  reflexivity.
Qed.

(** [evaluate] of a text that is one expression: the text of the
    variable to which the link leads that [base] returns. *)
Lemma evaluate_of_base (code : string) (st st1 : Interp) (n : nat)
      (k : positive) (lk : VariableLink) (v : Value) (lx1 : Lexer) :
  base native n true (entered code st) = (Ok (Some k, true), st1) ->
  l st1 = Some lx1 -> tk lx1 = LEXER_EOF ->
  links (heap st1) !! k = Some lk -> vars (heap st1) !! var lk = Some v ->
  evaluate native (S (S n)) code st
    = (Ok (textOf v),
       set_heap (printed (heap st1) (var lk) v) (set_scopes (scopes st) (set_l (l st) st1))).
Proof.
  intros Hbase Hl1 Heof Hlk Hv.
  set (st0 := entered code st) in *.
  pose proof (getTk_eq st1 lx1 Hl1) as Htk1. rewrite Heof in Htk1.
  assert (evaluateComplex_loop native (S n) true st0 = (Ok (Some k), st1)) as Hloop.
  { rewrite evaluateComplex_loop_eq. unfold bind at 1. rewrite Hbase.
    unfold bind at 1. rewrite Htk1. change (negb (LEXER_EOF =? LEXER_EOF)) with false.
    unfold bind at 1, ret at 1. unfold bind at 1. rewrite Htk1. reflexivity. }
  unfold evaluate. rewrite evaluateComplex_eq.
  unfold bind at 1. unfold bind at 1 2 3 4 5, getL, getScopes, setL, getRoot, setScopes.
  unfold bind at 1, try_catch.
  match goal with
  | |- context [evaluateComplex_loop native ?f true ?s0] => change s0 with st0
  end.
  rewrite Hloop.
  unfold bind at 1, setL. unfold bind at 1, setScopes.
  unfold bind at 1, liftH at 1, load_link.
  cbn [heap links set_scopes set_l]. rewrite Hlk.
  unfold ret. cbn [name var].
  unfold liftH. cbn [heap set_heap].
  rewrite (getString_text _ _ _ Hv). reflexivity.
Qed.

(** [evaluate] of a text that is one literal: the text of the variable
    that [factor] makes for it. *)
Lemma evaluate_literal (code : string) (v : Value) (st : Interp) (n : nat) :
  (tk (Lexer_new code) =? tok "-") = false -> (tk (Lexer_new code) =? tok "!") = false ->
  currCh (Lexer_new code) = NUL ->
  factor native (S n) true (entered code st)
    = (Ok (Some (Pos.succ (nextAddr (heap st))), true),
       afterLiteral (entered code st) (Lexer_new code) v) ->
  exists st',
    evaluate native (11 + n) code st = (Ok (textOf v), st') /\
    l st' = l st /\ scopes st' = scopes st /\ root st' = root st /\
    vars (heap st') !! nextAddr (heap st)
      = Some (if isInt v || isDouble v then set_stringData (textOf v) v else v).
Proof.
  intros Hminus Hbang Hend Hfactor.
  set (lx := Lexer_new code) in *.
  set (st0 := entered code st) in *.
  set (k := Pos.succ (nextAddr (heap st))) in *.
  assert (l st0 = Some lx) as Hl0 by reflexivity.
  assert (base native (8 + S n) true st0 = (Ok (Some k, true), afterLiteral st0 lx v)) as Hbase.
  { apply (base_single_factor native (S n) true true (Some k) st0 _ lx (getNextToken lx) Hl0
             Hminus Hbang Hfactor).
    - reflexivity.
    - apply getNextToken_at_end, Hend. }
  change (11 + n)%nat with (S (S (8 + S n))).
  rewrite (evaluate_of_base code st _ _ k (mkLink TINYJS_TEMP_NAME (nextAddr (heap st)) false)
             v (getNextToken lx) Hbase eq_refl (getNextToken_at_end lx Hend)).
  - eexists. split; [reflexivity|]. split; [reflexivity|]. split; [reflexivity|].
    split; [reflexivity|].
    cbn [heap set_heap var]. unfold printed.
    destruct (isInt v || isDouble v); cbn [vars heap afterLiteral]; apply lookup_insert_eq.
  - apply lookup_insert_eq.
  - apply lookup_insert_eq.
Qed.

(** [evaluate] of the text that [getJSString] writes for a plain string. *)
Lemma evaluate_string_literal (s : string) (st : Interp) (n : nat) :
  plainString s = true ->
  exists st',
    evaluate native (11 + n) (getJSString s) st = (Ok s, st') /\
    l st' = l st /\ scopes st' = scopes st /\ root st' = root st.
Proof.
  intros Hp. destruct (getJSString_lexed s Hp) as (Htk & Hstr & Hend).
  destruct (evaluate_literal (getJSString s) (Variable_data s VARIABLE_STRING) st n)
    as (st' & Hev & Hrest).
  - rewrite Htk. reflexivity.
  - rewrite Htk. reflexivity.
  - exact Hend.
  - pose proof (factor_string n true (entered (getJSString s) st) (Lexer_new (getJSString s))
                  eq_refl Htk) as Hf.
    rewrite Hstr in Hf. exact Hf.
  - destruct Hrest as (Hl & Hs & Hr & _). exists st'. auto.
Qed.

(** X17.  The round trip of a string.  For a string variable that holds
    plain characters only (line feeds and the characters from the space
    to DEL), [evaluate] of the text that [getParsableString] writes
    returns the string that the variable holds, in every state of the
    interpreter and with any natives, and leaves the lexer pointer and
    the scope stack as they were.  [getParsableString] itself changes
    nothing. *)
Theorem X17_string_round_trip (st : Interp) (a : positive) (va : Value) (n : nat) :
  vars (heap st) !! a = Some va -> tagOf va = VARIABLE_STRING ->
  plainString (stringData va) = true ->
  getParsableString a (heap st) = (Ok (getJSString (stringData va)), heap st) /\
  exists st',
    (let* s := liftH (getParsableString a) in evaluate native (11 + n) s) st
      = (Ok (stringData va), st') /\
    l st' = l st /\ scopes st' = scopes st /\ root st' = root st.
Proof.
  intros Ha Htag Hp.
  assert (getParsableString a (heap st) = (Ok (getJSString (stringData va)), heap st)) as E.
  { unfold getParsableString, bind. rewrite (load_Some _ _ _ Ha).
    assert (isNumeric va = false) as ->
      by (unfold isNumeric; rewrite hasFlag_by_tag by reflexivity; rewrite Htag; reflexivity).
    assert (isFunction va = false) as ->
      by (unfold isFunction; rewrite hasFlag_by_tag by reflexivity; rewrite Htag; reflexivity).
    assert (isString va = true) as ->
      by (unfold isString; rewrite hasFlag_by_tag by reflexivity; rewrite Htag; reflexivity).
    rewrite (getString_text _ _ _ Ha). unfold textOf, printed.
    assert (isInt va = false) as ->
      by (unfold isInt; rewrite hasFlag_by_tag by reflexivity; rewrite Htag; reflexivity).
    assert (isDouble va = false) as ->
      by (unfold isDouble; rewrite hasFlag_by_tag by reflexivity; rewrite Htag; reflexivity).
    assert (isNull va = false) as ->
      by (unfold isNull; rewrite hasFlag_by_tag by reflexivity; rewrite Htag; reflexivity).
    assert (isUndefined va = false) as ->
      by (unfold isUndefined; fold (tagOf va); rewrite Htag; reflexivity).
    reflexivity. }
  split; [exact E|].
  destruct (evaluate_string_literal (stringData va) st n Hp) as (st' & Hev & Hl & Hs & Hr).
  exists st'. split; [|split; [exact Hl|split; [exact Hs|exact Hr]]].
  unfold bind at 1, liftH at 1. rewrite E.
  assert (set_heap (heap st) st = st) as -> by (destruct st; reflexivity).
  exact Hev.
Qed.

End StringLiteral.

(** X17 on the string [abc] in a fresh interpreter. *)
Lemma X17_string_round_trip_sample :
  exists st',
    (let* s := liftH (getParsableString 8) in evaluate no_natives 11 s)
      (set_heap (snd (alloc (Variable_string "abc") (heap Interpreter_new))) Interpreter_new)
      = (Ok "abc", st') /\
    l st' = None /\ scopes st' = [].
Proof.
  destruct (X17_string_round_trip no_natives
              (set_heap (snd (alloc (Variable_string "abc") (heap Interpreter_new))) Interpreter_new)
              8 (Variable_string "abc") 0 ltac:(vm_compute; reflexivity) eq_refl eq_refl)
    as (_ & st' & E & Hl & Hs & _).
  exists st'. split; [exact E|]. split; [exact Hl|exact Hs].
Defined.

(* ------------------------------------------------------------------ *)
(** ** Scopes and the variables of the host *)

Lemma set_heap_same (st : Interp) : set_heap (heap st) st = st.
Proof. destruct st; reflexivity. Qed.

(** X18.  [findInScopes] looks in the innermost scope first.  When the
    scope on top of the stack has a child of the name, its first such
    link is the answer, whatever the scopes below hold: an inner variable
    hides an outer one of the same name.  When it has none, the answer is
    that of the scopes below.  On an empty stack nothing is found. *)
Theorem X18_findInScopes_innermost (st : Interp) (outer : list positive) (inner : positive)
        (vi : Value) (nm : string) :
  scopes st = (outer ++ [inner])%list ->
  vars (heap st) !! inner = Some vi -> valid_chain (heap st) (children vi) ->
  (forall k, firstNamed (heap st) nm (children vi) = Some k ->
             findInScopes nm st = (Ok (Some k), st)) /\
  (firstNamed (heap st) nm (children vi) = None ->
   findInScopes nm st = liftH (findInScopes_from (rev outer) nm) st) /\
  findInScopes nm (set_scopes [] st) = (Ok None, set_scopes [] st).
Proof.
  intros Hs Hv Hc.
  pose proof (findChild_firstNamed (heap st) inner vi nm Hv Hc) as Hfind.
  assert (findInScopes nm st
          = liftH (let* v := findChild inner nm in
                   match v with
                   | Some _ => ret v
                   | None => findInScopes_from (rev outer) nm
                   end) st) as E.
  { unfold findInScopes, bind at 1, getScopes. rewrite Hs, rev_app_distr. reflexivity. }
  split; [|split].
  - intros k Hk. rewrite E. unfold liftH, bind. rewrite Hfind, Hk. unfold ret.
    rewrite set_heap_same. reflexivity.
  - intros Hnone. rewrite E. unfold liftH, bind. rewrite Hfind, Hnone. reflexivity.
  - unfold findInScopes, bind, getScopes, liftH. cbn [scopes set_scopes rev findInScopes_from].
    unfold ret. cbn [heap]. destruct st; reflexivity.
Qed.

(** X18 on the scope [{ x : 5 }]: the link 3 of [x] is found. *)
Lemma X18_findInScopes_innermost_sample :
  findInScopes "x" state_point = (Ok (Some 3%positive), state_point).
Proof.
  destruct (X18_findInScopes_innermost state_point [] 1
              (set_children [3%positive] (Variable_data TINYJS_BLANK_DATA VARIABLE_OBJECT)) "x")
    as (Hfound & _).
  - reflexivity.
  - reflexivity.
  - repeat constructor; eexists; reflexivity.
  - apply Hfound. reflexivity.
Defined.

Lemma splitPath_dotless (path seg : string) :
  dotless path = true -> splitPath path seg = [seg ++ path].
Proof.
  revert seg. induction path as [|c r IH]; intros seg Hd.
  - simpl. rewrite append_nil_r. reflexivity.
  - simpl in *. apply andb_prop in Hd. destruct Hd as [Hc Hr].
    apply negb_true_iff in Hc. rewrite Hc, (IH _ Hr). unfold push_back, str1.
    rewrite append_assoc. reflexivity.
Qed.

(** The type bits of a variable after [retag]. *)
Lemma retag_flag (t f m : Z) :
  Z.land (Z.lnot VARIABLE_TYPEMASK) m = 0 ->
  Z.land (retag t f) m = Z.land t m.
Proof.
  intros Hm. unfold retag.
  rewrite Z.land_lor_distr_l, <- Z.land_assoc, Hm, Z.land_0_r. reflexivity.
Qed.

Lemma setString_text (s : string) (v : Value) : textOf (setString s v) = s.
Proof.
  unfold textOf, isInt, isDouble, isNull, isUndefined, hasFlag.
  cbn [flags setString stringData intData doubleData].
  rewrite !retag_flag by reflexivity. reflexivity.
Qed.

Lemma setString_unprinted (s : string) (v : Value) :
  isInt (setString s v) || isDouble (setString s v) = false.
Proof.
  unfold isInt, isDouble, hasFlag. cbn [flags setString].
  rewrite !retag_flag by reflexivity. reflexivity.
Qed.

(** [getScriptVariable] on a name without dots: the global of that name. *)
Lemma getScriptVariable_global (st : Interp) (path : string) (vr : Value) :
  dotless path = true -> path <> EmptyString ->
  vars (heap st) !! root st = Some vr -> valid_chain (heap st) (children vr) ->
  getScriptVariable path st =
    match firstNamed (heap st) path (children vr) with
    | None => (Ok None, st)
    | Some k => match links (heap st) !! k with
                | Some lk => (Ok (Some (var lk)), st)
                | None => (Crash BadPointer, st)
                end
    end.
Proof.
  intros Hd Hne Hr Hc. unfold getScriptVariable, bind, getRoot.
  destruct path as [|c r]; [contradiction|].
  rewrite (splitPath_dotless _ _ Hd).
  change (EmptyString ++ String c r) with (String c r).
  assert (getScriptVariable_walk [String c r] (Some (root st)) (heap st) =
          match firstNamed (heap st) (String c r) (children vr) with
          | None => (Ok None, heap st)
          | Some k => match links (heap st) !! k with
                      | Some lk => (Ok (Some (var lk)), heap st)
                      | None => (Crash BadPointer, heap st)
                      end
          end) as W.
  { cbn [getScriptVariable_walk]. unfold bind.
    rewrite (findChild_firstNamed _ _ _ _ Hr Hc).
    destruct (firstNamed (heap st) (String c r) (children vr)) as [k|]; [|reflexivity].
    unfold load_link. destruct (links (heap st) !! k); reflexivity. }
  unfold liftH. rewrite W.
  destruct (firstNamed (heap st) (String c r) (children vr)) as [k|];
    [destruct (links (heap st) !! k)|]; rewrite set_heap_same; reflexivity.
Qed.

(** X19.  The variables of the host.  For a global name without dots:
    when the root has no child of that name, [setVariable] and
    [getVariable] answer false and change nothing.  When it has one that
    is not a number, [setVariable] answers true and makes a string of the
    variable, whatever it was before (its children stay), holding the
    given text up to its first NUL, and [getVariable] then returns that
    text. *)
Theorem X19_setVariable_getVariable (st : Interp) (path data : string) (vr : Value) :
  dotless path = true -> path <> EmptyString ->
  vars (heap st) !! root st = Some vr -> valid_chain (heap st) (children vr) ->
  (firstNamed (heap st) path (children vr) = None ->
   setVariable path data st = (Ok false, st) /\ getVariable path st = (Ok None, st)) /\
  (forall k lk v,
     firstNamed (heap st) path (children vr) = Some k ->
     links (heap st) !! k = Some lk -> vars (heap st) !! var lk = Some v ->
     isInt v = false -> isDouble v = false ->
     let st' := set_heap (mkHeap (<[var lk := setString (c_str data) v]> (vars (heap st)))
                                 (links (heap st)) (nextAddr (heap st))) st in
     setVariable path data st = (Ok true, st') /\
     getVariable path st' = (Ok (Some (c_str data)), st') /\
     children (setString (c_str data) v) = children v /\
     isString (setString (c_str data) v) = true).
Proof.
  intros Hd Hne Hr Hc.
  pose proof (getScriptVariable_global st path vr Hd Hne Hr Hc) as Hg.
  split.
  - intros Hnone. rewrite Hnone in Hg.
    unfold setVariable, getVariable, bind. rewrite Hg. split; reflexivity.
  - intros k lk v Hk Hlk Hv Hi Hdb st'. rewrite Hk, Hlk in Hg.
    split; [|split; [|split]].
    + unfold setVariable, bind at 1. rewrite Hg. unfold bind at 1, liftH at 1.
      rewrite (load_Some _ _ _ Hv), Hi, Hdb. unfold bind, liftH, store, ret. reflexivity.
    + assert (exists vr', vars (heap st') !! root st' = Some vr' /\ children vr' = children vr)
        as (vr' & Hr' & Hch).
      { unfold st'. cbn [heap set_heap vars root].
        destruct (decide (var lk = root st)) as [E|E].
        - rewrite E, lookup_insert_eq. rewrite E, Hr in Hv. injection Hv as <-. eauto.
        - rewrite lookup_insert_ne by assumption. eauto. }
      assert (valid_chain (heap st') (children vr')) as Hc' by (rewrite Hch; exact Hc).
      pose proof (getScriptVariable_global st' path vr' Hd Hne Hr' Hc') as Hg'.
      rewrite Hch in Hg'.
      assert (firstNamed (heap st') path (children vr) = Some k) as Hk'
        by (rewrite <- Hk; apply firstNamed_agree, List.Forall_forall; reflexivity).
      rewrite Hk' in Hg'. change (links (heap st') !! k) with (links (heap st) !! k) in Hg'.
      rewrite Hlk in Hg'.
      unfold getVariable, bind at 1. rewrite Hg'. unfold bind, liftH.
      assert (vars (heap st') !! var lk = Some (setString (c_str data) v)) as Hv'
        by (unfold st'; cbn [heap set_heap vars]; apply lookup_insert_eq).
      rewrite (getString_text _ _ _ Hv'), setString_text. unfold printed.
      rewrite setString_unprinted. unfold ret. rewrite set_heap_same. reflexivity.
    + reflexivity.
    + unfold isString, hasFlag. cbn [flags setString]. rewrite retag_flag by reflexivity.
      reflexivity.
Qed.

(** X19 on the scope [{ s : hi }]: there is no [y], and [s] takes the
    new text. *)
Lemma X19_setVariable_getVariable_sample :
  (setVariable "y" "hello" state_greeting = (Ok false, state_greeting) /\
   getVariable "y" state_greeting = (Ok None, state_greeting)) /\
  exists st',
    setVariable "s" "hello" state_greeting = (Ok true, st') /\
    getVariable "s" st' = (Ok (Some "hello"), st').
Proof.
  split.
  - apply (proj1 (X19_setVariable_getVariable state_greeting "y" "hello"
                    (set_children [3%positive] (Variable_data TINYJS_BLANK_DATA VARIABLE_OBJECT))
                    eq_refl ltac:(discriminate) eq_refl
                    ltac:(repeat constructor; eexists; reflexivity))).
    reflexivity.
  - destruct (proj2 (X19_setVariable_getVariable state_greeting "s" "hello"
                    (set_children [3%positive] (Variable_data TINYJS_BLANK_DATA VARIABLE_OBJECT))
                    eq_refl ltac:(discriminate) eq_refl
                    ltac:(repeat constructor; eexists; reflexivity))
                3%positive (mkLink "s" 2%positive true) (Variable_string "hi")
                eq_refl eq_refl eq_refl eq_refl eq_refl) as (Hs & Hg & _).
    eexists. split; [exact Hs | exact Hg].
Defined.
(* ------------------------------------------------------------------ *)
(** ** Integer literals *)

(** The decimal form of a positive number does not start with a zero. *)
Lemma to_uint_head (p : positive) (u : Decimal.uint) : Pos.to_uint p <> Decimal.D0 u.
Proof.
  intros E.
  assert (Decimal.unorm (Pos.to_uint p) = Pos.to_uint p) as Hn.
  { rewrite <- DecimalPos.Unsigned.to_of, DecimalPos.Unsigned.of_to. reflexivity. }
  rewrite E in Hn. rewrite DecimalFacts.unorm_D0 in Hn. unfold Decimal.unorm in Hn.
  destruct (Decimal.nzhead u) eqn:Eh;
    try (injection Hn as Hn; subst u; exact (DecimalPos.Unsigned.to_uint_nonzero p E));
    try discriminate.
  exact (DecimalFacts.nzhead_nonzero u _ Eh).
Qed.

Lemma accumulate_ge (s : string) :
  isNumber s = true ->
  forall acc, 0 <= acc -> acc * 10 ^ Z.of_nat (String.length s) <= accumulate 10 s acc.
Proof.
  induction s as [|c r IH]; intros Hs acc Hacc.
  - simpl. lia.
  - simpl in Hs. destruct (isNumericCh c) eqn:Ec; [|discriminate].
    destruct (digit_char c Ec) as (_ & _ & _ & _ & _ & d & Hd & Hr).
    cbn [accumulate String.length]. rewrite Hd.
    destruct (Z.ltb_spec d 10); [|lia].
    specialize (IH Hs (acc * 10 + d) ltac:(lia)).
    rewrite Nat2Z.inj_succ, Z.pow_succ_r by lia.
    assert (0 <= 10 ^ Z.of_nat (String.length r)) by (apply Z.pow_nonneg; lia).
    nia.
Qed.

(** The decimal form of a positive number: digits, the first of which is
    not a zero, and at most ten of them for an [int]. *)
Lemma decimal_head (p : positive) :
  exists c r,
    itoa (Z.pos p) = String c r /\ isNumber (String c r) = true /\
    Ascii.eqb c "0" = false /\
    accumulate 10 (String c r) 0 = Z.pos p /\
    (Z.pos p <= INT_MAX -> (String.length (String c r) <= 10)%nat).
Proof.
  destruct (decimal_pos p) as (c & r & E & Hd & Hacc).
  exists c, r. unfold itoa. cbn [Z.to_int NilZero.string_of_int].
  split; [exact E|]. split; [exact Hd|].
  assert (Ascii.eqb c "0" = false) as Hc.
  { revert E.
    destruct (Pos.to_uint p) as [|u|u|u|u|u|u|u|u|u|u] eqn:Eu;
      cbn [NilZero.string_of_uint NilEmpty.string_of_uint];
      intros [= <- _]; try reflexivity.
    - exfalso. exact (DecimalPos.Unsigned.to_uint_nonnil p Eu).
    - exfalso. exact (to_uint_head p u Eu). }
  split; [exact Hc|]. split; [exact Hacc|].
  intros Hmax. simpl in Hd. destruct (isNumericCh c) eqn:Ec; [|discriminate].
  destruct (digit_char c Ec) as (_ & _ & _ & _ & _ & d & Hdv & Hr).
  assert (1 <= d) as Hd1.
  { revert Hc Hdv. clear. destruct c as [[] [] [] [] [] [] [] []]; try discriminate;
      intros _ [= <-]; vm_compute; discriminate. }
  cbn [accumulate] in Hacc. rewrite Hdv in Hacc.
  destruct (Z.ltb_spec d 10); [|lia].
  pose proof (accumulate_ge r Hd (0 * 10 + d) ltac:(lia)) as Hge. rewrite Hacc in Hge.
  cbn [String.length].
  destruct (Nat.le_gt_cases (String.length r) 9) as [|Hbig]; [lia|exfalso].
  assert (10 ^ 10 <= 10 ^ Z.of_nat (String.length r)) by (apply Z.pow_le_mono_r; lia).
  unfold INT_MAX in Hmax. change (10 ^ 10) with 10000000000 in *. nia.
Qed.

(** [strtol] with the base 0 on digits of which the first is not a zero:
    the base is ten. *)
Lemma strtol_auto_digits (c : ascii) (r : string) :
  isNumber (String c r) = true -> Ascii.eqb c "0" = false ->
  strtol (String c r) 0 = clamp_long (accumulate 10 (String c r) 0).
Proof.
  simpl. destruct (isNumericCh c) eqn:Ec; [|discriminate]. intros Hr Hz.
  destruct (digit_char c Ec) as (Hsp & Hm & Hp & _).
  unfold strtol. cbn [skipSpaces]. rewrite Hsp, Hm, Hp.
  destruct r as [|x [|y t]]; rewrite Hz; try reflexivity.
Qed.

Lemma strtol_itoa (n : Z) : 0 <= n <= INT_MAX -> strtol (c_str (itoa n)) 0 = n.
Proof.
  intros Hn. destruct n as [|p|p]; [reflexivity| |lia].
  destruct (decimal_head p) as (c & r & E & Hd & Hc & Hacc & _).
  rewrite E, (c_str_digits _ Hd), (strtol_auto_digits c r Hd Hc), Hacc.
  unfold clamp_long, LONG_MIN, LONG_MAX. unfold INT_MAX in Hn. lia.
Qed.

Lemma take_chars_all (s : string) (n : nat) :
  (String.length s <= n)%nat -> take_chars n s = s.
Proof.
  unfold take_chars. revert n. induction s as [|c r IH]; intros n Hn.
  - destruct n; reflexivity.
  - destruct n as [|n]; [simpl in Hn; lia|]. cbn [String.substring].
    rewrite IH by (simpl in Hn; lia). reflexivity.
Qed.

(** The decimal form of an [int] that is not negative fits the buffer of
    [getString]. *)
Lemma itoa_fits (n : Z) : 0 <= n <= INT_MAX -> take_chars 31 (itoa n) = itoa n.
Proof.
  intros Hn. destruct n as [|p|p]; [reflexivity| |lia].
  destruct (decimal_head p) as (c & r & E & _ & _ & _ & Hlen).
  apply take_chars_all. rewrite E. specialize (Hlen ltac:(lia)). lia.
Qed.

(** A digit is not a letter, nor white space, nor the start of a
    comment, nor one of the characters that go on a number. *)
Lemma digit_plain (c : ascii) :
  isNumericCh c = true ->
  isAlpha c = false /\ nonzero c && isWhitespace c = false /\
  Ascii.eqb c "/" = false /\ Ascii.eqb c "x" = false.
Proof.
  destruct c as [[] [] [] [] [] [] [] []]; try discriminate; intros _;
    repeat (split; [reflexivity|]); reflexivity.
Qed.

(** The loop over the digits of a number, up to the end of the text. *)
Lemma digits_loop (s : string) :
  isNumber s = true ->
  forall (cond : Lexer -> bool) (n : nat) (l : Lexer),
    (forall l, cond l = isNumericCh (currCh l)) ->
    (String.length s < n)%nat ->
    reads l (list_ascii_of_string s) ->
    tkStr (lex_while n cond (fun l => getNextCh (addCh (currCh l) l)) l) = tkStr l ++ s /\
    currCh (lex_while n cond (fun l => getNextCh (addCh (currCh l) l)) l) = NUL /\
    tk (lex_while n cond (fun l => getNextCh (addCh (currCh l) l)) l) = tk l.
Proof.
  induction s as [|c r IH]; intros Hs cond n l Hcond Hn Hr.
  - rewrite lex_while_done.
    + split; [symmetry; apply append_nil_r|]. split; [apply reads_end, Hr|reflexivity].
    + rewrite Hcond, (reads_end _ Hr). reflexivity.
  - simpl in Hs. destruct (isNumericCh c) eqn:Ec; [|discriminate].
    destruct n as [|n]; [simpl in Hn; lia|].
    cbn [list_ascii_of_string] in Hr. pose proof (reads_currCh _ _ _ Hr) as Hc.
    cbn [lex_while]. rewrite Hcond, Hc, Ec.
    destruct (IH Hs cond n (getNextCh (addCh c l)) Hcond) as (Hstr & Hend & Htk).
    + simpl in Hn. lia.
    + apply (reads_next (addCh c l) c). exact Hr.
    + split; [|split; [exact Hend|exact Htk]].
      rewrite Hstr. change (tkStr (getNextCh (addCh c l))) with (push_back (tkStr l) c).
      unfold push_back, str1. rewrite append_assoc. reflexivity.
Qed.

(** The character after a run of digits, where the text ends with the
    digits, is not the [x] of a hexadecimal number. *)
Lemma digits_not_hex (s : string) (l : Lexer) :
  isNumber s = true -> reads l (list_ascii_of_string s) -> Ascii.eqb (currCh l) "x" = false.
Proof.
  intros Hs Hr. destruct s as [|c r].
  - rewrite (reads_end _ Hr). reflexivity.
  - simpl in Hs. destruct (isNumericCh c) eqn:Ec; [|discriminate].
    rewrite (reads_currCh _ _ _ Hr). apply (digit_plain c Ec).
Qed.

(** [scanNumber] on digits that end the text: an integer token. *)
Lemma scanNumber_digits (c : ascii) (r : string) (l : Lexer) :
  isNumber (String c r) = true ->
  reads l (list_ascii_of_string (String c r)) ->
  Z.of_nat (String.length r) <= dataEnd l - dataPos l + 1 ->
  tk (scanNumber l) = LEXER_INT /\ tkStr (scanNumber l) = tkStr l ++ String c r /\
  currCh (scanNumber l) = NUL.
Proof.
  intros Hs Hr Hlen. pose proof Hs as Hs'. simpl in Hs'.
  destruct (isNumericCh c) eqn:Ec; [|discriminate].
  pose proof (reads_currCh _ _ _ Hr) as Hc.
  assert (forall (s : string) (l1 : Lexer),
            isNumber s = true -> reads l1 (list_ascii_of_string s) ->
            (String.length s < lexFuel l1)%nat ->
            let w := while_ch (fun l => isNumericCh (currCh l) || (false && isHexadecimal (currCh l)))
                              (fun l => getNextCh (addCh (currCh l) l)) (set_tk LEXER_INT l1) in
            tk w = LEXER_INT /\ tkStr w = tkStr l1 ++ s /\ currCh w = NUL) as Hloop.
  { intros s l1 Hd Hr1 Hf w. unfold w, while_ch.
    destruct (digits_loop s Hd
                (fun l => isNumericCh (currCh l) || (false && isHexadecimal (currCh l)))
                (lexFuel (set_tk LEXER_INT l1)) (set_tk LEXER_INT l1)) as (Hstr & Hend & Htk).
    - intros l0. cbn [andb]. apply orb_false_r.
    - exact Hf.
    - exact Hr1.
    - split; [exact Htk|]. split; [exact Hstr|exact Hend]. }
  unfold scanNumber. rewrite Hc. destruct (Ascii.eqb_spec c "0") as [->|Hnz].
  - cbv zeta.
    set (l1 := getNextCh (addCh "0" l)).
    assert (reads l1 (list_ascii_of_string r)) as Hr1 by (apply (reads_next (addCh "0" l) "0"), Hr).
    rewrite (digits_not_hex r l1 Hs' Hr1). cbv iota.
    destruct (Hloop r l1 Hs' Hr1) as (Htk & Hstr & Hend).
    { unfold lexFuel, l1, getNextCh. cbn [dataEnd dataPos addCh set_tkStr]. lia. }
    rewrite Hend. change (Ascii.eqb NUL ".") with false.
    change (Ascii.eqb NUL "e" || Ascii.eqb NUL "E") with false.
    change (negb false && false) with false. cbv iota. rewrite Hend.
    change (Ascii.eqb NUL "e" || Ascii.eqb NUL "E") with false.
    change (negb false && false) with false. cbv iota.
    split; [exact Htk|]. split; [|exact Hend].
    rewrite Hstr. change (tkStr l1) with (push_back (tkStr l) "0").
    unfold push_back, str1. rewrite append_assoc. reflexivity.
  - cbv zeta. rewrite Hc. rewrite (proj2 (proj2 (proj2 (digit_plain c Ec)))).
    cbv iota.
    destruct (Hloop (String c r) l Hs Hr) as (Htk & Hstr & Hend).
    { unfold lexFuel. cbn [String.length]. lia. }
    rewrite Hend. change (Ascii.eqb NUL ".") with false.
    change (Ascii.eqb NUL "e" || Ascii.eqb NUL "E") with false.
    change (negb false && false) with false. cbv iota. rewrite Hend.
    change (Ascii.eqb NUL "e" || Ascii.eqb NUL "E") with false.
    change (negb false && false) with false. cbv iota.
    split; [exact Htk|]. split; [exact Hstr|exact Hend].
Qed.

(** [getNextToken] before digits that end the text. *)
Lemma getNextToken_digits (c : ascii) (r : string) (l : Lexer) :
  isNumber (String c r) = true ->
  reads l (list_ascii_of_string (String c r)) ->
  Z.of_nat (String.length r) <= dataEnd l - dataPos l + 1 ->
  tk (getNextToken l) = LEXER_INT /\ tkStr (getNextToken l) = String c r /\
  currCh (getNextToken l) = NUL.
Proof.
  intros Hs Hr Hlen. pose proof Hs as Hs'. simpl in Hs'.
  destruct (isNumericCh c) eqn:Ec; [|discriminate].
  destruct (digit_plain c Ec) as (Hal & Hws & Hsl & _).
  assert (currCh l = c) as Hc by exact (reads_currCh _ _ _ Hr).
  unfold getNextToken.
  rewrite getNextToken_rec_token by (rewrite Hc; assumption).
  set (l3 := set_tkStr EmptyString (set_tk LEXER_EOF l)).
  unfold scanToken. cbn [currCh set_tokenStart]. change (currCh l3) with (currCh l).
  rewrite Hc, Hal, Ec. cbv iota zeta. cbn [tk tkStr currCh].
  apply (scanNumber_digits c r (set_tokenStart (dataPos l3 - 2) l3) Hs Hr).
  exact Hlen.
Qed.

(** A text of digits, as the lexer reads it: one integer token that
    holds the digits, and the end of the text behind it. *)
Lemma digits_lexed (c : ascii) (r : string) :
  isNumber (String c r) = true ->
  tk (Lexer_new (String c r)) = LEXER_INT /\
  tkStr (Lexer_new (String c r)) = String c r /\
  currCh (Lexer_new (String c r)) = NUL.
Proof.
  intros Hs. unfold Lexer_new. rewrite (c_str_digits _ Hs).
  set (d := String c r). unfold reset.
  cbn [currCh nextCh data dataStart dataEnd dataOwned].
  set (l1 := mkLexer NUL NUL 0 0 0 0 EmptyString d 0 (Z.of_nat (String.length d)) true 0).
  pose proof (reads_start l1 d eq_refl eq_refl eq_refl) as Hr.
  apply (getNextToken_digits c r _ Hs Hr).
  unfold l1, getNextCh, d. cbn [dataEnd dataPos String.length]. lia.
Qed.

(** [getNextToken] before a minus sign that digits follow: the token is
    the sign, and the lexer stands before the digits. *)
Lemma getNextToken_minus (c : ascii) (r : string) (l : Lexer) :
  isNumericCh c = true ->
  reads l ("-"%char :: list_ascii_of_string (String c r)) ->
  tk (getNextToken l) = tok "-" /\
  reads (getNextToken l) (list_ascii_of_string (String c r)) /\
  dataEnd (getNextToken l) = dataEnd l /\ dataPos (getNextToken l) = dataPos l + 1.
Proof.
  intros Ec Hr.
  destruct (digit_char c Ec) as (_ & Hm & _).
  assert (Ascii.eqb c "=" = false) as Heq
    by (revert Ec; clear; destruct c as [[] [] [] [] [] [] [] []]; try discriminate; reflexivity).
  assert (currCh l = "-"%char) as Hc by exact (reads_currCh _ _ _ Hr).
  pose proof (reads_next _ _ _ Hr) as Hr1.
  assert (nextCh l = c) as Hn by exact (reads_currCh _ _ _ Hr1).
  unfold getNextToken.
  rewrite getNextToken_rec_token by (rewrite Hc; reflexivity).
  set (l3 := set_tkStr EmptyString (set_tk LEXER_EOF l)).
  assert (scanToken l3
          = let p := getNextCh (set_tk (tok "-") (set_tokenStart (dataPos l3 - 2) l3)) in
            mkLexer (currCh p) (nextCh p) (tk p) (tokenStart p) (dataPos p - 3) (tokenEnd p)
                    (tkStr p) (data p) (dataStart p) (dataEnd p) (dataOwned p) (dataPos p)) as ->.
  { unfold scanToken. cbn [currCh set_tokenStart]. change (currCh l3) with (currCh l).
    rewrite Hc. change (isAlpha "-") with false. change (isNumericCh "-") with false.
    change (Ascii.eqb "-" dquote) with false. change (Ascii.eqb "-" squote) with false.
    cbv iota. unfold scanPunctuation. cbn [currCh set_tokenStart set_tk].
    change (currCh l3) with (currCh l). rewrite Hc.
    change (nonzero "-") with true. cbv iota.
    unfold sees. cbn [tk currCh getNextCh set_tk set_tokenStart].
    change (nextCh (set_tk (int_of_char "-") (set_tokenStart (dataPos l3 - 2) l3)))
      with (nextCh l).
    rewrite Hn, Hm, Heq.
    change (int_of_char "-") with 45. reflexivity. }
  cbv zeta. cbn [tk dataEnd dataPos getNextCh set_tk set_tokenStart].
  split; [reflexivity|]. split; [|split; reflexivity].
  exact Hr1.
Qed.

(** The decimal form of a negative number, as the lexer reads it: the
    minus sign, then one integer token that holds the digits, and the
    end of the text behind it. *)
Lemma negative_lexed (c : ascii) (r : string) :
  isNumber (String c r) = true ->
  tk (Lexer_new (String "-" (String c r))) = tok "-" /\
  tk (getNextToken (Lexer_new (String "-" (String c r)))) = LEXER_INT /\
  tkStr (getNextToken (Lexer_new (String "-" (String c r)))) = String c r /\
  currCh (getNextToken (Lexer_new (String "-" (String c r)))) = NUL.
Proof.
  intros Hs. pose proof Hs as Hs'. simpl in Hs'.
  destruct (isNumericCh c) eqn:Ec; [|discriminate].
  unfold Lexer_new.
  assert (c_str (String "-" (String c r)) = String "-" (String c r)) as ->.
  { change (c_str (String "-" (String c r))) with (String "-" (c_str (String c r))).
    rewrite (c_str_digits _ Hs). reflexivity. }
  set (d := String "-" (String c r)). unfold reset.
  cbn [currCh nextCh data dataStart dataEnd dataOwned].
  set (l1 := mkLexer NUL NUL 0 0 0 0 EmptyString d 0 (Z.of_nat (String.length d)) true 0).
  pose proof (reads_start l1 d eq_refl eq_refl eq_refl) as Hr.
  destruct (getNextToken_minus c r _ Ec Hr) as (Htk & Hr1 & He & Hp).
  split; [exact Htk|].
  apply (getNextToken_digits c r _ Hs Hr1).
  rewrite He, Hp. unfold l1, getNextCh, d. cbn [dataEnd dataPos String.length]. lia.
Qed.

Section IntegerLiteral.

Variable native :
  (string -> M unit) -> (string -> M VariableLink) -> N -> positive -> N -> M unit.

(** [expression] on a minus sign before a term that is an integer and
    ends the text: a new integer, the difference of 0 and the term, to
    which the link of the term is redirected when nothing owns it. *)
Lemma expression_negated (n : nat) (st st1 : Interp) (lx lx1 : Lexer)
      (k : positive) (lk : VariableLink) (v : Value) :
  l st = Some lx -> tk lx = tok "-" ->
  term native (S n) true (set_l (Some (getNextToken lx)) st) = (Ok (Some k, true), st1) ->
  l st1 = Some lx1 -> tk lx1 = LEXER_EOF ->
  links (heap st1) !! k = Some lk -> owned lk = false ->
  vars (heap st1) !! var lk = Some v -> isInt v = true -> isDouble v = false ->
  var lk <> nextAddr (heap st1) ->
  expression native (S (S n)) true st
    = (Ok (Some k, true),
       set_heap
         (mkHeap (<[Pos.succ (nextAddr (heap st1)) := Variable_int (0 - getInt v)]>
                    (<[nextAddr (heap st1) := Variable_int 0]> (vars (heap st1))))
                 (<[k := mkLink (name lk) (Pos.succ (nextAddr (heap st1))) false]>
                    (links (heap st1)))
                 (Pos.succ (Pos.succ (nextAddr (heap st1)))))
         st1).
Proof.
  intros Hl Htk Hterm Hl1 Heof Hlk Hown Hv Hint Hd Hfresh.
  rewrite expression_negate_eq.
  unfold bind at 1. rewrite (getTk_eq st lx Hl), Htk.
  change (tok "-" =? tok "-") with true. cbv iota.
  unfold bind at 1. unfold bind at 1. rewrite (matchTk_eq st lx (tok "-") Hl Htk).
  unfold ret at 1. unfold bind at 1. rewrite Hterm.
  unfold bind at 1. unfold bind at 1, liftH at 1, alloc at 1.
  set (h1 := heap st1) in *.
  set (h2 := mkHeap (<[nextAddr h1 := Variable_int 0]> (vars h1)) (links h1)
                    (Pos.succ (nextAddr h1))).
  unfold bind at 1, linkVar, deref. unfold bind at 1, ret at 1.
  unfold bind at 1, liftH at 1. cbn [heap set_heap].
  rewrite (load_link_Some h2 k lk Hlk). unfold ret at 1.
  unfold bind at 1, liftH at 1. cbn [heap set_heap].
  assert (vars h2 !! nextAddr h1 = Some (Variable_int 0)) as Hz by apply lookup_insert_eq.
  assert (vars h2 !! var lk = Some v) as Hv2
    by (unfold h2; cbn [vars]; rewrite lookup_insert_ne by congruence; exact Hv).
  rewrite (mathsOp_numeric h2 _ _ _ _ (tok "-") Hz Hv2 eq_refl (int_is_numeric v Hint) eq_refl).
  rewrite Hd. change (isDouble (Variable_int 0)) with false. cbv iota beta. cbn [negb andb].
  unfold mathsOp_int. change (tok "-" =? tok "+") with false.
  change (tok "-" =? tok "-") with true. cbv iota.
  change (getInt (Variable_int 0)) with 0.
  unfold new_int, alloc at 1. cbn [nextAddr vars links h2].
  unfold liftH at 1, CREATE_LINK, bind at 1. cbn [heap set_heap].
  rewrite (load_link_Some _ k lk) by exact Hlk. rewrite Hown.
  unfold bind at 1, replaceWith, bind at 1.
  rewrite (load_link_Some _ k lk) by exact Hlk.
  unfold store_link, ret at 1. cbn [vars links nextAddr]. rewrite Hown.
  rewrite expression_loop_eq. unfold bind at 1.
  erewrite getTk_eq; [|cbn [l set_heap]; exact Hl1]. rewrite Heof.
  reflexivity.
Qed.

(** [evaluate] of the decimal form of an [int] that is not negative. *)
Lemma evaluate_int_literal (z : Z) (st : Interp) (n : nat) :
  0 <= z <= INT_MAX ->
  exists st',
    evaluate native (11 + n) (itoa z) st = (Ok (itoa z), st') /\
    vars (heap st') !! nextAddr (heap st)
      = Some (set_stringData (itoa z) (Variable_data (itoa z) VARIABLE_INTEGER)) /\
    intData (Variable_data (itoa z) VARIABLE_INTEGER) = z /\
    l st' = l st /\ scopes st' = scopes st /\ root st' = root st.
Proof.
  intros Hz.
  assert (exists c r, itoa z = String c r /\ isNumber (String c r) = true) as (c & r & E & Hd).
  { destruct z as [|p|p]; [eexists _, _; split; reflexivity| |lia].
    destruct (decimal_head p) as (c & r & E & Hd & _). eauto. }
  destruct (digits_lexed c r Hd) as (Htk & Hstr & Hend). rewrite <- E in Htk, Hstr, Hend.
  assert (intData (Variable_data (itoa z) VARIABLE_INTEGER) = z) as Hint
    by (exact (strtol_itoa z Hz)).
  assert (textOf (Variable_data (itoa z) VARIABLE_INTEGER) = itoa z) as Htext.
  { unfold textOf. change (isInt (Variable_data (itoa z) VARIABLE_INTEGER)) with true.
    cbv iota. rewrite Hint. apply itoa_fits, Hz. }
  pose proof (factor_int native n true (entered (itoa z) st) (Lexer_new (itoa z)) eq_refl Htk)
    as Hf. rewrite Hstr in Hf.
  destruct (evaluate_literal native (itoa z) (Variable_data (itoa z) VARIABLE_INTEGER) st n)
    as (st' & Hev & Hl & Hs & Hr & Hv).
  - rewrite Htk. reflexivity.
  - rewrite Htk. reflexivity.
  - exact Hend.
  - exact Hf.
  - rewrite Htext in Hev, Hv. exists st'. auto 10.
Qed.

(** [evaluate] of the decimal form of a negative [int]. *)
Lemma evaluate_negative_literal (p : positive) (st : Interp) (n : nat) :
  Z.pos p <= INT_MAX ->
  exists st',
    evaluate native (11 + n) (itoa (Z.neg p)) st = (Ok (itoa (Z.neg p)), st') /\
    l st' = l st /\ scopes st' = scopes st /\ root st' = root st.
Proof.
  intros Hp.
  destruct (decimal_head p) as (c & r & E & Hd & Hc & Hacc & Hlen).
  assert (itoa (Z.neg p) = String "-" (String c r)) as En by (rewrite <- E; reflexivity).
  destruct (negative_lexed c r Hd) as (Htk & Htk1 & Hstr1 & Hend1). rewrite <- En in *.
  set (code := itoa (Z.neg p)) in *.
  set (lx := Lexer_new code) in *. set (lx1 := getNextToken lx) in *.
  set (st0 := entered code st).
  set (st1 := set_l (Some lx1) st0).
  set (v := Variable_data (String c r) VARIABLE_INTEGER).
  set (k := Pos.succ (nextAddr (heap st))).
  assert (getInt v = Z.pos p) as Hv.
  { unfold v, getInt. change (isInt (Variable_data (String c r) VARIABLE_INTEGER)) with true.
    cbv iota. change (intData (Variable_data (String c r) VARIABLE_INTEGER))
      with (strtol (c_str (String c r)) 0).
    rewrite <- E. rewrite strtol_itoa by lia. apply to_int_small.
    unfold INT_MIN, INT_MAX in *. lia. }
  pose proof (factor_int native n true st1 lx1 eq_refl Htk1) as Hf. rewrite Hstr1 in Hf.
  fold v in Hf.
  assert (term native (S (S (S n))) true st1 = (Ok (Some k, true), afterLiteral st1 lx1 v))
    as Hterm.
  { apply (term_single_factor native (S n) true true (Some k) st1 _ lx1 (getNextToken lx1)
             eq_refl).
    - rewrite Htk1. reflexivity.
    - exact Hf.
    - reflexivity.
    - apply getNextToken_at_end, Hend1. }
  pose proof (expression_negated (S (S n)) st0 _ lx (getNextToken lx1) k
                (mkLink TINYJS_TEMP_NAME (nextAddr (heap st)) false) v
                eq_refl Htk Hterm eq_refl (getNextToken_at_end lx1 Hend1)) as Hex.
  specialize (Hex ltac:(apply lookup_insert_eq) eq_refl ltac:(apply lookup_insert_eq)
                  eq_refl eq_refl).
  specialize (Hex ltac:(change (nextAddr (heap st) <> Pos.succ (Pos.succ (nextAddr (heap st))));
                        lia)).
  pose proof (base_of_expression native _ true true (Some k) st0 _ (getNextToken lx1) Hex
                eq_refl (getNextToken_at_end lx1 Hend1)) as Hbase.
  change (11 + n)%nat with (S (S (5 + S (S (S (S n)))))).
  rewrite (evaluate_of_base native code st _ _ k
             (mkLink TINYJS_TEMP_NAME (Pos.succ (Pos.succ (Pos.succ (nextAddr (heap st))))) false)
             (Variable_int (0 - getInt v)) (getNextToken lx1) Hbase eq_refl
             (getNextToken_at_end lx1 Hend1)).
  - rewrite Hv.
    assert (textOf (Variable_int (0 - Z.pos p)) = itoa (Z.neg p)) as ->.
    { unfold textOf. change (isInt (Variable_int (0 - Z.pos p))) with true. cbv iota.
      change (intData (Variable_int (0 - Z.pos p))) with (to_int (0 - Z.pos p)).
      rewrite to_int_small by (unfold INT_MIN, INT_MAX in *; lia).
      change (0 - Z.pos p) with (Z.neg p). apply take_chars_all.
      fold code. rewrite En. specialize (Hlen Hp). cbn [String.length] in *. lia. }
    eexists. split; [reflexivity|]. split; [reflexivity|]. split; reflexivity.
  - cbn [heap set_heap links]. apply lookup_insert_eq.
  - cbn [heap set_heap vars var]. apply lookup_insert_eq.
Qed.

(** The decimal form of an [int] fits the buffer of [getString]. *)
Lemma itoa_fits_int (z : Z) : - INT_MAX <= z <= INT_MAX -> take_chars 31 (itoa z) = itoa z.
Proof.
  intros Hz. destruct z as [|p|p]; [reflexivity|apply itoa_fits; lia|].
  destruct (decimal_head p) as (c & r & E & _ & _ & _ & Hlen).
  apply take_chars_all.
  change (itoa (Z.neg p)) with (String "-" (itoa (Z.pos p))). rewrite E.
  specialize (Hlen ltac:(lia)). cbn [String.length] in *. lia.
Qed.

(** X20.  The round trip of an integer.  For an integer variable whose
    value lies between -2147483647 and 2147483647, [getParsableString]
    writes the decimal form of the value and [evaluate] of that text
    returns the same decimal form, in every state of the interpreter and
    with any natives (a negative number is read as a minus sign before a
    literal, and computed as 0 minus the literal); the lexer pointer and
    the scope stack are left as they were. *)
Theorem X20_int_round_trip (st : Interp) (a : positive) (va : Value) (n : nat) :
  vars (heap st) !! a = Some va -> isInt va = true ->
  - INT_MAX <= intData va <= INT_MAX ->
  fst (getParsableString a (heap st)) = Ok (itoa (intData va)) /\
  exists st',
    (let* s := liftH (getParsableString a) in evaluate native (11 + n) s) st
      = (Ok (itoa (intData va)), st') /\
    l st' = l st /\ scopes st' = scopes st /\ root st' = root st.
Proof.
  intros Ha Hint Hz.
  assert (getParsableString a (heap st) = (Ok (itoa (intData va)), printed (heap st) a va)) as E.
  { unfold getParsableString, bind. rewrite (load_Some _ _ _ Ha), (int_is_numeric va Hint).
    rewrite (getString_text _ _ _ Ha). unfold textOf. rewrite Hint.
    rewrite (itoa_fits_int _ Hz). reflexivity. }
  split; [rewrite E; reflexivity|].
  unfold bind, liftH. rewrite E.
  set (st1 := set_heap (printed (heap st) a va) st).
  destruct (intData va) as [|p|p] eqn:Ez.
  - destruct (evaluate_int_literal 0 st1 n ltac:(unfold INT_MAX; lia))
      as (st' & Hev & _ & _ & Hl & Hs & Hr).
    exists st'. split; [exact Hev|]. split; [exact Hl|]. split; [exact Hs|exact Hr].
  - destruct (evaluate_int_literal (Z.pos p) st1 n ltac:(lia))
      as (st' & Hev & _ & _ & Hl & Hs & Hr).
    exists st'. split; [exact Hev|]. split; [exact Hl|]. split; [exact Hs|exact Hr].
  - destruct (evaluate_negative_literal p st1 n ltac:(lia)) as (st' & Hev & Hl & Hs & Hr).
    exists st'. split; [exact Hev|]. split; [exact Hl|]. split; [exact Hs|exact Hr].
Qed.

End IntegerLiteral.

(** X20 on the integer -42 in a fresh interpreter. *)
Lemma X20_int_round_trip_sample :
  exists st',
    (let* s := liftH (getParsableString 8) in evaluate no_natives 11 s)
      (set_heap (snd (alloc (Variable_int (-42)) (heap Interpreter_new))) Interpreter_new)
      = (Ok "-42", st') /\
    l st' = None /\ scopes st' = [].
Proof.
  destruct (X20_int_round_trip no_natives
              (set_heap (snd (alloc (Variable_int (-42)) (heap Interpreter_new))) Interpreter_new)
              8 (Variable_int (-42)) 0 eq_refl eq_refl)
    as (_ & st' & Hev & Hl & Hs & _).
  - split; vm_compute; discriminate.
  - exists st'. split; [exact Hev|]. split; [exact Hl|exact Hs].
Defined.

(* ------------------------------------------------------------------ *)
(** ** The truth of a value *)

(** X21.  What counts as true.  [getBool], the test of [if], [while],
    [for], [?:], [&&] and [||], is [getInt() != 0].  So an integer is
    true when it is not zero, a double when its integer part is not zero
    (0.5 is false), and a string, a function, an object, an array, null
    and undefined are false whatever they hold: a string that is not
    empty is false, and so is its negation. *)
Theorem X21_getBool (v : Value) :
  (tagOf v = VARIABLE_INTEGER -> getBool v = negb (to_int (intData v) =? 0)) /\
  (tagOf v = VARIABLE_DOUBLE -> getBool v = negb (int_of_double (doubleData v) =? 0)) /\
  (tagOf v = VARIABLE_STRING \/ tagOf v = VARIABLE_FUNCTION \/ tagOf v = VARIABLE_OBJECT \/
   tagOf v = VARIABLE_ARRAY \/ tagOf v = VARIABLE_NULL \/ tagOf v = VARIABLE_UNDEFINED ->
   getBool v = false) /\
  getBool (Variable_double 0.5%float) = false /\
  ev "0.5 ? 1 : 2" = Ok "2" /\ ev "'a' ? 1 : 2" = Ok "2" /\ ev "!'a' ? 1 : 2" = Ok "2".
Proof.
  assert (forall T, tagOf v = T ->
            isInt v = negb (Z.land T VARIABLE_INTEGER =? 0) /\
            isNull v = negb (Z.land T VARIABLE_NULL =? 0) /\
            isDouble v = negb (Z.land T VARIABLE_DOUBLE =? 0) /\
            isUndefined v = (T =? 0)) as Htags.
  { intros T HT. unfold isInt, isNull, isDouble. rewrite !hasFlag_by_tag by reflexivity.
    unfold isUndefined. fold (tagOf v). rewrite HT. repeat split. }
  split; [|split; [|split]].
  - intros HT. destruct (Htags _ HT) as (Hi & _). unfold getBool, getInt. rewrite Hi. reflexivity.
  - intros HT. destruct (Htags _ HT) as (Hi & Hn & Hd & Hu).
    unfold getBool, getInt. rewrite Hi, Hn, Hd, Hu. reflexivity.
  - intros HT. unfold getBool, getInt.
    destruct HT as [HT|[HT|[HT|[HT|[HT|HT]]]]];
      destruct (Htags _ HT) as (Hi & Hn & Hd & Hu); rewrite Hi, Hn, Hd, Hu; reflexivity.
  - runs.
Qed.

(* ------------------------------------------------------------------ *)
(** ** The literals that are words *)

Section WordLiterals.

Variable native :
  (string -> M unit) -> (string -> M VariableLink) -> N -> positive -> N -> M unit.

Lemma factor_word_eq (n : nat) (e : bool) :
  exists F : Z -> M (option positive * bool),
    factor native (S n) e = (let* t := getTk in F t) /\
    F LEXER_RESERVED_TRUE =
      (let* _ := matchTk LEXER_RESERVED_TRUE in
       let* v := liftH (alloc (Variable_int 1)) in
       let* a := liftH (new_VariableLink v TINYJS_TEMP_NAME) in
       ret (Some a, e)) /\
    F LEXER_RESERVED_FALSE =
      (let* _ := matchTk LEXER_RESERVED_FALSE in
       let* v := liftH (alloc (Variable_int 0)) in
       let* a := liftH (new_VariableLink v TINYJS_TEMP_NAME) in
       ret (Some a, e)) /\
    F LEXER_RESERVED_NULL =
      (let* _ := matchTk LEXER_RESERVED_NULL in
       let* v := liftH (alloc (Variable_data TINYJS_BLANK_DATA VARIABLE_NULL)) in
       let* a := liftH (new_VariableLink v TINYJS_TEMP_NAME) in
       ret (Some a, e)) /\
    F LEXER_RESERVED_UNDEFINED =
      (let* _ := matchTk LEXER_RESERVED_UNDEFINED in
       let* v := liftH (alloc (Variable_data TINYJS_BLANK_DATA VARIABLE_UNDEFINED)) in
       let* a := liftH (new_VariableLink v TINYJS_TEMP_NAME) in
       ret (Some a, e)).
Proof. eexists (fun t => _). repeat split. Qed.

(** [factor] on one of the four words. *)
Lemma factor_word (n : nat) (e : bool) (st : Interp) (lx : Lexer) (v : Value) :
  l st = Some lx ->
  (tk lx = LEXER_RESERVED_TRUE /\ v = Variable_int 1) \/
  (tk lx = LEXER_RESERVED_FALSE /\ v = Variable_int 0) \/
  (tk lx = LEXER_RESERVED_NULL /\ v = Variable_data TINYJS_BLANK_DATA VARIABLE_NULL) \/
  (tk lx = LEXER_RESERVED_UNDEFINED /\
   v = Variable_data TINYJS_BLANK_DATA VARIABLE_UNDEFINED) ->
  factor native (S n) e st
    = (Ok (Some (Pos.succ (nextAddr (heap st))), e), afterLiteral st lx v).
Proof.
  intros Hl Hw.
  destruct (factor_word_eq n e) as (F & EF & Ft & Ff & Fn & Fu).
  rewrite EF. unfold bind at 1. rewrite (getTk_eq st lx Hl).
  destruct Hw as [[Et ->]|[[Et ->]|[[Et ->]|[Et ->]]]]; rewrite Et.
  - rewrite Ft. unfold bind at 1. rewrite (matchTk_eq st lx _ Hl Et). reflexivity.
  - rewrite Ff. unfold bind at 1. rewrite (matchTk_eq st lx _ Hl Et). reflexivity.
  - rewrite Fn. unfold bind at 1. rewrite (matchTk_eq st lx _ Hl Et). reflexivity.
  - rewrite Fu. unfold bind at 1. rewrite (matchTk_eq st lx _ Hl Et). reflexivity.
Qed.

(** What the lexer reads in each of the four words. *)
Lemma words_lexed :
  (tk (Lexer_new "true") = LEXER_RESERVED_TRUE /\ currCh (Lexer_new "true") = NUL) /\
  (tk (Lexer_new "false") = LEXER_RESERVED_FALSE /\ currCh (Lexer_new "false") = NUL) /\
  (tk (Lexer_new "null") = LEXER_RESERVED_NULL /\ currCh (Lexer_new "null") = NUL) /\
  (tk (Lexer_new "undefined") = LEXER_RESERVED_UNDEFINED /\
   currCh (Lexer_new "undefined") = NUL).
Proof. runs. Qed.

(** [evaluate] of a text that is one of the four words, in any state. *)
Lemma evaluate_word (code : string) (T : Z) (v : Value) (st : Interp) (n : nat) :
  tk (Lexer_new code) = T -> currCh (Lexer_new code) = NUL ->
  (T = LEXER_RESERVED_TRUE /\ v = Variable_int 1) \/
  (T = LEXER_RESERVED_FALSE /\ v = Variable_int 0) \/
  (T = LEXER_RESERVED_NULL /\ v = Variable_data TINYJS_BLANK_DATA VARIABLE_NULL) \/
  (T = LEXER_RESERVED_UNDEFINED /\ v = Variable_data TINYJS_BLANK_DATA VARIABLE_UNDEFINED) ->
  exists st',
    evaluate native (11 + n) code st = (Ok (textOf v), st') /\
    l st' = l st /\ scopes st' = scopes st /\ root st' = root st.
Proof.
  intros Htk Hend Hw.
  destruct (evaluate_literal native code v st n) as (st' & Hev & Hl & Hs & Hr & _).
  - rewrite Htk. destruct Hw as [[-> _]|[[-> _]|[[-> _]|[-> _]]]]; reflexivity.
  - rewrite Htk. destruct Hw as [[-> _]|[[-> _]|[[-> _]|[-> _]]]]; reflexivity.
  - exact Hend.
  - rewrite <- Htk in Hw.
    exact (factor_word n true (entered code st) (Lexer_new code) v eq_refl Hw).
  - exists st'. auto.
Qed.

(** X22.  The literals that are words.  In every state of the
    interpreter and with any natives, [evaluate] of the text that
    [getParsableString] writes for a null or an undefined variable
    returns the text [null] or [undefined] again, which is what
    [getString] gives for the variable; the words [true] and [false]
    evaluate to the integers 1 and 0.  The lexer pointer and the scope
    stack are left as they were. *)
Theorem X22_word_literals (st : Interp) (n : nat) :
  (forall a va,
     vars (heap st) !! a = Some va ->
     tagOf va = VARIABLE_NULL \/ tagOf va = VARIABLE_UNDEFINED ->
     getParsableString a (heap st)
       = (Ok (if tagOf va =? VARIABLE_NULL then "null" else "undefined"), heap st) /\
     getString a (heap st)
       = (Ok (if tagOf va =? VARIABLE_NULL then "null" else "undefined"), heap st) /\
     exists st',
       (let* s := liftH (getParsableString a) in evaluate native (11 + n) s) st
         = (Ok (if tagOf va =? VARIABLE_NULL then "null" else "undefined"), st') /\
       l st' = l st /\ scopes st' = scopes st /\ root st' = root st) /\
  (exists st', evaluate native (11 + n) "true" st = (Ok "1", st') /\
               l st' = l st /\ scopes st' = scopes st) /\
  (exists st', evaluate native (11 + n) "false" st = (Ok "0", st') /\
               l st' = l st /\ scopes st' = scopes st).
Proof.
  split; [|split].
  - intros a va Ha Htag.
    assert (forall T, tagOf va = T ->
              isInt va = negb (Z.land T VARIABLE_INTEGER =? 0) /\
              isNull va = negb (Z.land T VARIABLE_NULL =? 0) /\
              isDouble va = negb (Z.land T VARIABLE_DOUBLE =? 0) /\
              isNumeric va = negb (Z.land T VARIABLE_NUMERICMASK =? 0) /\
              isFunction va = negb (Z.land T VARIABLE_FUNCTION =? 0) /\
              isString va = negb (Z.land T VARIABLE_STRING =? 0) /\
              isUndefined va = (T =? 0)) as Htags.
    { intros T HT. unfold isInt, isNull, isDouble, isNumeric, isFunction, isString.
      rewrite !hasFlag_by_tag by reflexivity.
      unfold isUndefined. fold (tagOf va). rewrite HT. repeat split. }
    assert (getString a (heap st)
            = (Ok (if tagOf va =? VARIABLE_NULL then "null" else "undefined"), heap st)) as Es.
    { rewrite (getString_text _ _ _ Ha). unfold textOf, printed.
      destruct Htag as [HT|HT]; destruct (Htags _ HT) as (-> & -> & -> & _);
        [|unfold isUndefined; fold (tagOf va)]; rewrite HT; reflexivity. }
    assert (getParsableString a (heap st)
            = (Ok (if tagOf va =? VARIABLE_NULL then "null" else "undefined"), heap st)) as Ep.
    { unfold getParsableString, bind. rewrite (load_Some _ _ _ Ha).
      destruct Htag as [HT|HT]; destruct (Htags _ HT) as (_ & Hn & _ & -> & -> & -> & _).
      - cbv iota. change (negb (Z.land VARIABLE_NULL VARIABLE_NUMERICMASK =? 0)) with true.
        cbv iota. exact Es.
      - change (negb (Z.land VARIABLE_UNDEFINED VARIABLE_NUMERICMASK =? 0)) with false.
        change (negb (Z.land VARIABLE_UNDEFINED VARIABLE_FUNCTION =? 0)) with false.
        change (negb (Z.land VARIABLE_UNDEFINED VARIABLE_STRING =? 0)) with false.
        cbv iota. rewrite Hn, HT. reflexivity. }
    split; [exact Ep|]. split; [exact Es|].
    unfold bind at 1, liftH at 1. rewrite Ep, set_heap_same.
    destruct Htag as [HT|HT]; rewrite HT.
    + destruct words_lexed as (_ & _ & [Ht He] & _).
      destruct (evaluate_word "null" _ _ st n Ht He
                  ltac:(right; right; left; split; reflexivity)) as (st' & Hev & Hrest).
      exists st'. split; [exact Hev|exact Hrest].
    + destruct words_lexed as (_ & _ & _ & [Ht He]).
      destruct (evaluate_word "undefined" _ _ st n Ht He
                  ltac:(right; right; right; split; reflexivity)) as (st' & Hev & Hrest).
      exists st'. split; [exact Hev|exact Hrest].
  - destruct words_lexed as ([Ht He] & _).
    destruct (evaluate_word "true" _ _ st n Ht He ltac:(left; split; reflexivity))
      as (st' & Hev & Hl & Hs & _).
    exists st'. split; [exact Hev|]. split; [exact Hl|exact Hs].
  - destruct words_lexed as (_ & [Ht He] & _).
    destruct (evaluate_word "false" _ _ st n Ht He ltac:(right; left; split; reflexivity))
      as (st' & Hev & Hl & Hs & _).
    exists st'. split; [exact Hev|]. split; [exact Hl|exact Hs].
Qed.

End WordLiterals.
(* ------------------------------------------------------------------ *)
(** ** The natives of arrays *)

Lemma similar_refl (v : Value) : similar v v.
Proof. repeat split. Qed.

Lemma similar_trans (v1 v2 v3 : Value) : similar v1 v2 -> similar v2 v3 -> similar v1 v3.
Proof.
  intros (F1 & C1 & I1 & D1 & T1) (F2 & C2 & I2 & D2 & T2).
  repeat split; congruence.
Qed.

Lemma grown_refl (h : Heap) : grown h h.
Proof. split; [reflexivity|]. intros p v Hp. exists v. split; [exact Hp|apply similar_refl]. Qed.

Lemma grown_trans (h1 h2 h3 : Heap) : grown h1 h2 -> grown h2 h3 -> grown h1 h3.
Proof.
  intros [L1 V1] [L2 V2]. split; [congruence|].
  intros p v Hp. destruct (V1 p v Hp) as (v2 & Hp2 & S12).
  destruct (V2 p v2 Hp2) as (v3 & Hp3 & S23).
  exists v3. split; [exact Hp3|]. eapply similar_trans; eassumption.
Qed.

(** The predicates and the numbers of a variable are those of a similar
    one. *)
Lemma similar_sameValue (a b : positive) (va va' vb vb' : Value) :
  similar va va' -> similar vb vb' -> sameValue a b va' vb' = sameValue a b va vb.
Proof.
  intros (Fa & _ & Ia & Da & Ta) (Fb & _ & Ib & Db & Tb).
  unfold sameValue, countsAsNumber, getInt, getDouble.
  unfold isUndefined, isNumeric, isDouble, isArray, isObject, isInt, isNull, hasFlag.
  rewrite Fa, Fb, Ia, Ib, Da, Db, Ta, Tb. reflexivity.
Qed.

Lemma printed_grown (h : Heap) (a : positive) (va : Value) :
  vars h !! a = Some va -> grown h (printed h a va).
Proof.
  intros Ha. split; [unfold printed; destruct (isInt va || isDouble va); reflexivity|].
  intros p v Hp. destruct (printed_lookup h a p va v Ha Hp) as (v' & Hv' & Ht & Hf & Hc).
  exists v'. split; [exact Hv'|].
  revert Hv'. unfold printed. destruct (isInt va || isDouble va).
  - cbn [vars]. destruct (decide (a = p)) as [->|Hne].
    + rewrite lookup_insert_eq. intros [= <-]. rewrite Hp in Ha. injection Ha as <-.
      repeat split. exact Ht.
    + rewrite lookup_insert_ne by assumption. rewrite Hp. intros [= <-]. apply similar_refl.
  - rewrite Hp. intros [= <-]. apply similar_refl.
Qed.

Lemma printed_wf (h : Heap) (a : positive) (va : Value) :
  vars h !! a = Some va -> heap_wf h -> heap_wf (printed h a va).
Proof.
  intros Ha Hwf p Hp. unfold printed in *.
  destruct (isInt va || isDouble va); [|apply Hwf, Hp].
  cbn [vars links nextAddr] in *. destruct (Hwf p Hp) as [Hv Hl].
  split; [|exact Hl]. rewrite lookup_insert_ne; [exact Hv|]. intros ->. congruence.
Qed.

Lemma alloc_grown (h : Heap) (v : Value) : heap_wf h -> grown h (snd (alloc v h)).
Proof.
  intros Hwf. split; [reflexivity|]. intros p w Hp. exists w. split; [|apply similar_refl].
  cbn [alloc snd vars]. rewrite lookup_insert_ne; [exact Hp|].
  intros <-. destruct (Hwf (nextAddr h)) as [Hv _]; [lia|]. congruence.
Qed.

(** [equals] on two variables: the answer, and what it leaves. *)
Lemma equals_sameValue (h : Heap) (a b : positive) (va vb : Value) :
  heap_wf h -> vars h !! a = Some va -> vars h !! b = Some vb ->
  exists h', equals a b h = (Ok (sameValue a b va vb), h') /\ grown h h' /\ heap_wf h'.
Proof.
  intros Hwf Ha Hb.
  assert (forall e h1, grown h h1 -> heap_wf h1 ->
            mathsOp a b LEXER_EQUAL h = alloc (Variable_bool e) h1 ->
            exists h', equals a b h = (Ok e, h') /\ grown h h' /\ heap_wf h') as Hfin.
  { intros e h1 Hg Hwf1 E. exists (snd (alloc (Variable_bool e) h1)).
    split; [|split].
    - unfold equals, bind. rewrite E. unfold alloc at 1, load. cbn [vars snd alloc].
      rewrite lookup_insert_eq. destruct e; reflexivity.
    - eapply grown_trans; [exact Hg|apply alloc_grown, Hwf1].
    - apply alloc_wf, Hwf1. }
  pose proof (mathsOp_maths_equal h a b va vb Ha Hb) as E.
  unfold sameValue, countsAsNumber.
  destruct (isUndefined va && isUndefined vb).
  { apply (Hfin true h (grown_refl h) Hwf E). }
  destruct ((isNumeric va || isUndefined va) && (isNumeric vb || isUndefined vb)).
  { destruct (negb (isDouble va) && negb (isDouble vb));
      apply (Hfin _ h (grown_refl h) Hwf E). }
  destruct (isArray va).
  { apply (Hfin _ h (grown_refl h) Hwf E). }
  destruct (isObject va).
  { apply (Hfin _ h (grown_refl h) Hwf E). }
  cbn [orb].
  destruct (printed_lookup h a b va vb Ha Hb) as (vb' & Hb' & Htb & _).
  unfold bind in E. rewrite (getString_text _ _ _ Ha), (getString_text _ _ _ Hb') in E.
  rewrite Htb in E. unfold new_bool in E.
  apply (Hfin _ _ (grown_trans _ _ _ (printed_grown h a va Ha) (printed_grown _ b vb' Hb'))
           (printed_wf _ b vb' Hb' (printed_wf h a va Ha Hwf)) E).
Qed.

Lemma leads_grown (h h' : Heap) (k : positive) : grown h h' -> leads h k -> leads h' k.
Proof.
  intros [Hl Hv] (lk & v & Hk & Hvar). destruct (Hv _ _ Hvar) as (v' & Hv' & _).
  exists lk, v'. rewrite Hl. split; assumption.
Qed.

Lemma holdsEqual_grown (h h' : Heap) (obj : positive) (vo vo' : Value) (k : positive) :
  grown h h' -> similar vo vo' -> leads h k ->
  holdsEqual h' obj vo' k = holdsEqual h obj vo k.
Proof.
  intros [Hl Hv] Hs (lk & v & Hk & Hvar). destruct (Hv _ _ Hvar) as (v' & Hv' & Hsv).
  unfold holdsEqual. rewrite Hl, Hk, Hvar, Hv'. apply similar_sameValue; assumption.
Qed.

Lemma existsb_grown (h h' : Heap) (obj : positive) (vo vo' : Value) (chain : list positive) :
  grown h h' -> similar vo vo' -> Forall (leads h) chain ->
  existsb (holdsEqual h' obj vo') chain = existsb (holdsEqual h obj vo) chain.
Proof.
  intros Hg Hs. induction 1 as [|k rest Hk _ IH]; [reflexivity|].
  cbn [existsb]. rewrite IH, (holdsEqual_grown h h' obj vo vo' k Hg Hs Hk). reflexivity.
Qed.

Lemma equalIndices_grown (h h' : Heap) (obj : positive) (vo vo' : Value)
      (chain : list positive) :
  grown h h' -> similar vo vo' -> Forall (leads h) chain ->
  equalIndices h' obj vo' chain = equalIndices h obj vo chain.
Proof.
  intros Hg Hs. induction 1 as [|k rest Hk _ IH]; [reflexivity|].
  cbn [equalIndices]. rewrite IH, (holdsEqual_grown h h' obj vo vo' k Hg Hs Hk).
  destruct Hg as [-> _]. reflexivity.
Qed.

Lemma Forall_leads_grown (h h' : Heap) (chain : list positive) :
  grown h h' -> Forall (leads h) chain -> Forall (leads h') chain.
Proof.
  intros Hg Hc. eapply List.Forall_impl; [|exact Hc]. intros k. apply leads_grown, Hg.
Qed.

(** The loop of [scArrayContains]: whether one of the children equals
    [obj]. *)
Lemma contains_loop_spec (obj : positive) (chain : list positive) :
  forall (h : Heap) (vo : Value),
    heap_wf h -> vars h !! obj = Some vo -> Forall (leads h) chain ->
    exists h',
      contains_loop chain obj h = (Ok (existsb (holdsEqual h obj vo) chain), h') /\
      grown h h' /\ heap_wf h'.
Proof.
  induction chain as [|k rest IH]; intros h vo Hwf Ho Hc.
  - exists h. split; [reflexivity|]. split; [apply grown_refl|exact Hwf].
  - inversion Hc as [|? ? Hk Hrest]; subst. destruct Hk as (lk & v & Hlk & Hv).
    destruct (equals_sameValue h (var lk) obj v vo Hwf Hv Ho) as (h1 & E & Hg & Hwf1).
    cbn [contains_loop existsb]. unfold bind at 1. rewrite (load_link_Some _ _ _ Hlk).
    unfold bind at 1. rewrite E.
    assert (holdsEqual h obj vo k = sameValue (var lk) obj v vo) as ->
      by (unfold holdsEqual; rewrite Hlk, Hv; reflexivity).
    destruct (sameValue (var lk) obj v vo).
    + exists h1. split; [reflexivity|]. split; assumption.
    + destruct Hg as [Hl Hvars]. destruct (Hvars _ _ Ho) as (vo1 & Ho1 & Hs).
      destruct (IH h1 vo1 Hwf1 Ho1 (Forall_leads_grown h h1 rest (conj Hl Hvars) Hrest))
        as (h' & E' & Hg' & Hwf').
      exists h'. split; [|split; [|exact Hwf']].
      * rewrite E'. cbn [orb].
        rewrite (existsb_grown h h1 obj vo vo1 rest (conj Hl Hvars) Hs Hrest). reflexivity.
      * eapply grown_trans; [exact (conj Hl Hvars)|exact Hg'].
Qed.

(** The first loop of [scArrayRemove]: the indices of the children that
    equal [obj]. *)
Lemma removed_loop_spec (obj : positive) (chain : list positive) :
  forall (h : Heap) (vo : Value),
    heap_wf h -> vars h !! obj = Some vo -> Forall (leads h) chain ->
    exists h',
      removed_loop chain obj h = (Ok (equalIndices h obj vo chain), h') /\
      grown h h' /\ heap_wf h'.
Proof.
  induction chain as [|k rest IH]; intros h vo Hwf Ho Hc.
  - exists h. split; [reflexivity|]. split; [apply grown_refl|exact Hwf].
  - inversion Hc as [|? ? Hk Hrest]; subst. destruct Hk as (lk & v & Hlk & Hv).
    destruct (equals_sameValue h (var lk) obj v vo Hwf Hv Ho) as (h1 & E & Hg & Hwf1).
    cbn [removed_loop equalIndices]. unfold bind at 1. rewrite (load_link_Some _ _ _ Hlk).
    unfold bind at 1. rewrite E. rewrite Hlk.
    assert (holdsEqual h obj vo k = sameValue (var lk) obj v vo) as ->
      by (unfold holdsEqual; rewrite Hlk, Hv; reflexivity).
    destruct Hg as [Hl Hvars]. destruct (Hvars _ _ Ho) as (vo1 & Ho1 & Hs).
    destruct (IH h1 vo1 Hwf1 Ho1 (Forall_leads_grown h h1 rest (conj Hl Hvars) Hrest))
      as (h' & E' & Hg' & Hwf').
    exists h'. split; [|split; [|exact Hwf']].
    + unfold bind. rewrite E'.
      rewrite (equalIndices_grown h h1 obj vo vo1 rest (conj Hl Hvars) Hs Hrest). reflexivity.
    + eapply grown_trans; [exact (conj Hl Hvars)|exact Hg'].
Qed.

(** The second loop of [scArrayRemove]: it renames the links of the
    chain and touches nothing else. *)
Lemma renumber_loop_spec (R : list Z) (chain : list positive) :
  forall h : Heap,
    List.NoDup chain -> valid_chain h chain ->
    exists h',
      renumber_loop chain R h = (Ok tt, h') /\
      vars h' = vars h /\ nextAddr h' = nextAddr h /\
      (forall k, ~ In k chain -> links h' !! k = links h !! k) /\
      (forall k lk, In k chain -> links h !! k = Some lk ->
                    links h' !! k = Some (renamed R lk)).
Proof.
  induction chain as [|k rest IH]; intros h Hnd Hc.
  - exists h. split; [reflexivity|]. split; [reflexivity|]. split; [reflexivity|].
    split; [reflexivity|]. intros k lk [].
  - inversion Hnd as [|? ? Hnotin Hnd']; subst.
    inversion Hc as [|? ? [lk Hlk] Hrest]; subst.
    set (h1 := if negb (renumbered R (getIntName lk) =? getIntName lk)
               then mkHeap (vars h)
                           (<[k := setIntName (renumbered R (getIntName lk)) lk]> (links h))
                           (nextAddr h)
               else h).
    assert (vars h1 = vars h /\ nextAddr h1 = nextAddr h /\
            links h1 !! k = Some (renamed R lk) /\
            forall k', k' <> k -> links h1 !! k' = links h !! k') as (Hv1 & Hn1 & Hk1 & Ho1).
    { unfold h1, renamed. destruct (renumbered R (getIntName lk) =? getIntName lk).
      - cbn [negb]. split; [reflexivity|]. split; [reflexivity|]. split; [exact Hlk|].
        intros k' _. reflexivity.
      - cbn [negb vars nextAddr links]. split; [reflexivity|]. split; [reflexivity|].
        split; [apply lookup_insert_eq|]. intros k' Hne. apply lookup_insert_ne. congruence. }
    assert (valid_chain h1 rest) as Hc1.
    { apply List.Forall_forall. intros k' Hin.
      rewrite Ho1 by (intros ->; contradiction).
      revert k' Hin. apply List.Forall_forall. exact Hrest. }
    destruct (IH h1 Hnd' Hc1) as (h' & E' & Hv' & Hn' & Hout & Hin).
    exists h'. split; [|split; [congruence|split; [congruence|split]]].
    + cbn [renumber_loop]. unfold bind at 1. rewrite (load_link_Some _ _ _ Hlk).
      cbv beta zeta. unfold bind at 1. clear -E'. subst h1.
      destruct (negb (renumbered R (getIntName lk) =? getIntName lk)); exact E'.
    + intros k' Hnot. rewrite Hout by (intros Hi; apply Hnot; right; exact Hi).
      apply Ho1. intros ->. apply Hnot. left. reflexivity.
    + intros k' lk' [<-|Hi] Hk'.
      * rewrite Hout by exact Hnotin. rewrite Hlk in Hk'. injection Hk' as <-. exact Hk1.
      * apply Hin; [exact Hi|]. rewrite Ho1 by (intros ->; contradiction). exact Hk'.
Qed.

(** [getParameter] of a name that the variable has as a child. *)
Lemma getParameter_found (h : Heap) (c : positive) (vc : Value) (nm : string)
      (k : positive) (lk : VariableLink) :
  vars h !! c = Some vc -> valid_chain h (children vc) ->
  firstNamed h nm (children vc) = Some k -> links h !! k = Some lk ->
  getParameter c nm h = (Ok (var lk), h).
Proof.
  intros Hc Hch Hk Hlk. unfold getParameter, findChildOrCreate, bind.
  rewrite (findChild_firstNamed h c vc nm Hc Hch), Hk. unfold ret.
  rewrite (load_link_Some _ _ _ Hlk). reflexivity.
Qed.

Lemma param_grown (h h' : Heap) (c : positive) (nm : string) (x : positive) :
  grown h h' -> param h c nm x -> param h' c nm x.
Proof.
  intros [Hl Hv] (vc & k & lk & Hc & Hch & Hk & Hlk & Hx).
  destruct (Hv _ _ Hc) as (vc' & Hc' & _ & Hchildren & _).
  exists vc', k, lk. rewrite Hchildren. split; [exact Hc'|].
  split; [unfold valid_chain; rewrite Hl; exact Hch|].
  split; [|rewrite Hl; split; assumption].
  rewrite <- Hk. apply firstNamed_agree, List.Forall_forall. intros k' _. rewrite Hl. reflexivity.
Qed.

Lemma getParameter_param (h : Heap) (c : positive) (nm : string) (x : positive) :
  param h c nm x -> getParameter c nm h = (Ok x, h).
Proof.
  intros (vc & k & lk & Hc & Hch & Hk & Hlk & <-).
  exact (getParameter_found h c vc nm k lk Hc Hch Hk Hlk).
Qed.

Lemma setInt_int (n : Z) (v : Value) :
  isInt (setInt n v) = true /\ intData (setInt n v) = to_int n /\
  children (setInt n v) = children v.
Proof.
  unfold isInt, hasFlag. cbn [flags setInt intData children].
  rewrite retag_flag by reflexivity. repeat split.
Qed.

(** X23.  [Array.contains(obj)].  In the scope of a call whose
    parameters [this] and [obj] and whose return variable exist, the
    native makes the return variable an integer: 1 when one of the
    children of [this] equals [obj] in the sense of [equals], whatever
    the name of that child, and 0 otherwise.  It changes no link, and of
    the other variables at most the text that a number keeps. *)
Theorem X23_scArrayContains (h : Heap) (c t o r : positive) (vt vo vr : Value) :
  heap_wf h ->
  param h c "this" t -> param h c "obj" o -> param h c TINYJS_RETURN_VAR r ->
  vars h !! t = Some vt -> Forall (leads h) (children vt) ->
  vars h !! o = Some vo -> vars h !! r = Some vr ->
  exists h' vr',
    scArrayContains c h = (Ok tt, h') /\
    vars h' !! r = Some vr' /\ isInt vr' = true /\
    intData vr' = (if existsb (holdsEqual h o vo) (children vt) then 1 else 0) /\
    children vr' = children vr /\
    links h' = links h /\
    (forall p v, p <> r -> vars h !! p = Some v ->
                 exists v', vars h' !! p = Some v' /\ similar v v').
Proof.
  intros Hwf Pt Po Pr Ht Hch Ho Hr.
  destruct (contains_loop_spec o (children vt) h vo Hwf Ho Hch) as (h1 & E1 & Hg & Hwf1).
  destruct (proj2 Hg _ _ Hr) as (vr1 & Hr1 & Hsr).
  set (b := existsb (holdsEqual h o vo) (children vt)) in *.
  exists (mkHeap (<[r := setInt (if b then 1 else 0) vr1]> (vars h1)) (links h1) (nextAddr h1)),
         (setInt (if b then 1 else 0) vr1).
  destruct (setInt_int (if b then 1 else 0) vr1) as (Hi & Hd & Hc).
  split; [|split; [apply lookup_insert_eq|split; [exact Hi|split; [|split; [|split]]]]].
  - unfold scArrayContains.
    unfold bind at 1. rewrite (getParameter_param h c "obj" o Po).
    unfold bind at 1. rewrite (getParameter_param h c "this" t Pt).
    unfold bind at 1. rewrite (load_Some _ _ _ Ht).
    unfold bind at 1. rewrite E1.
    unfold bind at 1, getReturnVar.
    rewrite (getParameter_param h1 c TINYJS_RETURN_VAR r (param_grown h h1 c _ r Hg Pr)).
    unfold bind. rewrite (load_Some _ _ _ Hr1). reflexivity.
  - rewrite Hd. destruct b; reflexivity.
  - rewrite Hc. apply Hsr.
  - exact (proj1 Hg).
  - intros p v Hne Hp. destruct (proj2 Hg _ _ Hp) as (v' & Hp' & Hs).
    exists v'. split; [|exact Hs]. cbn [vars]. rewrite lookup_insert_ne by congruence. exact Hp'.
Qed.

(** What holds of [heap_call]. *)
Lemma heap_call_scope :
  heap_wf heap_call /\
  param heap_call 1 "this" 2 /\ param heap_call 1 "obj" 6 /\
  param heap_call 1 TINYJS_RETURN_VAR 7 /\
  Forall (leads heap_call) [11; 12; 13]%positive /\ List.NoDup [11; 12; 13]%positive.
Proof.
  split; [apply heap_wfb_sound; vm_compute; reflexivity|].
  assert (valid_chain heap_call [8; 9; 10]%positive) as Hc
    by (repeat constructor; eexists; vm_compute; reflexivity).
  split; [|split; [|split; [|split]]].
  - eexists _, 8%positive, _. split; [vm_compute; reflexivity|]. split; [exact Hc|].
    split; [vm_compute; reflexivity|]. split; [vm_compute; reflexivity|reflexivity].
  - eexists _, 9%positive, _. split; [vm_compute; reflexivity|]. split; [exact Hc|].
    split; [vm_compute; reflexivity|]. split; [vm_compute; reflexivity|reflexivity].
  - eexists _, 10%positive, _. split; [vm_compute; reflexivity|]. split; [exact Hc|].
    split; [vm_compute; reflexivity|]. split; [vm_compute; reflexivity|reflexivity].
  - repeat constructor; eexists _, _; split; vm_compute; reflexivity.
  - constructor; [simpl; intros [H|[H|[]]]; discriminate|].
    constructor; [simpl; intros [H|[]]; discriminate|].
    constructor; [intros []|constructor].
Qed.

(** X23 on the call [[10, 20, 30].contains(20)]: the answer is 1. *)
Lemma X23_scArrayContains_sample :
  exists h' vr',
    scArrayContains 1 heap_call = (Ok tt, h') /\
    vars h' !! 7%positive = Some vr' /\ isInt vr' = true /\ intData vr' = 1.
Proof.
  destruct heap_call_scope as (Hwf & Pt & Po & Pr & Hl & _).
  destruct (X23_scArrayContains heap_call 1 2 6 7
              (set_children [11; 12; 13]%positive
                 (Variable_data TINYJS_BLANK_DATA VARIABLE_ARRAY))
              (Variable_int 20) Variable_undefined Hwf Pt Po Pr eq_refl Hl eq_refl eq_refl)
    as (h' & vr' & E & Hr & Hi & Hd & _).
  exists h', vr'. split; [exact E|]. split; [exact Hr|]. split; [exact Hi|].
  rewrite Hd. vm_compute. reflexivity.
Defined.

(** The renamed link leads where the link led. *)
Lemma renamed_var (R : list Z) (lk : VariableLink) :
  var (renamed R lk) = var lk /\ owned (renamed R lk) = owned lk.
Proof.
  unfold renamed. destruct (renumbered R (getIntName lk) =? getIntName lk); split; reflexivity.
Qed.

(** X24.  [Array.remove(obj)] removes nothing.  In the scope of a call
    whose parameters [this] and [obj] exist, the native takes no child
    out of the array: every variable keeps its children, so the array
    has as many as before, and every link leads where it led.  It only
    renames the children of [this]: the index of each, read off its name,
    is decreased by the number of children that equal [obj] and whose
    index is not above it, the children that equal [obj] included.  So
    [Array.contains(obj)] answers after the call what it answered
    before. *)
Theorem X24_scArrayRemove (h : Heap) (c t o : positive) (vt vo : Value) :
  heap_wf h ->
  param h c "this" t -> param h c "obj" o ->
  vars h !! t = Some vt -> Forall (leads h) (children vt) -> List.NoDup (children vt) ->
  vars h !! o = Some vo ->
  exists h',
    scArrayRemove c h = (Ok tt, h') /\
    (forall p v, vars h !! p = Some v -> exists v', vars h' !! p = Some v' /\ similar v v') /\
    (forall k, ~ In k (children vt) -> links h' !! k = links h !! k) /\
    (forall k lk, In k (children vt) -> links h !! k = Some lk ->
       links h' !! k = Some (renamed (equalIndices h o vo (children vt)) lk) /\
       var (renamed (equalIndices h o vo (children vt)) lk) = var lk /\
       owned (renamed (equalIndices h o vo (children vt)) lk) = owned lk) /\
    (forall vo', vars h' !! o = Some vo' ->
       existsb (holdsEqual h' o vo') (children vt)
         = existsb (holdsEqual h o vo) (children vt)).
Proof.
  intros Hwf Pt Po Ht Hch Hnd Ho.
  destruct (removed_loop_spec o (children vt) h vo Hwf Ho Hch) as (h1 & E1 & Hg & Hwf1).
  set (R := equalIndices h o vo (children vt)) in *.
  destruct (proj2 Hg _ _ Ht) as (vt1 & Ht1 & _ & Hct & _).
  assert (valid_chain h1 (children vt)) as Hv1.
  { eapply List.Forall_impl; [|exact Hch]. intros k (lk & v & Hk & _).
    rewrite (proj1 Hg). exists lk. exact Hk. }
  destruct (renumber_loop_spec R (children vt) h1 Hnd Hv1) as (h' & E' & Hvars & Hn & Hout & Hin).
  exists h'. split; [|split; [|split; [|split]]].
  - unfold scArrayRemove.
    unfold bind at 1. rewrite (getParameter_param h c "obj" o Po).
    unfold bind at 1. rewrite (getParameter_param h c "this" t Pt).
    unfold bind at 1. rewrite (load_Some _ _ _ Ht).
    unfold bind at 1. rewrite E1.
    unfold bind at 1. rewrite (getParameter_param h1 c "this" t (param_grown h h1 c _ t Hg Pt)).
    unfold bind. rewrite (load_Some _ _ _ Ht1), Hct. exact E'.
  - intros p v Hp. rewrite Hvars. exact (proj2 Hg p v Hp).
  - intros k Hk. rewrite (Hout k Hk), (proj1 Hg). reflexivity.
  - intros k lk Hk Hlk. split; [|apply renamed_var].
    apply Hin; [exact Hk|]. rewrite (proj1 Hg). exact Hlk.
  - intros vo' Ho'.
    destruct (proj2 Hg _ _ Ho) as (vo1 & Ho1 & Hso). rewrite Hvars, Ho1 in Ho'.
    injection Ho' as <-.
    assert (forall k, In k (children vt) -> holdsEqual h' o vo1 k = holdsEqual h o vo k) as Hsame.
    { intros k Hk. pose proof (proj1 (List.Forall_forall _ _) Hch k Hk) as (lk & v & Hlk & Hv).
      destruct (proj2 Hg _ _ Hv) as (v1 & Hv1' & Hsv).
      unfold holdsEqual. rewrite (Hin k lk Hk) by (rewrite (proj1 Hg); exact Hlk).
      rewrite (proj1 (renamed_var R lk)), Hvars, Hv1', Hlk, Hv.
      apply similar_sameValue; assumption. }
    clear -Hsame. induction (children vt) as [|k rest IH]; [reflexivity|].
    cbn [existsb]. rewrite (Hsame k (or_introl eq_refl)), IH; [reflexivity|].
    intros k' Hk'. apply Hsame. right. exact Hk'.
Qed.

(** X24 on the call [[10, 20, 30].remove(20)]: the array still has three
    children, now named 0, 0 and 1, and the second of them is still the
    integer 20. *)
Lemma X24_scArrayRemove_sample :
  exists h' vt',
    scArrayRemove 1 heap_call = (Ok tt, h') /\
    vars h' !! 2%positive = Some vt' /\ children vt' = [11; 12; 13]%positive /\
    links h' !! 11%positive = Some (mkLink "0" 3%positive true) /\
    links h' !! 12%positive = Some (mkLink "0" 4%positive true) /\
    links h' !! 13%positive = Some (mkLink "1" 5%positive true).
Proof.
  destruct heap_call_scope as (Hwf & Pt & Po & _ & Hl & Hnd).
  destruct (X24_scArrayRemove heap_call 1 2 6
              (set_children [11; 12; 13]%positive
                 (Variable_data TINYJS_BLANK_DATA VARIABLE_ARRAY))
              (Variable_int 20) Hwf Pt Po eq_refl Hl Hnd eq_refl)
    as (h' & E & Hv & _ & Hin & _).
  destruct (Hv 2%positive _ eq_refl) as (vt' & Ht' & _ & Hc & _).
  exists h', vt'. split; [exact E|]. split; [exact Ht'|]. split; [exact Hc|].
  split; [|split].
  - apply (Hin 11%positive (mkLink "0" 3%positive true)); [simpl; tauto|reflexivity].
  - apply (Hin 12%positive (mkLink "1" 4%positive true)); [simpl; tauto|reflexivity].
  - apply (Hin 13%positive (mkLink "2" 5%positive true)); [simpl; tauto|reflexivity].
Defined.

(* ------------------------------------------------------------------ *)
(** ** The assignment to a global *)

Lemma alpha_plain (c : ascii) :
  isAlpha c = true ->
  nonzero c && isWhitespace c = false /\ Ascii.eqb c "/" = false /\ Ascii.eqb c NUL = false.
Proof.
  destruct c as [[] [] [] [] [] [] [] []]; try discriminate; intros _;
    repeat (split; [reflexivity|]); reflexivity.
Qed.

Lemma alnum_plain (c : ascii) : isAlnum c = true -> Ascii.eqb c NUL = false.
Proof. destruct c as [[] [] [] [] [] [] [] []]; try discriminate; reflexivity. Qed.

(** The loop over the characters of an identifier. *)
Lemma alnum_loop (s : string) :
  allAlnum s = true ->
  forall (n : nat) (l : Lexer) (t : list ascii),
    (String.length s < n)%nat ->
    reads l (list_ascii_of_string s ++ t) -> isAlnum (nth 0 t NUL) = false ->
    let l' := lex_while n (fun l => isAlpha (currCh l) || isNumericCh (currCh l))
                        (fun l => getNextCh (addCh (currCh l) l)) l in
    tkStr l' = tkStr l ++ s /\ reads l' t /\ tk l' = tk l /\
    dataEnd l' = dataEnd l /\ dataPos l' = dataPos l + Z.of_nat (String.length s) /\
    tokenStart l' = tokenStart l.
Proof.
  induction s as [|c r IH]; intros Hs n l t Hn Hr Ht.
  - cbn [list_ascii_of_string app] in Hr. cbv zeta. rewrite lex_while_done.
    + split; [symmetry; apply append_nil_r|]. split; [exact Hr|].
      cbn [String.length]. repeat split. lia.
    + destruct Hr as (Hc & _). rewrite Hc. exact Ht.
  - simpl in Hs. apply andb_prop in Hs. destruct Hs as [Hc Hrest].
    destruct n as [|n]; [simpl in Hn; lia|].
    cbn [list_ascii_of_string app] in Hr. pose proof (reads_currCh _ _ _ Hr) as Hcur.
    cbv zeta. cbn [lex_while]. rewrite Hcur. unfold isAlnum in Hc. rewrite Hc.
    destruct (IH Hrest n (getNextCh (addCh c l)) t) as (Hstr & Hend & Htk & He & Hp & Hts).
    + simpl in Hn. lia.
    + apply (reads_next (addCh c l) c). exact Hr.
    + exact Ht.
    + split; [|split; [exact Hend|split; [exact Htk|split; [exact He|split; [|exact Hts]]]]].
      * rewrite Hstr. change (tkStr (getNextCh (addCh c l))) with (push_back (tkStr l) c).
        unfold push_back, str1. rewrite append_assoc. reflexivity.
      * rewrite Hp. cbn [dataPos getNextCh addCh set_tkStr String.length]. lia.
Qed.

(** [getNextToken] before an identifier that a character follows which
    cannot go on it. *)
Lemma getNextToken_ident (c : ascii) (r : string) (l : Lexer) (t : list ascii) :
  isAlpha c = true -> allAlnum r = true ->
  reads l (list_ascii_of_string (String c r) ++ t) -> isAlnum (nth 0 t NUL) = false ->
  Z.of_nat (String.length r) <= dataEnd l - dataPos l + 1 ->
  tk (getNextToken l) = reservedWord (String c r) /\
  tkStr (getNextToken l) = String c r /\
  reads (getNextToken l) t /\
  dataEnd (getNextToken l) = dataEnd l /\
  dataPos (getNextToken l) = dataPos l + Z.of_nat (String.length (String c r)).
Proof.
  intros Hc Hr Hreads Ht Hlen.
  destruct (alpha_plain c Hc) as (Hws & Hsl & _).
  assert (currCh l = c) as Hcur by exact (reads_currCh _ _ _ Hreads).
  unfold getNextToken.
  rewrite getNextToken_rec_token by (rewrite Hcur; assumption).
  set (l3 := set_tkStr EmptyString (set_tk LEXER_EOF l)).
  set (l4 := set_tokenStart (dataPos l3 - 2) l3).
  assert (allAlnum (String c r) = true) as Hall
    by (cbn [allAlnum]; unfold isAlnum; rewrite Hc, Hr; reflexivity).
  destruct (alnum_loop (String c r) Hall (lexFuel l4) l4 t) as (Hstr & Hend & Htk & He & Hp & _).
  - unfold lexFuel, l4, l3. cbn [dataEnd dataPos set_tokenStart set_tkStr set_tk String.length].
    lia.
  - exact Hreads.
  - exact Ht.
  - unfold scanToken. cbn [currCh set_tokenStart]. change (currCh l3) with (currCh l).
    rewrite Hcur, Hc. cbv iota zeta. unfold while_ch. fold l4.
    cbn [tk tkStr currCh nextCh dataEnd dataPos set_tk].
    rewrite Hstr. split; [reflexivity|]. split; [reflexivity|].
    split; [|split; [exact He|exact Hp]].
    destruct Hend as (H1 & H2 & H3). split; [exact H1|]. split; [exact H2|exact H3].
Qed.

(** [getNextToken] before an equals sign that a digit follows: the token
    is the sign, and the lexer stands before the digit. *)
Lemma getNextToken_assign (c : ascii) (t : list ascii) (l : Lexer) :
  isNumericCh c = true ->
  reads l ("="%char :: c :: t) ->
  tk (getNextToken l) = tok "=" /\
  reads (getNextToken l) (c :: t) /\
  dataEnd (getNextToken l) = dataEnd l /\ dataPos (getNextToken l) = dataPos l + 1.
Proof.
  intros Ec Hr.
  assert (Ascii.eqb c "=" = false) as Heq
    by (revert Ec; clear; destruct c as [[] [] [] [] [] [] [] []]; try discriminate; reflexivity).
  assert (currCh l = "="%char) as Hc by exact (reads_currCh _ _ _ Hr).
  pose proof (reads_next _ _ _ Hr) as Hr1.
  assert (nextCh l = c) as Hn by exact (reads_currCh _ _ _ Hr1).
  unfold getNextToken.
  rewrite getNextToken_rec_token by (rewrite Hc; reflexivity).
  set (l3 := set_tkStr EmptyString (set_tk LEXER_EOF l)).
  assert (scanToken l3
          = let p := getNextCh (set_tk (tok "=") (set_tokenStart (dataPos l3 - 2) l3)) in
            mkLexer (currCh p) (nextCh p) (tk p) (tokenStart p) (dataPos p - 3) (tokenEnd p)
                    (tkStr p) (data p) (dataStart p) (dataEnd p) (dataOwned p) (dataPos p)) as ->.
  { unfold scanToken. cbn [currCh set_tokenStart]. change (currCh l3) with (currCh l).
    rewrite Hc. change (isAlpha "=") with false. change (isNumericCh "=") with false.
    change (Ascii.eqb "=" dquote) with false. change (Ascii.eqb "=" squote) with false.
    cbv iota. unfold scanPunctuation. cbn [currCh set_tokenStart set_tk].
    change (currCh l3) with (currCh l). rewrite Hc.
    change (nonzero "=") with true. cbv iota.
    unfold sees. cbn [tk currCh getNextCh set_tk set_tokenStart].
    change (nextCh (set_tk (int_of_char "=") (set_tokenStart (dataPos l3 - 2) l3)))
      with (nextCh l).
    rewrite Hn, Heq.
    change (int_of_char "=") with 61. reflexivity. }
  cbv zeta. cbn [tk dataEnd dataPos getNextCh set_tk set_tokenStart].
  split; [reflexivity|]. split; [|split; reflexivity].
  exact Hr1.
Qed.

Lemma c_str_alnum (s : string) : allAlnum s = true -> c_str s = s.
Proof.
  induction s as [|c r IH]; [reflexivity|]. simpl. intros Hs.
  apply andb_prop in Hs. destruct Hs as [Hc Hr]. rewrite (alnum_plain c Hc), (IH Hr).
  reflexivity.
Qed.

(** The script [nm=digits], as the lexer reads it: the identifier, the
    equals sign, the integer, and the end of the text. *)
Lemma assignment_lexed (c : ascii) (r : string) (d : ascii) (ds : string) :
  isAlpha c = true -> allAlnum r = true -> isNumber (String d ds) = true ->
  let lx := Lexer_new (String c r ++ "=" ++ String d ds) in
  tk lx = reservedWord (String c r) /\ tkStr lx = String c r /\
  tk (getNextToken lx) = tok "=" /\
  tk (getNextToken (getNextToken lx)) = LEXER_INT /\
  tkStr (getNextToken (getNextToken lx)) = String d ds /\
  currCh (getNextToken (getNextToken lx)) = NUL.
Proof.
  intros Hc Hr Hd lx. pose proof Hd as Hd'. simpl in Hd'.
  destruct (isNumericCh d) eqn:Ed; [|discriminate].
  assert (allAlnum (String c r) = true) as Hall
    by (cbn [allAlnum]; unfold isAlnum; rewrite Hc, Hr; reflexivity).
  set (code := String c r ++ "=" ++ String d ds) in *.
  assert (c_str code = code) as Ecode.
  { unfold code. rewrite (c_str_app _ _ (c_str_alnum _ Hall)).
    change (c_str ("=" ++ String d ds)) with (String "=" (c_str (String d ds))).
    rewrite (c_str_digits _ Hd). reflexivity. }
  assert (list_ascii_of_string code
          = (list_ascii_of_string (String c r)
             ++ "="%char :: list_ascii_of_string (String d ds))%list) as Echars.
  { unfold code. rewrite list_ascii_app. reflexivity. }
  assert (String.length code = (String.length (String c r) + (2 + String.length ds))%nat) as Elen.
  { unfold code. rewrite length_append. reflexivity. }
  unfold lx, Lexer_new. rewrite Ecode. unfold reset.
  cbn [currCh nextCh data dataStart dataEnd dataOwned].
  set (l1 := mkLexer NUL NUL 0 0 0 0 EmptyString code 0 (Z.of_nat (String.length code)) true 0).
  pose proof (reads_start l1 code eq_refl eq_refl eq_refl) as Hreads. rewrite Echars in Hreads.
  set (l2 := getNextCh (getNextCh l1)) in *.
  destruct (getNextToken_ident c r l2 _ Hc Hr Hreads eq_refl) as (Htk & Hstr & Hr1 & He1 & Hp1).
  { unfold l2, l1, getNextCh. cbn [dataEnd dataPos]. rewrite Elen. cbn [String.length]. lia. }
  split; [exact Htk|]. split; [exact Hstr|].
  cbn [list_ascii_of_string] in Hr1.
  destruct (getNextToken_assign d _ _ Ed Hr1) as (Htk2 & Hr2 & He2 & Hp2).
  split; [exact Htk2|].
  apply (getNextToken_digits d ds _ Hd Hr2).
  rewrite He2, Hp2, He1, Hp1. unfold l2, l1, getNextCh. cbn [dataEnd dataPos].
  rewrite Elen. cbn [String.length]. lia.
Qed.

Section Assignment.

Variable native :
  (string -> M unit) -> (string -> M VariableLink) -> N -> positive -> N -> M unit.

Lemma factor_ident_eq (n : nat) (e : bool) :
  exists F : Z -> M (option positive * bool),
    factor native (S n) e = (let* t := getTk in F t) /\
    F LEXER_ID =
      (let* s := getTkStr in
       let* a :=
         if e then findInScopes s
         else
           let* v := liftH (alloc Variable_undefined) in
           let* a := liftH (new_VariableLink v TINYJS_TEMP_NAME) in
           ret (Some a) in
       let* a :=
         match a with
         | None =>
             if e then
               let* v := liftH (alloc Variable_undefined) in
               let* a := liftH (new_VariableLink v s) in
               ret (Some a)
             else ret a
         | Some _ => ret a
         end in
       let* _ := matchTk LEXER_ID in
       factor_member native n e a None).
Proof. eexists (fun t => _). split; reflexivity. Qed.

Lemma factor_member_eq (n : nat) (e : bool) (a p : option positive) :
  exists K1 K2 K3 : M (option positive * bool),
    factor_member native (S n) e a p =
      (let* t := getTk in
       if t =? tok "(" then K1
       else if t =? tok "." then K2
       else if t =? tok "[" then K3
       else ret (a, e)).
Proof. eexists _, _, _. reflexivity. Qed.

(** [base], with the code of the assignment. *)
Lemma base_assign_eq (n : nat) (e : bool) :
  base native (S n) e =
    (let* (lhs, execute) := ternary native n e in
     let* t := getTk in
     if (t =? tok "=") || (t =? LEXER_PLUSEQUAL) || (t =? LEXER_MINUSEQUAL) then
       let* lhs :=
         if execute then
           let* lk := deref lhs in
           let* c := liftH (load_link lk) in
           if negb (owned c) then
             if 0 <? Z.of_nat (String.length (name c)) then
               let* r := getRoot in
               let* realLhs := liftH (addChildNoDup r (name c) (Some (var c))) in
               ret (Some realLhs)
             else ret lhs
           else ret lhs
         else ret lhs in
       let op := t in
       let* _ := matchTk t in
       let* (rhs, execute) := base native n execute in
       let* _ :=
         if execute then
           let* lk := deref lhs in
           if op =? tok "=" then liftH (replaceWith_link lk rhs)
           else if op =? LEXER_PLUSEQUAL then
             let* lv := linkVar lhs in
             let* rv := linkVar rhs in
             let* res := liftH (mathsOp lv rv (tok "+")) in
             liftH (replaceWith lk res)
           else if op =? LEXER_MINUSEQUAL then
             let* lv := linkVar lhs in
             let* rv := linkVar rhs in
             let* res := liftH (mathsOp lv rv (tok "-")) in
             liftH (replaceWith lk res)
           else crash AssertFailed
         else ret tt in
       ret (lhs, execute)
     else ret (lhs, execute)).
Proof. reflexivity. Qed.

(** A factor that the equals sign follows: [ternary] returns what
    [factor] returns. *)
Lemma ternary_before_assign (n : nat) (e e' : bool) (a : option positive)
      (st st1 : Interp) (lx lx1 : Lexer) :
  l st = Some lx -> (tk lx =? tok "-") = false -> (tk lx =? tok "!") = false ->
  factor native n e st = (Ok (a, e'), st1) ->
  l st1 = Some lx1 -> tk lx1 = tok "=" ->
  ternary native (7 + n) e st = (Ok (a, e'), st1).
Proof.
  intros Hl Hminus Hbang Hfactor Hl1 Heq.
  pose proof (getTk_eq st lx Hl) as Htk.
  pose proof (getTk_eq st1 lx1 Hl1) as Htk1. rewrite Heq in Htk1.
  change (7 + n)%nat with (S (S (S (S (S (S (S n))))))).
  assert (unary native (S n) e st = (Ok (a, e'), st1)) as Hunary.
  { destruct (unary_eq native n e) as [K ->]. unfold bind. rewrite Htk, Hbang. exact Hfactor. }
  assert (term native (S (S n)) e st = (Ok (a, e'), st1)) as Hterm.
  { rewrite term_eq. unfold bind at 1. rewrite Hunary.
    destruct (term_loop_eq native n e' a) as [K ->]. unfold bind. rewrite Htk1. reflexivity. }
  assert (expression native (S (S (S n))) e st = (Ok (a, e'), st1)) as Hexpr.
  { destruct (expression_eq native (S (S n)) e) as [K ->].
    unfold bind at 1. rewrite Htk, Hminus. unfold bind at 1, ret at 1.
    unfold bind at 1. rewrite Hterm. unfold bind at 1, ret at 1.
    rewrite expression_loop_eq. unfold bind. rewrite Htk1. reflexivity. }
  assert (shift native (S (S (S (S n)))) e st = (Ok (a, e'), st1)) as Hshift.
  { destruct (shift_eq native (S (S (S n))) e) as [K ->].
    unfold bind at 1. rewrite Hexpr. unfold bind. rewrite Htk1. reflexivity. }
  assert (condition native (S (S (S (S (S n))))) e st = (Ok (a, e'), st1)) as Hcond.
  { rewrite condition_eq. unfold bind at 1. rewrite Hshift.
    destruct (condition_loop_eq native (S (S (S n))) e' a) as [K ->].
    unfold bind. rewrite Htk1. reflexivity. }
  assert (logic native (S (S (S (S (S (S n)))))) e st = (Ok (a, e'), st1)) as Hlogic.
  { rewrite logic_eq. unfold bind at 1. rewrite Hcond.
    destruct (logic_loop_eq native (S (S (S (S n)))) e' a) as [K ->].
    unfold bind. rewrite Htk1. reflexivity. }
  destruct (ternary_eq native (S (S (S (S (S (S n)))))) e) as [K ->].
  unfold bind at 1. rewrite Hlogic. unfold bind. rewrite Htk1. reflexivity.
Qed.

(** [findInScopes] when the stack holds one scope. *)
Lemma findInScopes_single (st : Interp) (s : positive) (vs : Value) (nm : string) :
  scopes st = [s] -> vars (heap st) !! s = Some vs -> valid_chain (heap st) (children vs) ->
  findInScopes nm st = (Ok (firstNamed (heap st) nm (children vs)), st).
Proof.
  intros Hs Hv Hc. unfold findInScopes, bind at 1, getScopes. rewrite Hs.
  cbn [rev app findInScopes_from]. unfold liftH, bind.
  rewrite (findChild_firstNamed (heap st) s vs nm Hv Hc).
  destruct (firstNamed (heap st) nm (children vs)); unfold ret; rewrite set_heap_same;
    reflexivity.
Qed.

End Assignment.

Section AssignGlobal.

Variable native :
  (string -> M unit) -> (string -> M VariableLink) -> N -> positive -> N -> M unit.

(** [factor] on an identifier that neither a call nor a member follows,
    when the stack holds one scope: the child of that name, or a new
    undefined variable behind a link of that name which nothing owns. *)
Lemma factor_ident (n : nat) (st : Interp) (lx : Lexer) (s : positive) (vs : Value) :
  l st = Some lx -> tk lx = LEXER_ID ->
  tk (getNextToken lx) = tok "=" \/ tk (getNextToken lx) = LEXER_EOF ->
  scopes st = [s] -> vars (heap st) !! s = Some vs -> valid_chain (heap st) (children vs) ->
  factor native (S (S n)) true st =
    match firstNamed (heap st) (tkStr lx) (children vs) with
    | Some k => (Ok (Some k, true), set_l (Some (getNextToken lx)) st)
    | None => (Ok (Some (Pos.succ (nextAddr (heap st))), true), afterUndeclared st lx)
    end.
Proof.
  intros Hl Htk Hnext Hs Hv Hc.
  destruct (factor_ident_eq native (S n) true) as (F & -> & HF).
  unfold bind at 1. rewrite (getTk_eq st lx Hl), Htk, HF.
  unfold bind at 1. rewrite (getTkStr_eq st lx Hl).
  unfold bind at 1. rewrite (findInScopes_single st s vs (tkStr lx) Hs Hv Hc).
  destruct (firstNamed (heap st) (tkStr lx) (children vs)) as [k|].
  - unfold bind at 1, ret at 1. unfold bind at 1.
    rewrite (matchTk_eq st lx LEXER_ID Hl Htk).
    destruct (factor_member_eq native n true (Some k) None) as (K1' & K2' & K3' & ->).
    unfold bind.
    rewrite (getTk_eq (set_l (Some (getNextToken lx)) st) (getNextToken lx) eq_refl).
    destruct Hnext as [-> | ->]; reflexivity.
  - unfold bind at 1. unfold bind at 1, liftH at 1, alloc at 1.
    unfold bind at 1, liftH at 1, new_VariableLink, alloc_link. cbn [heap set_heap nextAddr].
    unfold ret at 1. unfold bind at 1.
    erewrite matchTk_eq; [|cbn [l set_heap]; exact Hl|exact Htk].
    destruct (factor_member_eq native n true
                (Some (Pos.succ (nextAddr (heap st)))) None) as (K1' & K2' & K3' & ->).
    unfold bind. erewrite getTk_eq; [|reflexivity]. cbn [tk].
    destruct Hnext as [-> | ->]; reflexivity.
Qed.

(** The assignment of an integer literal that ends the text: once the
    left side is resolved to the link [k], a new integer is made for the
    literal and the link is redirected to it. *)
Lemma base_assign_int (m : nat) (st0 st1 st1' : Interp) (lx1 : Lexer)
      (ka k : positive) (lkk : VariableLink) :
  ternary native (8 + S m) true st0 = (Ok (Some ka, true), st1) ->
  l st1 = Some lx1 -> tk lx1 = tok "=" ->
  tk (getNextToken lx1) = LEXER_INT -> currCh (getNextToken lx1) = NUL ->
  (let* lk := deref (Some ka) in
   let* c := liftH (load_link lk) in
   if negb (owned c) then
     if 0 <? Z.of_nat (String.length (name c)) then
       let* r := getRoot in
       let* realLhs := liftH (addChildNoDup r (name c) (Some (var c))) in
       ret (Some realLhs)
     else ret (Some ka)
   else ret (Some ka)) st1 = (Ok (Some k), st1') ->
  l st1' = Some lx1 ->
  links (heap st1') !! k = Some lkk -> k <> Pos.succ (nextAddr (heap st1')) ->
  base native (S (8 + S m)) true st0
    = (Ok (Some k, true),
       set_heap
         (mkHeap (<[nextAddr (heap st1')
                    := Variable_data (tkStr (getNextToken lx1)) VARIABLE_INTEGER]>
                    (vars (heap st1')))
                 (<[k := mkLink (name lkk) (nextAddr (heap st1')) (owned lkk)]>
                    (<[Pos.succ (nextAddr (heap st1'))
                       := mkLink TINYJS_TEMP_NAME (nextAddr (heap st1')) false]>
                       (links (heap st1'))))
                 (Pos.succ (Pos.succ (nextAddr (heap st1')))))
         (set_l (Some (getNextToken (getNextToken lx1))) st1')).
Proof.
  intros Hternary Hl1 Htk1 Hint Hend Hlhs Hl1' Hk Hfresh.
  set (lx2 := getNextToken lx1) in *.
  rewrite base_assign_eq. unfold bind at 1. rewrite Hternary.
  unfold bind at 1. rewrite (getTk_eq st1 lx1 Hl1), Htk1.
  change ((tok "=" =? tok "=") || (tok "=" =? LEXER_PLUSEQUAL) || (tok "=" =? LEXER_MINUSEQUAL))
    with true. cbv iota.
  unfold bind at 1. rewrite Hlhs. cbv zeta.
  unfold bind at 1. rewrite (matchTk_eq st1' lx1 (tok "=") Hl1' Htk1). fold lx2.
  set (st2 := set_l (Some lx2) st1').
  assert (base native (8 + S m) true st2
          = (Ok (Some (Pos.succ (nextAddr (heap st1'))), true),
             afterLiteral st2 lx2 (Variable_data (tkStr lx2) VARIABLE_INTEGER))) as Hrhs.
  { apply (base_single_factor native (S m) true true _ st2 _ lx2 (getNextToken lx2) eq_refl).
    - rewrite Hint. reflexivity.
    - rewrite Hint. reflexivity.
    - apply (factor_int native m true st2 lx2 eq_refl Hint).
    - reflexivity.
    - apply getNextToken_at_end, Hend. }
  unfold bind at 1. rewrite Hrhs.
  unfold bind at 1, deref, ret at 1.
  change (tok "=" =? tok "=") with true. cbv iota.
  set (st3 := afterLiteral st2 lx2 (Variable_data (tkStr lx2) VARIABLE_INTEGER)).
  assert (replaceWith_link k (Some (Pos.succ (nextAddr (heap st1')))) (heap st3)
          = (Ok tt,
             mkHeap (vars (heap st3))
                    (<[k := mkLink (name lkk) (nextAddr (heap st1')) (owned lkk)]>
                       (links (heap st3)))
                    (nextAddr (heap st3)))) as Hrw.
  { unfold replaceWith_link, bind at 1, load_link at 1.
    unfold st3 at 1. cbn [heap afterLiteral links].
    change (nextAddr (heap st2)) with (nextAddr (heap st1')). rewrite lookup_insert_eq.
    cbn [var]. unfold replaceWith, bind, load_link.
    unfold st3 at 1. cbn [heap afterLiteral links].
    change (nextAddr (heap st2)) with (nextAddr (heap st1')).
    rewrite lookup_insert_ne by congruence.
    change (links (heap st2)) with (links (heap st1')). rewrite Hk. reflexivity. }
  unfold liftH at 1, bind at 1. rewrite Hrw. reflexivity.
Qed.

End AssignGlobal.

Lemma alnum_dotless (s : string) : allAlnum s = true -> dotless s = true.
Proof.
  induction s as [|c r IH]; [reflexivity|]. simpl. intros Hs.
  apply andb_prop in Hs. destruct Hs as [Hc Hr]. rewrite (IH Hr), andb_true_r.
  revert Hc. clear. destruct c as [[] [] [] [] [] [] [] []]; try discriminate; reflexivity.
Qed.

Lemma identifier_parts (nm : string) :
  identifier nm = true ->
  exists c r, nm = String c r /\ isAlpha c = true /\ allAlnum r = true /\
              reservedWord nm = LEXER_ID /\ dotless nm = true.
Proof.
  destruct nm as [|c r]; [discriminate|]. unfold identifier. intros H.
  apply andb_prop in H. destruct H as [H Hw]. apply andb_prop in H. destruct H as [Hc Hr].
  exists c, r. split; [reflexivity|]. split; [exact Hc|]. split; [exact Hr|].
  split; [apply Z.eqb_eq, Hw|].
  apply (alnum_dotless (String c r)). cbn [allAlnum]. unfold isAlnum. rewrite Hc, Hr.
  reflexivity.
Qed.

Lemma itoa_digits (z : Z) :
  0 <= z -> exists d ds, itoa z = String d ds /\ isNumber (String d ds) = true.
Proof.
  intros Hz. destruct z as [|p|p]; [eexists _, _; split; reflexivity| |lia].
  destruct (decimal_head p) as (c & r & E & Hd & _). eauto.
Qed.

(** The heap after the integer [v] has been made and the link [k]
    redirected to it, and after [getString] has been called on it. *)
Lemma assigned_lookup (h : Heap) (r k : positive) (vr v : Value) (lkk : VariableLink)
      (nm : string) :
  heap_wf h -> vars h !! r = Some vr -> valid_chain h (children vr) ->
  firstNamed h nm (children vr) = Some k -> links h !! k = Some lkk ->
  isInt v = true ->
  let h4 := mkHeap (<[nextAddr h := v]> (vars h))
                   (<[k := mkLink (name lkk) (nextAddr h) (owned lkk)]>
                      (<[Pos.succ (nextAddr h) := mkLink TINYJS_TEMP_NAME (nextAddr h) false]>
                         (links h)))
                   (Pos.succ (Pos.succ (nextAddr h))) in
  let hf := printed h4 (nextAddr h) v in
  vars hf !! r = Some vr /\ valid_chain hf (children vr) /\
  firstNamed hf nm (children vr) = Some k /\
  links hf !! k = Some (mkLink (name lkk) (nextAddr h) (owned lkk)) /\
  vars hf !! nextAddr h = Some (set_stringData (textOf v) v) /\
  (forall nm', firstNamed hf nm' (children vr) = firstNamed h nm' (children vr)) /\
  (forall p w, vars h !! p = Some w -> vars hf !! p = Some w).
Proof.
  intros Hwf Hr Hc Hk Hlk Hint h4 hf.
  assert (hf = mkHeap (<[nextAddr h := set_stringData (textOf v) v]> (vars h4))
                      (links h4) (nextAddr h4)) as Ehf
    by (unfold hf, printed; rewrite Hint; reflexivity).
  assert (forall p w, vars h !! p = Some w -> vars hf !! p = Some w) as Hold.
  { intros p w Hp. pose proof (allocated_var _ _ _ Hwf Hp). rewrite Ehf. unfold h4.
    cbn [vars]. rewrite !lookup_insert_ne by lia. exact Hp. }
  assert (Forall (fun x => option_map name (links hf !! x) = option_map name (links h !! x))
                 (children vr)) as Hnames.
  { pose proof (valid_chain_allocated h _ Hwf Hc) as Hall.
    rewrite List.Forall_forall in *. intros x Hx. specialize (Hall x Hx).
    rewrite Ehf. unfold h4. cbn [links].
    destruct (decide (k = x)) as [<-|Hne].
    - rewrite lookup_insert_eq, Hlk. reflexivity.
    - rewrite lookup_insert_ne by assumption. rewrite lookup_insert_ne by lia. reflexivity. }
  split; [apply Hold, Hr|]. split; [|split; [|split; [|split; [|split]]]].
  - unfold valid_chain in *. rewrite List.Forall_forall in *. intros x Hx.
    specialize (Hc x Hx). specialize (Hnames x Hx). destruct Hc as [lx Hlx].
    rewrite Hlx in Hnames. destruct (links hf !! x); [eauto|discriminate].
  - rewrite (firstNamed_agree h hf nm _ Hnames). exact Hk.
  - rewrite Ehf. unfold h4. cbn [links]. apply lookup_insert_eq.
  - rewrite Ehf. cbn [vars]. apply lookup_insert_eq.
  - intros nm'. apply (firstNamed_agree h hf nm' _ Hnames).
  - exact Hold.
Qed.

(** [getVariable] of a global. *)
Lemma getVariable_global (st : Interp) (nm : string) (vr v : Value) (k : positive)
      (lk : VariableLink) :
  dotless nm = true -> nm <> EmptyString ->
  vars (heap st) !! root st = Some vr -> valid_chain (heap st) (children vr) ->
  firstNamed (heap st) nm (children vr) = Some k -> links (heap st) !! k = Some lk ->
  vars (heap st) !! var lk = Some v ->
  fst (getVariable nm st) = Ok (Some (textOf v)).
Proof.
  intros Hd Hne Hr Hc Hk Hlk Hv. unfold getVariable, bind at 1.
  rewrite (getScriptVariable_global st nm vr Hd Hne Hr Hc), Hk, Hlk.
  unfold bind, liftH. rewrite (getString_text _ _ _ Hv). reflexivity.
Qed.

(** The heap after [factor] has read a name that the one scope [r] does
    not have. *)
Lemma undeclared_lookup (h : Heap) (r : positive) (vr : Value) (nm : string) :
  heap_wf h -> vars h !! r = Some vr -> valid_chain h (children vr) ->
  let h1 := mkHeap (<[nextAddr h := Variable_undefined]> (vars h))
                   (<[Pos.succ (nextAddr h) := mkLink nm (nextAddr h) false]> (links h))
                   (Pos.succ (Pos.succ (nextAddr h))) in
  heap_wf h1 /\ vars h1 !! r = Some vr /\ valid_chain h1 (children vr) /\
  (forall nm', firstNamed h1 nm' (children vr) = firstNamed h nm' (children vr)) /\
  (forall p w, vars h !! p = Some w -> vars h1 !! p = Some w).
Proof.
  intros Hwf Hr Hc h1.
  pose proof (valid_chain_allocated h _ Hwf Hc) as Hall.
  assert (forall p w, vars h !! p = Some w -> vars h1 !! p = Some w) as Hold.
  { intros p w Hp. pose proof (allocated_var _ _ _ Hwf Hp). unfold h1. cbn [vars].
    rewrite lookup_insert_ne by lia. exact Hp. }
  assert (forall x, In x (children vr) -> links h1 !! x = links h !! x) as Hlinks.
  { rewrite List.Forall_forall in Hall. intros x Hx. specialize (Hall x Hx).
    unfold h1. cbn [links]. apply lookup_insert_ne. lia. }
  split; [|split; [apply Hold, Hr|split; [|split; [|exact Hold]]]].
  - intros p Hp. unfold h1 in *. cbn [vars links nextAddr] in *.
    destruct (Hwf p) as [Hv Hl]; [lia|]. rewrite !lookup_insert_ne by lia. split; assumption.
  - unfold valid_chain in *. rewrite List.Forall_forall in *. intros x Hx.
    rewrite (Hlinks x Hx). apply Hc, Hx.
  - intros nm'. apply firstNamed_agree, List.Forall_forall. intros x Hx.
    rewrite (Hlinks x Hx). reflexivity.
Qed.

Section GlobalAssignment.

Variable native :
  (string -> M unit) -> (string -> M VariableLink) -> N -> positive -> N -> M unit.


End GlobalAssignment.


Section GlobalRead.

Variable native :
  (string -> M unit) -> (string -> M VariableLink) -> N -> positive -> N -> M unit.

(** An identifier alone, as the lexer reads it. *)
Lemma identifier_lexed (c : ascii) (r : string) :
  isAlpha c = true -> allAlnum r = true ->
  tk (Lexer_new (String c r)) = reservedWord (String c r) /\
  tkStr (Lexer_new (String c r)) = String c r /\
  currCh (Lexer_new (String c r)) = NUL.
Proof.
  intros Hc Hr.
  assert (allAlnum (String c r) = true) as Hall
    by (cbn [allAlnum]; unfold isAlnum; rewrite Hc, Hr; reflexivity).
  unfold Lexer_new. rewrite (c_str_alnum _ Hall).
  set (d := String c r). unfold reset.
  cbn [currCh nextCh data dataStart dataEnd dataOwned].
  set (l1 := mkLexer NUL NUL 0 0 0 0 EmptyString d 0 (Z.of_nat (String.length d)) true 0).
  pose proof (reads_start l1 d eq_refl eq_refl eq_refl) as Hreads.
  rewrite <- (app_nil_r (list_ascii_of_string d)) in Hreads.
  destruct (getNextToken_ident c r _ [] Hc Hr Hreads eq_refl) as (Htk & Hstr & Hend & _).
  { unfold l1, getNextCh, d. cbn [dataEnd dataPos String.length]. lia. }
  split; [exact Htk|]. split; [exact Hstr|]. apply reads_end, Hend.
Qed.

(** X26.  The value of a global.  For a name that is an identifier, in
    any state whose root has its children and with any natives: when the
    root has a child of that name, [evaluate] of the name returns the
    text of the variable behind the first such child, and changes
    nothing but the text that a number keeps; when it has none,
    [evaluate] returns [undefined] and the name is not created: the root
    and every other variable and link are as they were. *)
Theorem X26_read_global (st : Interp) (nm : string) (vr : Value) (n : nat) :
  identifier nm = true ->
  vars (heap st) !! root st = Some vr -> valid_chain (heap st) (children vr) ->
  (forall k lk v,
     firstNamed (heap st) nm (children vr) = Some k ->
     links (heap st) !! k = Some lk -> vars (heap st) !! var lk = Some v ->
     evaluate native (12 + n) nm st
       = (Ok (textOf v), set_heap (printed (heap st) (var lk) v) st)) /\
  (firstNamed (heap st) nm (children vr) = None -> heap_wf (heap st) ->
   exists st',
     evaluate native (12 + n) nm st = (Ok "undefined", st') /\
     l st' = l st /\ scopes st' = scopes st /\ root st' = root st /\
     (forall p w, vars (heap st) !! p = Some w -> vars (heap st') !! p = Some w) /\
     (forall p w, links (heap st) !! p = Some w -> links (heap st') !! p = Some w)).
Proof.
  intros Hid Hr Hchain.
  destruct (identifier_parts nm Hid) as (c & r & -> & Hc & Hrest & Hword & _).
  destruct (identifier_lexed c r Hc Hrest) as (Htk & Hstr & Hend). rewrite Hword in Htk.
  set (nm := String c r) in *. set (lx := Lexer_new nm) in *.
  set (st0 := entered nm st).
  pose proof (factor_ident native n st0 lx (root st) vr eq_refl Htk
                (or_intror (getNextToken_at_end lx Hend)) eq_refl Hr Hchain) as Hfactor.
  rewrite Hstr in Hfactor. change (heap st0) with (heap st) in Hfactor.
  assert (forall a st1, factor native (S (S n)) true st0 = (Ok (Some a, true), st1) ->
            l st1 = Some (getNextToken lx) ->
            base native (8 + S (S n)) true st0 = (Ok (Some a, true), st1)) as Hbase.
  { intros a st1 Hf Hl1.
    apply (base_single_factor native (S (S n)) true true (Some a) st0 st1 lx (getNextToken lx)
             eq_refl).
    - rewrite Htk. reflexivity.
    - rewrite Htk. reflexivity.
    - exact Hf.
    - exact Hl1.
    - apply getNextToken_at_end, Hend. }
  change (12 + n)%nat with (S (S (8 + S (S n)))).
  split.
  - intros k lk v Hk Hlk Hv. rewrite Hk in Hfactor.
    rewrite (evaluate_of_base native nm st _ _ k lk v (getNextToken lx)
               (Hbase k _ Hfactor eq_refl) eq_refl (getNextToken_at_end lx Hend) Hlk Hv).
    reflexivity.
  - intros Hk Hwf. rewrite Hk in Hfactor.
    eexists. split.
    { rewrite (evaluate_of_base native nm st _ _ (Pos.succ (nextAddr (heap st)))
                 (mkLink (tkStr lx) (nextAddr (heap st)) false) Variable_undefined
                 (getNextToken lx)
                 (Hbase _ _ Hfactor eq_refl) eq_refl (getNextToken_at_end lx Hend)).
      - reflexivity.
      - apply lookup_insert_eq.
      - apply lookup_insert_eq. }
    split; [reflexivity|]. split; [reflexivity|]. split; [reflexivity|].
    split.
    + intros p w Hp. pose proof (allocated_var _ _ _ Hwf Hp).
      cbn [heap set_heap var]. unfold printed.
      change (isInt Variable_undefined || isDouble Variable_undefined) with false. cbv iota.
      cbn [vars heap afterUndeclared]. rewrite lookup_insert_ne by (change (heap st0) with (heap st); lia).
      exact Hp.
    + intros p w Hp. pose proof (allocated_link _ _ _ Hwf Hp).
      cbn [heap set_heap var]. unfold printed.
      change (isInt Variable_undefined || isDouble Variable_undefined) with false. cbv iota.
      cbn [links heap afterUndeclared]. rewrite lookup_insert_ne by (change (heap st0) with (heap st); lia).
      exact Hp.
Qed.

End GlobalRead.

(** X26 on the scope [{ x : 5 }]: [x] is 5 and [y] is undefined. *)
Lemma X26_read_global_sample :
  fst (evaluate no_natives 12 "x" state_point) = Ok "5" /\
  exists st', evaluate no_natives 12 "y" state_point = (Ok "undefined", st').
Proof.
  assert (heap_wf (heap state_point)) as Hwf by (apply heap_wfb_sound; vm_compute; reflexivity).
  assert (valid_chain (heap state_point) [3%positive]) as Hc
    by (repeat constructor; eexists; reflexivity).
  split.
  - exact (f_equal fst
             (proj1 (X26_read_global no_natives state_point "x"
                       (set_children [3%positive]
                          (Variable_data TINYJS_BLANK_DATA VARIABLE_OBJECT))
                       0 eq_refl eq_refl Hc)
                3%positive (mkLink "x" 2%positive true) (Variable_int 5)
                eq_refl eq_refl eq_refl)).
  - destruct (proj2 (X26_read_global no_natives state_point "y"
                       (set_children [3%positive]
                          (Variable_data TINYJS_BLANK_DATA VARIABLE_OBJECT))
                       0 eq_refl eq_refl Hc) eq_refl Hwf) as (st' & Hev & _).
    exists st'. exact Hev.
Defined.

(* ------------------------------------------------------------------ *)
(** ** [Integer.parseInt] *)

(** [strtol] with the base 0 on a minus sign and digits of which the
    first is not a zero. *)
Lemma strtol_auto_neg_digits (c : ascii) (r : string) :
  isNumber (String c r) = true -> Ascii.eqb c "0" = false ->
  strtol (String "-" (String c r)) 0 = clamp_long (- accumulate 10 (String c r) 0).
Proof.
  simpl. destruct (isNumericCh c) eqn:Ec; [|discriminate]. intros Hr Hz.
  unfold strtol. cbn [skipSpaces].
  change (isspace "-") with false. cbv iota.
  change (Ascii.eqb "-" "-") with true. cbv beta iota zeta.
  destruct r as [|x [|y t]]; rewrite Hz; try reflexivity.
Qed.

(** [strtol] with the base 0 reads the decimal form of an [int]. *)
Lemma strtol_itoa_int (z : Z) : INT_MIN <= z <= INT_MAX -> to_int (strtol (c_str (itoa z)) 0) = z.
Proof.
  intros Hz. destruct z as [|p|p]; [reflexivity| |].
  - rewrite strtol_itoa by (unfold INT_MIN in Hz; lia). apply to_int_small, Hz.
  - destruct (decimal_head p) as (c & r & E & Hd & Hc & Hacc & _).
    change (itoa (Z.neg p)) with (String "-" (itoa (Z.pos p))). rewrite E.
    change (c_str (String "-" (String c r))) with (String "-" (c_str (String c r))).
    rewrite (c_str_digits _ Hd), (strtol_auto_neg_digits c r Hd Hc), Hacc.
    apply clamp_int, Hz.
Qed.

Lemma to_int_range (x : Z) : INT_MIN <= to_int x <= INT_MAX.
Proof.
  unfold to_int, wrap, INT_MIN, INT_MAX.
  change (2 ^ (32 - 1)) with 2147483648. change (2 ^ 32) with 4294967296.
  pose proof (Z.mod_pos_bound (x + 2147483648) 4294967296 ltac:(lia)). lia.
Qed.

(** X27.  [Integer.parseInt(str)].  In the scope of a call whose
    parameter [str] and whose return variable exist, the native makes
    the return variable the integer that [strtol] with the base 0 reads
    in the text of [str], brought into the range of [int].  So it
    inverts the decimal form: when the text of [str] is the decimal form
    of an [int], be [str] a string or a number, the result is that
    [int].  A leading zero selects the base eight, and [0x] the base
    sixteen. *)
Theorem X27_scIntegerParseInt (h : Heap) (c s r : positive) (vs vr : Value) :
  param h c "str" s -> param h c TINYJS_RETURN_VAR r ->
  vars h !! s = Some vs -> vars h !! r = Some vr ->
  exists h' vr',
    scIntegerParseInt c h = (Ok tt, h') /\
    vars h' !! r = Some vr' /\ isInt vr' = true /\
    intData vr' = to_int (strtol (c_str (textOf vs)) 0) /\
    (forall z, INT_MIN <= z <= INT_MAX -> textOf vs = itoa z -> intData vr' = z) /\
    links h' = links h /\
    to_int (strtol "010" 0) = 8 /\ to_int (strtol "0x10" 0) = 16.
Proof.
  intros Ps Pr Hs Hr.
  pose proof (printed_grown h s vs Hs) as Hg.
  destruct (proj2 Hg _ _ Hr) as (vr1 & Hr1 & _).
  set (val := to_int (strtol (c_str (textOf vs)) 0)).
  exists (mkHeap (<[r := setInt val vr1]> (vars (printed h s vs))) (links (printed h s vs))
                 (nextAddr (printed h s vs))), (setInt val vr1).
  destruct (setInt_int val vr1) as (Hi & Hd & _).
  assert (to_int val = val) as Hval by (apply to_int_small, to_int_range).
  split; [|split; [apply lookup_insert_eq|split; [exact Hi|split; [|split; [|split]]]]].
  - unfold scIntegerParseInt.
    unfold bind at 1. rewrite (getParameter_param h c "str" s Ps).
    unfold bind at 1. rewrite (getString_text _ _ _ Hs). cbv zeta. fold val.
    unfold bind at 1, getReturnVar.
    rewrite (getParameter_param _ c TINYJS_RETURN_VAR r (param_grown h _ c _ r Hg Pr)).
    unfold bind. rewrite (load_Some _ _ _ Hr1). reflexivity.
  - rewrite Hd. exact Hval.
  - intros z Hz Ez. rewrite Hd, Hval. unfold val. rewrite Ez. apply strtol_itoa_int, Hz.
  - exact (proj1 Hg).
  - split; vm_compute; reflexivity.
Qed.

(** X27 on the call [Integer.parseInt("-42")]. *)
Lemma X27_scIntegerParseInt_sample :
  exists h' vr',
    scIntegerParseInt 1 heap_parse = (Ok tt, h') /\
    vars h' !! 3%positive = Some vr' /\ isInt vr' = true /\ intData vr' = -42.
Proof.
  assert (valid_chain heap_parse [4; 5]%positive) as Hc
    by (repeat constructor; eexists; vm_compute; reflexivity).
  assert (param heap_parse 1 "str" 2) as Ps.
  { eexists _, 4%positive, _. split; [vm_compute; reflexivity|]. split; [exact Hc|].
    split; [vm_compute; reflexivity|]. split; [vm_compute; reflexivity|reflexivity]. }
  assert (param heap_parse 1 TINYJS_RETURN_VAR 3) as Pr.
  { eexists _, 5%positive, _. split; [vm_compute; reflexivity|]. split; [exact Hc|].
    split; [vm_compute; reflexivity|]. split; [vm_compute; reflexivity|reflexivity]. }
  destruct (X27_scIntegerParseInt heap_parse 1 2 3 (Variable_string "-42") Variable_undefined
              Ps Pr eq_refl eq_refl) as (h' & vr' & E & Hr & Hi & _ & Hz & _).
  exists h', vr'. split; [exact E|]. split; [exact Hr|]. split; [exact Hi|].
  apply (Hz (-42)); [split; vm_compute; discriminate|reflexivity].
Defined.

(* ------------------------------------------------------------------ *)
(** ** The declaration of a variable *)

(** The loop over the digits of a number that another character
    follows. *)
Lemma number_loop (s : string) :
  isNumber s = true ->
  forall (cond : Lexer -> bool) (n : nat) (l : Lexer) (t : list ascii),
    (forall l, cond l = isNumericCh (currCh l)) ->
    (String.length s < n)%nat ->
    reads l (list_ascii_of_string s ++ t) -> isNumericCh (nth 0 t NUL) = false ->
    let l' := lex_while n cond (fun l => getNextCh (addCh (currCh l) l)) l in
    tkStr l' = tkStr l ++ s /\ reads l' t /\ tk l' = tk l /\
    dataEnd l' = dataEnd l /\ dataPos l' = dataPos l + Z.of_nat (String.length s).
Proof.
  induction s as [|c r IH]; intros Hs cond n l t Hcond Hn Hr Ht.
  - cbn [list_ascii_of_string app] in Hr. cbv zeta. rewrite lex_while_done.
    + split; [symmetry; apply append_nil_r|]. split; [exact Hr|].
      cbn [String.length]. repeat split. lia.
    + rewrite Hcond. destruct Hr as (Hc & _). rewrite Hc. exact Ht.
  - simpl in Hs. destruct (isNumericCh c) eqn:Ec; [|discriminate].
    destruct n as [|n]; [simpl in Hn; lia|].
    cbn [list_ascii_of_string app] in Hr. pose proof (reads_currCh _ _ _ Hr) as Hcur.
    cbv zeta. cbn [lex_while]. rewrite Hcond, Hcur, Ec.
    destruct (IH Hs cond n (getNextCh (addCh c l)) t Hcond) as (Hstr & Hend & Htk & He & Hp).
    + simpl in Hn. lia.
    + apply (reads_next (addCh c l) c). exact Hr.
    + exact Ht.
    + split; [|split; [exact Hend|split; [exact Htk|split; [exact He|]]]].
      * rewrite Hstr. change (tkStr (getNextCh (addCh c l))) with (push_back (tkStr l) c).
        unfold push_back, str1. rewrite append_assoc. reflexivity.
      * rewrite Hp. cbn [dataPos getNextCh addCh set_tkStr String.length]. lia.
Qed.

Lemma endsNumber_spec (c : ascii) :
  endsNumber c = true ->
  isNumericCh c = false /\ Ascii.eqb c "." = false /\ Ascii.eqb c "e" = false /\
  Ascii.eqb c "E" = false /\ Ascii.eqb c "x" = false.
Proof.
  unfold endsNumber. intros H. apply negb_true_iff in H.
  repeat (apply orb_false_elim in H; destruct H as [H ?]). repeat split; assumption.
Qed.

(** [getNextToken] before digits that a character follows which cannot
    go on the number: an integer token. *)
Lemma getNextToken_number (c : ascii) (r : string) (l : Lexer) (t : list ascii) :
  isNumber (String c r) = true ->
  reads l (list_ascii_of_string (String c r) ++ t) -> endsNumber (nth 0 t NUL) = true ->
  Z.of_nat (String.length r) <= dataEnd l - dataPos l + 1 ->
  tk (getNextToken l) = LEXER_INT /\ tkStr (getNextToken l) = String c r /\
  reads (getNextToken l) t /\
  dataEnd (getNextToken l) = dataEnd l /\
  dataPos (getNextToken l) = dataPos l + Z.of_nat (String.length (String c r)).
Proof.
  intros Hs Hr Ht Hlen. pose proof Hs as Hs'. simpl in Hs'.
  destruct (isNumericCh c) eqn:Ec; [|discriminate].
  destruct (digit_plain c Ec) as (Hal & Hws & Hsl & Hx).
  destruct (endsNumber_spec _ Ht) as (Tn & Td & Te & TE & Tx).
  assert (currCh l = c) as Hc by exact (reads_currCh _ _ _ Hr).
  unfold getNextToken.
  rewrite getNextToken_rec_token by (rewrite Hc; assumption).
  set (l3 := set_tkStr EmptyString (set_tk LEXER_EOF l)).
  set (l4 := set_tokenStart (dataPos l3 - 2) l3).
  assert (forall (s : string) (l1 : Lexer),
            isNumber s = true -> reads l1 (list_ascii_of_string s ++ t) ->
            (String.length s < lexFuel l1)%nat ->
            let w := while_ch (fun l => isNumericCh (currCh l) || (false && isHexadecimal (currCh l)))
                              (fun l => getNextCh (addCh (currCh l) l)) (set_tk LEXER_INT l1) in
            tk w = LEXER_INT /\ tkStr w = tkStr l1 ++ s /\ reads w t /\
            dataEnd w = dataEnd l1 /\ dataPos w = dataPos l1 + Z.of_nat (String.length s))
    as Hloop.
  { intros s l1 Hd Hr1 Hf w. unfold w, while_ch.
    destruct (number_loop s Hd
                (fun l => isNumericCh (currCh l) || (false && isHexadecimal (currCh l)))
                (lexFuel (set_tk LEXER_INT l1)) (set_tk LEXER_INT l1) t)
      as (Hstr & Hend & Htk & He & Hp).
    - intros l0. cbn [andb]. apply orb_false_r.
    - exact Hf.
    - exact Hr1.
    - exact Tn.
    - split; [exact Htk|]. split; [exact Hstr|]. split; [exact Hend|]. split; [exact He|exact Hp]. }
  assert (forall w : Lexer, reads w t ->
            Ascii.eqb (currCh w) "." = false /\ Ascii.eqb (currCh w) "e" = false /\
            Ascii.eqb (currCh w) "E" = false) as Htail.
  { intros w (Hw & _). rewrite Hw, Td, Te, TE. repeat split. }
  unfold scanToken. cbn [currCh set_tokenStart]. change (currCh l3) with (currCh l).
  rewrite Hc, Hal, Ec. cbv iota zeta. fold l4.
  unfold scanNumber. change (currCh l4) with (currCh l). rewrite Hc.
  destruct (Ascii.eqb_spec c "0") as [->|Hnz].
  - cbv zeta.
    set (l5 := getNextCh (addCh "0" l4)).
    assert (reads l5 (list_ascii_of_string r ++ t)) as Hr5
      by (apply (reads_next (addCh "0" l4) "0"), Hr).
    assert (Ascii.eqb (currCh l5) "x" = false) as Hx5.
    { destruct Hr5 as (H5 & _). rewrite H5. destruct r as [|c' r'].
      - exact Tx.
      - simpl in Hs'. destruct (isNumericCh c') eqn:Ec'; [|discriminate].
        apply (digit_plain c' Ec'). }
    rewrite Hx5. cbv iota.
    destruct (Hloop r l5 Hs' Hr5) as (Htk & Hstr & Hend & He & Hp).
    { unfold lexFuel, l5, l4, l3, getNextCh.
      cbn [dataEnd dataPos addCh set_tkStr set_tk set_tokenStart]. lia. }
    match goal with
    | |- context [while_ch ?f ?g ?x] => set (w := while_ch f g x) in *
    end.
    destruct (Htail w Hend) as (Hdot & He1 & He2).
    rewrite Hdot. change (negb false && false) with false. cbv iota.
    rewrite He1, He2. change (negb false && (false || false)) with false. cbv iota.
    cbn [tk tkStr currCh nextCh dataEnd dataPos].
    split; [exact Htk|]. split.
    { rewrite Hstr. reflexivity. }
    split; [|split; [exact He|]].
    + destruct Hend as (H1 & H2 & H3). split; [exact H1|]. split; [exact H2|exact H3].
    + rewrite Hp. unfold l5, l4, l3, getNextCh.
      cbn [dataPos addCh set_tkStr set_tk set_tokenStart String.length]. lia.
  - cbv zeta. change (currCh l4) with (currCh l). rewrite Hc, Hx. cbv iota.
    destruct (Hloop (String c r) l4 Hs Hr) as (Htk & Hstr & Hend & He & Hp).
    { unfold lexFuel, l4, l3. cbn [dataEnd dataPos set_tkStr set_tk set_tokenStart String.length].
      lia. }
    match goal with
    | |- context [while_ch ?f ?g ?x] => set (w := while_ch f g x) in *
    end.
    destruct (Htail w Hend) as (Hdot & He1 & He2).
    rewrite Hdot. change (negb false && false) with false. cbv iota.
    rewrite He1, He2. change (negb false && (false || false)) with false. cbv iota.
    cbn [tk tkStr currCh nextCh dataEnd dataPos].
    split; [exact Htk|]. split; [exact Hstr|].
    split; [|split; [exact He|exact Hp]].
    destruct Hend as (H1 & H2 & H3). split; [exact H1|]. split; [exact H2|exact H3].
Qed.

(** [getNextToken] before one space that no white space and no comment
    follows: the space is skipped. *)
Lemma getNextToken_space (c : ascii) (t : list ascii) (l : Lexer) :
  reads l (" "%char :: c :: t) ->
  nonzero c && isWhitespace c = false -> Ascii.eqb c "/" = false ->
  dataPos l <= dataEnd l + 2 ->
  getNextToken l = getNextToken (getNextCh l).
Proof.
  intros Hr Hws Hsl Hpos.
  assert (currCh l = " "%char) as Hc by exact (reads_currCh _ _ _ Hr).
  assert (currCh (getNextCh l) = c) as Hc1 by exact (reads_currCh _ _ _ (reads_next _ _ _ Hr)).
  unfold getNextToken at 2.
  rewrite getNextToken_rec_token by (rewrite Hc1; assumption).
  unfold getNextToken.
  set (l0 := set_tkStr EmptyString (set_tk LEXER_EOF l)).
  assert (getNextToken_rec (lexFuel l) l =
          let l := while_ch (fun l => nonzero (currCh l) && isWhitespace (currCh l)) getNextCh l0 in
          if Ascii.eqb (currCh l) "/" && Ascii.eqb (nextCh l) "/" then
            let l := while_ch (fun l => nonzero (currCh l) && negb (Ascii.eqb (currCh l) ch_lf))
                              getNextCh l in
            let l := getNextCh l in
            match lexFuel l0 with
            | O => l
            | S n' => getNextToken_rec n' l
            end
          else if Ascii.eqb (currCh l) "/" && Ascii.eqb (nextCh l) "*" then
            let l := while_ch (fun l => nonzero (currCh l) &&
                                (negb (Ascii.eqb (currCh l) "*") || negb (Ascii.eqb (nextCh l) "/")))
                              getNextCh l in
            let l := getNextCh (getNextCh l) in
            match lexFuel l0 with
            | O => l
            | S n' => getNextToken_rec n' l
            end
          else scanToken l) as ->
    by (change (lexFuel l0) with (lexFuel l); destruct (lexFuel l); reflexivity).
  cbv zeta.
  assert (while_ch (fun l => nonzero (currCh l) && isWhitespace (currCh l)) getNextCh l0
          = getNextCh l0) as ->.
  { unfold while_ch. destruct (lexFuel l0) as [|n] eqn:En.
    - unfold lexFuel, l0 in En. cbn [dataEnd dataPos set_tkStr set_tk] in En. lia.
    - cbn [lex_while]. change (currCh l0) with (currCh l). rewrite Hc.
      change (nonzero " " && isWhitespace " ") with true. cbv iota.
      apply lex_while_done. change (currCh (getNextCh l0)) with (currCh (getNextCh l)).
      rewrite Hc1. exact Hws. }
  change (currCh (getNextCh l0)) with (currCh (getNextCh l)). rewrite Hc1, Hsl.
  cbn [andb]. reflexivity.
Qed.

(** [getNextToken] before a semicolon that ends the text. *)
Lemma getNextToken_semicolon (l : Lexer) :
  reads l [";"%char] ->
  tk (getNextToken l) = tok ";" /\ currCh (getNextToken l) = NUL.
Proof.
  intros Hr.
  assert (currCh l = ";"%char) as Hc by exact (reads_currCh _ _ _ Hr).
  pose proof (reads_next _ _ _ Hr) as Hr1.
  assert (nextCh l = NUL) as Hn by exact (reads_end _ Hr1).
  unfold getNextToken.
  rewrite getNextToken_rec_token by (rewrite Hc; reflexivity).
  set (l3 := set_tkStr EmptyString (set_tk LEXER_EOF l)).
  assert (scanToken l3
          = let p := getNextCh (set_tk (tok ";") (set_tokenStart (dataPos l3 - 2) l3)) in
            mkLexer (currCh p) (nextCh p) (tk p) (tokenStart p) (dataPos p - 3) (tokenEnd p)
                    (tkStr p) (data p) (dataStart p) (dataEnd p) (dataOwned p) (dataPos p)) as ->.
  { unfold scanToken. cbn [currCh set_tokenStart]. change (currCh l3) with (currCh l).
    rewrite Hc. change (isAlpha ";") with false. change (isNumericCh ";") with false.
    change (Ascii.eqb ";" dquote) with false. change (Ascii.eqb ";" squote) with false.
    cbv iota. unfold scanPunctuation. cbn [currCh set_tokenStart set_tk].
    change (currCh l3) with (currCh l). rewrite Hc.
    change (nonzero ";") with true. cbv iota.
    unfold sees. cbn [tk currCh getNextCh set_tk set_tokenStart].
    change (int_of_char ";") with 59. reflexivity. }
  cbv zeta. cbn [tk currCh getNextCh set_tk set_tokenStart].
  split; [reflexivity|]. change (nextCh l3) with (nextCh l). exact Hn.
Qed.

(** The script [var nm=digits;], as the lexer reads it: the word [var],
    the identifier, the equals sign, the integer, the semicolon, and the
    end of the text. *)
Lemma declaration_lexed (c : ascii) (r : string) (d : ascii) (ds : string) :
  isAlpha c = true -> allAlnum r = true -> isNumber (String d ds) = true ->
  let lx := Lexer_new ("var " ++ String c r ++ "=" ++ String d ds ++ ";") in
  let lxN := getNextToken lx in
  let lxE := getNextToken lxN in
  let lxI := getNextToken lxE in
  let lxS := getNextToken lxI in
  tk lx = LEXER_RESERVED_VAR /\
  tk lxN = reservedWord (String c r) /\ tkStr lxN = String c r /\
  tk lxE = tok "=" /\
  tk lxI = LEXER_INT /\ tkStr lxI = String d ds /\
  tk lxS = tok ";" /\ currCh lxS = NUL.
Proof.
  intros Hc Hr Hd. pose proof Hd as Hd'. simpl in Hd'.
  destruct (isNumericCh d) eqn:Ed; [|discriminate].
  assert (allAlnum (String c r) = true) as Hall
    by (cbn [allAlnum]; unfold isAlnum; rewrite Hc, Hr; reflexivity).
  set (code := "var " ++ String c r ++ "=" ++ String d ds ++ ";").
  assert (c_str code = code) as Ecode.
  { unfold code. rewrite (c_str_app "var " _ eq_refl).
    rewrite (c_str_app _ _ (c_str_alnum _ Hall)).
    change (c_str ("=" ++ String d ds ++ ";")) with (String "=" (c_str (String d ds ++ ";"))).
    rewrite (c_str_app _ _ (c_str_digits _ Hd)). reflexivity. }
  assert (list_ascii_of_string code
          = (list_ascii_of_string "var"
             ++ " "%char :: list_ascii_of_string (String c r)
             ++ "="%char :: list_ascii_of_string (String d ds) ++ [";"%char])%list) as Echars.
  { unfold code.
    change ("var " ++ String c r ++ "=" ++ String d ds ++ ";")
      with (String "v" (String "a" (String "r" (String " "
              (String c r ++ String "=" (String d ds ++ ";")))))).
    cbn [list_ascii_of_string app]. rewrite list_ascii_app.
    cbn [list_ascii_of_string]. rewrite list_ascii_app. reflexivity. }
  assert (Z.of_nat (String.length code)
          = 4 + Z.of_nat (String.length (String c r)) + 1
            + Z.of_nat (String.length (String d ds)) + 1) as Elen.
  { unfold code.
    change ("var " ++ String c r ++ "=" ++ String d ds ++ ";")
      with (String "v" (String "a" (String "r" (String " "
              (String c r ++ String "=" (String d ds ++ ";")))))).
    cbn [String.length]. rewrite length_append. cbn [String.length]. rewrite length_append.
    cbn [String.length]. lia. }
  cbv zeta. fold code.
  unfold Lexer_new. rewrite Ecode. unfold reset.
  cbn [currCh nextCh data dataStart dataEnd dataOwned].
  set (l1 := mkLexer NUL NUL 0 0 0 0 EmptyString code 0 (Z.of_nat (String.length code)) true 0).
  pose proof (reads_start l1 code eq_refl eq_refl eq_refl) as Hreads. rewrite Echars in Hreads.
  set (l2 := getNextCh (getNextCh l1)) in *.
  assert (dataEnd l2 = Z.of_nat (String.length code) /\ dataPos l2 = 2) as [He2 Hp2]
    by (split; reflexivity).
  destruct (getNextToken_ident "v" "ar" l2 _ eq_refl eq_refl Hreads eq_refl)
    as (HtkV & _ & HrV & HeV & HpV).
  { rewrite He2, Hp2, Elen. cbn [String.length]. lia. }
  set (lxV := getNextToken l2) in *.
  split; [exact HtkV|].
  destruct (alpha_plain c Hc) as (Hws & Hsl & _).
  cbn [list_ascii_of_string app] in HrV.
  rewrite (getNextToken_space c _ lxV HrV Hws Hsl) by (rewrite HeV, HpV, He2, Hp2, Elen; cbn [String.length]; lia).
  pose proof (reads_next _ _ _ HrV) as HrV1.
  change (c :: (list_ascii_of_string r
                ++ "="%char :: list_ascii_of_string (String d ds) ++ [";"%char])%list)
    with (list_ascii_of_string (String c r)
          ++ "="%char :: list_ascii_of_string (String d ds) ++ [";"%char])%list in HrV1.
  destruct (getNextToken_ident c r (getNextCh lxV) _ Hc Hr HrV1 eq_refl)
    as (HtkN & HstrN & HrN & HeN & HpN).
  { cbn [dataEnd dataPos getNextCh]. rewrite HeV, HpV, He2, Hp2, Elen. cbn [String.length]. lia. }
  set (lxN := getNextToken (getNextCh lxV)) in *.
  split; [exact HtkN|]. split; [exact HstrN|].
  cbn [list_ascii_of_string app] in HrN.
  destruct (getNextToken_assign d _ lxN Ed HrN) as (HtkE & HrE & HeE & HpE).
  set (lxE := getNextToken lxN) in *.
  split; [exact HtkE|].
  change (d :: (list_ascii_of_string ds ++ [";"%char])%list)
    with (list_ascii_of_string (String d ds) ++ [";"%char])%list in HrE.
  destruct (getNextToken_number d ds lxE _ Hd HrE eq_refl) as (HtkI & HstrI & HrI & HeI & HpI).
  { rewrite HeE, HpE, HeN, HpN. cbn [dataEnd dataPos getNextCh].
    rewrite HeV, HpV, He2, Hp2, Elen. cbn [String.length]. lia. }
  set (lxI := getNextToken lxE) in *.
  split; [exact HtkI|]. split; [exact HstrI|].
  apply getNextToken_semicolon, HrI.
Qed.

Section Declaration.

Variable native :
  (string -> M unit) -> (string -> M VariableLink) -> N -> positive -> N -> M unit.

(** One level of [statement], up to the code of the [var] declaration. *)
Lemma statement_var_branch_eq (n : nat) (e : bool) :
  exists F : Z -> M bool,
    statement native (S n) e = (let* t := getTk in F t) /\
    F LEXER_RESERVED_VAR =
      (let* _ := matchTk LEXER_RESERVED_VAR in
       let* execute := statement_var native n e in
       let* _ := matchTk (tok ";") in
       ret execute).
Proof. eexists (fun t => _). split; reflexivity. Qed.

Lemma statement_var_eq (n : nat) (e : bool) :
  statement_var native (S n) e =
    (let* t := getTk in
     if negb (t =? tok ";") then
       let* a :=
         if e then
           let* sc := scopesBack in
           let* s := getTkStr in
           let* a := liftH (findChildOrCreate sc s VARIABLE_UNDEFINED) in
           ret (Some a)
         else ret None in
       let* _ := matchTk LEXER_ID in
       let* n' := textFuel in
       let* a := varDots n' e a in
       let* t := getTk in
       let* execute :=
         if t =? tok "=" then
           let* _ := matchTk (tok "=") in
           let* (v, execute) := base native n e in
           let* _ :=
             if execute then
               let* lk := deref a in
               liftH (replaceWith_link lk v)
             else ret tt in
           ret execute
         else ret e in
       let* t := getTk in
       let* _ := if negb (t =? tok ";") then matchTk (tok ",") else ret tt in
       statement_var native n execute
     else ret e).
Proof. reflexivity. Qed.

Lemma execute_loop_eq (n : nat) (e : bool) :
  execute_loop native (S n) e =
    (let* t := getTk in
     if negb (t =? 0) then
       let* execute := statement native n e in
       execute_loop native n execute
     else ret tt).
Proof. reflexivity. Qed.

(** An expression that is one factor, before a semicolon: [base] returns
    what [factor] returns. *)
Lemma base_before_semicolon (n : nat) (e e' : bool) (a : option positive)
      (st st1 : Interp) (lx lx1 : Lexer) :
  l st = Some lx -> (tk lx =? tok "-") = false -> (tk lx =? tok "!") = false ->
  factor native n e st = (Ok (a, e'), st1) ->
  l st1 = Some lx1 -> tk lx1 = tok ";" ->
  base native (8 + n) e st = (Ok (a, e'), st1).
Proof.
  intros Hl Hminus Hbang Hfactor Hl1 Heq.
  pose proof (getTk_eq st lx Hl) as Htk.
  pose proof (getTk_eq st1 lx1 Hl1) as Htk1. rewrite Heq in Htk1.
  change (8 + n)%nat with (S (S (S (S (S (S (S (S n)))))))).
  assert (unary native (S n) e st = (Ok (a, e'), st1)) as Hunary.
  { destruct (unary_eq native n e) as [K ->]. unfold bind. rewrite Htk, Hbang. exact Hfactor. }
  assert (term native (S (S n)) e st = (Ok (a, e'), st1)) as Hterm.
  { rewrite term_eq. unfold bind at 1. rewrite Hunary.
    destruct (term_loop_eq native n e' a) as [K ->]. unfold bind. rewrite Htk1. reflexivity. }
  assert (expression native (S (S (S n))) e st = (Ok (a, e'), st1)) as Hexpr.
  { destruct (expression_eq native (S (S n)) e) as [K ->].
    unfold bind at 1. rewrite Htk, Hminus. unfold bind at 1, ret at 1.
    unfold bind at 1. rewrite Hterm. unfold bind at 1, ret at 1.
    rewrite expression_loop_eq. unfold bind. rewrite Htk1. reflexivity. }
  assert (shift native (S (S (S (S n)))) e st = (Ok (a, e'), st1)) as Hshift.
  { destruct (shift_eq native (S (S (S n))) e) as [K ->].
    unfold bind at 1. rewrite Hexpr. unfold bind. rewrite Htk1. reflexivity. }
  assert (condition native (S (S (S (S (S n))))) e st = (Ok (a, e'), st1)) as Hcond.
  { rewrite condition_eq. unfold bind at 1. rewrite Hshift.
    destruct (condition_loop_eq native (S (S (S n))) e' a) as [K ->].
    unfold bind. rewrite Htk1. reflexivity. }
  assert (logic native (S (S (S (S (S (S n)))))) e st = (Ok (a, e'), st1)) as Hlogic.
  { rewrite logic_eq. unfold bind at 1. rewrite Hcond.
    destruct (logic_loop_eq native (S (S (S (S n)))) e' a) as [K ->].
    unfold bind. rewrite Htk1. reflexivity. }
  assert (ternary native (S (S (S (S (S (S (S n))))))) e st = (Ok (a, e'), st1)) as Hternary.
  { destruct (ternary_eq native (S (S (S (S (S (S n)))))) e) as [K ->].
    unfold bind at 1. rewrite Hlogic. unfold bind. rewrite Htk1. reflexivity. }
  destruct (base_eq native (S (S (S (S (S (S (S n))))))) e) as [K ->].
  unfold bind at 1. rewrite Hternary. unfold bind. rewrite Htk1. reflexivity.
Qed.

(** The declaration of one name with an integer literal: once the name
    is resolved to the link [k] in the innermost scope, a new integer is
    made for the literal and the link is redirected to it. *)
Lemma statement_var_int (m : nat) (st : Interp) (lxN : Lexer) (s k : positive) (h1 : Heap)
      (lkk : VariableLink) :
  l st = Some lxN -> tk lxN = LEXER_ID ->
  tk (getNextToken lxN) = tok "=" ->
  tk (getNextToken (getNextToken lxN)) = LEXER_INT ->
  tk (getNextToken (getNextToken (getNextToken lxN))) = tok ";" ->
  last (scopes st) = Some s ->
  findChildOrCreate s (tkStr lxN) VARIABLE_UNDEFINED (heap st) = (Ok k, h1) ->
  links h1 !! k = Some lkk -> k <> Pos.succ (nextAddr h1) ->
  statement_var native (S (8 + S m)) true st
    = (Ok true,
       set_heap
         (mkHeap (<[nextAddr h1
                    := Variable_data (tkStr (getNextToken (getNextToken lxN))) VARIABLE_INTEGER]>
                    (vars h1))
                 (<[k := mkLink (name lkk) (nextAddr h1) (owned lkk)]>
                    (<[Pos.succ (nextAddr h1) := mkLink TINYJS_TEMP_NAME (nextAddr h1) false]>
                       (links h1)))
                 (Pos.succ (Pos.succ (nextAddr h1))))
         (set_l (Some (getNextToken (getNextToken (getNextToken lxN)))) st)).
Proof.
  intros Hl Htk HtkE HtkI HtkS Hs Hfind Hk Hfresh.
  set (lxE := getNextToken lxN) in *. set (lxI := getNextToken lxE) in *.
  set (lxS := getNextToken lxI) in *.
  rewrite statement_var_eq. unfold bind at 1. rewrite (getTk_eq st lxN Hl), Htk.
  change (negb (LEXER_ID =? tok ";")) with true. cbv iota.
  assert ((let* sc := scopesBack in
           let* s := getTkStr in
           let* a := liftH (findChildOrCreate sc s VARIABLE_UNDEFINED) in
           ret (Some a)) st = (Ok (Some k), set_heap h1 st)) as Hdecl.
  { unfold bind at 1, scopesBack, bind at 1, getScopes, deref. rewrite Hs.
    unfold ret at 1. unfold bind at 1. rewrite (getTkStr_eq st lxN Hl).
    unfold bind, liftH. rewrite Hfind. reflexivity. }
  unfold bind at 1. rewrite Hdecl.
  set (st1 := set_heap h1 st).
  unfold bind at 1. rewrite (matchTk_eq st1 lxN LEXER_ID Hl Htk). fold lxE.
  set (st2 := set_l (Some lxE) st1).
  unfold bind at 1, textFuel, bind at 1, lexer, bind at 1, getL, deref.
  change (l st2) with (Some lxE). unfold ret at 1. unfold ret at 1.
  unfold bind at 1. cbn [varDots]. unfold bind at 1.
  rewrite (getTk_eq st2 lxE eq_refl), HtkE. change (tok "=" =? tok ".") with false. cbv iota.
  unfold ret at 1.
  unfold bind at 1. rewrite (getTk_eq st2 lxE eq_refl), HtkE.
  change (tok "=" =? tok "=") with true. cbv iota.
  unfold bind at 1. unfold bind at 1.
  rewrite (matchTk_eq st2 lxE (tok "=") eq_refl HtkE). fold lxI.
  set (st3 := set_l (Some lxI) st2).
  assert (base native (8 + S m) true st3
          = (Ok (Some (Pos.succ (nextAddr h1)), true),
             afterLiteral st3 lxI (Variable_data (tkStr lxI) VARIABLE_INTEGER))) as Hrhs.
  { apply (base_before_semicolon (S m) true true _ st3 _ lxI lxS eq_refl).
    - rewrite HtkI. reflexivity.
    - rewrite HtkI. reflexivity.
    - apply (factor_int native m true st3 lxI eq_refl HtkI).
    - reflexivity.
    - exact HtkS. }
  unfold bind at 1. rewrite Hrhs.
  set (st4 := afterLiteral st3 lxI (Variable_data (tkStr lxI) VARIABLE_INTEGER)).
  assert (replaceWith_link k (Some (Pos.succ (nextAddr h1))) (heap st4)
          = (Ok tt,
             mkHeap (vars (heap st4))
                    (<[k := mkLink (name lkk) (nextAddr h1) (owned lkk)]> (links (heap st4)))
                    (nextAddr (heap st4)))) as Hrw.
  { unfold replaceWith_link, bind at 1, load_link at 1.
    unfold st4 at 1. cbn [heap afterLiteral links].
    change (nextAddr (heap st3)) with (nextAddr h1). rewrite lookup_insert_eq.
    cbn [var]. unfold replaceWith, bind, load_link.
    unfold st4 at 1. cbn [heap afterLiteral links].
    change (nextAddr (heap st3)) with (nextAddr h1).
    rewrite lookup_insert_ne by congruence.
    change (links (heap st3)) with (links h1). rewrite Hk. reflexivity. }
  unfold bind at 1. unfold bind at 1, deref, ret at 1.
  unfold liftH at 1. rewrite Hrw.
  unfold ret at 1.
  match goal with
  | |- context [set_heap ?h st4] => set (st5 := set_heap h st4)
  end.
  unfold bind at 1. rewrite (getTk_eq st5 lxS eq_refl), HtkS.
  change (negb (tok ";" =? tok ";")) with false. cbv iota.
  unfold bind at 1, ret at 1.
  change (statement_var native (8 + S m)) with (statement_var native (S (7 + S m))).
  rewrite statement_var_eq. unfold bind at 1. rewrite (getTk_eq st5 lxS eq_refl), HtkS.
  change (negb (tok ";" =? tok ";")) with false. cbv iota.
  reflexivity.
Qed.

End Declaration.

(** What [findChildOrCreate] returns and leaves, in terms of the chain
    of children. *)
Lemma findChildOrCreate_lookup (h : Heap) (a : positive) (va : Value) (nm : string) (f : Z) :
  heap_wf h -> vars h !! a = Some va -> valid_chain h (children va) ->
  exists k h1 va1 lkk,
    findChildOrCreate a nm f h = (Ok k, h1) /\
    heap_wf h1 /\ vars h1 !! a = Some va1 /\ valid_chain h1 (children va1) /\
    firstNamed h1 nm (children va1) = Some k /\ links h1 !! k = Some lkk /\
    (forall k0, firstNamed h nm (children va) = Some k0 -> k = k0 /\ va1 = va) /\
    (firstNamed h nm (children va) = None ->
     links h !! k = None /\ children va1 = (children va ++ [k])%list) /\
    (forall nm', nm' <> nm ->
       firstNamed h1 nm' (children va1) = firstNamed h nm' (children va)) /\
    (forall p w, p <> a -> vars h !! p = Some w -> vars h1 !! p = Some w).
Proof.
  intros Hwf Ha Hc.
  pose proof (findChild_firstNamed h a va nm Ha Hc) as Hfind.
  destruct (firstNamed h nm (children va)) as [k0|] eqn:Ef.
  - destruct (firstNamed_Some _ _ _ _ Ef) as (_ & lk0 & Hlk0 & _).
    exists k0, h, va, lk0. unfold findChildOrCreate, bind. rewrite Hfind.
    split; [reflexivity|]. split; [exact Hwf|]. split; [exact Ha|]. split; [exact Hc|].
    split; [exact Ef|]. split; [exact Hlk0|].
    split; [intros k [= <-]; split; reflexivity|]. split; [discriminate|].
    split; [reflexivity|]. intros p w _ Hp. exact Hp.
  - set (c := nextAddr h).
    set (h1 := snd (alloc (Variable_data TINYJS_BLANK_DATA f) h)).
    pose proof (allocated_var _ _ _ Hwf Ha) as Hlt.
    assert (vars h1 !! a = Some va) as Ha1
      by (unfold h1; cbn [alloc snd vars]; rewrite lookup_insert_ne by lia; exact Ha).
    assert (valid_chain h1 (children va)) as Hc1 by exact Hc.
    destruct (addChild_lookup h1 a c va nm (alloc_wf h _ Hwf) Ha1 Hc1)
      as (E & Hwf' & Ha' & Hc' & Hlook).
    assert (forall nm', firstNamed h1 nm' (children va) = firstNamed h nm' (children va)) as Hsame.
    { intros nm'. apply firstNamed_agree. rewrite List.Forall_forall. intros x _. reflexivity. }
    set (h2 := withChild h1 a c nm va) in *.
    set (va2 := set_children (children va ++ [nextAddr h1])
                  (if isUndefined va then set_flags VARIABLE_OBJECT va else va)) in *.
    assert (valid_chain h2 (children va2)) as Hc2 by exact Hc'.
    assert (forall nm', firstNamed h2 nm' (children va2)
                        = match firstNamed h nm' (children va) with
                          | Some k0 => Some k0
                          | None => if String.eqb nm nm' then Some (nextAddr h1) else None
                          end) as Hnames.
    { intros nm'. pose proof (findChild_firstNamed h2 a va2 nm' Ha' Hc2) as E'.
      rewrite (Hlook nm'), Hsame in E'. injection E' as E'. symmetry. exact E'. }
    exists (nextAddr h1), h2, va2, (mkLink nm c true).
    split.
    { unfold findChildOrCreate, bind. rewrite Hfind. unfold alloc at 1. exact E. }
    split; [exact Hwf'|]. split; [exact Ha'|]. split; [exact Hc2|].
    split; [rewrite Hnames, Ef, String.eqb_refl; reflexivity|].
    split; [unfold h2, withChild; cbn [links]; apply lookup_insert_eq|].
    split; [discriminate|].
    split.
    { intros _. split; [|reflexivity].
      apply Hwf. unfold h1. cbn [alloc snd nextAddr]. lia. }
    split.
    { intros nm' Hne. rewrite Hnames. apply not_eq_sym, String.eqb_neq in Hne.
      rewrite Hne. destruct (firstNamed h nm' (children va)); reflexivity. }
    intros p w Hp Hw. unfold h2. rewrite withChild_vars by exact Hp.
    pose proof (allocated_var _ _ _ Hwf Hw).
    unfold h1. cbn [alloc snd vars]. rewrite lookup_insert_ne by lia. exact Hw.
Qed.

(** The heap after the variable [v] has been made and the link [k]
    redirected to it. *)
Lemma declared_lookup (h : Heap) (r k : positive) (vr v : Value) (lkk : VariableLink)
      (nm : string) :
  heap_wf h -> vars h !! r = Some vr -> valid_chain h (children vr) ->
  firstNamed h nm (children vr) = Some k -> links h !! k = Some lkk ->
  let h4 := mkHeap (<[nextAddr h := v]> (vars h))
                   (<[k := mkLink (name lkk) (nextAddr h) (owned lkk)]>
                      (<[Pos.succ (nextAddr h) := mkLink TINYJS_TEMP_NAME (nextAddr h) false]>
                         (links h)))
                   (Pos.succ (Pos.succ (nextAddr h))) in
  vars h4 !! r = Some vr /\ valid_chain h4 (children vr) /\
  firstNamed h4 nm (children vr) = Some k /\
  links h4 !! k = Some (mkLink (name lkk) (nextAddr h) (owned lkk)) /\
  vars h4 !! nextAddr h = Some v /\
  (forall nm', firstNamed h4 nm' (children vr) = firstNamed h nm' (children vr)) /\
  (forall p w, vars h !! p = Some w -> vars h4 !! p = Some w).
Proof.
  intros Hwf Hr Hc Hk Hlk h4.
  assert (forall p w, vars h !! p = Some w -> vars h4 !! p = Some w) as Hold.
  { intros p w Hp. pose proof (allocated_var _ _ _ Hwf Hp). unfold h4.
    cbn [vars]. rewrite lookup_insert_ne by lia. exact Hp. }
  assert (Forall (fun x => option_map name (links h4 !! x) = option_map name (links h !! x))
                 (children vr)) as Hnames.
  { pose proof (valid_chain_allocated h _ Hwf Hc) as Hall.
    rewrite List.Forall_forall in *. intros x Hx. specialize (Hall x Hx).
    unfold h4. cbn [links].
    destruct (decide (k = x)) as [<-|Hne].
    - rewrite lookup_insert_eq, Hlk. reflexivity.
    - rewrite lookup_insert_ne by assumption. rewrite lookup_insert_ne by lia. reflexivity. }
  split; [apply Hold, Hr|]. split; [|split; [|split; [|split; [|split]]]].
  - unfold valid_chain in *. rewrite List.Forall_forall in *. intros x Hx.
    specialize (Hc x Hx). specialize (Hnames x Hx). destruct Hc as [lx Hlx].
    rewrite Hlx in Hnames. destruct (links h4 !! x); [eauto|discriminate].
  - rewrite (firstNamed_agree h h4 nm _ Hnames). exact Hk.
  - unfold h4. cbn [links]. apply lookup_insert_eq.
  - unfold h4. cbn [vars]. apply lookup_insert_eq.
  - intros nm'. apply (firstNamed_agree h h4 nm' _ Hnames).
  - exact Hold.
Qed.

Section DeclareGlobal.

Variable native :
  (string -> M unit) -> (string -> M VariableLink) -> N -> positive -> N -> M unit.

(** [execute] of a script that is the declaration of one name with an
    integer literal: the interpreter is left as it was but for the heap. *)
Lemma execute_declaration (n : nat) (code : string) (st : Interp) (k : positive) (h1 : Heap)
      (lkk : VariableLink) :
  tk (Lexer_new code) = LEXER_RESERVED_VAR ->
  tk (getNextToken (Lexer_new code)) = LEXER_ID ->
  tk (getNextToken (getNextToken (Lexer_new code))) = tok "=" ->
  tk (getNextToken (getNextToken (getNextToken (Lexer_new code)))) = LEXER_INT ->
  tk (getNextToken (getNextToken (getNextToken (getNextToken (Lexer_new code))))) = tok ";" ->
  currCh (getNextToken (getNextToken (getNextToken (getNextToken (Lexer_new code))))) = NUL ->
  findChildOrCreate (root st) (tkStr (getNextToken (Lexer_new code))) VARIABLE_UNDEFINED (heap st)
    = (Ok k, h1) ->
  links h1 !! k = Some lkk -> k <> Pos.succ (nextAddr h1) ->
  execute_ native (S (S (S (S (8 + S n))))) code st
    = (Ok tt,
       set_heap
         (mkHeap (<[nextAddr h1
                    := Variable_data
                         (tkStr (getNextToken (getNextToken (getNextToken (Lexer_new code)))))
                         VARIABLE_INTEGER]> (vars h1))
                 (<[k := mkLink (name lkk) (nextAddr h1) (owned lkk)]>
                    (<[Pos.succ (nextAddr h1) := mkLink TINYJS_TEMP_NAME (nextAddr h1) false]>
                       (links h1)))
                 (Pos.succ (Pos.succ (nextAddr h1))))
         st).
Proof.
  intros Htk HtkN HtkE HtkI HtkS Hend Hfind Hk Hfresh.
  set (lx := Lexer_new code) in *. set (lxN := getNextToken lx) in *.
  set (lxE := getNextToken lxN) in *. set (lxI := getNextToken lxE) in *.
  set (lxS := getNextToken lxI) in *.
  set (st0 := entered code st).
  set (h4 := mkHeap (<[nextAddr h1 := Variable_data (tkStr lxI) VARIABLE_INTEGER]> (vars h1))
                    (<[k := mkLink (name lkk) (nextAddr h1) (owned lkk)]>
                       (<[Pos.succ (nextAddr h1) := mkLink TINYJS_TEMP_NAME (nextAddr h1) false]>
                          (links h1)))
                    (Pos.succ (Pos.succ (nextAddr h1)))).
  set (st1 := set_l (Some lxN) st0).
  pose proof (statement_var_int native n st1 lxN (root st) k h1 lkk eq_refl HtkN HtkE HtkI HtkS
                eq_refl Hfind Hk Hfresh) as Hvar.
  fold lxE lxI lxS h4 in Hvar.
  set (st2 := set_heap h4 (set_l (Some lxS) st1)) in *.
  set (st3 := set_l (Some (getNextToken lxS)) st2).
  assert (statement native (S (S (8 + S n))) true st0 = (Ok true, st3)) as Hstatement.
  { destruct (statement_var_branch_eq native (S (8 + S n)) true) as (F & -> & HF).
    unfold bind at 1. rewrite (getTk_eq st0 lx eq_refl), Htk, HF.
    unfold bind at 1. rewrite (matchTk_eq st0 lx LEXER_RESERVED_VAR eq_refl Htk). fold lxN st1.
    unfold bind at 1. rewrite Hvar.
    unfold bind at 1. rewrite (matchTk_eq st2 lxS (tok ";") eq_refl HtkS). reflexivity. }
  assert (execute_loop native (S (S (S (8 + S n)))) true st0 = (Ok tt, st3)) as Hloop.
  { rewrite execute_loop_eq. unfold bind at 1. rewrite (getTk_eq st0 lx eq_refl), Htk.
    change (negb (LEXER_RESERVED_VAR =? 0)) with true. cbv iota.
    unfold bind at 1. rewrite Hstatement.
    rewrite execute_loop_eq. unfold bind at 1.
    rewrite (getTk_eq st3 (getNextToken lxS) eq_refl), (getNextToken_at_end lxS Hend).
    reflexivity. }
  rewrite execute_eq.
  unfold bind at 1. unfold bind at 1 2 3 4 5, getL, getScopes, setL, getRoot, setScopes.
  unfold bind at 1, try_catch.
  match goal with
  | |- context [execute_loop native ?f true ?s0] => change s0 with st0
  end.
  rewrite Hloop. reflexivity.
Qed.


End DeclareGlobal.

